(** * mongo-dynamic-indexer: the index-recommendation engine

    A shallow embedding of the pure parts of [lib/query_profile.js],
    [lib/query_set.js], [lib/mongo_index.js], [lib/index_set.js] and
    [lib/collection_statistics.js], followed by the properties of the
    specification that were checked against it.

    Conventions.
    - A JavaScript object used as an ordered dictionary is an association
      list kept in property-enumeration order ([Js.obj]); [Js.obj_set] is
      the assignment [o[k] = v], including the rule that array indices are
      enumerated first, in ascending order.
    - A JavaScript array is a [list].
    - Code that can throw a [TypeError] (reading a property of [undefined])
      returns [Js.result].
    - Object identity, where the code relies on it ([===] on objects,
      [_.uniq] on objects), is an explicit address ([oid], [statRef]). *)

From Stdlib Require Import List String Ascii Bool Arith ZArith QArith Lia.
From Stdlib Require Import Sorted.
From Stdlib Require Import DecimalString.
From Stdlib Require DecimalZ DecimalFacts.
Import ListNotations.

Set Warnings "-register-all".

Local Open Scope string_scope.
Local Open Scope list_scope.

(* ================================================================== *)
(** * Part I: the embedding *)
(* ================================================================== *)

(** ** JavaScript values and objects *)

Module Js.

(** The outcome of code that may read a property of [undefined]. *)
Inductive result (A : Type) : Type :=
| Ok (a : A)
| TypeError.
Arguments Ok {A} a.
Arguments TypeError {A}.

Definition bind {A B} (r : result A) (f : A -> result B) : result B :=
  match r with
  | Ok a => f a
  | TypeError => TypeError
  end.

Fixpoint mapM {A B} (f : A -> result B) (l : list A) : result (list B) :=
  match l with
  | [] => Ok []
  | x :: r =>
      bind (f x) (fun y => bind (mapM f r) (fun ys => Ok (y :: ys)))
  end.

(** [_.filter] with a predicate that may throw. *)
Fixpoint filterM {A} (f : A -> result bool) (l : list A) : result (list A) :=
  match l with
  | [] => Ok []
  | x :: r =>
      bind (f x) (fun b =>
      bind (filterM f r) (fun ys => Ok (if b then x :: ys else ys)))
  end.

(** An object: its own enumerable string-keyed properties, in the order
    [Object.keys] lists them. *)
Definition obj (V : Type) : Type := list (string * V).

Definition obj_keys {V} (o : obj V) : list string := map fst o.

Fixpoint obj_get {V} (k : string) (o : obj V) : option V :=
  match o with
  | [] => None
  | (k', v) :: r => if String.eqb k' k then Some v else obj_get k r
  end.

Definition obj_has {V} (k : string) (o : obj V) : bool :=
  match obj_get k o with Some _ => true | None => false end.

(** [delete o[k]] *)
Definition obj_delete {V} (k : string) (o : obj V) : obj V :=
  filter (fun kv => negb (String.eqb (fst kv) k)) o.

Definition digit_of (c : ascii) : option N :=
  let n := N_of_ascii c in
  if ((48 <=? n) && (n <=? 57))%N then Some (n - 48)%N else None.

Fixpoint digits_value (acc : N) (s : string) : option N :=
  match s with
  | EmptyString => Some acc
  | String c r =>
      match digit_of c with
      | Some d => digits_value (10 * acc + d)%N r
      | None => None
      end
  end.

(** A property name is an array index when it is the canonical decimal
    form of an integer below 2^32 - 1; such names are enumerated before
    all others, in ascending numeric order. *)
Definition array_index (s : string) : option N :=
  match s with
  | EmptyString => None
  | String c r =>
      if Ascii.eqb c "0"%char
      then match r with EmptyString => Some 0%N | _ => None end
      else match digits_value 0%N s with
           | Some n => if (n <? 4294967295)%N then Some n else None
           | None => None
           end
  end.

Fixpoint obj_update {V} (k : string) (v : V) (o : obj V) : obj V :=
  match o with
  | [] => []
  | (k', v') :: r =>
      if String.eqb k' k then (k', v) :: r else (k', v') :: obj_update k v r
  end.

Fixpoint obj_insert_index {V} (n : N) (k : string) (v : V) (o : obj V)
  : obj V :=
  match o with
  | [] => [(k, v)]
  | (k', v') :: r =>
      match array_index k' with
      | Some m =>
          if (m <? n)%N then (k', v') :: obj_insert_index n k v r
          else (k, v) :: o
      | None => (k, v) :: o
      end
  end.

(** [o[k] = v]: an existing property keeps its place; a new array index
    goes among the array indices; any other new name goes last. *)
Definition obj_set {V} (k : string) (v : V) (o : obj V) : obj V :=
  if obj_has k o then obj_update k v o
  else match array_index k with
       | Some n => obj_insert_index n k v o
       | None => o ++ [(k, v)]
       end.

(** [String(n)] for an integral number. *)
Definition string_of_Z (z : Z) : string :=
  NilZero.string_of_int (Z.to_int z).

(** [s.indexOf(p) == 0] *)
Definition starts_with (p s : string) : bool := String.prefix p s.

(** [s.replace(pat, rep)] with a string pattern: only the first
    occurrence is replaced ([rep] contains no [$]). *)
Fixpoint replace_first (pat rep s : string) : string :=
  if String.prefix pat s
  then rep ++ substring (String.length pat) (String.length s - String.length pat) s
  else match s with
       | EmptyString => EmptyString
       | String c r => String c (replace_first pat rep r)
       end.

(** [s.replace(/c/g, rep)] for a single character [c]. *)
Fixpoint replace_all_char (c : ascii) (rep s : string) : string :=
  match s with
  | EmptyString => EmptyString
  | String d r =>
      if Ascii.eqb d c then rep ++ replace_all_char c rep r
      else String d (replace_all_char c rep r)
  end.

(** The names of the properties every plain object inherits from
    [Object.prototype]: [o[k]] finds a value under them also when [o] has
    no property [k] of its own. *)
Definition inherited (k : string) : bool :=
  existsb (String.eqb k)
    ["constructor"; "toString"; "toLocaleString"; "valueOf"; "hasOwnProperty";
     "isPrototypeOf"; "propertyIsEnumerable"; "__proto__"; "__defineGetter__";
     "__defineSetter__"; "__lookupGetter__"; "__lookupSetter__"].

(** What [o[k]] finds on a plain object. *)
Inductive found (V : Type) : Type :=
| Own (v : V)
| Inherited
| Missing.
Arguments Own {V} v.
Arguments Inherited {V}.
Arguments Missing {V}.

Definition obj_lookup {V} (k : string) (o : obj V) : found V :=
  match obj_get k o with
  | Some v => Own v
  | None => if inherited k then Inherited else Missing
  end.

End Js.

Notation "x <- e ;; k" := (Js.bind e (fun x => k))
  (at level 61, e at next level, right associativity).

(** ** The functions of underscore.js the code relies on *)

Module Underscore.

Section Lists.
Context {A : Type}.
Variable eqb : A -> A -> bool.

Definition contains (l : list A) (x : A) : bool := existsb (eqb x) l.

(** [_.uniq(array)]: of equal items the first one stays. *)
Definition uniq (l : list A) : list A :=
  fold_left (fun result x => if contains result x then result else result ++ [x])
            l [].

(** [_.difference(a, b)] *)
Definition difference (a b : list A) : list A :=
  filter (fun x => negb (contains b x)) a.

(** [_.intersection(a, b)] *)
Definition intersection (a b : list A) : list A :=
  fold_left (fun result x =>
               if contains result x then result
               else if contains b x then result ++ [x] else result)
            a [].

End Lists.

(** [_.uniq(array, false, iteratee)]: items are compared through
    [iteratee]; [seen] holds the computed values already met. *)
Definition uniqBy {A K} (keqb : K -> K -> bool) (iteratee : A -> K)
  (l : list A) : list A :=
  snd (fold_left
         (fun (acc : list K * list A) x =>
            let computed := iteratee x in
            if existsb (keqb computed) (fst acc) then acc
            else (fst acc ++ [computed], snd acc ++ [x]))
         l ([], [])).

Section Sorting.
Context {A K : Type}.
Variable leb : K -> K -> bool.
Variable criteria : A -> K.

Fixpoint sort_insert (x : A) (l : list A) : list A :=
  match l with
  | [] => [x]
  | y :: r =>
      if leb (criteria x) (criteria y) then x :: y :: r
      else y :: sort_insert x r
  end.

(** [_.sortBy(list, criteria)]: ascending by [criteria]; items with equal
    criteria are ordered by their position in [list]. *)
Fixpoint sortBy (l : list A) : list A :=
  match l with
  | [] => []
  | x :: r => sort_insert x (sortBy r)
  end.

End Sorting.

(** [_.max(list, iteratee)] on a list decorated with the computed values:
    the first item whose value is strictly greater than all before it
    wins; [None] stands for the [-Infinity] returned on an empty list. *)
Definition max {A} (iteratee : A -> Q) (l : list A) : option A :=
  fold_left
    (fun result x =>
       match result with
       | None => Some x
       | Some y =>
           if negb (Qle_bool (iteratee x) (iteratee y)) then Some x
           else result
       end)
    l None.

(** [_.groupBy(list, iteratee)] *)
Definition groupBy {A} (iteratee : A -> string) (l : list A)
  : Js.obj (list A) :=
  fold_left
    (fun result x =>
       let key := iteratee x in
       match Js.obj_get key result with
       | Some group => Js.obj_update key (group ++ [x]) result
       | None => Js.obj_set key [x] result
       end)
    l [].

(** [_.object(pairs)] *)
Definition object {V} (pairs : list (string * V)) : Js.obj V :=
  fold_left (fun result kv => Js.obj_set (fst kv) (snd kv) result) pairs [].

End Underscore.

(** ** Statistics of a collection ([lib/collection_statistics.js]) *)

Inductive Mode : Type := normal | hash.

Definition Mode_eqb (a b : Mode) : bool :=
  match a, b with
  | normal, normal | hash, hash => true
  | _, _ => false
  end.

Record FieldStatistics : Type := {
  cardinality : Z;
  longest : Z;
  mode : Mode;
  arrayPrefixes : list string
}.

Module CollectionStatistics.

Definition mongoFieldNamePartSeparator : string := "_____".

(** The in-memory object.  [lastSampleTime] is the instant in
    milliseconds; its ISO-8601 rendering in the JSON form denotes the same
    instant. *)
Record t : Type := {
  fieldStatistics : Js.obj FieldStatistics;
  knownArrayPrefixes : list string;
  lastSampleTime : Z
}.

(** The serialized form has the same three properties. *)
Definition json : Type := t.

(** [constructor(data)] *)
Definition constructor (data : json) : t :=
  {| fieldStatistics :=
       fold_left
         (fun acc fieldName =>
            match Js.obj_get fieldName (fieldStatistics data) with
            | Some v =>
                Js.obj_set
                  (Js.replace_first mongoFieldNamePartSeparator "." fieldName)
                  v acc
            | None => acc
            end)
         (Js.obj_keys (fieldStatistics data)) [];
     knownArrayPrefixes := knownArrayPrefixes data;
     lastSampleTime := lastSampleTime data |}.

(** [toJSON()] *)
Definition toJSON (self : t) : json :=
  {| fieldStatistics :=
       fold_left
         (fun acc fieldName =>
            match Js.obj_get fieldName (fieldStatistics self) with
            | Some v =>
                Js.obj_set
                  (Js.replace_all_char "."%char mongoFieldNamePartSeparator
                                       fieldName)
                  v acc
            | None => acc
            end)
         (Js.obj_keys (fieldStatistics self)) [];
     knownArrayPrefixes := knownArrayPrefixes self;
     lastSampleTime := lastSampleTime self |}.

End CollectionStatistics.

(** ** Query values ([JsValue]) and options *)

(** The values a query document is made of.  Dates, object identifiers
    and database references are the three classes [analyzeQuery] treats as
    leaves although they are objects. *)
Inductive JsValue : Type :=
| JUndefined
| JNull
| JBool (b : bool)
| JNum (z : Z)
| JStr (s : string)
| JDate (millis : Z)
| JObjectID (hex : string)
| JDBRef (ns : string) (id : string)
| JObject (props : list (string * JsValue))
| JArray (items : list JsValue).

(** JavaScript truthiness. *)
Definition truthy (v : JsValue) : bool :=
  match v with
  | JUndefined | JNull => false
  | JBool b => b
  | JNum z => negb (z =? 0)%Z
  | JStr s => negb (String.eqb s "")
  | _ => true
  end.

(** [a === b] on values decoded from different documents: primitives
    compare by value, two objects are never the same object. *)
Definition strict_eq (a b : JsValue) : bool :=
  match a, b with
  | JUndefined, JUndefined => true
  | JNull, JNull => true
  | JBool x, JBool y => Bool.eqb x y
  | JNum x, JNum y => (x =? y)%Z
  | JStr x, JStr y => String.eqb x y
  | _, _ => false
  end.

(** The global options object (the entries the engine reads). *)
Record Options : Type := {
  minimumCardinality : Z;
  minimumReduction : Q;
  minimumQueryCount : Z
}.

(** The value of a field in an index definition: a direction or
    ['hashed']. *)
Inductive IndexValue : Type :=
| Num (z : Z)
| Hashed.

(** The JSON form of an index, as passed to [new MongoIndex(index, ...)]. *)
Definition IndexDefinition : Type := Js.obj IndexValue.

(** ** Query profiles ([lib/query_profile.js]) *)

Module QueryProfile.

Record Source : Type := {
  source : JsValue;
  version : JsValue
}.

Record t : Type := {
  namespace : string;
  exact : list string;
  sort : Js.obj Z;
  range : list string;
  lastQueryTime : Z;
  usageCount : Z;
  sources : list Source
}.

Definition set_exact_range (self : t) (e r : list string) : t :=
  {| namespace := namespace self; exact := e; sort := sort self; range := r;
     lastQueryTime := lastQueryTime self; usageCount := usageCount self;
     sources := sources self |}.

(** [get collectionName()] *)
Definition collectionName (self : t) : string :=
  let ns := namespace self in
  match String.index 0 "." ns with
  | Some i => substring (S i) (String.length ns - S i) ns
  | None => ns
  end.

(** [get fields()] *)
Definition fields (self : t) : list string :=
  Underscore.uniq String.eqb
    (exact self ++ (Js.obj_keys (sort self) ++ range self)).

(** [get naiveIndex()] *)
Definition naiveIndex (self : t) : IndexDefinition :=
  let index :=
    fold_left (fun index field => Js.obj_set field (Num 1) index)
              (exact self) [] in
  let index :=
    fold_left (fun index kv => Js.obj_set (fst kv) (Num (snd kv)) index)
              (sort self) index in
  fold_left (fun index field => Js.obj_set field (Num 1) index)
            (range self) index.

(** The statistics object [self[_keyStatistics]]. *)
Definition KeyStatistics : Type := Js.obj FieldStatistics.

(** [getCardinalitiesForIndexOptimization]: the body of the callback, for
    the statistics the sampler hands over.  The test
    [!collectionStatistics.fieldStatistics[key]] is modelled for keys
    that are no names of [Object.prototype] ([Js.inherited]): under such
    a name a field without statistics of its own gets an inherited
    function where this definition gives the default statistics. *)
Definition getCardinalitiesForIndexOptimization (options : Options)
  (collectionStatistics : CollectionStatistics.t) (self : t)
  : KeyStatistics :=
  fold_left
    (fun keyStatistics key =>
       match Js.obj_get key
               (CollectionStatistics.fieldStatistics collectionStatistics) with
       | None =>
           Js.obj_set key
             {| mode := normal;
                cardinality := minimumCardinality options;
                longest := 1;
                arrayPrefixes :=
                  filter (fun prefix => Js.starts_with prefix key)
                    (CollectionStatistics.knownArrayPrefixes
                       collectionStatistics) |}
             keyStatistics
       | Some s => Js.obj_set key s keyStatistics
       end)
    (exact self ++ range self ++ Js.obj_keys (sort self)) [].

(** [self[_keyStatistics][key]], about to be dereferenced. *)
Definition stat (ks : KeyStatistics) (key : string)
  : Js.result FieldStatistics :=
  match Js.obj_get key ks with
  | Some s => Js.Ok s
  | None => Js.TypeError
  end.

(** [_.sortBy(list, key => f(self[_keyStatistics][key]))] *)
Definition sortByStat (ks : KeyStatistics) (f : FieldStatistics -> Z)
  (l : list string) : Js.result (list string) :=
  decorated <- Js.mapM (fun key => s <- stat ks key ;; Js.Ok (key, f s)) l ;;
  Js.Ok (map fst (Underscore.sortBy Z.leb snd decorated)).

(** The predicate of the three filters in the loop over array prefixes. *)
Definition outsideArrayPrefix (ks : KeyStatistics) (arrayPrefix : string)
  (field : string) : Js.result bool :=
  s <- stat ks field ;;
  Js.Ok ((List.length (arrayPrefixes s) =? 0)%nat
         || negb (Underscore.contains String.eqb (arrayPrefixes s) arrayPrefix)).

(** An array seen as an object: its indices are its property names. *)
Definition array_entries {V} (l : list V) : Js.obj V :=
  combine (map (fun i => Js.string_of_Z (Z.of_nat i)) (seq 0 (List.length l))) l.

(** The body of the loop once the three reduced lists are known. *)
Definition buildIndex (reducedExactFields : list string)
  (reducedSortFields : Js.obj Z) (reducedRangeFields : list string)
  : IndexDefinition :=
  let index :=
    fold_left (fun index field => Js.obj_set field (Num 1) index)
              reducedExactFields [] in
  let negateSorting :=
    match reducedSortFields with
    | (_, direction) :: _ => direction
    | [] => 1%Z
    end in
  let index :=
    fold_left
      (fun index kv => Js.obj_set (fst kv) (Num (snd kv * negateSorting)) index)
      reducedSortFields index in
  fold_left (fun index field => Js.obj_set field (Num 1) index)
            reducedRangeFields index.

(** One round of [arrayPrefixes.forEach]; [None] is the [null] entry.
    [_.filter] applied to the sort object walks its values and yields an
    array of directions, each of which is then used as a key of the
    statistics. *)
Definition indexForArrayPrefix (ks : KeyStatistics) (exact : list string)
  (sort : Js.obj Z) (range : list string) (arrayPrefix : option string)
  : Js.result IndexDefinition :=
  match arrayPrefix with
  | Some p =>
      if String.eqb p "" then Js.Ok (buildIndex exact sort range)
      else
        reducedExactFields <- Js.filterM (outsideArrayPrefix ks p) exact ;;
        reducedSortFields <-
          Js.filterM (fun direction =>
                        outsideArrayPrefix ks p (Js.string_of_Z direction))
                     (map snd sort) ;;
        reducedRangeFields <- Js.filterM (outsideArrayPrefix ks p) range ;;
        Js.Ok (buildIndex reducedExactFields (array_entries reducedSortFields)
                          reducedRangeFields)
  | None => Js.Ok (buildIndex exact sort range)
  end.

(** The array prefixes of the fields that are left, [null] alone when
    there are fewer than two. *)
Definition arrayPrefixesOf (ks : KeyStatistics) (exact : list string)
  (sort : Js.obj Z) (range : list string) : Js.result (list (option string)) :=
  prefixLists <-
    Js.mapM (fun fieldName => s <- stat ks fieldName ;; Js.Ok (arrayPrefixes s))
            (exact ++ (range ++ Js.obj_keys sort)) ;;
  let arrayPrefixes := Underscore.uniq String.eqb (List.concat prefixLists) in
  Js.Ok (if (List.length arrayPrefixes <? 2)%nat then [None]
         else map Some arrayPrefixes).

(** [get optimizedIndexes()], first evaluation.  The getter reorders
    [self.exact] and [self.range]; the result is the updated profile and
    the index definitions, each of which the code wraps with
    [new MongoIndex(index, self.collectionName, null)]. *)
Definition optimizedIndexes (options : Options) (ks : KeyStatistics)
  (self : t) : Js.result (t * list IndexDefinition) :=
  sortedExact <- sortByStat ks (fun s => - cardinality s)%Z (exact self) ;;
  sortedRange <- sortByStat ks cardinality (range self) ;;
  let self := set_exact_range self sortedExact sortedRange in
  let atLeastMinimum field :=
    s <- stat ks field ;;
    Js.Ok (minimumCardinality options <=? cardinality s)%Z in
  exact0 <- Js.filterM atLeastMinimum (exact self) ;;
  range0 <- Js.filterM atLeastMinimum (range self) ;;
  let reverted :=
    (List.length exact0 + List.length (Js.obj_keys (sort self))
     + List.length range0 =? 0)%nat in
  let exact1 := if reverted then exact self else exact0 in
  let range1 := if reverted then range self else range0 in
  unIndexableFields <-
    Js.filterM (fun field =>
                  s <- stat ks field ;;
                  Js.Ok (negb (Mode_eqb (mode s) normal)))
               (fields self) ;;
  let indexable field :=
    negb (Underscore.contains String.eqb unIndexableFields field) in
  let exact2 := filter indexable exact1 in
  let sort2 :=
    Underscore.object (filter (fun kv => indexable (fst kv)) (sort self)) in
  let range2 := filter indexable range1 in
  arrayPrefixes <- arrayPrefixesOf ks exact2 sort2 range2 ;;
  indexes <- Js.mapM (indexForArrayPrefix ks exact2 sort2 range2)
                     arrayPrefixes ;;
  Js.Ok (self,
         filter (fun index => (0 <? List.length (Js.obj_keys index))%nat) indexes
         ++ map (fun field => [(field, Hashed)]) unIndexableFields).

(** The call sequence of [computeOptimalIndexSet] for one profile:
    statistics first, then the optimized indexes. *)
Definition optimize (options : Options)
  (collectionStatistics : CollectionStatistics.t) (self : t)
  : Js.result (t * list IndexDefinition) :=
  optimizedIndexes options
    (getCardinalitiesForIndexOptimization options collectionStatistics self)
    self.

(** [incrementUsageCount()] *)
Definition incrementUsageCount (self : t) : t :=
  {| namespace := namespace self; exact := exact self; sort := sort self;
     range := range self; lastQueryTime := lastQueryTime self;
     usageCount := (usageCount self + 1)%Z; sources := sources self |}.

Definition set_lastQueryTime (self : t) (time : Z) : t :=
  {| namespace := namespace self; exact := exact self; sort := sort self;
     range := range self; lastQueryTime := time;
     usageCount := usageCount self; sources := sources self |}.

Definition set_sources (self : t) (l : list Source) : t :=
  {| namespace := namespace self; exact := exact self; sort := sort self;
     range := range self; lastQueryTime := lastQueryTime self;
     usageCount := usageCount self; sources := l |}.

(** [existingSource.version = version] on the entry that
    [_.findWhere(self.sources, {source: source})] returns, if any. *)
Fixpoint updateSource (src ver : JsValue) (l : list Source)
  : option (list Source) :=
  match l with
  | [] => None
  | e :: r =>
      if strict_eq (source e) src
      then Some ({| source := source e; version := ver |} :: r)
      else match updateSource src ver r with
           | Some r' => Some (e :: r')
           | None => None
           end
  end.

(** [addSource(source, version)] *)
Definition addSource (self : t) (src ver : JsValue) : t :=
  let ver := if truthy ver then ver else JStr "" in
  match updateSource src ver (sources self) with
  | Some l => set_sources self l
  | None => set_sources self (sources self ++ [{| source := src; version := ver |}])
  end.

(** [self.sort[sortKey] === otherQueryProfile.sort[sortKey]] *)
Definition sameDirection (a b : option Z) : bool :=
  match a, b with
  | Some x, Some y => (x =? y)%Z
  | None, None => true
  | _, _ => false
  end.

(** [isEquivalentToQueryProfile(otherQueryProfile)] *)
Definition isEquivalentToQueryProfile (self otherQueryProfile : t) : bool :=
  let keys := Js.obj_keys (sort self) in
  let otherKeys := Js.obj_keys (sort otherQueryProfile) in
  if negb (String.eqb (namespace self) (namespace otherQueryProfile))
  then false
  else if negb (List.length (exact self)
                =? List.length (exact otherQueryProfile))%nat
  then false
  else if (0 <? List.length (Underscore.difference String.eqb (exact self)
                               (exact otherQueryProfile)))%nat
  then false
  else if negb (List.length keys =? List.length otherKeys)%nat
  then false
  else if (0 <? List.length (Underscore.difference String.eqb keys otherKeys))%nat
  then false
  else if negb (forallb
                  (fun sortKey =>
                     sameDirection (Js.obj_get sortKey (sort self))
                                   (Js.obj_get sortKey (sort otherQueryProfile)))
                  keys)
  then false
  else if negb (List.length (range self)
                =? List.length (range otherQueryProfile))%nat
  then false
  else if (0 <? List.length (Underscore.difference String.eqb (range self)
                               (range otherQueryProfile)))%nat
  then false
  else true.

(** *** [createQueryProfilesFromMongoQuery] *)

(** A sub-query of [analyzeQuery]: its [exact] and [range] arrays (its
    [sort] is always empty). *)
Definition SubQuery : Type := (list string * list string)%type.

Definition Analysis : Type := (list SubQuery * list JsValue)%type.

Definition mergeQueryProfiles (one two : SubQuery) : SubQuery :=
  (fst one ++ fst two, snd one ++ snd two).

Definition mergeSubQueries (currentSubQueries newSubQueries : list SubQuery)
  : list SubQuery :=
  flat_map (fun subQuery =>
              map (fun newSubQuery => mergeQueryProfiles subQuery newSubQuery)
                  newSubQueries)
           currentSubQueries.

Definition dropLastPeriod (s : string) : string :=
  let n := String.length s in
  if (String.eqb (substring (n - 1) 1 s) ".") then substring 0 (n - 1) s else s.

(** [str.replace(/^\./, "").replace(/\.$/, "")] *)
Definition trimPeriods (str : string) : string :=
  dropLastPeriod
    (match str with
     | String c r => if Ascii.eqb c "."%char then r else str
     | EmptyString => str
     end).

Definition pushExact (field : string) (l : list SubQuery) : list SubQuery :=
  map (fun subQuery => (fst subQuery ++ [field], snd subQuery)) l.

Definition pushRange (field : string) (l : list SubQuery) : list SubQuery :=
  map (fun subQuery => (fst subQuery, snd subQuery ++ [field])) l.

(** [key[0] != '$'] *)
Definition ordinaryKey (key : string) : bool :=
  match key with
  | String c _ => negb (Ascii.eqb c "$"%char)
  | EmptyString => true
  end.

Definition rangeOperators : list string :=
  ["$lt"; "$lte"; "$gt"; "$gte"; "$in"; "$nin"; "$neq"; "$ne"; "$exists";
   "$mod"; "$all"; "$regex"; "$size"].

(** The body of the first loop of [analyzeQuery] for one [key]; [recur]
    is [analyzeQuery] applied to the value of the key. *)
Definition analyzeKey (root key : string) (value : JsValue)
  (recur : string -> list JsValue -> Js.result Analysis) (st : Analysis)
  : Js.result Analysis :=
  if ordinaryKey key then
    match value with
    | JObject _ | JArray _ =>
        r <- recur (root ++ key)%string (snd st) ;;
        Js.Ok (mergeSubQueries (fst st) (fst r), snd r)
    | _ => Js.Ok (pushExact (trimPeriods (root ++ key)) (fst st), snd st)
    end
  else if existsb (String.eqb key) rangeOperators
  then Js.Ok (pushRange (trimPeriods root) (fst st), snd st)
  else if String.eqb key "$eq"
  then Js.Ok (pushExact (trimPeriods root) (fst st), snd st)
  else if String.eqb key "$not"
  then r <- recur root (snd st) ;;
       Js.Ok (mergeSubQueries (fst st) (fst r), snd r)
  else if String.eqb key "$elemMatch"
  then r <- recur (root ++ ".")%string (snd st) ;;
       Js.Ok (mergeSubQueries (fst st) (fst r), snd r)
  else if String.eqb key "$comment"
  then Js.Ok (fst st, snd st ++ [value])
  else Js.Ok st.

(** [analyzeQuery(query, root)]; the comments met so far are threaded
    through ([allComments] in the source).  [Object.keys] of an array or
    of a string lists its indices; of [null] or [undefined] it throws. *)
Fixpoint analyzeQuery (query : JsValue) (root : string)
  (comments : list JsValue) {struct query} : Js.result Analysis :=
  let start : Analysis := ([([], [])], comments) in
  match query with
  | JObject props =>
      let fix keysLoop (ps : list (string * JsValue)) (st : Analysis)
        : Js.result Analysis :=
        match ps with
        | [] => Js.Ok st
        | (key, value) :: rest =>
            st' <- analyzeKey root key value (analyzeQuery value) st ;;
            keysLoop rest st'
        end in
      let fix andLoop (ps : list (string * JsValue)) (st : Analysis)
        : Js.result Analysis :=
        match ps with
        | [] => Js.Ok st
        | (key, value) :: rest =>
            if String.eqb key "$and" then
              match value with
              | JArray items =>
                  (fix each (items : list JsValue) (st : Analysis)
                     : Js.result Analysis :=
                     match items with
                     | [] => Js.Ok st
                     | andSubQuery :: more =>
                         r <- analyzeQuery andSubQuery root (snd st) ;;
                         each more (mergeSubQueries (fst st) (fst r), snd r)
                     end) items st
              | other => if truthy other then Js.TypeError else Js.Ok st
              end
            else andLoop rest st
        end in
      let fix orLoop (ps : list (string * JsValue)) (st : Analysis)
        : Js.result Analysis :=
        match ps with
        | [] => Js.Ok st
        | (key, value) :: rest =>
            if String.eqb key "$or" then
              match value with
              | JArray items =>
                  r <- (fix each (items : list JsValue)
                          (acc : list SubQuery) (cs : list JsValue)
                          : Js.result Analysis :=
                          match items with
                          | [] => Js.Ok (acc, cs)
                          | subQuery :: more =>
                              r <- analyzeQuery subQuery root cs ;;
                              each more (acc ++ fst r) (snd r)
                          end) items [] (snd st) ;;
                  Js.Ok (mergeSubQueries (fst st) (fst r), snd r)
              | other => if truthy other then Js.TypeError else Js.Ok st
              end
            else orLoop rest st
        end in
      st1 <- keysLoop props start ;;
      st2 <- andLoop props st1 ;;
      orLoop props st2
  | JArray items =>
      (fix itemsLoop (items : list JsValue) (i : nat) (st : Analysis)
         : Js.result Analysis :=
         match items with
         | [] => Js.Ok st
         | value :: rest =>
             st' <- analyzeKey root (Js.string_of_Z (Z.of_nat i)) value
                               (analyzeQuery value) st ;;
             itemsLoop rest (S i) st'
         end) items O start
  | JStr s =>
      Js.Ok (fold_left
               (fun l i =>
                  pushExact (trimPeriods (root ++ Js.string_of_Z (Z.of_nat i))) l)
               (seq 0 (String.length s)) (fst start),
             comments)
  | JNull | JUndefined => Js.TypeError
  | _ => Js.Ok start
  end.

(** The source and version named by the comments; the last one wins. *)
Definition sourceOf (allComments : list JsValue) : Source :=
  fold_left
    (fun sv comment =>
       match comment with
       | JObject props =>
           let src := match Js.obj_get "source" props with
                      | Some v => if truthy v then v else source sv
                      | None => source sv
                      end in
           let ver := match Js.obj_get "version" props with
                      | Some v => if truthy v then v else version sv
                      | None => version sv
                      end in
           {| source := src; version := ver |}
       | _ => sv
       end)
    allComments {| source := JStr "anonymous"; version := JStr "" |}.

(** [createQueryProfilesFromMongoQuery(namespace, query, sort, options)]
    at time [now]. *)
Definition createQueryProfilesFromMongoQuery (now : Z) (namespace : string)
  (query : JsValue) (sort : Js.obj Z) : Js.result (list t) :=
  r <- analyzeQuery query "" [] ;;
  let src := sourceOf (snd r) in
  Js.Ok (map (fun queryProfile : SubQuery =>
                {| namespace := namespace;
                   exact := Underscore.uniq String.eqb (fst queryProfile);
                   sort := sort;
                   range := Underscore.uniq String.eqb (snd queryProfile);
                   lastQueryTime := now;
                   usageCount := 0;
                   sources := [src] |})
             (fst r)).

(** [get databaseName()]: [substr(0, indexOf("."))], which is empty when
    the namespace has no period. *)
Definition databaseName (self : t) : string :=
  let ns := namespace self in
  match String.index 0 "." ns with
  | Some i => substring 0 i ns
  | None => ""
  end.

End QueryProfile.

(** ** Indexes ([lib/mongo_index.js]) *)

Module MongoIndex.

(** [this[_indexName]]: the name handed to the constructor, or
    ["auto_" + sha256(JSON.stringify(this))].  The digest is not computed:
    [Generated c] stands for the generated name of canonical string [c]. *)
Inductive IndexName : Type :=
| Generated (canonical : string)
| Given (name : string).

(** [name.indexOf('auto_') == 0] *)
Definition startsWithAuto (n : IndexName) : bool :=
  match n with
  | Generated _ => true
  | Given name => Js.starts_with "auto_" name
  end.

(** One record of [index.getIndexStatistics()]. *)
Record IndexFieldStatistics : Type := {
  reduction : Q;
  currentAverageDistinct : Q;
  lastAverageDistinct : Q
}.

(** The records are objects: the statistics of an index map a field to the
    address of its record, and [StatHeap] gives the record at an address. *)
Definition StatHeap : Type := nat -> IndexFieldStatistics.
Definition IndexStatistics : Type := Js.obj nat.

(** A [MongoIndex] object.  [definition] holds the enumerable properties
    (field, direction); the other components are the symbol-keyed slots.
    [oid] is the identity of the object; [knownQueryProfiles] lists
    positions in the array of query profiles being processed. *)
Record t : Type := {
  oid : nat;
  definition : IndexDefinition;
  indexName : IndexName;
  collectionName : string;
  indexExists : bool;
  knownQueryProfiles : list nat;
  indexStatistics : option IndexStatistics
}.

Definition dquote : string := String (ascii_of_nat 34) EmptyString.
Definition backslash : string := String (ascii_of_nat 92) EmptyString.

Definition hex_digit (n : N) : ascii :=
  match String.get (N.to_nat n) "0123456789abcdef" with
  | Some c => c
  | None => "0"%char
  end.

(** One character of a JSON string literal, as [JSON.stringify] writes
    it. *)
Definition json_char (c : ascii) : string :=
  let n := N_of_ascii c in
  if (n =? 34)%N then backslash ++ dquote
  else if (n =? 92)%N then backslash ++ backslash
  else if (n =? 8)%N then backslash ++ "b"
  else if (n =? 9)%N then backslash ++ "t"
  else if (n =? 10)%N then backslash ++ "n"
  else if (n =? 12)%N then backslash ++ "f"
  else if (n =? 13)%N then backslash ++ "r"
  else if (n <? 32)%N
       then backslash ++ "u00"
            ++ String (hex_digit (n / 16)) (String (hex_digit (n mod 16)) "")
  else String c "".

Fixpoint json_chars (s : string) : string :=
  match s with
  | EmptyString => EmptyString
  | String c r => json_char c ++ json_chars r
  end.

Definition json_string (s : string) : string := dquote ++ json_chars s ++ dquote.

Definition json_value (v : IndexValue) : string :=
  match v with
  | Num z => Js.string_of_Z z
  | Hashed => json_string "hashed"
  end.

(** [JSON.stringify(index)]: the enumerable properties only. *)
Definition stringify (index : IndexDefinition) : string :=
  "{" ++ String.concat ","
           (map (fun kv =>
                   (json_string (fst kv) ++ ":" ++ json_value (snd kv))%string)
                index)
      ++ "}".

(** [get canonicalString()] *)
Definition canonicalString (self : t) : string := stringify (definition self).

(** [constructor(index, collectionName, name)] for the object at address
    [o]; [name] is [None] for a missing name. *)
Definition constructor (o : nat) (index : IndexDefinition)
  (collectionName : string) (name : option string) : t :=
  let own :=
    fold_left (fun self kv => Js.obj_set (fst kv) (snd kv) self) index [] in
  {| oid := o;
     definition := own;
     indexName :=
       match name with
       | Some n => if String.eqb n "" then Generated (stringify own) else Given n
       | None => Generated (stringify own)
       end;
     collectionName := collectionName;
     indexExists := false;
     knownQueryProfiles := [];
     indexStatistics := None |}.

(** [a != b] on the values of two index fields. *)
Definition value_neq (a b : IndexValue) : bool :=
  match a, b with
  | Num x, Num y => negb (x =? y)%Z
  | Hashed, Hashed => false
  | _, _ => true
  end.

(** The [for] loop shared by [isSameAs] and [isIndexPrefixOf]: it walks
    the keys of [self] and stops at the first position where the names or
    the values differ. *)
Fixpoint agreeOnKeys (self other : IndexDefinition) : bool :=
  match self, other with
  | [], _ => true
  | (k, v) :: r, (k', v') :: r' =>
      if negb (String.eqb k k') then false
      else if value_neq v v' then false
      else agreeOnKeys r r'
  | _ :: _, [] => false
  end.

Definition isSameAs (self otherIndex : t) : bool :=
  let keys := Js.obj_keys (definition self) in
  let otherKeys := Js.obj_keys (definition otherIndex) in
  if negb (List.length keys =? List.length otherKeys)%nat then false
  else agreeOnKeys (definition self) (definition otherIndex).

Definition isIndexPrefixOf (self otherIndex : t) : bool :=
  let keys := Js.obj_keys (definition self) in
  let otherKeys := Js.obj_keys (definition otherIndex) in
  if (List.length otherKeys <=? List.length keys)%nat then false
  else agreeOnKeys (definition self) (definition otherIndex).

Definition setKnownQueryProfiles (self : t) (l : list nat) : t :=
  {| oid := oid self; definition := definition self;
     indexName := indexName self; collectionName := collectionName self;
     indexExists := indexExists self; knownQueryProfiles := l;
     indexStatistics := indexStatistics self |}.

Definition setIndexExists (self : t) (value : bool) : t :=
  {| oid := oid self; definition := definition self;
     indexName := indexName self; collectionName := collectionName self;
     indexExists := value; knownQueryProfiles := knownQueryProfiles self;
     indexStatistics := indexStatistics self |}.

Definition setIndexStatistics (self : t) (statistics : option IndexStatistics)
  : t :=
  {| oid := oid self; definition := definition self;
     indexName := indexName self; collectionName := collectionName self;
     indexExists := indexExists self;
     knownQueryProfiles := knownQueryProfiles self;
     indexStatistics := statistics |}.

(** [removeField(field)] *)
Definition removeField (self : t) (field : string) : t :=
  let own := Js.obj_delete field (definition self) in
  {| oid := oid self; definition := own;
     indexName := Generated (stringify own);
     collectionName := collectionName self;
     indexExists := false; knownQueryProfiles := knownQueryProfiles self;
     indexStatistics := None |}.

(** [addField(field)] *)
Definition addField (self : t) (field : string) : t :=
  let own := Js.obj_set field (Num 1) (definition self) in
  {| oid := oid self; definition := own;
     indexName := Generated (stringify own);
     collectionName := collectionName self;
     indexExists := false; knownQueryProfiles := knownQueryProfiles self;
     indexStatistics := None |}.

(** [get isIDOnly()] *)
Definition isIDOnly (self : t) : bool :=
  let fields := Underscore.uniq String.eqb (Js.obj_keys (definition self)) in
  (List.length fields =? 1)%nat
  && match fields with
     | field :: _ => String.eqb field "_id"
     | [] => false
     end.

(** [get isEmpty()] *)
Definition isEmpty (self : t) : bool :=
  (List.length (Js.obj_keys (definition self)) =? 0)%nat.

End MongoIndex.

(** ** The set of query profiles ([lib/query_set.js]) *)

Module QuerySet.

(** *** [addQueryProfile] *)

(** The [else] branch of [addQueryProfile], applied to the profile that
    [_.find] returns: the first one [queryProfile] is equivalent to. *)
Definition mergeInto (now : Z) (queryProfile existingQueryProfile : QueryProfile.t)
  : QueryProfile.t :=
  fold_left
    (fun existing src =>
       QueryProfile.addSource existing (QueryProfile.source src)
                              (QueryProfile.version src))
    (QueryProfile.sources queryProfile)
    (QueryProfile.incrementUsageCount
       (QueryProfile.set_lastQueryTime existingQueryProfile now)).

Fixpoint updateExisting (now : Z) (queryProfile : QueryProfile.t)
  (queryProfiles : list QueryProfile.t)
  : option (list QueryProfile.t * QueryProfile.t) :=
  match queryProfiles with
  | [] => None
  | other :: r =>
      if QueryProfile.isEquivalentToQueryProfile queryProfile other
      then let merged := mergeInto now queryProfile other in
           Some (merged :: r, merged)
      else match updateExisting now queryProfile r with
           | Some (r', merged) => Some (other :: r', merged)
           | None => None
           end
  end.

(** [addQueryProfile(queryProfile)] at time [now]: the new array of
    profiles and the profile that is returned. *)
Definition addQueryProfile (now : Z) (queryProfiles : list QueryProfile.t)
  (queryProfile : QueryProfile.t)
  : list QueryProfile.t * QueryProfile.t :=
  match updateExisting now queryProfile queryProfiles with
  | Some res => res
  | None =>
      let queryProfile := QueryProfile.incrementUsageCount queryProfile in
      (queryProfiles ++ [queryProfile], queryProfile)
  end.

(** *** [reduceIndexes] *)

(** A query profile together with the array its [reducedIndexes] getter
    currently returns. *)
Record Entry : Type := {
  profile : QueryProfile.t;
  reducedIndexes : list MongoIndex.t
}.

Definition setReducedIndexes (e : Entry) (l : list MongoIndex.t) : Entry :=
  {| profile := profile e; reducedIndexes := l |}.

Definition enumerate {A} (l : list A) : list (nat * A) :=
  combine (seq 0 (List.length l)) l.

(** The inner [for k] loop: the first [k <> n] whose index is the same as
    [indexes[n]]. *)
Fixpoint findSameK (x : MongoIndex.t) (n k : nat) (indexes : list MongoIndex.t)
  : option nat :=
  match indexes with
  | [] => None
  | y :: r =>
      if negb (n =? k)%nat && MongoIndex.isSameAs x y then Some k
      else findSameK x n (S k) r
  end.

(** The outer [for n] loop over the [rest] of the array, from position
    [n] on. *)
Fixpoint findSameN (indexes : list MongoIndex.t) (n : nat)
  (rest : list MongoIndex.t) : option nat :=
  match rest with
  | [] => None
  | x :: r =>
      match findSameK x n 0 indexes with
      | Some k => Some k
      | None => findSameN indexes (S n) r
      end
  end.

(** [indexes.splice(k, 1)] *)
Definition splice1 {A} (k : nat) (l : list A) : list A :=
  firstn k l ++ skipn (S k) l.

(** The [while (cont)] loop; every round but the last shortens the array,
    so [List.length indexes] rounds are enough. *)
Fixpoint removeSame (rounds : nat) (indexes : list MongoIndex.t)
  : list MongoIndex.t :=
  match rounds with
  | O => indexes
  | S rounds' =>
      match findSameN indexes 0 indexes with
      | Some k => removeSame rounds' (splice1 k indexes)
      | None => indexes
      end
  end.

Definition removeDuplicates (e : Entry) : Entry :=
  setReducedIndexes e
    (removeSame (List.length (reducedIndexes e)) (reducedIndexes e)).

(** The profiles the scan of [lhsQuery] looks at. *)
Definition isRhs (lhsQueryN : nat) (lhsQuery : Entry)
  (rhs : nat * Entry) : bool :=
  negb (fst rhs =? lhsQueryN)%nat
  && String.eqb (QueryProfile.collectionName (profile lhsQuery))
                (QueryProfile.collectionName (profile (snd rhs))).

(** What the scan pushes on [lhsSameIndexes] ... *)
Definition lhsSameIndexes (queryProfiles : list Entry) (lhsQueryN : nat)
  (lhsQuery : Entry) (lhsIndex : MongoIndex.t) : list MongoIndex.t :=
  flat_map
    (fun rhs =>
       if isRhs lhsQueryN lhsQuery rhs
       then filter (fun rhsIndex =>
                      MongoIndex.isSameAs lhsIndex rhsIndex
                      && (lhsQueryN <? fst rhs)%nat)
                   (reducedIndexes (snd rhs))
       else [])
    (enumerate queryProfiles).

(** ... and on [lhsPrefixedIndexes]. *)
Definition lhsPrefixedIndexes (queryProfiles : list Entry) (lhsQueryN : nat)
  (lhsQuery : Entry) (lhsIndex : MongoIndex.t) : list MongoIndex.t :=
  flat_map
    (fun rhs =>
       if isRhs lhsQueryN lhsQuery rhs
       then filter (fun rhsIndex =>
                      negb (MongoIndex.isSameAs lhsIndex rhsIndex
                            && (lhsQueryN <? fst rhs)%nat)
                      && MongoIndex.isIndexPrefixOf lhsIndex rhsIndex)
                   (reducedIndexes (snd rhs))
       else [])
    (enumerate queryProfiles).

(** What one [lhsIndex] contributes to [newLHSIndexes]. *)
Definition replacement (queryProfiles : list Entry) (lhsQueryN : nat)
  (lhsQuery : Entry) (lhsIndex : MongoIndex.t) : list MongoIndex.t :=
  let prefixed := lhsPrefixedIndexes queryProfiles lhsQueryN lhsQuery lhsIndex in
  let same := lhsSameIndexes queryProfiles lhsQueryN lhsQuery lhsIndex in
  if (0 <? List.length prefixed)%nat then prefixed
  else if (0 <? List.length same)%nat then same
  else [lhsIndex].

(** The body of the outer [forEach] for the profile at [lhsQueryN]:
    whether [changed] was set, and the new [reducedIndexes]. *)
Definition reduceProfile (queryProfiles : list Entry) (lhsQueryN : nat)
  (lhsQuery : Entry) : bool * list MongoIndex.t :=
  (existsb
     (fun lhsIndex =>
        (0 <? List.length
                (lhsPrefixedIndexes queryProfiles lhsQueryN lhsQuery lhsIndex))%nat)
     (reducedIndexes lhsQuery),
   Underscore.uniqBy String.eqb MongoIndex.canonicalString
     (flat_map (replacement queryProfiles lhsQueryN lhsQuery)
               (reducedIndexes lhsQuery))).

(** [queryProfiles[n].reducedIndexes = l] *)
Fixpoint assign (n : nat) (l : list MongoIndex.t) (queryProfiles : list Entry)
  : list Entry :=
  match queryProfiles, n with
  | [], _ => []
  | e :: r, O => setReducedIndexes e l :: r
  | e :: r, S n' => e :: assign n' l r
  end.

(** One run of the outer [forEach] over the positions that are left. *)
Fixpoint passFrom (positions : list nat) (changed : bool)
  (queryProfiles : list Entry) : bool * list Entry :=
  match positions with
  | [] => (changed, queryProfiles)
  | lhsQueryN :: rest =>
      match nth_error queryProfiles lhsQueryN with
      | Some lhsQuery =>
          let r := reduceProfile queryProfiles lhsQueryN lhsQuery in
          passFrom rest (changed || fst r)
                   (assign lhsQueryN (snd r) queryProfiles)
      | None => passFrom rest changed queryProfiles
      end
  end.

Definition pass (queryProfiles : list Entry) : bool * list Entry :=
  passFrom (seq 0 (List.length queryProfiles)) false queryProfiles.

(** The [while (changed)] loop, for at most [fuel] passes. *)
Fixpoint untilUnchanged (fuel : nat) (queryProfiles : list Entry)
  : option (list Entry) :=
  match fuel with
  | O => None
  | S fuel' =>
      let r := pass queryProfiles in
      if fst r then untilUnchanged fuel' (snd r) else Some (snd r)
  end.

(** The profiles that hold the object at address [o], once for every
    occurrence (the two closing [forEach] loops). *)
Definition holders (queryProfiles : list Entry) (o : nat) : list nat :=
  flat_map
    (fun ne =>
       map (fun _ => fst ne)
           (filter (fun index => (MongoIndex.oid index =? o)%nat)
                   (reducedIndexes (snd ne))))
    (enumerate queryProfiles).

Definition linkKnownQueryProfiles (queryProfiles : list Entry) : list Entry :=
  map (fun e =>
         setReducedIndexes e
           (map (fun index =>
                   MongoIndex.setKnownQueryProfiles index
                     (holders queryProfiles (MongoIndex.oid index)))
                (reducedIndexes e)))
      queryProfiles.

(** [reduceIndexes(queryProfiles)] from the point where the
    [reducedIndexes] getter has given the array of each profile (see
    [reduceIndexesCall] for the call as a whole); [None] when [fuel]
    passes did not reach the fixed point. *)
Definition reduceIndexes (fuel : nat) (queryProfiles : list Entry)
  : option (list Entry) :=
  match untilUnchanged fuel (map removeDuplicates queryProfiles) with
  | Some reduced => Some (linkKnownQueryProfiles reduced)
  | None => None
  end.

(** What the getters of one profile do when [reduceIndexes] reads them.
    [computeOptimalIndexSet] calls [resetIndexes] on every profile first,
    so the first read of [reducedIndexes] evaluates [optimizedIndexes],
    which throws for some profiles, and the read of [index] builds the
    naive index; later reads return what the first one left. *)
Record Getters : Type := {
  ofProfile : QueryProfile.t;
  readReducedIndexes : Js.result (list MongoIndex.t);
  readIndex : Js.result MongoIndex.t
}.

(** The getters of a profile with the statistics [ks], as the code has
    them after [resetIndexes] and [getCardinalitiesForIndexOptimization];
    the index objects they build take the addresses from [o] on. *)
Definition gettersOf (options : Options) (ks : QueryProfile.KeyStatistics)
  (o : nat) (self : QueryProfile.t) : Getters :=
  {| ofProfile := self;
     readReducedIndexes :=
       (r <- QueryProfile.optimizedIndexes options ks self ;;
        Js.Ok (map (fun indexed =>
                      MongoIndex.constructor (S o + fst indexed) (snd indexed)
                        (QueryProfile.collectionName self) None)
                   (combine (seq 0 (List.length (snd r))) (snd r))));
     readIndex :=
       Js.Ok (MongoIndex.constructor o (QueryProfile.naiveIndex self)
                (QueryProfile.collectionName self) None) |}.

(** The first loop of [reduceIndexes] reads the [reducedIndexes] getter of
    each profile in turn; the first getter that throws ends the call. *)
Definition readGetters (getters : list Getters) : Js.result (list Entry) :=
  Js.mapM (fun getter =>
             indexes <- readReducedIndexes getter ;;
             Js.Ok {| profile := ofProfile getter; reducedIndexes := indexes |})
          getters.

(** [reduceIndexes(queryProfiles)] as a call.  It throws when a
    [reducedIndexes] getter throws in the first loop; the loops up to the
    fixed point then go on as [reduceIndexes] above; the loop that resets
    the known profiles reads the [index] getter of each profile, which
    ends the call if it throws.  [Js.Ok None] when [fuel] passes did not
    reach the fixed point. *)
Definition reduceIndexesCall (fuel : nat) (getters : list Getters)
  : Js.result (option (list Entry)) :=
  queryProfiles <- readGetters getters ;;
  match reduceIndexes fuel queryProfiles with
  | Some reduced =>
      _ <- Js.mapM readIndex getters ;;
      Js.Ok (Some reduced)
  | None => Js.Ok None
  end.

(** *** The simplification pass of [computeOptimalIndexSet] *)

(** The sort fields of the profiles known to use [index]. *)
Definition sortFields (queryProfiles : list QueryProfile.t)
  (index : MongoIndex.t) : list string :=
  Underscore.uniq String.eqb
    (flat_map
       (fun n =>
          match nth_error queryProfiles n with
          | Some queryProfile => Js.obj_keys (QueryProfile.sort queryProfile)
          | None => []
          end)
       (MongoIndex.knownQueryProfiles index)).

(** [index.getIndexStatistics()[field]], about to be dereferenced. *)
Definition statRef (index : MongoIndex.t) (field : string) : Js.result nat :=
  match MongoIndex.indexStatistics index with
  | Some statistics =>
      match Js.obj_get field statistics with
      | Some ref => Js.Ok ref
      | None => Js.TypeError
      end
  | None => Js.TypeError
  end.

(** [a > b] on numbers. *)
Definition Qgtb (a b : Q) : bool := negb (Qle_bool a b).

(** The body of [indexSet.indexes.forEach] in the simplification pass:
    whether [cont] was set, and the index afterwards. *)
Definition simplifyIndex (heap : MongoIndex.StatHeap) (options : Options)
  (queryProfiles : list QueryProfile.t) (index : MongoIndex.t)
  : Js.result (bool * MongoIndex.t) :=
  let keys := Js.obj_keys (MongoIndex.definition index) in
  if (List.length keys =? 1)%nat then Js.Ok (false, index)
  else
    let fieldsToExamine :=
      Underscore.difference String.eqb keys (sortFields queryProfiles index) in
    examined <-
      Js.mapM (fun field => ref <- statRef index field ;; Js.Ok (field, ref))
              fieldsToExamine ;;
    let possibleFieldsToEliminate :=
      List.length
        (filter (fun fr => Qgtb (MongoIndex.reduction (heap (snd fr)))
                                (minimumReduction options))
                examined) in
    if (possibleFieldsToEliminate =? 0)%nat then Js.Ok (false, index)
    else
      match Underscore.max (fun fr => MongoIndex.reduction (heap (snd fr)))
                           examined with
      | None => Js.Ok (false, index)
      | Some (_, reductionValue) =>
          let fieldToEliminate :=
            fold_left
              (fun found fr =>
                 if (snd fr =? reductionValue)%nat then Some (fst fr) else found)
              examined None in
          match fieldToEliminate with
          | Some field =>
              if String.eqb field "" then Js.Ok (true, index)
              else Js.Ok (true, MongoIndex.removeField index field)
          | None => Js.Ok (false, index)
          end
      end.

(** One simplification pass over the indexes of a collection. *)
Definition simplifyPass (heap : MongoIndex.StatHeap) (options : Options)
  (queryProfiles : list QueryProfile.t) (indexes : list MongoIndex.t)
  : Js.result (bool * list MongoIndex.t) :=
  results <- Js.mapM (simplifyIndex heap options queryProfiles) indexes ;;
  Js.Ok (existsb fst results, map snd results).

(** *** Index extension in [computeOptimalIndexSet] *)

(** A query profile as the extension loop sees it: the profile, and the
    object its [indexFieldStatistics] getter returns. *)
Record Known : Type := {
  profileOf : QueryProfile.t;
  indexFieldStatistics : QueryProfile.KeyStatistics
}.

(** [list.forEach] with a body that may throw. *)
Fixpoint forEach {A S} (body : S -> A -> Js.result S) (l : list A) (s : S)
  : Js.result S :=
  match l with
  | [] => Js.Ok s
  | x :: r => s' <- body s x ;; forEach body r s'
  end.

(** The two filters on the exact and range fields of [queryProfile]:
    fields the index does not have yet, then fields outside arrays whose
    mode is not [hash]. *)
Definition eligibleExtensionFields (index : MongoIndex.t) (queryProfile : Known)
  : Js.result (list string) :=
  let eligibleExtensionFields :=
    filter (fun field =>
              negb (Underscore.contains String.eqb
                      (Js.obj_keys (MongoIndex.definition index)) field))
           (QueryProfile.exact (profileOf queryProfile)
            ++ QueryProfile.range (profileOf queryProfile)) in
  Js.filterM
    (fun field =>
       statistics <-
         QueryProfile.stat (indexFieldStatistics queryProfile) field ;;
       Js.Ok (if (0 <? List.length (arrayPrefixes statistics))%nat then false
              else if Mode_eqb (mode statistics) hash then false
                   else true))
    eligibleExtensionFields.

(** The two objects that keep the votes of one round. *)
Record Ballot : Type := {
  extensionFieldVotes : Js.obj Z;
  extensionFieldQueryProfiles : Js.obj (list Known)
}.

(** The body of [eligibleExtensionFields.forEach].  [!votes[field]] holds
    of a field without votes and of a field whose votes are 0; under a
    name that plain objects inherit it does not hold, and the voters
    found under that name are no array: [push] throws. *)
Definition castVote (queryProfile : Known) (ballot : Ballot) (field : string)
  : Js.result Ballot :=
  let usageCount := QueryProfile.usageCount (profileOf queryProfile) in
  let first :=
    {| extensionFieldVotes :=
         Js.obj_set field usageCount (extensionFieldVotes ballot);
       extensionFieldQueryProfiles :=
         Js.obj_set field [queryProfile]
                    (extensionFieldQueryProfiles ballot) |} in
  match Js.obj_lookup field (extensionFieldVotes ballot) with
  | Js.Own votes =>
      if (votes =? 0)%Z then Js.Ok first
      else
        match Js.obj_get field (extensionFieldQueryProfiles ballot) with
        | Some voters =>
            Js.Ok {| extensionFieldVotes :=
                       Js.obj_set field (votes + usageCount)%Z
                                  (extensionFieldVotes ballot);
                     extensionFieldQueryProfiles :=
                       Js.obj_set field (voters ++ [queryProfile])
                                  (extensionFieldQueryProfiles ballot) |}
        | None => Js.TypeError
        end
  | Js.Inherited => Js.TypeError
  | Js.Missing => Js.Ok first
  end.

(** The body of [indexQueryProfiles.forEach]: one round of votes. *)
Definition tally (index : MongoIndex.t) (indexQueryProfiles : list Known)
  : Js.result Ballot :=
  forEach
    (fun ballot queryProfile =>
       eligible <- eligibleExtensionFields index queryProfile ;;
       forEach (castVote queryProfile) eligible ballot)
    indexQueryProfiles
    {| extensionFieldVotes := []; extensionFieldQueryProfiles := [] |}.

(** The loop [while (cont)] for one index, run for at most [fuel] rounds;
    [Ok None] when they did not end it.  [_.max] gets the keys of the
    votes and compares their votes; the empty string is the one field
    name that is falsy.  Of an empty list [_.max] gives [-Infinity],
    under which no voters are recorded, so that the next round throws. *)
Fixpoint extend (fuel : nat) (index : MongoIndex.t)
  (indexQueryProfiles : list Known) : Js.result (option MongoIndex.t) :=
  match fuel with
  | O => Js.Ok None
  | S fuel =>
      ballot <- tally index indexQueryProfiles ;;
      if (List.length (Js.obj_keys (extensionFieldVotes ballot)) =? 0)%nat
      then Js.Ok (Some index)
      else
        match Underscore.max (fun votes => inject_Z (snd votes))
                             (extensionFieldVotes ballot) with
        | Some (fieldToAdd, _) =>
            if String.eqb fieldToAdd "" then Js.Ok (Some index)
            else
              match Js.obj_get fieldToAdd
                               (extensionFieldQueryProfiles ballot) with
              | Some voters =>
                  extend fuel (MongoIndex.addField index fieldToAdd) voters
              | None => Js.TypeError
              end
        | None => Js.TypeError
        end
  end.

End QuerySet.

(** ** The reconciler ([lib/index_set.js]) *)

Module IndexSet.

(** The plan for one collection. *)
Record Changes : Type := {
  collectionName : string;
  create : list MongoIndex.t;
  drop : list MongoIndex.t;
  keep : list MongoIndex.t
}.

(** [groups[key] || []], for collection names that are no names of
    [Object.prototype] ([Js.inherited]); under such a name a collection
    without a group of its own gets an inherited value instead of the
    empty array. *)
Definition groupOrEmpty {A} (groups : Js.obj (list A)) (key : string)
  : list A :=
  match Js.obj_get key groups with
  | Some group => group
  | None => []
  end.

(** [group[0]], about to be dereferenced. *)
Definition first {A} (group : option (list A)) : Js.result A :=
  match group with
  | Some (x :: _) => Js.Ok x
  | _ => Js.TypeError
  end.

(** The function mapped over [allCollections]. *)
Definition changesFor
  (groupedRecommendedIndexes groupedCurrentIndexes : Js.obj (list MongoIndex.t))
  (collectionName : string) : Js.result Changes :=
  let existingIndexes := groupOrEmpty groupedCurrentIndexes collectionName in
  let wantedIndexes := groupOrEmpty groupedRecommendedIndexes collectionName in
  let existingIndexesByCanonicalString :=
    Underscore.groupBy MongoIndex.canonicalString existingIndexes in
  let wantedIndexesByCanonicalString :=
    Underscore.groupBy MongoIndex.canonicalString wantedIndexes in
  let existingIndexCanonicalStrings :=
    Underscore.sortBy String.leb (fun indexString => indexString)
      (Js.obj_keys existingIndexesByCanonicalString) in
  let wantedIndexCanonicalStrings :=
    Underscore.sortBy String.leb (fun indexString => indexString)
      (Js.obj_keys wantedIndexesByCanonicalString) in
  let indexesToCreate :=
    Underscore.difference String.eqb wantedIndexCanonicalStrings
                          existingIndexCanonicalStrings in
  let indexesToDrop :=
    Underscore.difference String.eqb existingIndexCanonicalStrings
                          wantedIndexCanonicalStrings in
  let indexesToKeep :=
    Underscore.intersection String.eqb existingIndexCanonicalStrings
                            wantedIndexCanonicalStrings in
  let isAuto indexString :=
    index <- first (Js.obj_get indexString existingIndexesByCanonicalString) ;;
    Js.Ok (MongoIndex.startsWithAuto (MongoIndex.indexName index)) in
  userOwned <-
    Js.filterM (fun indexString => b <- isAuto indexString ;; Js.Ok (negb b))
               indexesToDrop ;;
  let indexesToKeep := indexesToKeep ++ userOwned in
  indexesToDrop <- Js.filterM isAuto indexesToDrop ;;
  let wantedOrExisting indexString :=
    first (match Js.obj_get indexString wantedIndexesByCanonicalString with
           | Some group => Some group
           | None => Js.obj_get indexString existingIndexesByCanonicalString
           end) in
  kept <-
    Js.mapM (fun indexString =>
               index <- wantedOrExisting indexString ;;
               Js.Ok (MongoIndex.setIndexExists index true))
            indexesToKeep ;;
  created <-
    Js.mapM (fun indexString =>
               first (Js.obj_get indexString wantedIndexesByCanonicalString))
            indexesToCreate ;;
  dropped <-
    Js.mapM (fun indexString =>
               first (Js.obj_get indexString existingIndexesByCanonicalString))
            indexesToDrop ;;
  Js.Ok {| collectionName := collectionName;
           create := created;
           drop := dropped;
           keep := kept |}.

(** [IndexSet.getRecommendedIndexChanges(recommendedIndexSet,
    currentIndexSet)], on the [indexes] arrays of the two sets. *)
Definition getRecommendedIndexChanges
  (recommendedIndexSet currentIndexSet : list MongoIndex.t)
  : Js.result (list Changes) :=
  let allCollections :=
    Underscore.uniq String.eqb
      (map MongoIndex.collectionName recommendedIndexSet
       ++ map MongoIndex.collectionName currentIndexSet) in
  let groupedRecommendedIndexes :=
    Underscore.groupBy MongoIndex.collectionName recommendedIndexSet in
  let groupedCurrentIndexes :=
    Underscore.groupBy MongoIndex.collectionName currentIndexSet in
  Js.mapM (changesFor groupedRecommendedIndexes groupedCurrentIndexes)
          allCollections.

End IndexSet.

(** ** The check of the indexes Mongo used ([lib/query_profile.js]) *)

Module UsedIndexes.

(** The two nested [forEach] loops of [didMongoProfileUseIndex], on the
    indexes [getUsedIndexesInMongoProfile] found in the profile and on the
    array the [reducedIndexes] getter returns. *)
Definition didMongoProfileUseIndex (indexes reducedIndexes : list MongoIndex.t)
  : bool :=
  fold_left
    (fun found actualIndex =>
       fold_left
         (fun found expectedIndex =>
            if MongoIndex.isSameAs actualIndex expectedIndex then true
            else if MongoIndex.isIndexPrefixOf actualIndex expectedIndex
                 then true
                 else found)
         reducedIndexes found)
    indexes false.

End UsedIndexes.

(** ** The optimizer ([lib/mongo_optimizer.js]) *)

Module MongoOptimizer.

(** One result of [collection.listIndexes()], with the address of the
    [MongoIndex] object that is made of it. *)
Record ListedIndex : Type := {
  key : IndexDefinition;
  name : string;
  address : nat
}.

(** [self.queryProfiles] of the optimizer: a property that no method of
    [MongoOptimizer] assigns (the profiles are in [self.querySet]), so
    that reading it gives [undefined]. *)
Definition queryProfiles : option (list QueryProfile.t) := None.

(** [getExistingIndexes(done)]: the indexes of the set that is handed to
    [done], for the answers [listIndexes] of the database.  [_.map] of
    [undefined] is the empty array. *)
Definition getExistingIndexes (listIndexes : string -> list ListedIndex)
  : list MongoIndex.t :=
  let collections :=
    Underscore.uniq String.eqb
      (match queryProfiles with
       | Some queryProfiles => map QueryProfile.collectionName queryProfiles
       | None => []
       end) in
  List.concat
    (map (fun collectionName =>
            filter (fun index => negb (MongoIndex.isIDOnly index))
              (map (fun result =>
                      MongoIndex.constructor (address result) (key result)
                        collectionName (Some (name result)))
                   (listIndexes collectionName)))
         collections).

(** The flag [changes] of [synchronizeIndexes] with [showChangesOnly]:
    whether some collection has an index to create or to drop. *)
Definition changes (collectionsToChange : list IndexSet.Changes) : bool :=
  let collectionsToChange :=
    Underscore.sortBy String.leb IndexSet.collectionName collectionsToChange in
  fold_left
    (fun changes collectionChanges =>
       if (0 <? List.length (IndexSet.create collectionChanges))%nat
          || (0 <? List.length (IndexSet.drop collectionChanges))%nat
       then true
       else changes)
    collectionsToChange false.

End MongoOptimizer.

(** ** The sampler ([lib/mongo_sampler.js]) *)

Module MongoSampler.

(** [s.lastIndexOf(pat)], counting from [i] at the start of [s]; [None]
    is -1. *)
Fixpoint lastIndexOfFrom (pat s : string) (i : nat) : option nat :=
  match s with
  | EmptyString => if String.prefix pat s then Some i else None
  | String _ r =>
      match lastIndexOfFrom pat r (S i) with
      | Some j => Some j
      | None => if String.prefix pat s then Some i else None
      end
  end.

Definition lastIndexOf (pat s : string) : option nat := lastIndexOfFrom pat s 0.

(** [fieldName.replace(/\.\[\]/g, empty)]: the occurrences are found from
    left to right, and what a removal brings together is not looked at
    again. *)
Fixpoint withoutArrayMarks (s : string) : string :=
  match s with
  | String "." (String "[" (String "]" r)) => withoutArrayMarks r
  | String c r => String c (withoutArrayMarks r)
  | EmptyString => EmptyString
  end.

(** The loop [while (prefix.lastIndexOf(".[]") != -1)], run for at most
    [fuel] rounds: the array [arrayPrefixes], or [None] when the rounds
    did not end it. *)
Fixpoint arrayPrefixesOf (fuel : nat) (prefix : string) : option (list string) :=
  match fuel with
  | O => None
  | S fuel =>
      match lastIndexOf ".[]" prefix with
      | None => Some []
      | Some index =>
          let prefix := substring 0 index prefix in
          match arrayPrefixesOf fuel prefix with
          | Some arrayPrefixes => Some (prefix :: arrayPrefixes)
          | None => None
          end
      end
  end.

(** What the sampling pass has gathered under one simplified key: the
    size of the set [uniqueValueHashes[key]] and the number
    [longest[key]], which are filled together. *)
Record Gathered : Type := {
  size : Z;
  longestValue : Z
}.

(** [uniqueValueHashes.length] of a [Set], which has a [size] and no
    [length]: [undefined]. *)
Definition lengthOfSet (uniqueValueHashes : Gathered) : option Z := None.

(** [a > b] where [a] may be [undefined]. *)
Definition gt (a : option Z) (b : Z) : bool :=
  match a with
  | Some a => (b <? a)%Z
  | None => false
  end.

(** The body of [underscore.each(uniqueValueHashes, ...)]: the known array
    prefixes and the field statistics after one more field. *)
Definition eachField (fuel : nat) (longestIndexableValue : Z)
  (state : list string * Js.obj FieldStatistics)
  (entry : string * Gathered)
  : option (list string * Js.obj FieldStatistics) :=
  let (allKnownArrayPrefixes, fieldStatistics) := state in
  let (fieldName, uniqueValueHashes) := entry in
  match arrayPrefixesOf fuel fieldName with
  | Some arrayPrefixes =>
      let fieldData :=
        {| cardinality := size uniqueValueHashes;
           longest := longestValue uniqueValueHashes;
           mode :=
             if gt (lengthOfSet uniqueValueHashes) 0
                && (longestIndexableValue <? longestValue uniqueValueHashes)%Z
             then hash else normal;
           arrayPrefixes := arrayPrefixes |} in
      Some (arrayPrefixes ++ allKnownArrayPrefixes,
            Js.obj_set (withoutArrayMarks fieldName) fieldData fieldStatistics)
  | None => None
  end.

(** The callback of [getCollectionStatistics] that runs once the sample
    is read, at time [now]: the statistics of the collection. *)
Definition collectionStatisticsOf (fuel : nat) (longestIndexableValue : Z)
  (now : Z) (gathered : Js.obj Gathered) : option CollectionStatistics.t :=
  match
    fold_left
      (fun state entry =>
         match state with
         | Some state => eachField fuel longestIndexableValue state entry
         | None => None
         end)
      gathered (Some ([], []))
  with
  | Some (allKnownArrayPrefixes, fieldStatistics) =>
      Some (CollectionStatistics.constructor
              {| CollectionStatistics.fieldStatistics := fieldStatistics;
                 CollectionStatistics.knownArrayPrefixes :=
                   Underscore.uniq String.eqb allKnownArrayPrefixes;
                 CollectionStatistics.lastSampleTime := now |})
  | None => None
  end.

End MongoSampler.
(** ** Inputs of the scenarios and what the specification says of them *)

Module Scenario.

Definition options : Options :=
  {| minimumCardinality := 3; minimumReduction := 7 # 10;
     minimumQueryCount := 1 |}.

Definition fieldStats (c : Z) (prefixes : list string) : FieldStatistics :=
  {| cardinality := c; longest := 3; mode := normal;
     arrayPrefixes := prefixes |}.

Definition collection (fs : Js.obj FieldStatistics) (known : list string)
  : CollectionStatistics.t :=
  {| CollectionStatistics.fieldStatistics := fs;
     CollectionStatistics.knownArrayPrefixes := known;
     CollectionStatistics.lastSampleTime := 0 |}.

Definition queryProfile (e : list string) (s : Js.obj Z) (r : list string)
  : QueryProfile.t :=
  {| QueryProfile.namespace := "db.users"; QueryProfile.exact := e;
     QueryProfile.sort := s; QueryProfile.range := r;
     QueryProfile.lastQueryTime := 0; QueryProfile.usageCount := 0;
     QueryProfile.sources := [] |}.

(** Three fields, each inside its own array. *)
Definition threeArrays : CollectionStatistics.t :=
  collection [("a.x", fieldStats 20 ["a"]); ("b.y", fieldStats 100 ["b"]);
              ("c.z", fieldStats 10 ["c"])] ["a"; "b"; "c"].

Definition threeArraysProfile : QueryProfile.t :=
  queryProfile ["a.x"; "b.y"; "c.z"] [] [].

(** Two fields in two arrays, and a sort key outside of them. *)
Definition twoArrays : CollectionStatistics.t :=
  collection [("a.x", fieldStats 20 ["a"]); ("b.y", fieldStats 100 ["b"]);
              ("t", fieldStats 10 [])] ["a"; "b"].

Definition twoArraysSortedProfile : QueryProfile.t :=
  queryProfile ["a.x"; "b.y"] [("t", (-1)%Z)] [].

(** A range condition on the second sort key:
    [find({age: {$gt: 5}}).sort({name: 1, age: -1})]. *)
Definition people : CollectionStatistics.t :=
  collection [("name", fieldStats 20 []); ("age", fieldStats 100 [])] [].

Definition sortedRangeProfile : QueryProfile.t :=
  queryProfile [] [("name", 1%Z); ("age", (-1)%Z)] ["age"].

(** The query and sort of scenario S1. *)
Definition S1_query : JsValue :=
  JObject
    [("name", JStr "brad");
     ("$or",
      JArray
        [JObject [("email", JObject [("$exists", JBool true)])];
         JObject [("status", JStr "registered"); ("email", JStr "x")]])].

Definition S1_sort : Js.obj Z := [("birthday", (-1)%Z)].

(** Statistics with a field path that has two periods. *)
Definition nestedPath : CollectionStatistics.t :=
  collection [("a.b.c", fieldStats 7 [])] [].

End Scenario.

(** The array prefixes an index definition touches, given the statistics
    of its fields. *)
Definition touchedArrayPrefixes (ks : QueryProfile.KeyStatistics)
  (index : IndexDefinition) : list string :=
  Underscore.uniq String.eqb
    (flat_map (fun field =>
                 match Js.obj_get field ks with
                 | Some s => arrayPrefixes s
                 | None => []
                 end)
              (Js.obj_keys index)).

Definition sameSet {A} (a b : list A) : Prop := forall x, In x a <-> In x b.

(** Scenario S1 in the words of the specification: two profiles,
    [{exact:{name}, sort:{birthday:-1}, range:{email}}] and
    [{exact:{name,status}, sort:{birthday:-1}, range:{email}}]. *)
Definition S1_as_specified (profiles : list QueryProfile.t) : Prop :=
  exists p1 p2,
    profiles = [p1; p2]
    /\ sameSet (QueryProfile.exact p1) ["name"]
    /\ QueryProfile.sort p1 = Scenario.S1_sort
    /\ sameSet (QueryProfile.range p1) ["email"]
    /\ sameSet (QueryProfile.exact p2) ["name"; "status"]
    /\ QueryProfile.sort p2 = Scenario.S1_sort
    /\ sameSet (QueryProfile.range p2) ["email"].

(** ** What the simplification pass is expected to do *)

(** The fields of [index] that no sort of a serving profile names. *)
Definition eligibleFields (queryProfiles : list QueryProfile.t)
  (index : MongoIndex.t) : list string :=
  Underscore.difference String.eqb
    (Js.obj_keys (MongoIndex.definition index))
    (QuerySet.sortFields queryProfiles index).

(** The [reduction] recorded for a field of [index], if any. *)
Definition reductionOf (heap : MongoIndex.StatHeap) (index : MongoIndex.t)
  (field : string) : option Q :=
  match QuerySet.statRef index field with
  | Js.Ok ref => Some (MongoIndex.reduction (heap ref))
  | Js.TypeError => None
  end.

Definition exceedsMinimum (heap : MongoIndex.StatHeap) (options : Options)
  (index : MongoIndex.t) (field : string) : Prop :=
  exists q, reductionOf heap index field = Some q
            /\ (minimumReduction options < q)%Q.

Definition greatestReduction (heap : MongoIndex.StatHeap)
  (index : MongoIndex.t) (among : list string) (field : string) : Prop :=
  exists q, reductionOf heap index field = Some q
            /\ forall g q', In g among -> reductionOf heap index g = Some q'
                            -> (q' <= q)%Q.

(** The effect of one pass on one index. *)
Definition simplified (heap : MongoIndex.StatHeap) (options : Options)
  (queryProfiles : list QueryProfile.t) (index index' : MongoIndex.t) : Prop :=
  let eligible := eligibleFields queryProfiles index in
  ((exists f, In f eligible /\ exceedsMinimum heap options index f) ->
   exists f,
     In f eligible
     /\ ~ In f (QuerySet.sortFields queryProfiles index)
     /\ exceedsMinimum heap options index f
     /\ greatestReduction heap index eligible f
     /\ index' = MongoIndex.removeField index f
     /\ S (List.length (Js.obj_keys (MongoIndex.definition index')))
        = List.length (Js.obj_keys (MongoIndex.definition index)))
  /\ ((forall f, In f eligible -> ~ exceedsMinimum heap options index f) ->
      index' = index).

(** Statistics are at hand for every field, the fields are distinct and
    none is the empty name. *)
Definition readyForSimplification (index : MongoIndex.t) : Prop :=
  let keys := Js.obj_keys (MongoIndex.definition index) in
  NoDup keys /\ ~ In "" keys
  /\ forall f, In f keys -> exists ref, QuerySet.statRef index f = Js.Ok ref.

(** The pass in the words of the specification: the last eligible field
    whose reduction exceeds the minimum is the one removed. *)
Definition lastExceeding (heap : MongoIndex.StatHeap) (options : Options)
  (queryProfiles : list QueryProfile.t) (index : MongoIndex.t)
  : option string :=
  last
    (map Some
       (filter (fun f =>
                  match reductionOf heap index f with
                  | Some q => QuerySet.Qgtb q (minimumReduction options)
                  | None => false
                  end)
               (eligibleFields queryProfiles index)))
    None.

Definition simplifyAsSpecified (heap : MongoIndex.StatHeap) (options : Options)
  (queryProfiles : list QueryProfile.t) (index : MongoIndex.t)
  : MongoIndex.t :=
  if (List.length (Js.obj_keys (MongoIndex.definition index)) <=? 1)%nat
  then index
  else match lastExceeding heap options queryProfiles index with
       | Some f => MongoIndex.removeField index f
       | None => index
       end.

Module SimplifyScenario.

(** An index on [(a, b)] with reductions 0.9 and 0.8, served by a profile
    without sort. *)
Definition heap : MongoIndex.StatHeap :=
  fun ref =>
    match ref with
    | 0 => {| MongoIndex.reduction := 9 # 10;
              MongoIndex.currentAverageDistinct := 90 # 1;
              MongoIndex.lastAverageDistinct := 100 # 1 |}
    | _ => {| MongoIndex.reduction := 8 # 10;
              MongoIndex.currentAverageDistinct := 72 # 1;
              MongoIndex.lastAverageDistinct := 90 # 1 |}
    end%nat.

Definition servedProfile : QueryProfile.t :=
  Scenario.queryProfile ["a"; "b"] [] [].

Definition index : MongoIndex.t :=
  MongoIndex.setIndexStatistics
    (MongoIndex.setKnownQueryProfiles
       (MongoIndex.constructor 0 [("a", Num 1); ("b", Num 1)] "users" None)
       [0%nat])
    (Some [("a", 0%nat); ("b", 1%nat)]).

End SimplifyScenario.


(** What one pass does to the indexes it visits. *)
Definition passEffect (heap : MongoIndex.StatHeap) (options : Options)
  (queryProfiles : list QueryProfile.t) (index index' : MongoIndex.t) : Prop :=
  (List.length (Js.obj_keys (MongoIndex.definition index)) = 1%nat ->
   index' = index)
  /\ (List.length (Js.obj_keys (MongoIndex.definition index)) <> 1%nat ->
      simplified heap options queryProfiles index index').


(** ** What the reconciler is expected to do *)

(** No two indexes of one collection have the same canonical string. *)
Definition distinctIndexes (indexes : list MongoIndex.t) : Prop :=
  NoDup (map (fun index => (MongoIndex.collectionName index,
                            MongoIndex.canonicalString index))
             indexes).

(** [index] is not one of the recommended indexes of its collection. *)
Definition matchesNoRecommendation (recommended : list MongoIndex.t)
  (index : MongoIndex.t) : Prop :=
  forall r, In r recommended ->
            MongoIndex.collectionName r = MongoIndex.collectionName index ->
            MongoIndex.canonicalString r <> MongoIndex.canonicalString index.

Module ReconcileScenario.

(** Scenario S8: one recommendation; a user's index, a stale generated
    index and a generated index that matches the recommendation. *)
Definition recommended : list MongoIndex.t :=
  [MongoIndex.constructor 1 [("d", Num 1)] "users" None].

Definition user_email_unique : MongoIndex.t :=
  MongoIndex.constructor 2 [("email", Num 1)] "users" (Some "user_email_unique").

Definition existing : list MongoIndex.t :=
  [user_email_unique;
   MongoIndex.constructor 3 [("abc", Num 1)] "users" (Some "auto_abc");
   MongoIndex.constructor 4 [("d", Num 1)] "users" (Some "auto_def")].

End ReconcileScenario.

(** ** Equivalence of query profiles, in the words of the specification *)

(** The exact and range fields of a profile are sets, and so are the keys
    of its sort object. *)
Definition wellFormedProfile (p : QueryProfile.t) : Prop :=
  NoDup (QueryProfile.exact p)
  /\ NoDup (Js.obj_keys (QueryProfile.sort p))
  /\ NoDup (QueryProfile.range p).

(** Same namespace, same exact set, same sort keys with the same direction
    on each key, same range set. *)
Definition equivalentProfiles (p q : QueryProfile.t) : Prop :=
  QueryProfile.namespace p = QueryProfile.namespace q
  /\ sameSet (QueryProfile.exact p) (QueryProfile.exact q)
  /\ (forall key, Js.obj_get key (QueryProfile.sort p)
                  = Js.obj_get key (QueryProfile.sort q))
  /\ sameSet (QueryProfile.range p) (QueryProfile.range q).

Definition sourceNames (p : QueryProfile.t) : list JsValue :=
  map QueryProfile.source (QueryProfile.sources p).

(** The sources list of [merged] is the union of the two lists: it has the
    entries of either profile and no other. *)
Definition unionOfSources (merged first second : QueryProfile.t) : Prop :=
  forall s, In s (QueryProfile.sources merged)
            <-> In s (QueryProfile.sources first)
                \/ In s (QueryProfile.sources second).

(** No two entries of the list name the same source. *)
Fixpoint distinctSources (l : list QueryProfile.Source) : Prop :=
  match l with
  | [] => True
  | e :: r =>
      (forall s, In s r ->
                 strict_eq (QueryProfile.source e) (QueryProfile.source s)
                 = false)
      /\ distinctSources r
  end.

(** The list names the source. *)
Definition names (l : list QueryProfile.Source) (src : JsValue) : bool :=
  existsb (fun e => strict_eq (QueryProfile.source e) src) l.

(** An entry as [addSource] records it: a version that is missing or
    empty is the empty string. *)
Definition recorded (s : QueryProfile.Source) : QueryProfile.Source :=
  {| QueryProfile.source := QueryProfile.source s;
     QueryProfile.version :=
       if truthy (QueryProfile.version s) then QueryProfile.version s
       else JStr "" |}.

(** The entry [e] with the version [theirs] gives to its source, if
    [theirs] names it. *)
Definition versionGiven (theirs : list QueryProfile.Source)
  (e : QueryProfile.Source) : QueryProfile.Source :=
  match find (fun s => strict_eq (QueryProfile.source e) (QueryProfile.source s))
             theirs with
  | Some s => {| QueryProfile.source := QueryProfile.source e;
                 QueryProfile.version := QueryProfile.version (recorded s) |}
  | None => e
  end.

(** The sources of a profile once those of an equivalent one have been
    merged into it: its own entries in their order, each with the version
    the other profile gives, then the entries of the other profile for the
    sources it alone names. *)
Definition mergedSources (mine theirs : list QueryProfile.Source)
  : list QueryProfile.Source :=
  map (versionGiven theirs) mine
  ++ map recorded
         (filter (fun s => negb (names mine (QueryProfile.source s))) theirs).

Module MergeScenario.

(** The same query seen twice, from two places of the application. *)
Definition first : QueryProfile.t :=
  {| QueryProfile.namespace := "db.users";
     QueryProfile.exact := ["name"; "status"];
     QueryProfile.sort := [("birthday", (-1)%Z)];
     QueryProfile.range := ["email"];
     QueryProfile.lastQueryTime := 1000;
     QueryProfile.usageCount := 0;
     QueryProfile.sources :=
       [{| QueryProfile.source := JStr "users.js:10";
           QueryProfile.version := JStr "1.0.0" |}] |}.

Definition second : QueryProfile.t :=
  {| QueryProfile.namespace := "db.users";
     QueryProfile.exact := ["status"; "name"];
     QueryProfile.sort := [("birthday", (-1)%Z)];
     QueryProfile.range := ["email"];
     QueryProfile.lastQueryTime := 2000;
     QueryProfile.usageCount := 0;
     QueryProfile.sources :=
       [{| QueryProfile.source := JStr "admin.js:7";
           QueryProfile.version := JStr "1.0.0" |}] |}.

(** The same query seen later from the first place, in a newer version of
    the application. *)
Definition later : QueryProfile.t :=
  {| QueryProfile.namespace := "db.users";
     QueryProfile.exact := ["status"; "name"];
     QueryProfile.sort := [("birthday", (-1)%Z)];
     QueryProfile.range := ["email"];
     QueryProfile.lastQueryTime := 3000;
     QueryProfile.usageCount := 0;
     QueryProfile.sources :=
       [{| QueryProfile.source := JStr "users.js:10";
           QueryProfile.version := JStr "2.0.0" |}] |}.

(** What the set holds once [first] and [later] have been added at times
    1000 and 3000. *)
Definition mergedLater : QueryProfile.t :=
  {| QueryProfile.namespace := "db.users";
     QueryProfile.exact := ["name"; "status"];
     QueryProfile.sort := [("birthday", (-1)%Z)];
     QueryProfile.range := ["email"];
     QueryProfile.lastQueryTime := 3000;
     QueryProfile.usageCount := 2;
     QueryProfile.sources :=
       [{| QueryProfile.source := JStr "users.js:10";
           QueryProfile.version := JStr "2.0.0" |}] |}.

End MergeScenario.

(** ** The ordering contract of optimized indexes *)

(** The statistics recorded for a field (every field of a profile has
    some once [getCardinalitiesForIndexOptimization] has run). *)
Definition statisticsOf (ks : QueryProfile.KeyStatistics) (field : string)
  : FieldStatistics :=
  match Js.obj_get field ks with
  | Some s => s
  | None => {| cardinality := 0; longest := 0; mode := normal;
               arrayPrefixes := [] |}
  end.

Definition cardinalityOf (ks : QueryProfile.KeyStatistics) (field : string) : Z :=
  cardinality (statisticsOf ks field).

Definition allFields (p : QueryProfile.t) : list string :=
  QueryProfile.exact p ++ QueryProfile.range p
  ++ Js.obj_keys (QueryProfile.sort p).

(** The arrays the fields of a profile lie in. *)
Definition arraysOf (ks : QueryProfile.KeyStatistics) (p : QueryProfile.t)
  : list string :=
  Underscore.uniq String.eqb
    (flat_map (fun field => arrayPrefixes (statisticsOf ks field))
              (allFields p)).

Definition isMember (l : list string) (x : string) : bool :=
  Underscore.contains String.eqb l x.

(** The fields of [result] that have one cardinality come in the order
    they have in [original]. *)
Definition keepsOrderOfEqual (card : string -> Z) (original result : list string)
  : Prop :=
  forall c,
    filter (fun f => (card f =? c)%Z) result
    = filter (fun f => (card f =? c)%Z && isMember result f) original.

(** The keys of [index] are exact fields by descending cardinality, then
    sort keys in the order of the sort object, then range fields by
    ascending cardinality. *)
Definition orderingContract (ks : QueryProfile.KeyStatistics)
  (p : QueryProfile.t) (index : IndexDefinition) : Prop :=
  exists E S R,
    Js.obj_keys index = E ++ S ++ R
    /\ incl E (QueryProfile.exact p)
    /\ StronglySorted (fun a b => (cardinalityOf ks b <= cardinalityOf ks a)%Z) E
    /\ keepsOrderOfEqual (cardinalityOf ks) (QueryProfile.exact p) E
    /\ S = filter (isMember S) (Js.obj_keys (QueryProfile.sort p))
    /\ incl R (QueryProfile.range p)
    /\ StronglySorted (fun a b => (cardinalityOf ks a <= cardinalityOf ks b)%Z) R
    /\ keepsOrderOfEqual (cardinalityOf ks) (QueryProfile.range p) R.

Module OrderingScenario.

(** [find({city: c, state: s, zip: z, age: {$gt: n}, score: {$lt: m}})
      .sort({name: 1})]; [city] and [zip] have the same cardinality. *)
Definition statistics : CollectionStatistics.t :=
  Scenario.collection
    [("state", Scenario.fieldStats 50 []); ("city", Scenario.fieldStats 900 []);
     ("zip", Scenario.fieldStats 900 []); ("name", Scenario.fieldStats 5000 []);
     ("age", Scenario.fieldStats 90 []); ("score", Scenario.fieldStats 40 [])] [].

Definition profile : QueryProfile.t :=
  Scenario.queryProfile ["state"; "city"; "zip"] [("name", 1%Z)] ["age"; "score"].

(** The statistics the profile is given. *)
Definition ks : QueryProfile.KeyStatistics :=
  QueryProfile.getCardinalitiesForIndexOptimization
    Scenario.options statistics profile.

End OrderingScenario.

(** ** What [reduceIndexes] is expected to establish *)

Definition sameCollection (p q : QuerySet.Entry) : Prop :=
  QueryProfile.collectionName (QuerySet.profile p)
  = QueryProfile.collectionName (QuerySet.profile q).

(** No index of a profile is an index-prefix of an index of another
    profile of the same collection. *)
Definition prefixFreeAcrossProfiles (queryProfiles : list QuerySet.Entry) : Prop :=
  forall i j p q a b,
    i <> j ->
    nth_error queryProfiles i = Some p ->
    nth_error queryProfiles j = Some q ->
    sameCollection p q ->
    In a (QuerySet.reducedIndexes p) ->
    In b (QuerySet.reducedIndexes q) ->
    MongoIndex.isIndexPrefixOf a b = false.

(** The specification's reading: no index held anywhere in a collection
    is an index-prefix of another one (two indexes of one profile
    included) ... *)
Definition prefixFreeEverywhere (queryProfiles : list QuerySet.Entry) : Prop :=
  forall p q a b,
    In p queryProfiles -> In q queryProfiles -> sameCollection p q ->
    In a (QuerySet.reducedIndexes p) ->
    In b (QuerySet.reducedIndexes q) ->
    MongoIndex.isIndexPrefixOf a b = false.

(** ... and two indexes with equal sequences are one object. *)
Definition sharedWhenSame (queryProfiles : list QuerySet.Entry) : Prop :=
  forall p q a b,
    In p queryProfiles -> In q queryProfiles -> sameCollection p q ->
    In a (QuerySet.reducedIndexes p) ->
    In b (QuerySet.reducedIndexes q) ->
    MongoIndex.isSameAs a b = true ->
    MongoIndex.oid a = MongoIndex.oid b.

Module ReduceScenario.

Definition entry (p : QueryProfile.t) (indexes : list MongoIndex.t)
  : QuerySet.Entry :=
  {| QuerySet.profile := p; QuerySet.reducedIndexes := indexes |}.

Definition index (o : nat) (d : IndexDefinition) : MongoIndex.t :=
  MongoIndex.constructor o d "users" None.

(** The statistics of the collection.  [a.u] lies in the array [a], and
    [a.b.v] in the array [a.b] inside it; the array prefixes are written
    the way the sampler records them. *)
Definition statistics : CollectionStatistics.t :=
  Scenario.collection
    [("x", Scenario.fieldStats 100 []); ("y", Scenario.fieldStats 60 []);
     ("z", Scenario.fieldStats 40 []); ("q", Scenario.fieldStats 30 []);
     ("a.u", Scenario.fieldStats 50 ["a"]);
     ("a.b.v", Scenario.fieldStats 10 ["a.[].b"; "a"])]
    ["a.[].b"; "a"].

Definition nestedArrays : QueryProfile.t :=
  Scenario.queryProfile ["x"; "a.u"; "a.b.v"] [] [].

Definition exactQ : QueryProfile.t := Scenario.queryProfile ["q"] [] [].
Definition sortedQ : QueryProfile.t := Scenario.queryProfile [] [("q", 1%Z)] [].
Definition rangeQ : QueryProfile.t := Scenario.queryProfile [] [] ["q"].

Definition onX : QueryProfile.t := Scenario.queryProfile ["x"] [] [].
Definition onXY : QueryProfile.t := Scenario.queryProfile ["x"; "y"] [] [].
Definition onXYZ : QueryProfile.t := Scenario.queryProfile ["x"; "y"; "z"] [] [].

(** The index definitions the getter produces for a profile. *)
Definition candidates (p : QueryProfile.t) : Js.result (list IndexDefinition) :=
  r <- QueryProfile.optimize Scenario.options statistics p ;;
  Js.Ok (snd r).

(** Four profiles with their candidates.  The first holds [(x)] and
    [(x, a.u)]; each of the others holds its own index object on [(q)]. *)
Definition queryProfiles : list QuerySet.Entry :=
  [entry nestedArrays
     [index 0 [("x", Num 1)]; index 1 [("x", Num 1); ("a.u", Num 1)]];
   entry exactQ [index 2 [("q", Num 1)]];
   entry sortedQ [index 3 [("q", Num 1)]];
   entry rangeQ [index 4 [("q", Num 1)]]].

(** Scenario S4: candidates [(x)], [(x, y)] and [(x, y, z)]. *)
Definition absorbed : list QuerySet.Entry :=
  [entry onX [index 0 [("x", Num 1)]];
   entry onXY [index 1 [("x", Num 1); ("y", Num 1)]];
   entry onXYZ [index 2 [("x", Num 1); ("y", Num 1); ("z", Num 1)]]].

(** An index object once its profiles are recorded on it. *)
Definition linked (o : nat) (d : IndexDefinition) (profiles : list nat)
  : MongoIndex.t :=
  MongoIndex.setKnownQueryProfiles (index o d) profiles.

Definition keptX : MongoIndex.t := linked 0 [("x", Num 1)] [0%nat].
Definition keptXU : MongoIndex.t :=
  linked 1 [("x", Num 1); ("a.u", Num 1)] [0%nat].
Definition third : MongoIndex.t := linked 3 [("q", Num 1)] [1%nat].
Definition fourth : MongoIndex.t := linked 4 [("q", Num 1)] [2%nat; 3%nat].

(** What [reduceIndexes] leaves of [queryProfiles]. *)
Definition reduced : list QuerySet.Entry :=
  [entry nestedArrays [keptX; keptXU];
   entry exactQ [third];
   entry sortedQ [fourth];
   entry rangeQ [fourth]].

(** What it leaves of [absorbed]: one object for the three profiles. *)
Definition absorbedReduced : list QuerySet.Entry :=
  let shared :=
    linked 2 [("x", Num 1); ("y", Num 1); ("z", Num 1)] [0%nat; 1%nat; 2%nat] in
  [entry onX [shared]; entry onXY [shared]; entry onXYZ [shared]].

(** The getters of a profile that return: its candidates, and a naive
    index at the address [o]. *)
Definition returning (o : nat) (e : QuerySet.Entry) : QuerySet.Getters :=
  {| QuerySet.ofProfile := QuerySet.profile e;
     QuerySet.readReducedIndexes := Js.Ok (QuerySet.reducedIndexes e);
     QuerySet.readIndex :=
       Js.Ok (index o (QueryProfile.naiveIndex (QuerySet.profile e))) |}.

(** The getters of the profiles of scenario S4. *)
Definition getters : list QuerySet.Getters :=
  map (fun indexed => returning (10 + fst indexed) (snd indexed))
      (combine (seq 0 3) absorbed).

(** The getters of a profile with a sort and with fields in two arrays. *)
Definition throwing : QuerySet.Getters :=
  QuerySet.gettersOf Scenario.options
    (QueryProfile.getCardinalitiesForIndexOptimization Scenario.options
       Scenario.twoArrays Scenario.twoArraysSortedProfile)
    20 Scenario.twoArraysSortedProfile.

End ReduceScenario.

(** Every index of [l'] has the sequence of an index of [l]. *)
Definition definitionsFrom (l l' : list MongoIndex.t) : Prop :=
  forall a, In a l' ->
            exists a0, In a0 l /\ MongoIndex.definition a = MongoIndex.definition a0.

(** ** A measure for the [while (changed)] loop of [reduceIndexes] *)

(** The sequences of all the indexes held by the profiles. *)
Definition allDefinitions (s : list QuerySet.Entry) : list IndexDefinition :=
  flat_map (fun e => map MongoIndex.definition (QuerySet.reducedIndexes e)) s.

(** A bound on the length of the sequences of [U]. *)
Definition longestOf (U : list IndexDefinition) : nat :=
  list_sum (map (@List.length _) U).

(** A sequence weighs more than all the longer sequences of [U]
    together. *)
Definition weight (U : list IndexDefinition) (d : IndexDefinition) : nat :=
  (S (List.length U) ^ (longestOf U - List.length d))%nat.

Definition indexesWeight (U : list IndexDefinition) (l : list MongoIndex.t)
  : nat :=
  list_sum (map (fun a => weight U (MongoIndex.definition a)) l).

Definition stateWeight (U : list IndexDefinition) (s : list QuerySet.Entry)
  : nat :=
  list_sum (map (fun e => indexesWeight U (QuerySet.reducedIndexes e)) s).

(** The profiles hold indexes with sequences of [U] only. *)
Definition within (U : list IndexDefinition) (s : list QuerySet.Entry) : Prop :=
  forall e a, In e s -> In a (QuerySet.reducedIndexes e) ->
              In (MongoIndex.definition a) U.

(** A number of passes after which the [while (changed)] loop has ended. *)
Definition enoughPasses (queryProfiles : list QuerySet.Entry) : nat :=
  let s := map QuerySet.removeDuplicates queryProfiles in
  S (stateWeight (allDefinitions s) s).

(* ================================================================== *)
(** * Further properties of the code: what they are stated with *)
(* ================================================================== *)

(** ** Reading back a canonical string *)

Definition hex_value (c : ascii) : N :=
  let n := N_of_ascii c in
  if (n <? 58)%N then (n - 48)%N else (n - 87)%N.

(** Reading back the first character of the body of a JSON string
    literal. *)
Definition unescape (s : string) : option (ascii * string) :=
  match s with
  | EmptyString => None
  | String c r =>
      if (N_of_ascii c =? 34)%N then None
      else if (N_of_ascii c =? 92)%N then
        match r with
        | EmptyString => None
        | String e r' =>
            let n := N_of_ascii e in
            if (n =? 98)%N then Some (ascii_of_N 8, r')
            else if (n =? 116)%N then Some (ascii_of_N 9, r')
            else if (n =? 110)%N then Some (ascii_of_N 10, r')
            else if (n =? 102)%N then Some (ascii_of_N 12, r')
            else if (n =? 114)%N then Some (ascii_of_N 13, r')
            else if (n =? 117)%N then
              match r' with
              | String _ (String _ (String h (String l r''))) =>
                  Some (ascii_of_N (16 * hex_value h + hex_value l), r'')
              | _ => None
              end
            else Some (e, r')
        end
      else Some (c, r)
  end.

Definition numeralChar (c : ascii) : bool :=
  let n := N_of_ascii c in
  (n =? 45)%N || ((48 <=? n)%N && (n <=? 57)%N).

Fixpoint numeral (s : string) : bool :=
  match s with
  | EmptyString => true
  | String c r => numeralChar c && numeral r
  end.

(** A string that starts with a character no numeral holds. *)
Definition closes (X : string) : Prop :=
  exists c r, X = String c r /\ numeralChar c = false.

(** One property of an index as [JSON.stringify] writes it. *)
Definition entry (kv : string * IndexValue) : string :=
  MongoIndex.json_string (fst kv) ++ ":" ++ MongoIndex.json_value (snd kv).

(** What follows the first property. *)
Fixpoint entries (l : IndexDefinition) : string :=
  match l with
  | [] => "}"
  | kv :: r => "," ++ entry kv ++ entries r
  end.

(** ** Indexes that serve a query *)

(** [b] can stand for [a]: it is the same index, or [a] is an
    index-prefix of it (the test of [didMongoProfileUseIndex]). *)
Definition servedBy (a b : MongoIndex.t) : bool :=
  MongoIndex.isSameAs a b || MongoIndex.isIndexPrefixOf a b.

(** Every index of [l] is served by an index of [l']. *)
Definition allServedBy (l l' : list MongoIndex.t) : Prop :=
  forall a, In a l -> exists b, In b l' /\ servedBy a b = true.

(** The indexes of every profile of [s] are served by those of the
    profile at the same place in [r], which is the same profile. *)
Definition stillServed (s r : list QuerySet.Entry) : Prop :=
  forall i e,
    nth_error s i = Some e ->
    exists e', nth_error r i = Some e'
               /\ QuerySet.profile e' = QuerySet.profile e
               /\ allServedBy (QuerySet.reducedIndexes e)
                              (QuerySet.reducedIndexes e').

(** ** The plans of the reconciler *)

(** [x] is the first index of [l] whose canonical string is [s]. *)
Definition firstWith (l : list MongoIndex.t) (s : string) (x : MongoIndex.t)
  : Prop :=
  exists g,
    filter (fun y => String.eqb (MongoIndex.canonicalString y) s) l = x :: g.

(** The indexes of [l] that belong to collection [c]. *)
Definition ofCollection (c : string) (l : list MongoIndex.t) : list MongoIndex.t :=
  filter (fun index => String.eqb (MongoIndex.collectionName index) c) l.

(** What the lists of the plan [ch] hold, for the recommended indexes [W]
    and the existing indexes [E] of its collection. *)
Definition planOf (W E : list MongoIndex.t) (ch : IndexSet.Changes) : Prop :=
  (forall i, In i (IndexSet.create ch)
             <-> exists s, firstWith W s i
                           /\ forall e, In e E ->
                                        MongoIndex.canonicalString e <> s)
  /\ (forall i, In i (IndexSet.drop ch)
                <-> exists s, firstWith E s i
                              /\ (forall w, In w W ->
                                            MongoIndex.canonicalString w <> s)
                              /\ MongoIndex.startsWithAuto
                                   (MongoIndex.indexName i) = true)
  /\ (forall i, In i (IndexSet.keep ch)
                <-> exists s y,
                      i = MongoIndex.setIndexExists y true
                      /\ ((firstWith W s y
                           /\ exists e, In e E
                                        /\ MongoIndex.canonicalString e = s)
                          \/ (firstWith E s y
                              /\ (forall w, In w W ->
                                            MongoIndex.canonicalString w <> s)
                              /\ MongoIndex.startsWithAuto
                                   (MongoIndex.indexName y) = false))).

(** What the database of [ReconcileScenario] lists for a collection. *)
Definition listIndexesOfScenario (collectionName : string)
  : list MongoOptimizer.ListedIndex :=
  [{| MongoOptimizer.key := [("email", Num 1)];
      MongoOptimizer.name := "user_email_unique";
      MongoOptimizer.address := 2 |};
   {| MongoOptimizer.key := [("abc", Num 1)];
      MongoOptimizer.name := "auto_abc";
      MongoOptimizer.address := 3 |};
   {| MongoOptimizer.key := [("d", Num 1)];
      MongoOptimizer.name := "auto_def";
      MongoOptimizer.address := 4 |}].

(** ** The query set as [addQueryProfile] builds it *)

(** The part of a profile that [isEquivalentToQueryProfile] and the
    getters look at. *)
Definition sameQuery (p q : QueryProfile.t) : Prop :=
  QueryProfile.namespace p = QueryProfile.namespace q
  /\ QueryProfile.exact p = QueryProfile.exact q
  /\ QueryProfile.sort p = QueryProfile.sort q
  /\ QueryProfile.range p = QueryProfile.range q.

(** No two profiles of the set are equivalent. *)
Definition noTwoEquivalent (querySet : list QueryProfile.t) : Prop :=
  forall i j p q,
    i <> j -> nth_error querySet i = Some p -> nth_error querySet j = Some q ->
    QueryProfile.isEquivalentToQueryProfile p q = false.

(** What [addQueryProfile] keeps true of the query set. *)
Definition tidy (querySet : list QueryProfile.t) : Prop :=
  noTwoEquivalent querySet
  /\ forall p, In p querySet -> wellFormedProfile p.

(** The sum of the usage counts of the set. *)
Definition totalUsage (querySet : list QueryProfile.t) : Z :=
  fold_right (fun p n => (QueryProfile.usageCount p + n)%Z) 0%Z querySet.

(** A sequence of calls [querySet.addQueryProfile(queryProfile)], each
    with the time at which it is made. *)
Definition addQueryProfiles (calls : list (Z * QueryProfile.t))
  (querySet : list QueryProfile.t) : list QueryProfile.t :=
  fold_left
    (fun querySet call =>
       fst (QuerySet.addQueryProfile (fst call) querySet (snd call)))
    calls querySet.

Module RecordScenario.

(** A query on another field. *)
Definition byAge : QueryProfile.t := Scenario.queryProfile ["age"] [] [].

(** Three calls: the query of [MergeScenario], a query on another field,
    and the first query again with its fields in another order. *)
Definition calls : list (Z * QueryProfile.t) :=
  [(1000%Z, MergeScenario.first);
   (2000%Z, byAge);
   (3000%Z, MergeScenario.second)].

End RecordScenario.

(** ** Decomposing a query *)

(** No object anywhere in the query has a [$or] key. *)
Fixpoint orFree (query : JsValue) : bool :=
  match query with
  | JObject props =>
      forallb (fun kv => negb (String.eqb (fst kv) "$or") && orFree (snd kv)) props
  | JArray items => forallb orFree items
  | _ => true
  end.

(** Induction on a query value and on the values inside it. *)
Section JsValueInduction.
Variable P : JsValue -> Prop.
Hypothesis Hundefined : P JUndefined.
Hypothesis Hnull : P JNull.
Hypothesis Hbool : forall b, P (JBool b).
Hypothesis Hnum : forall z, P (JNum z).
Hypothesis Hstr : forall s, P (JStr s).
Hypothesis Hdate : forall m, P (JDate m).
Hypothesis Hoid : forall h, P (JObjectID h).
Hypothesis Hdbref : forall ns id, P (JDBRef ns id).
Hypothesis Hobject :
  forall props, Forall (fun kv => P (snd kv)) props -> P (JObject props).
Hypothesis Harray : forall items, Forall P items -> P (JArray items).

Fixpoint JsValue_nested_ind (v : JsValue) : P v :=
  match v with
  | JUndefined => Hundefined
  | JNull => Hnull
  | JBool b => Hbool b
  | JNum z => Hnum z
  | JStr s => Hstr s
  | JDate m => Hdate m
  | JObjectID h => Hoid h
  | JDBRef ns id => Hdbref ns id
  | JObject props =>
      Hobject props
        ((fix go (l : list (string * JsValue)) : Forall (fun kv => P (snd kv)) l :=
            match l with
            | [] => Forall_nil _
            | kv :: r => Forall_cons kv (JsValue_nested_ind (snd kv)) (go r)
            end) props)
  | JArray items =>
      Harray items
        ((fix go (l : list JsValue) : Forall P l :=
            match l with
            | [] => Forall_nil _
            | x :: r => Forall_cons x (JsValue_nested_ind x) (go r)
            end) items)
  end.
End JsValueInduction.

(** The analysis has one sub-query, when it ends without throwing. *)
Definition single (r : Js.result QueryProfile.Analysis) : Prop :=
  match r with
  | Js.Ok a => List.length (fst a) = 1%nat
  | Js.TypeError => True
  end.

(** [query] and, when it is an array, each of its items. *)
Definition singleDeep (query : JsValue) : Prop :=
  (orFree query = true ->
   forall root comments, single (QueryProfile.analyzeQuery query root comments))
  /\ match query with
     | JArray items =>
         Forall (fun item =>
                   orFree item = true ->
                   forall root comments,
                     single (QueryProfile.analyzeQuery item root comments))
                items
     | _ => True
     end.

Module DecomposeScenario.

(** [find({name: "brad", age: {$gt: 5}}).sort({birthday: -1})] *)
Definition query : JsValue :=
  JObject [("name", JStr "brad"); ("age", JObject [("$gt", JNum 5)])].

Definition profile : QueryProfile.t :=
  {| QueryProfile.namespace := "db.users";
     QueryProfile.exact := ["name"];
     QueryProfile.sort := [("birthday", (-1)%Z)];
     QueryProfile.range := ["age"];
     QueryProfile.lastQueryTime := 0;
     QueryProfile.usageCount := 0;
     QueryProfile.sources :=
       [{| QueryProfile.source := JStr "anonymous";
           QueryProfile.version := JStr "" |}] |}.

End DecomposeScenario.

(** ** Index extension *)

(** The fields the profiles can propose for an index. *)
Definition candidateFields (l : list QuerySet.Known) : list string :=
  flat_map (fun k => QueryProfile.exact (QuerySet.profileOf k)
                     ++ QueryProfile.range (QuerySet.profileOf k)) l.

(** The statistics of every profile cover its exact and range fields. *)
Definition covered (l : list QuerySet.Known) : Prop :=
  forall k f,
    In k l ->
    In f (QueryProfile.exact (QuerySet.profileOf k)
          ++ QueryProfile.range (QuerySet.profileOf k)) ->
    exists s, Js.obj_get f (QuerySet.indexFieldStatistics k) = Some s.

(** No exact or range field of the profiles bears a name that every
    object inherits. *)
Definition ownNames (l : list QuerySet.Known) : Prop :=
  forall f, In f (candidateFields l) -> Js.inherited f = false.

(** [field] is an exact or range field of [k] that lies in no array and
    whose mode is [normal]. *)
Definition justifies (k : QuerySet.Known) (field : string) : Prop :=
  In field (QueryProfile.exact (QuerySet.profileOf k)
            ++ QueryProfile.range (QuerySet.profileOf k))
  /\ exists s, Js.obj_get field (QuerySet.indexFieldStatistics k) = Some s
               /\ arrayPrefixes s = []
               /\ mode s = normal.

(** The votes of a round are backed by voters: profiles of [l] that
    justify the field, which [index] does not have. *)
Definition backed (index : MongoIndex.t) (l : list QuerySet.Known)
  (ballot : QuerySet.Ballot) : Prop :=
  (forall f, In f (Js.obj_keys (QuerySet.extensionFieldVotes ballot)) ->
             exists voters,
               Js.obj_get f (QuerySet.extensionFieldQueryProfiles ballot)
               = Some voters)
  /\ forall f voters,
       Js.obj_get f (QuerySet.extensionFieldQueryProfiles ballot) = Some voters ->
       voters <> []
       /\ ~ In f (Js.obj_keys (MongoIndex.definition index))
       /\ forall k, In k voters -> In k l /\ justifies k f.

(** The body of [indexQueryProfiles.forEach] in [tally]. *)
Definition round (index : MongoIndex.t) :=
  fun ballot queryProfile =>
    Js.bind (QuerySet.eligibleExtensionFields index queryProfile)
            (fun eligible =>
               QuerySet.forEach (QuerySet.castVote queryProfile) eligible ballot).

(** The fields of [C] that [index] does not have. *)
Definition missing (index : MongoIndex.t) (C : list string) : list string :=
  filter (fun f => negb (isMember (Js.obj_keys (MongoIndex.definition index)) f)) C.

Module ExtendScenario.

(** A profile of [db.users] asked [times] times, with the statistics of
    [ReduceScenario]. *)
Definition asked (times : Z) (e r : list string) : QuerySet.Known :=
  let p := {| QueryProfile.namespace := "db.users"; QueryProfile.exact := e;
              QueryProfile.sort := []; QueryProfile.range := r;
              QueryProfile.lastQueryTime := 0;
              QueryProfile.usageCount := times;
              QueryProfile.sources := [] |} in
  {| QuerySet.profileOf := p;
     QuerySet.indexFieldStatistics :=
       QueryProfile.getCardinalitiesForIndexOptimization
         Scenario.options ReduceScenario.statistics p |}.

(** The profiles known to use the index on [x]: one on [x] and [y], one
    on [x] with a range on [z], one on [x] and on [a.u], which lies in an
    array. *)
Definition profiles : list QuerySet.Known :=
  [asked 5 ["x"; "y"] []; asked 3 ["x"] ["z"]; asked 9 ["x"; "a.u"] []].

Definition index : MongoIndex.t := ReduceScenario.index 0 [("x", Num 1)].

(** The index once extended: [y] has the most votes, and the one profile
    that voted for it has no further field. *)
Definition extended : MongoIndex.t := MongoIndex.addField index "y".

(** One profile on [x] and on a field named [constructor], with
    statistics for both. *)
Definition inherited : list QuerySet.Known :=
  [{| QuerySet.profileOf :=
        {| QueryProfile.namespace := "db.users";
           QueryProfile.exact := ["x"; "constructor"];
           QueryProfile.sort := []; QueryProfile.range := [];
           QueryProfile.lastQueryTime := 0;
           QueryProfile.usageCount := 4;
           QueryProfile.sources := [] |};
      QuerySet.indexFieldStatistics :=
        [("x", Scenario.fieldStats 100 []);
         ("constructor", Scenario.fieldStats 40 [])] |}].

End ExtendScenario.

(** ** Saving and loading statistics *)

(** How many times [c] occurs in [s]. *)
Fixpoint occurrences (c : ascii) (s : string) : nat :=
  match s with
  | EmptyString => 0
  | String d r => (if Ascii.eqb d c then 1 else 0) + occurrences c r
  end.

(** A field name without underscore and with at most one period. *)
Definition plainName (fieldName : string) : bool :=
  (occurrences "_" fieldName =? 0)%nat && (occurrences "." fieldName <=? 1)%nat.

(** The loop of [constructor] and of [toJSON]: every property of [o] is
    copied under the name [f] makes of its own. *)
Definition renamed {V} (f : string -> string) (o : Js.obj V) : Js.obj V :=
  fold_left
    (fun acc fieldName =>
       match Js.obj_get fieldName o with
       | Some v => Js.obj_set (f fieldName) v acc
       | None => acc
       end)
    (Js.obj_keys o) [].

Module RoundTripScenario.

(** Statistics of a collection with a top-level field and a field of an
    embedded document. *)
Definition statistics : CollectionStatistics.t :=
  Scenario.collection
    [("name", Scenario.fieldStats 5000 []);
     ("address.city", Scenario.fieldStats 900 [])] [].

End RoundTripScenario.

(** ** The fields of the optimized indexes *)

(** The exact fields by descending and the range fields by ascending
    cardinality, as the getter reorders them. *)
Definition sortedExact (ks : QueryProfile.KeyStatistics) (p : QueryProfile.t)
  : list string :=
  Underscore.sortBy Z.leb (fun f => (- cardinalityOf ks f)%Z) (QueryProfile.exact p).

Definition sortedRange (ks : QueryProfile.KeyStatistics) (p : QueryProfile.t)
  : list string :=
  Underscore.sortBy Z.leb (cardinalityOf ks) (QueryProfile.range p).

(** The cardinality of [f] reaches the minimum of the options. *)
Definition reaches (options : Options) (ks : QueryProfile.KeyStatistics)
  (f : string) : bool :=
  (minimumCardinality options <=? cardinalityOf ks f)%Z.

(** There is no sort and no exact or range field reaches the minimum: the
    case in which the getter reverts to all the exact and range fields. *)
Definition reverts (options : Options) (ks : QueryProfile.KeyStatistics)
  (p : QueryProfile.t) : bool :=
  (List.length (filter (reaches options ks) (sortedExact ks p))
   + List.length (Js.obj_keys (QueryProfile.sort p))
   + List.length (filter (reaches options ks) (sortedRange ks p)) =? 0)%nat.

Definition isNormal (ks : QueryProfile.KeyStatistics) (f : string) : bool :=
  Mode_eqb (mode (statisticsOf ks f)) normal.

(** An exact or range field [f] stays in the compound index. *)
Definition keeps (options : Options) (ks : QueryProfile.KeyStatistics)
  (p : QueryProfile.t) (f : string) : bool :=
  (if reverts options ks p then true else reaches options ks f)
  && isNormal ks f.

(** The sort keys that stay, and the direction of the first of them. *)
Definition keptSort (ks : QueryProfile.KeyStatistics) (p : QueryProfile.t)
  : Js.obj Z :=
  filter (fun kv => isNormal ks (fst kv)) (QueryProfile.sort p).

Definition firstDirection (ks : QueryProfile.KeyStatistics) (p : QueryProfile.t)
  : Z :=
  match keptSort ks p with
  | (_, direction) :: _ => direction
  | [] => 1%Z
  end.

(** The compound index of a profile whose fields lie in at most one
    array. *)
Definition compoundOf (options : Options) (ks : QueryProfile.KeyStatistics)
  (p : QueryProfile.t) : IndexDefinition :=
  QueryProfile.buildIndex (filter (keeps options ks p) (sortedExact ks p))
                          (keptSort ks p)
                          (filter (keeps options ks p) (sortedRange ks p)).

(** The exact and range fields that stay, in the order of the getter. *)
Definition keptExact (options : Options) (ks : QueryProfile.KeyStatistics)
  (p : QueryProfile.t) : list string :=
  filter (keeps options ks p) (sortedExact ks p).

Definition keptRange (options : Options) (ks : QueryProfile.KeyStatistics)
  (p : QueryProfile.t) : list string :=
  filter (keeps options ks p) (sortedRange ks p).

(** The arrays the fields that stay lie in. *)
Definition arraysOfKept (options : Options) (ks : QueryProfile.KeyStatistics)
  (p : QueryProfile.t) : list string :=
  Underscore.uniq String.eqb
    (flat_map (fun f => arrayPrefixes (statisticsOf ks f))
              (keptExact options ks p
               ++ (keptRange options ks p ++ Js.obj_keys (keptSort ks p)))).

(** The field [f] does not lie in the array [a]. *)
Definition outsideOf (ks : QueryProfile.KeyStatistics) (a f : string) : bool :=
  (List.length (arrayPrefixes (statisticsOf ks f)) =? 0)%nat
  || negb (isMember (arrayPrefixes (statisticsOf ks f)) a).

(** The compound index made for the array [a] when the fields lie in two
    or more arrays and no sort key stays; the empty string as array
    leaves every field in. *)
Definition compoundWithout (options : Options) (ks : QueryProfile.KeyStatistics)
  (p : QueryProfile.t) (a : string) : IndexDefinition :=
  let stays f := String.eqb a "" || outsideOf ks a f in
  QueryProfile.buildIndex (filter stays (keptExact options ks p)) []
                          (filter stays (keptRange options ks p)).

(** The compound indexes the getter makes, the empty ones included. *)
Definition compoundsOf (options : Options) (ks : QueryProfile.KeyStatistics)
  (p : QueryProfile.t) : list IndexDefinition :=
  if (List.length (arraysOfKept options ks p) <? 2)%nat
  then [compoundOf options ks p]
  else map (compoundWithout options ks p) (arraysOfKept options ks p).

Definition nonEmpty (index : IndexDefinition) : bool :=
  (0 <? List.length (Js.obj_keys index))%nat.

(** The statistics the profile was given have an entry for each of its
    fields. *)
Definition covers (ks : QueryProfile.KeyStatistics) (p : QueryProfile.t) : Prop :=
  forall f, In f (allFields p) -> exists s, Js.obj_get f ks = Some s.

(** No field of the profile is named like an array index, which objects
    enumerate first, or like a property that every object inherits. *)
Definition ordinaryNames (p : QueryProfile.t) : Prop :=
  forall f, In f (allFields p) ->
            Js.array_index f = None /\ Js.inherited f = false.

(** No sort key stays in the index, or its fields lie in fewer than two
    arrays: the profiles for which the getter does not filter the sort by
    array. *)
Definition sortIsNotSplit (options : Options) (ks : QueryProfile.KeyStatistics)
  (p : QueryProfile.t) : Prop :=
  keptSort ks p = [] \/ (List.length (arraysOfKept options ks p) < 2)%nat.

(** No exact or range field reaches the minimum cardinality, and there is
    no sort. *)
Definition nothingReaches (options : Options) (ks : QueryProfile.KeyStatistics)
  (p : QueryProfile.t) : Prop :=
  QueryProfile.sort p = []
  /\ forall g, In g (QueryProfile.exact p ++ QueryProfile.range p) ->
               (cardinalityOf ks g < minimumCardinality options)%Z.

(** The fields the compound index is made of. *)
Definition kept (options : Options) (ks : QueryProfile.KeyStatistics)
  (p : QueryProfile.t) (f : string) : Prop :=
  mode (statisticsOf ks f) = normal
  /\ (In f (Js.obj_keys (QueryProfile.sort p))
      \/ (In f (QueryProfile.exact p ++ QueryProfile.range p)
          /\ ((minimumCardinality options <= cardinalityOf ks f)%Z
              \/ nothingReaches options ks p))).

Module YearScenario.

(** [find({name: n, 2015: {$gt: m}})]: a range field named like an array
    index. *)
Definition profile : QueryProfile.t :=
  Scenario.queryProfile ["name"] [] ["2015"].

Definition ks : QueryProfile.KeyStatistics :=
  [("name", Scenario.fieldStats 5000 []); ("2015", Scenario.fieldStats 40 [])].

(** The compound index the getter makes. *)
Definition index : IndexDefinition := [("2015", Num 1); ("name", Num 1)].

End YearScenario.

Module DirectionScenario.

(** [find({state: s, score: {$gt: n}}).sort({name: -1, age: 1})] on the
    collection of [OrderingScenario]. *)
Definition profile : QueryProfile.t :=
  Scenario.queryProfile ["state"] [("name", (-1)%Z); ("age", 1%Z)] ["score"].

Definition ks : QueryProfile.KeyStatistics :=
  QueryProfile.getCardinalitiesForIndexOptimization
    Scenario.options OrderingScenario.statistics profile.

End DirectionScenario.

(** ** The statistics of a sample *)

(** [p] is followed by an array mark in [name]. *)
Definition arrayPrefixOf (name p : string) : Prop :=
  exists rest, name = (p ++ ".[]" ++ rest)%string.

(** The statistics [v] are those of the sampled field [name]. *)
Definition sampledAs (gathered : Js.obj MongoSampler.Gathered) (name : string)
  (v : FieldStatistics) : Prop :=
  exists g,
    In (name, g) gathered
    /\ cardinality v = MongoSampler.size g
    /\ longest v = MongoSampler.longestValue g
    /\ mode v = normal
    /\ forall p, In p (arrayPrefixes v) <-> arrayPrefixOf name p.

Module SamplerScenario.

(** What a sample of a collection of orders has gathered: a name, an
    array of tags, and the stock-keeping unit of the parts of the items. *)
Definition gathered : Js.obj MongoSampler.Gathered :=
  [("name", {| MongoSampler.size := 5000; MongoSampler.longestValue := 12 |});
   ("tags.[]", {| MongoSampler.size := 40; MongoSampler.longestValue := 8 |});
   ("items.[].parts.[].sku",
    {| MongoSampler.size := 900; MongoSampler.longestValue := 2000 |})].

End SamplerScenario.

(* ================================================================== *)
(** * Part II: the properties *)
(* ================================================================== *)

(** ** Auxiliary facts *)

Section Auxiliary.

Lemma mapM_inv {A B} (f : A -> Js.result B) l ys :
  Js.mapM f l = Js.Ok ys -> Forall2 (fun x y => f x = Js.Ok y) l ys.
Proof.
  revert ys; induction l as [|x l IH]; simpl; intros ys H.
  - injection H as <-; constructor.
  - destruct (f x) as [y|] eqn:Hx; simpl in H; [|discriminate].
    destruct (Js.mapM f l) as [ys'|]; simpl in H; [|discriminate].
    injection H as <-. constructor; auto.
Qed.

Lemma mapM_total {A B} (f : A -> Js.result B) l :
  (forall x, In x l -> exists y, f x = Js.Ok y) ->
  exists ys, Js.mapM f l = Js.Ok ys.
Proof.
  induction l as [|x l IH]; simpl; intros H.
  - eexists; reflexivity.
  - destruct (H x (or_introl eq_refl)) as [y Hy]. rewrite Hy; simpl.
    destruct IH as [ys Hys]; [intros; apply H; auto|].
    rewrite Hys; simpl. eexists; reflexivity.
Qed.

(** [_.max] returns an item of greatest value. *)
Section MaxFacts.
Context {A : Type} (it : A -> Q).

Let step (result : option A) (x : A) : option A :=
  match result with
  | None => Some x
  | Some y => if negb (Qle_bool (it x) (it y)) then Some x else result
  end.

Lemma max_fold_some (l : list A) (y : A) :
  exists z, fold_left step l (Some y) = Some z
            /\ In z (y :: l)
            /\ (it y <= it z)%Q
            /\ forall x, In x l -> (it x <= it z)%Q.
Proof.
  revert y; induction l as [|x l IH]; intros y; simpl.
  - exists y; repeat split; auto using Qle_refl. intros x [].
  - destruct (Qle_bool (it x) (it y)) eqn:Hle; simpl.
    + apply Qle_bool_iff in Hle.
      destruct (IH y) as (z & Hz & Hin & Hy & Hall).
      exists z; repeat split; auto.
      * destruct Hin as [<-|Hin]; [left; auto | right; right; auto].
      * intros x' [<-|Hx']; [eapply Qle_trans; eauto | auto].
    + assert (Hlt : (it y < it x)%Q).
      { apply Qnot_le_lt. intros H. apply Qle_bool_iff in H. congruence. }
      destruct (IH x) as (z & Hz & Hin & Hx & Hall).
      exists z; repeat split; auto.
      * eapply Qle_trans; [apply Qlt_le_weak; eauto | auto].
      * intros x' [<-|Hx']; auto.
Qed.

Lemma max_spec (l : list A) :
  l <> [] ->
  exists z, Underscore.max it l = Some z /\ In z l
            /\ forall x, In x l -> (it x <= it z)%Q.
Proof.
  destruct l as [|y l]; [congruence | intros _].
  unfold Underscore.max; simpl.
  destruct (max_fold_some l y) as (z & Hz & Hin & Hy & Hall).
  exists z; repeat split; auto.
  intros x [<-|Hx]; auto.
Qed.

End MaxFacts.

(** The loop that looks for the record found by [_.max] ends on a field
    that has this record. *)
Lemma lastWithRef_spec (r : nat) (l : list (string * nat)) (init : option string) :
  (exists fr, In fr l /\ snd fr = r) ->
  exists fr, In fr l /\ snd fr = r
    /\ fold_left (fun found fr => if (snd fr =? r)%nat then Some (fst fr) else found)
                 l init = Some (fst fr).
Proof.
  revert init; induction l as [|x l IH]; intros init (fr & Hin & Hr).
  - destruct Hin.
  - simpl.
    destruct (existsb (fun fr => (snd fr =? r)%nat) l) eqn:Hex.
    + apply existsb_exists in Hex. destruct Hex as (fr' & Hin' & Hr').
      apply Nat.eqb_eq in Hr'.
      destruct (IH (if (snd x =? r)%nat then Some (fst x) else init))
        as (g & Hg & Hgr & Hfold); [eauto|].
      exists g; repeat split; auto.
    + assert (Hno : forall init', fold_left
                (fun found fr => if (snd fr =? r)%nat then Some (fst fr) else found)
                l init' = init').
      { clear -Hex. induction l as [|y l IH]; intros init'; simpl; auto.
        simpl in Hex. apply orb_false_iff in Hex. destruct Hex as [Hy Hl].
        rewrite Hy. apply IH; auto. }
      rewrite Hno.
      destruct Hin as [<-|Hin].
      * exists x; split; [left; auto|]. split; [auto|].
        subst r. rewrite Nat.eqb_refl. reflexivity.
      * exfalso. assert (existsb (fun fr => (snd fr =? r)%nat) l = true).
        { apply existsb_exists. exists fr; split; auto. apply Nat.eqb_eq; auto. }
        congruence.
Qed.

(** Comparisons, membership and deletion. *)
Lemma Qgtb_true a b : QuerySet.Qgtb a b = true <-> (b < a)%Q.
Proof.
  unfold QuerySet.Qgtb. rewrite negb_true_iff. split.
  - intros H. apply Qnot_le_lt. intros Hle. apply Qle_bool_iff in Hle. congruence.
  - intros H. destruct (Qle_bool a b) eqn:E; auto.
    apply Qle_bool_iff in E. exfalso. eapply Qlt_not_le; eauto.
Qed.

Lemma contains_In l x : Underscore.contains String.eqb l x = true <-> In x l.
Proof.
  unfold Underscore.contains. rewrite existsb_exists. split.
  - intros (y & Hy & E). apply String.eqb_eq in E. subst; auto.
  - intros H. exists x; split; auto. apply String.eqb_refl.
Qed.

Lemma difference_In a b x :
  In x (Underscore.difference String.eqb a b) <-> In x a /\ ~ In x b.
Proof.
  unfold Underscore.difference. rewrite filter_In, negb_true_iff.
  split; intros [H1 H2]; split; auto.
  - intros H. apply contains_In in H. congruence.
  - destruct (Underscore.contains String.eqb b x) eqn:E; auto.
    apply contains_In in E. contradiction.
Qed.

Lemma obj_delete_length {V} (f : string) (o : Js.obj V) :
  NoDup (Js.obj_keys o) -> In f (Js.obj_keys o) ->
  S (List.length (Js.obj_keys (Js.obj_delete f o))) = List.length (Js.obj_keys o).
Proof.
  unfold Js.obj_keys, Js.obj_delete.
  induction o as [|[k v] o IH]; simpl; intros Hnd Hin; [destruct Hin|].
  inversion Hnd as [|? ? Hk Hnd']; subst.
  destruct (String.eqb k f) eqn:E; simpl.
  - apply String.eqb_eq in E; subst k. f_equal.
    assert (Hall : filter (fun kv : string * V => negb (fst kv =? f)%string) o = o).
    { clear -Hk. induction o as [|[k' v'] o IH]; simpl; auto.
      simpl in Hk. destruct (String.eqb k' f) eqn:E; simpl.
      - apply String.eqb_eq in E. subst. exfalso; apply Hk; auto.
      - f_equal. apply IH. intros H; apply Hk; auto. }
    rewrite Hall. reflexivity.
  - f_equal. apply IH; auto.
    destruct Hin as [->|Hin]; auto. rewrite String.eqb_refl in E; discriminate.
Qed.

Lemma examined_spec index (eligible : list string) examined :
  Js.mapM (fun field => ref <- QuerySet.statRef index field ;; Js.Ok (field, ref))
          eligible = Js.Ok examined ->
  (forall fr, In fr examined ->
      In (fst fr) eligible /\ QuerySet.statRef index (fst fr) = Js.Ok (snd fr))
  /\ (forall f, In f eligible -> exists fr, In fr examined /\ fst fr = f).
Proof.
  intros H. apply mapM_inv in H.
  induction H as [|x y l l' Hxy Hall IH]; simpl.
  - split; [intros ? [] | intros ? []].
  - destruct (QuerySet.statRef index x) as [ref|] eqn:E; simpl in Hxy; [|discriminate].
    injection Hxy as <-. destruct IH as [IH1 IH2]. split.
    + intros fr [<-|Hin]; simpl; auto. destruct (IH1 fr Hin); auto.
    + intros f [<-|Hin]; [exists (x, ref); auto|].
      destruct (IH2 f Hin) as (fr & ? & ?). exists fr; auto.
Qed.

Lemma simplifyIndex_spec heap options queryProfiles index :
  List.length (Js.obj_keys (MongoIndex.definition index)) <> 1%nat ->
  readyForSimplification index ->
  exists cont index',
    QuerySet.simplifyIndex heap options queryProfiles index = Js.Ok (cont, index')
    /\ simplified heap options queryProfiles index index'.
Proof.
  intros Hlen (Hnd & Hne & Hstat).
  unfold QuerySet.simplifyIndex.
  apply Nat.eqb_neq in Hlen. rewrite Hlen.
  fold (eligibleFields queryProfiles index).
  set (eligible := eligibleFields queryProfiles index).
  assert (Hsub : forall f, In f eligible ->
             In f (Js.obj_keys (MongoIndex.definition index))
             /\ ~ In f (QuerySet.sortFields queryProfiles index)).
  { intros f Hf. apply difference_In in Hf. exact Hf. }
  destruct (mapM_total
              (fun field => ref <- QuerySet.statRef index field ;; Js.Ok (field, ref))
              eligible) as [examined Hex].
  { intros f Hf. destruct (Hstat f) as [ref Hr]; [apply Hsub; auto|].
    rewrite Hr; simpl. eexists; reflexivity. }
  rewrite Hex; simpl.
  destruct (examined_spec _ _ _ Hex) as [Hexa Hcov].
  assert (Hred : forall fr, In fr examined ->
             reductionOf heap index (fst fr)
             = Some (MongoIndex.reduction (heap (snd fr)))).
  { intros fr Hfr. unfold reductionOf. destruct (Hexa fr Hfr) as [_ ->]. reflexivity. }
  destruct (filter _ examined) as [|fr0 rest] eqn:Hfil; simpl.
  - (* nothing exceeds the minimum *)
    exists false, index. split; [reflexivity|].
    assert (Hnone : forall f, In f eligible -> ~ exceedsMinimum heap options index f).
    { intros f Hf (q & Hq & Hlt).
      destruct (Hcov f Hf) as (fr & Hfr & <-).
      rewrite (Hred fr Hfr) in Hq. injection Hq as <-.
      assert (Hin : In fr (filter
                 (fun fr => QuerySet.Qgtb (MongoIndex.reduction (heap (snd fr)))
                                         (minimumReduction options)) examined)).
      { apply filter_In; split; auto. apply Qgtb_true; auto. }
      rewrite Hfil in Hin. destruct Hin. }
    split; [|auto].
    intros (f & Hf & He). exfalso. eapply Hnone; eauto.
  - (* some field exceeds it *)
    assert (Hfr0 : In fr0 examined
                   /\ (minimumReduction options < MongoIndex.reduction (heap (snd fr0)))%Q).
    { assert (Hin : In fr0 (fr0 :: rest)) by (left; auto).
      rewrite <- Hfil in Hin. apply filter_In in Hin. destruct Hin as [? Hg].
      split; auto. apply Qgtb_true; auto. }
    destruct Hfr0 as [Hfr0 Hlt0].
    destruct (max_spec (fun fr : string * nat => MongoIndex.reduction (heap (snd fr)))
                       examined) as (z & Hz & Hzin & Hzmax).
    { intros ->. destruct Hfr0. }
    rewrite Hz. destruct z as [fz rz]; simpl in *.
    destruct (lastWithRef_spec rz examined None) as (fr' & Hin' & Hr' & Hfold).
    { exists (fz, rz); auto. }
    rewrite Hfold.
    destruct (Hexa fr' Hin') as [Hel' Hst'].
    destruct (Hsub _ Hel') as [Hkey' Hns'].
    assert (Hnonempty : String.eqb (fst fr') "" = false).
    { apply String.eqb_neq. intros E. apply Hne. rewrite <- E. auto. }
    rewrite Hnonempty.
    exists true, (MongoIndex.removeField index (fst fr')). split; [reflexivity|].
    split.
    + intros _. exists (fst fr'). split; [auto|]. split; [auto|].
      split; [|split; [|split]].
      * exists (MongoIndex.reduction (heap rz)). split.
        -- rewrite (Hred fr' Hin'), Hr'. reflexivity.
        -- eapply Qlt_le_trans; [exact Hlt0|]. apply (Hzmax fr0 Hfr0).
      * exists (MongoIndex.reduction (heap rz)). split.
        -- rewrite (Hred fr' Hin'), Hr'. reflexivity.
        -- intros g q' Hg Hq'. destruct (Hcov g Hg) as (frg & Hfrg & <-).
           rewrite (Hred frg Hfrg) in Hq'. injection Hq' as <-.
           apply (Hzmax frg Hfrg).
      * reflexivity.
      * simpl. apply obj_delete_length; auto.
    + intros Hnone. exfalso. apply (Hnone (fst fr0)).
      * apply (Hexa fr0 Hfr0).
      * exists (MongoIndex.reduction (heap (snd fr0))). split; auto.
Qed.

(** Reading a property after an assignment. *)
Lemma obj_get_None {V} k (o : Js.obj V) :
  Js.obj_get k o = None <-> ~ In k (Js.obj_keys o).
Proof.
  induction o as [|[k' v] o IH]; simpl; [tauto|].
  destruct (String.eqb k' k) eqn:E.
  - apply String.eqb_eq in E. split; [discriminate | intros H; exfalso; apply H; auto].
  - apply String.eqb_neq in E. rewrite IH. tauto.
Qed.

Lemma obj_get_update {V} k k' (v : V) o :
  Js.obj_get k (Js.obj_update k' v o)
  = if String.eqb k' k
    then match Js.obj_get k o with Some _ => Some v | None => None end
    else Js.obj_get k o.
Proof.
  induction o as [|[k0 v0] o IH]; simpl.
  - destruct (String.eqb k' k); reflexivity.
  - destruct (String.eqb k0 k') eqn:E0; simpl.
    + apply String.eqb_eq in E0; subst k0.
      destruct (String.eqb k' k); reflexivity.
    + destruct (String.eqb k0 k) eqn:E1.
      * apply String.eqb_eq in E1; subst k0.
        rewrite String.eqb_sym in E0. rewrite E0. reflexivity.
      * exact IH.
Qed.

Lemma obj_get_insert_index {V} n k k' (v : V) o :
  Js.obj_get k' o = None ->
  Js.obj_get k (Js.obj_insert_index n k' v o)
  = if String.eqb k' k then Some v else Js.obj_get k o.
Proof.
  induction o as [|[k0 v0] o IH]; simpl; intros Hnone.
  - reflexivity.
  - destruct (String.eqb k0 k') eqn:E0; [discriminate|].
    assert (Hhead : Js.obj_get k ((k', v) :: (k0, v0) :: o)
                    = if String.eqb k' k then Some v
                      else if String.eqb k0 k then Some v0 else Js.obj_get k o)
      by reflexivity.
    destruct (Js.array_index k0) as [m|]; [|exact Hhead].
    destruct (m <? n)%N; [|exact Hhead].
    simpl. rewrite (IH Hnone).
    destruct (String.eqb k0 k) eqn:E1; [|reflexivity].
    apply String.eqb_eq in E1; subst k0.
    rewrite String.eqb_sym in E0. rewrite E0. reflexivity.
Qed.

Lemma obj_get_app {V} k (o o' : Js.obj V) :
  Js.obj_get k (o ++ o')
  = match Js.obj_get k o with Some x => Some x | None => Js.obj_get k o' end.
Proof.
  induction o as [|[k0 v0] o IH]; simpl; [reflexivity|].
  destruct (String.eqb k0 k); auto.
Qed.

Lemma obj_get_set {V} k k' (v : V) o :
  Js.obj_get k (Js.obj_set k' v o)
  = if String.eqb k' k then Some v else Js.obj_get k o.
Proof.
  unfold Js.obj_set, Js.obj_has.
  destruct (Js.obj_get k' o) as [x|] eqn:E.
  - rewrite obj_get_update. destruct (String.eqb k' k) eqn:E'; [|reflexivity].
    apply String.eqb_eq in E'; subst. rewrite E. reflexivity.
  - destruct (Js.array_index k') as [n|].
    + apply obj_get_insert_index; auto.
    + rewrite obj_get_app. simpl.
      destruct (String.eqb k' k) eqn:E'.
      * apply String.eqb_eq in E'; subst. rewrite E. reflexivity.
      * destruct (Js.obj_get k o); reflexivity.
Qed.

(** [_.groupBy]: the group of a key holds the items of that key, in
    their order. *)
Lemma groupBy_get {A} (f : A -> string) (l : list A) (k : string) :
  Js.obj_get k (Underscore.groupBy f l)
  = match filter (fun x => String.eqb (f x) k) l with
    | [] => None
    | g => Some g
    end.
Proof.
  unfold Underscore.groupBy.
  assert (H : forall seen acc,
             (forall k, Js.obj_get k acc
                        = match filter (fun x => String.eqb (f x) k) seen with
                          | [] => None | g => Some g end) ->
             forall k, Js.obj_get k
               (fold_left
                  (fun result x =>
                     match Js.obj_get (f x) result with
                     | Some group => Js.obj_update (f x) (group ++ [x]) result
                     | None => Js.obj_set (f x) [x] result
                     end) l acc)
             = match filter (fun x => String.eqb (f x) k) (seen ++ l) with
               | [] => None | g => Some g end).
  { clear k. induction l as [|x l IH]; intros seen acc Hinv k.
    - simpl. rewrite app_nil_r. apply Hinv.
    - simpl. replace (seen ++ x :: l) with ((seen ++ [x]) ++ l)
        by (rewrite <- app_assoc; reflexivity).
      apply IH. intros k'. rewrite filter_app. simpl.
      pose proof (Hinv (f x)) as Hx. pose proof (Hinv k') as Hk'.
      destruct (Js.obj_get (f x) acc) as [group|] eqn:Eg.
      + rewrite obj_get_update.
        destruct (String.eqb (f x) k') eqn:E.
        * apply String.eqb_eq in E; subst k'. rewrite Eg.
          destruct (filter (fun x0 => (f x0 =? f x)%string) seen) as [|a g] eqn:Ef;
            [discriminate|].
          injection Hx as ->. reflexivity.
        * rewrite Hk', app_nil_r. reflexivity.
      + rewrite obj_get_set.
        destruct (String.eqb (f x) k') eqn:E.
        * apply String.eqb_eq in E; subst k'.
          destruct (filter (fun x0 => (f x0 =? f x)%string) seen) as [|a g] eqn:Ef;
            [reflexivity | discriminate].
        * rewrite Hk', app_nil_r. reflexivity. }
  apply (H [] [] (fun _ => eq_refl)).
Qed.

Lemma groupBy_key {A} (f : A -> string) (l : list A) (k : string) :
  In k (Js.obj_keys (Underscore.groupBy f l)) <-> exists x, In x l /\ f x = k.
Proof.
  split.
  - intros Hin.
    destruct (Js.obj_get k (Underscore.groupBy f l)) as [g|] eqn:E.
    + rewrite groupBy_get in E.
      destruct (filter (fun x => (f x =? k)%string) l) as [|x g'] eqn:Ef; [discriminate|].
      assert (Hx : In x (filter (fun x => (f x =? k)%string) l)) by (rewrite Ef; left; auto).
      apply filter_In in Hx. destruct Hx as [Hx Hk]. apply String.eqb_eq in Hk.
      exists x; auto.
    + apply obj_get_None in E. contradiction.
  - intros (x & Hx & Hk).
    destruct (Js.obj_get k (Underscore.groupBy f l)) as [g|] eqn:E.
    + destruct (in_dec string_dec k (Js.obj_keys (Underscore.groupBy f l))); auto.
      apply obj_get_None in n. congruence.
    + rewrite groupBy_get in E.
      assert (Hin : In x (filter (fun x => (f x =? k)%string) l)).
      { apply filter_In; split; auto. apply String.eqb_eq; auto. }
      destruct (filter (fun x => (f x =? k)%string) l); [destruct Hin | discriminate].
Qed.

(** Membership in the results of [_.uniq], [_.intersection] and
    [_.sortBy]. *)
Lemma uniq_fold_In (l acc : list string) x :
  In x (fold_left (fun result y =>
                     if Underscore.contains String.eqb result y then result
                     else result ++ [y]) l acc)
  <-> In x acc \/ In x l.
Proof.
  revert acc; induction l as [|y l IH]; intros acc; simpl; [tauto|].
  rewrite IH.
  destruct (Underscore.contains String.eqb acc y) eqn:E.
  - apply contains_In in E. split; [tauto|]. intros [H|[<-|H]]; auto.
  - rewrite in_app_iff. simpl. tauto.
Qed.

Lemma uniq_In (l : list string) x : In x (Underscore.uniq String.eqb l) <-> In x l.
Proof. unfold Underscore.uniq. rewrite uniq_fold_In. simpl. tauto. Qed.

Lemma intersection_In (a b : list string) x :
  In x (Underscore.intersection String.eqb a b) <-> In x a /\ In x b.
Proof.
  unfold Underscore.intersection.
  assert (H : forall acc,
             In x (fold_left
                     (fun result y =>
                        if Underscore.contains String.eqb result y then result
                        else if Underscore.contains String.eqb b y
                             then result ++ [y] else result) a acc)
             <-> In x acc \/ (In x a /\ In x b)).
  { induction a as [|y a IH]; intros acc; simpl; [tauto|].
    rewrite IH.
    destruct (Underscore.contains String.eqb acc y) eqn:E.
    - apply contains_In in E. split; [tauto|].
      intros [H|[[<-|H] Hb]]; auto.
    - destruct (Underscore.contains String.eqb b y) eqn:Eb.
      + apply contains_In in Eb. rewrite in_app_iff. simpl.
        split; [intros [[H|[<-|[]]]|[H1 H2]]; auto | ].
        intros [H|[[<-|H] Hb]]; auto.
      + assert (~ In y b) by (intros H; apply contains_In in H; congruence).
        split; [tauto|]. intros [H'|[[<-|H'] Hb]]; auto. contradiction. }
  rewrite H. simpl. tauto.
Qed.

Lemma sort_insert_In {A K} (leb : K -> K -> bool) (c : A -> K) x l y :
  In y (Underscore.sort_insert leb c x l) <-> y = x \/ In y l.
Proof.
  induction l as [|z l IH]; simpl; [intuition auto|].
  destruct (leb (c x) (c z)); simpl; [intuition auto|].
  rewrite IH. intuition auto.
Qed.

Lemma sortBy_In {A K} (leb : K -> K -> bool) (c : A -> K) l y :
  In y (Underscore.sortBy leb c l) <-> In y l.
Proof.
  induction l as [|x l IH]; simpl; [tauto|].
  rewrite sort_insert_In, IH. intuition auto.
Qed.

(** Membership in the results of a filter or a map that may throw. *)
Lemma filterM_In {A} (f : A -> Js.result bool) l ys :
  Js.filterM f l = Js.Ok ys ->
  forall y, In y ys <-> In y l /\ f y = Js.Ok true.
Proof.
  revert ys; induction l as [|x l IH]; simpl; intros ys H y.
  - injection H as <-. simpl. tauto.
  - destruct (f x) as [b|] eqn:Ex; simpl in H; [|discriminate].
    destruct (Js.filterM f l) as [ys'|]; simpl in H; [|discriminate].
    injection H as <-. specialize (IH ys' eq_refl y).
    destruct b; simpl; rewrite IH.
    + split; [intros [<-|[? ?]]; auto | intros [[<-|?] ?]; auto].
    + split; [intros [? ?]; auto | intros [[<-|?] ?]; auto; congruence].
Qed.

Lemma filterM_total {A} (f : A -> Js.result bool) l :
  (forall x, In x l -> exists b, f x = Js.Ok b) ->
  exists ys, Js.filterM f l = Js.Ok ys.
Proof.
  induction l as [|x l IH]; simpl; intros H.
  - eexists; reflexivity.
  - destruct (H x (or_introl eq_refl)) as [b Hb]. rewrite Hb; simpl.
    destruct IH as [ys Hys]; [intros; apply H; auto|].
    rewrite Hys; simpl. eexists; reflexivity.
Qed.

Lemma mapM_In {A B} (f : A -> Js.result B) l ys :
  Js.mapM f l = Js.Ok ys ->
  (forall x, In x l -> exists y, f x = Js.Ok y /\ In y ys)
  /\ (forall y, In y ys -> exists x, In x l /\ f x = Js.Ok y).
Proof.
  intros H. apply mapM_inv in H.
  induction H as [|x y l l' Hxy Hall [IH1 IH2]]; simpl.
  - split; intros ? [].
  - split.
    + intros x' [<-|Hx']; [exists y; auto|].
      destruct (IH1 x' Hx') as (y' & ? & ?). exists y'; auto.
    + intros y' [<-|Hy']; [exists x; auto|].
      destruct (IH2 y' Hy') as (x' & ? & ?). exists x'; auto.
Qed.

End Auxiliary.

(** ** Serialization of collection statistics *)

(** C6 (fails on the code).  Serializing and reloading statistics whose
    only field path is [a.b.c] gives back the key [a.b_____c]:
    [toJSON] encodes every period, the constructor decodes only the first
    separator. *)
Theorem C6_second_period_is_not_restored :
  Js.obj_keys
    (CollectionStatistics.fieldStatistics
       (CollectionStatistics.toJSON Scenario.nestedPath))
  = ["a_____b_____c"]
  /\ Js.obj_keys
       (CollectionStatistics.fieldStatistics
          (CollectionStatistics.constructor
             (CollectionStatistics.toJSON Scenario.nestedPath)))
     = ["a.b_____c"]
  /\ Js.obj_get "a.b.c"
       (CollectionStatistics.fieldStatistics
          (CollectionStatistics.constructor
             (CollectionStatistics.toJSON Scenario.nestedPath)))
     = None.
Proof. repeat split; vm_compute; reflexivity. Qed.

(** ** Query decomposition *)

(** C4, as amended.  The query of scenario S1 decomposes into two
    profiles; the second one has [email] among its exact fields and an
    empty range, because [email: "x"] is an equality on a primitive. *)
Theorem C4_or_expansion (now : Z) (namespace : string) :
  exists p1 p2,
    QueryProfile.createQueryProfilesFromMongoQuery now namespace
      Scenario.S1_query Scenario.S1_sort = Js.Ok [p1; p2]
    /\ QueryProfile.exact p1 = ["name"]
    /\ QueryProfile.sort p1 = [("birthday", (-1)%Z)]
    /\ QueryProfile.range p1 = ["email"]
    /\ QueryProfile.exact p2 = ["name"; "status"; "email"]
    /\ QueryProfile.sort p2 = [("birthday", (-1)%Z)]
    /\ QueryProfile.range p2 = [].
Proof.
  eexists; eexists; split; [ vm_compute; reflexivity | ].
  repeat split; reflexivity.
Qed.

(** C4, counterexample.  The decomposition of scenario S1 is not the pair
    of profiles the specification lists. *)
Lemma C4_counterexample :
  exists profiles,
    QueryProfile.createQueryProfilesFromMongoQuery 0 "db.users"
      Scenario.S1_query Scenario.S1_sort = Js.Ok profiles
    /\ ~ S1_as_specified profiles.
Proof.
  eexists; split; [ vm_compute; reflexivity | ].
  intros (p1 & p2 & Heq & _ & _ & _ & He2 & _ & _).
  injection Heq as _ H2; subst p2.
  assert (Hin : In "email" ["name"; "status"]).
  { apply He2; simpl; auto. }
  simpl in Hin; destruct Hin as [H | [H | []]]; discriminate H.
Qed.

(** ** Optimized indexes: the split on array prefixes *)

(** C1 (fails on the code).  For three fields that lie in three arrays
    the getter produces three compound indexes, and every one of them
    holds the fields of the two other arrays: the filter keeps the fields
    that do not lie under the array prefix. *)
Theorem C1_three_arrays :
  exists profile,
    QueryProfile.optimize Scenario.options Scenario.threeArrays
      Scenario.threeArraysProfile
    = Js.Ok (profile,
             [[("a.x", Num 1); ("c.z", Num 1)];
              [("b.y", Num 1); ("c.z", Num 1)];
              [("b.y", Num 1); ("a.x", Num 1)]])
    /\ map (touchedArrayPrefixes
              (QueryProfile.getCardinalitiesForIndexOptimization
                 Scenario.options Scenario.threeArrays
                 Scenario.threeArraysProfile))
           [[("a.x", Num 1); ("c.z", Num 1)];
            [("b.y", Num 1); ("c.z", Num 1)];
            [("b.y", Num 1); ("a.x", Num 1)]]
       = [["a"; "c"]; ["b"; "c"]; ["b"; "a"]].
Proof. eexists; split; vm_compute; reflexivity. Qed.

(** C10.  There is a profile whose fields lie in two arrays and whose
    sort is not empty for which the getter throws a [TypeError]: the sort
    object is filtered as a collection of directions, and the statistics
    have no entry named after a direction. *)
Theorem C10_type_error_on_sorted_split :
  exists options statistics profile,
    QueryProfile.arrayPrefixesOf
      (QueryProfile.getCardinalitiesForIndexOptimization options statistics
         profile)
      (QueryProfile.exact profile) (QueryProfile.sort profile)
      (QueryProfile.range profile)
    = Js.Ok [Some "a"; Some "b"]
    /\ QueryProfile.sort profile <> []
    /\ QueryProfile.optimize options statistics profile = Js.TypeError.
Proof.
  exists Scenario.options, Scenario.twoArrays, Scenario.twoArraysSortedProfile.
  split; [ vm_compute; reflexivity | ].
  split; [ discriminate | vm_compute; reflexivity ].
Qed.

(** ** Optimized indexes: sort directions *)

(** C8 (fails on the code).  For the sort [{name: 1, age: -1}] with a
    range condition on [age], the produced index is [{name: 1, age: 1}]:
    the loop over the range fields overwrites the direction of [age]. *)
Theorem C8_range_overwrites_sort_direction :
  exists profile,
    QueryProfile.optimize Scenario.options Scenario.people
      Scenario.sortedRangeProfile
    = Js.Ok (profile, [[("name", Num 1); ("age", Num 1)]])
    /\ Js.obj_get "age" (QueryProfile.sort Scenario.sortedRangeProfile)
       = Some (-1)%Z
    /\ Js.obj_get "name" (QueryProfile.sort Scenario.sortedRangeProfile)
       = Some 1%Z.
Proof. eexists; repeat split; vm_compute; reflexivity. Qed.


(** ** The simplification pass *)




(** ** The reconciler *)
Lemma bind_Ok {A B} (a : A) (f : A -> Js.result B) : Js.bind (Js.Ok a) f = f a.
Proof. reflexivity. Qed.

Lemma groupOrEmpty_groupBy {A} (f : A -> string) l k :
  IndexSet.groupOrEmpty (Underscore.groupBy f l) k
  = filter (fun x => String.eqb (f x) k) l.
Proof.
  unfold IndexSet.groupOrEmpty. rewrite groupBy_get.
  destruct (filter (fun x => (f x =? k)%string) l); reflexivity.
Qed.

Lemma group_first {A} (f : A -> string) l s :
  In s (Js.obj_keys (Underscore.groupBy f l)) ->
  exists x g, Js.obj_get s (Underscore.groupBy f l) = Some (x :: g)
              /\ filter (fun y => String.eqb (f y) s) l = x :: g.
Proof.
  intros Hin. apply groupBy_key in Hin. destruct Hin as (x & Hx & Hs).
  rewrite groupBy_get.
  assert (Hf : In x (filter (fun y => (f y =? s)%string) l)).
  { apply filter_In; split; auto. apply String.eqb_eq; auto. }
  destruct (filter (fun y => (f y =? s)%string) l) as [|a g]; [destruct Hf|].
  exists a, g; auto.
Qed.

Lemma changesFor_spec gR gC c :
  let E := IndexSet.groupOrEmpty gC c in
  let W := IndexSet.groupOrEmpty gR c in
  exists ch,
    IndexSet.changesFor gR gC c = Js.Ok ch
    /\ IndexSet.collectionName ch = c
    /\ (forall i, In i (IndexSet.drop ch) ->
          MongoIndex.startsWithAuto (MongoIndex.indexName i) = true)
    /\ (forall e, In e E ->
          (forall r, In r W ->
             MongoIndex.canonicalString r <> MongoIndex.canonicalString e) ->
          MongoIndex.startsWithAuto (MongoIndex.indexName e) = false ->
          filter (fun y => String.eqb (MongoIndex.canonicalString y)
                                      (MongoIndex.canonicalString e)) E = [e] ->
          In (MongoIndex.setIndexExists e true) (IndexSet.keep ch)).
Proof.
  intros E W. unfold IndexSet.changesFor. cbv zeta. fold E. fold W.
  set (eBy := Underscore.groupBy MongoIndex.canonicalString E).
  set (wBy := Underscore.groupBy MongoIndex.canonicalString W).
  set (eS := Underscore.sortBy String.leb (fun s : string => s) (Js.obj_keys eBy)).
  set (wS := Underscore.sortBy String.leb (fun s : string => s) (Js.obj_keys wBy)).
  assert (FE : forall s, In s eS ->
             exists x g, Js.obj_get s eBy = Some (x :: g)
               /\ filter (fun y => String.eqb (MongoIndex.canonicalString y) s) E
                  = x :: g).
  { intros s Hs. apply sortBy_In in Hs. apply group_first; auto. }
  assert (FW : forall s, In s wS ->
             exists x g, Js.obj_get s wBy = Some (x :: g)).
  { intros s Hs. apply sortBy_In in Hs.
    destruct (group_first _ _ _ Hs) as (x & g & H & _). eauto. }
  assert (FWn : forall s, ~ In s wS -> Js.obj_get s wBy = None).
  { intros s Hs. apply obj_get_None. intros H. apply Hs. apply sortBy_In; auto. }
  assert (HisAuto : forall s, In s eS ->
             exists x g, Js.obj_get s eBy = Some (x :: g)
               /\ filter (fun y => String.eqb (MongoIndex.canonicalString y) s) E
                  = x :: g
               /\ (index <- IndexSet.first (Js.obj_get s eBy) ;;
                   Js.Ok (MongoIndex.startsWithAuto (MongoIndex.indexName index)))
                  = Js.Ok (MongoIndex.startsWithAuto (MongoIndex.indexName x))).
  { intros s Hs. destruct (FE s Hs) as (x & g & Hg & Hf).
    exists x, g. repeat split; auto. rewrite Hg. reflexivity. }
  set (drop0 := Underscore.difference String.eqb eS wS).
  assert (Hdrop0 : forall s, In s drop0 -> In s eS /\ ~ In s wS).
  { intros s Hs. apply difference_In in Hs. exact Hs. }
  match goal with
  | |- context [Js.bind (Js.filterM ?f drop0) _] =>
      destruct (filterM_total f drop0) as [userOwned Hu]
  end.
  { intros s Hs. destruct (HisAuto s (proj1 (Hdrop0 s Hs))) as (x & g & _ & _ & Ha).
    rewrite Ha. eexists; reflexivity. }
  rewrite Hu, bind_Ok.
  match goal with
  | |- context [Js.bind (Js.filterM ?f drop0) _] =>
      destruct (filterM_total f drop0) as [drop1 Hd]
  end.
  { intros s Hs. destruct (HisAuto s (proj1 (Hdrop0 s Hs))) as (x & g & _ & _ & Ha).
    rewrite Ha. eexists; reflexivity. }
  rewrite Hd, bind_Ok.
  pose proof (filterM_In _ _ _ Hu) as HuIn.
  pose proof (filterM_In _ _ _ Hd) as HdIn.
  cbv beta in HuIn, HdIn.
  set (keep0 := Underscore.intersection String.eqb eS wS ++ userOwned).
  assert (Hkeep0 : forall s, In s keep0 -> In s eS).
  { intros s Hs. apply in_app_or in Hs. destruct Hs as [Hs|Hs].
    - apply intersection_In in Hs. tauto.
    - apply HuIn in Hs. apply Hdrop0. tauto. }
  match goal with
  | |- context [Js.bind (Js.mapM ?f keep0) _] =>
      destruct (mapM_total f keep0) as [kept Hk]
  end.
  { intros s Hs.
    destruct (in_dec string_dec s wS) as [Hw|Hw].
    - destruct (FW s Hw) as (x & g & ->). eexists; reflexivity.
    - rewrite (FWn s Hw). destruct (FE s (Hkeep0 s Hs)) as (x & g & -> & _).
      eexists; reflexivity. }
  rewrite Hk, bind_Ok.
  match goal with
  | |- context [Js.bind (Js.mapM ?f (Underscore.difference String.eqb wS eS)) _] =>
      destruct (mapM_total f (Underscore.difference String.eqb wS eS))
        as [created Hc]
  end.
  { intros s Hs. apply difference_In in Hs.
    destruct (FW s (proj1 Hs)) as (x & g & ->). eexists; reflexivity. }
  rewrite Hc, bind_Ok.
  match goal with
  | |- context [Js.bind (Js.mapM ?f drop1) _] =>
      destruct (mapM_total f drop1) as [dropped Hdr]
  end.
  { intros s Hs. apply HdIn in Hs.
    destruct (FE s (proj1 (Hdrop0 s (proj1 Hs)))) as (x & g & -> & _).
    eexists; reflexivity. }
  rewrite Hdr, bind_Ok.
  eexists. split; [reflexivity|].
  cbn [IndexSet.collectionName IndexSet.drop IndexSet.keep].
  split; [reflexivity|]. split.
  - (* every dropped index is a generated one *)
    intros i Hi. apply (proj2 (mapM_In _ _ _ Hdr)) in Hi.
    destruct Hi as (s & Hs & Hfirst). apply HdIn in Hs. destruct Hs as [Hs Ha].
    destruct (HisAuto s (proj1 (Hdrop0 s Hs))) as (x & g & Hg & _ & Ha').
    rewrite Hg in Hfirst. simpl in Hfirst. injection Hfirst as <-.
    rewrite Ha in Ha'. injection Ha' as ->. reflexivity.
  - (* an unmatched index of the user is kept *)
    intros e He Hno Huser Hone.
    set (s := MongoIndex.canonicalString e).
    assert (HsE : In s eS).
    { apply sortBy_In. apply groupBy_key. exists e; auto. }
    assert (HsW : ~ In s wS).
    { intros H. apply sortBy_In in H. apply groupBy_key in H.
      destruct H as (r & Hr & Hrs). apply (Hno r Hr Hrs). }
    destruct (HisAuto s HsE) as (x & g & Hg & Hf & Ha).
    fold s in Hone. rewrite Hone in Hf. injection Hf as <- <-.
    assert (Hin : In s keep0).
    { apply in_or_app. right. apply HuIn. split.
      - apply difference_In; auto.
      - rewrite Ha, Huser. reflexivity. }
    destruct (proj1 (mapM_In _ _ _ Hk) s Hin) as (y & Hy & Hyin).
    cbv beta in Hy. rewrite (FWn s HsW), Hg in Hy.
    simpl in Hy. injection Hy as <-. exact Hyin.
Qed.

Lemma distinct_filter {A} (f1 f2 : A -> string) (l : list A) (e : A) :
  NoDup (map (fun x => (f1 x, f2 x)) l) -> In e l ->
  filter (fun y => String.eqb (f2 y) (f2 e))
         (filter (fun x => String.eqb (f1 x) (f1 e)) l) = [e].
Proof.
  induction l as [|x l IH]; simpl; intros Hnd Hin; [destruct Hin|].
  inversion Hnd as [|? ? Hx Hnd']; subst.
  assert (Hnone : forall l', (forall y, In y l' -> (f1 y, f2 y) <> (f1 e, f2 e)) ->
            filter (fun y => String.eqb (f2 y) (f2 e))
                   (filter (fun x => String.eqb (f1 x) (f1 e)) l') = []).
  { clear. induction l' as [|y l' IH]; simpl; intros H; auto.
    destruct (String.eqb (f1 y) (f1 e)) eqn:E1; simpl.
    - destruct (String.eqb (f2 y) (f2 e)) eqn:E2.
      + apply String.eqb_eq in E1, E2. exfalso. apply (H y); auto. congruence.
      + apply IH. intros; apply H; auto.
    - apply IH. intros; apply H; auto. }
  destruct Hin as [->|Hin].
  - rewrite String.eqb_refl. simpl. rewrite String.eqb_refl. f_equal.
    apply Hnone. intros y Hy Heq. apply Hx. rewrite <- Heq.
    apply (in_map (fun x => (f1 x, f2 x))); auto.
  - assert (Hne : (f1 x, f2 x) <> (f1 e, f2 e)).
    { intros Heq. apply Hx. rewrite Heq.
      apply (in_map (fun x => (f1 x, f2 x))); auto. }
    destruct (String.eqb (f1 x) (f1 e)) eqn:E1; simpl.
    + destruct (String.eqb (f2 x) (f2 e)) eqn:E2.
      * apply String.eqb_eq in E1, E2. exfalso. apply Hne. congruence.
      * apply IH; auto.
    + apply IH; auto.
Qed.



(** ** Adding a profile to the set *)

(** What [addSource] does to the names of the sources and to the usage
    count. *)
Lemma strict_eq_true a b : strict_eq a b = true -> a = b.
Proof.
  destruct a, b; simpl; try discriminate; intros H; try reflexivity.
  - apply Bool.eqb_prop in H. congruence.
  - apply Z.eqb_eq in H. congruence.
  - apply String.eqb_eq in H. congruence.
Qed.

Lemma updateSource_names src ver l l' :
  QueryProfile.updateSource src ver l = Some l' ->
  map QueryProfile.source l' = map QueryProfile.source l
  /\ In src (map QueryProfile.source l).
Proof.
  revert l'; induction l as [|e l IH]; simpl; intros l' H; [discriminate|].
  destruct (strict_eq (QueryProfile.source e) src) eqn:E.
  - injection H as <-. simpl. apply strict_eq_true in E. auto.
  - destruct (QueryProfile.updateSource src ver l) as [r|]; [|discriminate].
    injection H as <-. destruct (IH r eq_refl) as [H1 H2]. simpl.
    split; [f_equal; auto | auto].
Qed.

Lemma addSource_names p src ver x :
  In x (sourceNames (QueryProfile.addSource p src ver))
  <-> In x (sourceNames p) \/ x = src.
Proof.
  unfold QueryProfile.addSource, sourceNames.
  destruct (QueryProfile.updateSource src _ (QueryProfile.sources p)) as [l|] eqn:E.
  - apply updateSource_names in E. destruct E as [E1 E2]. simpl. rewrite E1.
    split; [auto | intros [H| ->]; auto].
  - simpl. rewrite map_app, in_app_iff. simpl. intuition auto.
Qed.

Lemma addSource_usageCount p src ver :
  QueryProfile.usageCount (QueryProfile.addSource p src ver)
  = QueryProfile.usageCount p.
Proof.
  unfold QueryProfile.addSource.
  destruct (QueryProfile.updateSource src _ (QueryProfile.sources p)); reflexivity.
Qed.

Lemma fold_addSource (l : list QueryProfile.Source) (st : QueryProfile.t) :
  let merged :=
    fold_left (fun existing src =>
                 QueryProfile.addSource existing (QueryProfile.source src)
                                        (QueryProfile.version src)) l st in
  QueryProfile.usageCount merged = QueryProfile.usageCount st
  /\ forall x, In x (sourceNames merged)
               <-> In x (sourceNames st) \/ In x (map QueryProfile.source l).
Proof.
  revert st; induction l as [|s l IH]; intros st; simpl.
  - split; [reflexivity | intros; tauto].
  - destruct (IH (QueryProfile.addSource st (QueryProfile.source s)
                                         (QueryProfile.version s))) as [IH1 IH2].
    split.
    + rewrite IH1. apply addSource_usageCount.
    + intros x. rewrite IH2, addSource_names. intuition auto.
Qed.

Lemma mergeInto_spec now p existing :
  QueryProfile.usageCount (QuerySet.mergeInto now p existing)
  = (QueryProfile.usageCount existing + 1)%Z
  /\ forall x, In x (sourceNames (QuerySet.mergeInto now p existing))
               <-> In x (sourceNames existing) \/ In x (sourceNames p).
Proof.
  unfold QuerySet.mergeInto.
  destruct (fold_addSource (QueryProfile.sources p)
              (QueryProfile.incrementUsageCount
                 (QueryProfile.set_lastQueryTime existing now))) as [H1 H2].
  split; [rewrite H1; reflexivity | exact H2].
Qed.

(** The test of the code follows from the equivalence of the
    specification on well-formed profiles. *)
Lemma equal_length_of_sameSet (a b : list string) :
  NoDup a -> NoDup b -> sameSet a b -> List.length a = List.length b.
Proof.
  intros Ha Hb H. apply Nat.le_antisymm; apply NoDup_incl_length; auto;
    intros x Hx; apply H; auto.
Qed.

Lemma difference_nil (a b : list string) :
  (forall x, In x a -> In x b) -> Underscore.difference String.eqb a b = [].
Proof.
  intros H. destruct (Underscore.difference String.eqb a b) as [|x l] eqn:E; auto.
  assert (Hx : In x (Underscore.difference String.eqb a b)) by (rewrite E; left; auto).
  apply difference_In in Hx. destruct Hx as [H1 H2]. exfalso; auto.
Qed.

Lemma isEquivalent_of_equivalent p q :
  wellFormedProfile p -> wellFormedProfile q -> equivalentProfiles p q ->
  QueryProfile.isEquivalentToQueryProfile p q = true.
Proof.
  intros (He & Hs & Hr) (He' & Hs' & Hr') (Hns & Hex & Hso & Hra).
  assert (Hkeys : sameSet (Js.obj_keys (QueryProfile.sort p))
                          (Js.obj_keys (QueryProfile.sort q))).
  { intros k. split; intros Hk.
    - destruct (in_dec string_dec k (Js.obj_keys (QueryProfile.sort q))); auto.
      apply obj_get_None in n. rewrite <- Hso in n. apply obj_get_None in n.
      contradiction.
    - destruct (in_dec string_dec k (Js.obj_keys (QueryProfile.sort p))); auto.
      apply obj_get_None in n. rewrite Hso in n. apply obj_get_None in n.
      contradiction. }
  unfold QueryProfile.isEquivalentToQueryProfile.
  rewrite Hns, String.eqb_refl. simpl.
  rewrite (equal_length_of_sameSet _ _ He He' Hex), Nat.eqb_refl. simpl.
  rewrite (difference_nil (QueryProfile.exact p) (QueryProfile.exact q))
    by (intros x; apply Hex). simpl.
  rewrite (equal_length_of_sameSet _ _ Hs Hs' Hkeys), Nat.eqb_refl. simpl.
  rewrite (difference_nil (Js.obj_keys (QueryProfile.sort p))
                          (Js.obj_keys (QueryProfile.sort q)))
    by (intros x; apply Hkeys). simpl.
  assert (Hdir : forallb
            (fun sortKey =>
               QueryProfile.sameDirection
                 (Js.obj_get sortKey (QueryProfile.sort p))
                 (Js.obj_get sortKey (QueryProfile.sort q)))
            (Js.obj_keys (QueryProfile.sort p)) = true).
  { apply forallb_forall. intros k _. rewrite Hso.
    destruct (Js.obj_get k (QueryProfile.sort q)); simpl; auto.
    apply Z.eqb_refl. }
  rewrite Hdir. simpl.
  rewrite (equal_length_of_sameSet _ _ Hr Hr' Hra), Nat.eqb_refl. simpl.
  rewrite (difference_nil (QueryProfile.range p) (QueryProfile.range q))
    by (intros x; apply Hra). reflexivity.
Qed.

(** *** The merged list of sources *)

Lemma map_same {A} (f : A -> A) (l : list A) :
  (forall x, In x l -> f x = x) -> map f l = l.
Proof.
  induction l as [|x r IH]; intros H; simpl; [reflexivity|].
  rewrite (H x (or_introl eq_refl)), IH; [reflexivity|].
  intros y Hy. apply H. right. exact Hy.
Qed.

Lemma strict_eq_sym a b : strict_eq a b = strict_eq b a.
Proof.
  destruct a, b; simpl; try reflexivity.
  - destruct b0, b; reflexivity.
  - apply Z.eqb_sym.
  - apply String.eqb_sym.
Qed.

Lemma names_false l src :
  names l src = false ->
  forall e, In e l -> strict_eq (QueryProfile.source e) src = false.
Proof.
  unfold names. intros H e He.
  destruct (strict_eq (QueryProfile.source e) src) eqn:E; [|reflexivity].
  assert (existsb (fun e => strict_eq (QueryProfile.source e) src) l = true)
    by (apply existsb_exists; exists e; auto).
  congruence.
Qed.

Lemma updateSource_None src ver l :
  names l src = false -> QueryProfile.updateSource src ver l = None.
Proof.
  unfold names. induction l as [|e r IH]; simpl; [reflexivity|].
  intros H. apply orb_false_iff in H. destruct H as [He Hr].
  rewrite He, (IH Hr). reflexivity.
Qed.

Lemma updateSource_Some src ver l :
  distinctSources l -> names l src = true ->
  QueryProfile.updateSource src ver l
  = Some (map (fun e => if strict_eq (QueryProfile.source e) src
                        then {| QueryProfile.source := QueryProfile.source e;
                                QueryProfile.version := ver |}
                        else e) l).
Proof.
  unfold names. induction l as [|e r IH]; simpl; [discriminate|].
  intros [Hd Hr] H.
  destruct (strict_eq (QueryProfile.source e) src) eqn:He.
  - f_equal. f_equal. symmetry. apply map_same. intros s Hs.
    apply strict_eq_true in He. subst src. rewrite strict_eq_sym, (Hd s Hs).
    reflexivity.
  - simpl in H. rewrite (IH Hr H). reflexivity.
Qed.

Lemma names_map (f : QueryProfile.Source -> QueryProfile.Source) l src :
  (forall e, QueryProfile.source (f e) = QueryProfile.source e) ->
  names (map f l) src = names l src.
Proof.
  intros H. unfold names. induction l as [|e r IH]; simpl; [reflexivity|].
  rewrite H, IH. reflexivity.
Qed.

Lemma find_none_distinct (e : JsValue) theirs :
  (forall t, In t theirs -> strict_eq e (QueryProfile.source t) = false) ->
  find (fun s => strict_eq e (QueryProfile.source s)) theirs = None.
Proof.
  induction theirs as [|t r IH]; simpl; [reflexivity|]. intros H.
  rewrite (H t (or_introl eq_refl)). apply IH. intros u Hu. apply H. right. exact Hu.
Qed.

Lemma fold_addSource_sources :
  forall theirs st,
    distinctSources (QueryProfile.sources st) -> distinctSources theirs ->
    QueryProfile.sources
      (fold_left (fun existing src =>
                    QueryProfile.addSource existing (QueryProfile.source src)
                                           (QueryProfile.version src))
                 theirs st)
    = mergedSources (QueryProfile.sources st) theirs.
Proof.
  induction theirs as [|s theirs IH]; intros st Hmine Htheirs.
  - simpl. unfold mergedSources. simpl. rewrite app_nil_r.
    symmetry. apply map_same. reflexivity.
  - destruct Htheirs as [Hs Htheirs]. cbn [fold_left].
    set (mine := QueryProfile.sources st) in *.
    destruct (names mine (QueryProfile.source s)) eqn:Hn.
    + (* the source is named: its version is overwritten *)
      assert (Hst : QueryProfile.sources
                      (QueryProfile.addSource st (QueryProfile.source s)
                                              (QueryProfile.version s))
                    = map (fun e =>
                             if strict_eq (QueryProfile.source e)
                                          (QueryProfile.source s)
                             then {| QueryProfile.source := QueryProfile.source e;
                                     QueryProfile.version :=
                                       QueryProfile.version (recorded s) |}
                             else e) mine).
      { unfold QueryProfile.addSource. fold mine.
        rewrite (updateSource_Some _ _ mine Hmine Hn). reflexivity. }
      rewrite IH; [|rewrite Hst|exact Htheirs].
      * rewrite Hst. unfold mergedSources. cbn [filter]. rewrite Hn. cbn [negb].
        f_equal.
        -- rewrite map_map. apply map_ext. intros e. unfold versionGiven.
           cbn [find].
           destruct (strict_eq (QueryProfile.source e) (QueryProfile.source s))
             eqn:He; [|reflexivity].
           cbn [QueryProfile.source]. rewrite find_none_distinct; [reflexivity|].
           intros t Ht. apply strict_eq_true in He. rewrite He. apply Hs. exact Ht.
        -- f_equal. apply filter_ext. intros t. f_equal.
           apply names_map. intros e.
           destruct (strict_eq _ _); reflexivity.
      * clear - Hmine. induction mine as [|e r IHr]; [exact I|].
        destruct Hmine as [Hd Hr]. cbn [map distinctSources]. split.
        -- intros t Ht. apply in_map_iff in Ht. destruct Ht as (u & <- & Hu).
           assert (QueryProfile.source
                     (if strict_eq (QueryProfile.source e) (QueryProfile.source s)
                      then {| QueryProfile.source := QueryProfile.source e;
                              QueryProfile.version :=
                                QueryProfile.version (recorded s) |}
                      else e) = QueryProfile.source e) as ->
               by (destruct (strict_eq _ _); reflexivity).
           assert (QueryProfile.source
                     (if strict_eq (QueryProfile.source u) (QueryProfile.source s)
                      then {| QueryProfile.source := QueryProfile.source u;
                              QueryProfile.version :=
                                QueryProfile.version (recorded s) |}
                      else u) = QueryProfile.source u) as ->
               by (destruct (strict_eq _ _); reflexivity).
           apply Hd. exact Hu.
        -- apply IHr. exact Hr.
    + (* the source is new: an entry is pushed *)
      assert (Hst : QueryProfile.sources
                      (QueryProfile.addSource st (QueryProfile.source s)
                                              (QueryProfile.version s))
                    = mine ++ [recorded s]).
      { unfold QueryProfile.addSource. fold mine.
        rewrite (updateSource_None _ _ mine Hn). reflexivity. }
      rewrite IH; [|rewrite Hst|exact Htheirs].
      * rewrite Hst. unfold mergedSources. cbn [filter]. rewrite Hn. cbn [negb map].
        rewrite map_app, <- app_assoc. f_equal.
        -- apply map_ext_in. intros e He. unfold versionGiven. cbn [find].
           rewrite (names_false mine _ Hn e He). reflexivity.
        -- cbn [map app]. f_equal.
           ++ unfold versionGiven. cbn [recorded QueryProfile.source].
              rewrite find_none_distinct; [reflexivity|exact Hs].
           ++ f_equal. apply filter_ext_in. intros t Ht. f_equal. unfold names.
              rewrite existsb_app. cbn [existsb recorded QueryProfile.source].
              rewrite (Hs t Ht). rewrite !orb_false_r. reflexivity.
      * clear - Hmine Hn. induction mine as [|e r IHr].
        -- simpl. split; [intros t []|exact I].
        -- destruct Hmine as [Hd Hr]. cbn [app distinctSources]. split.
           ++ intros t Ht. apply in_app_or in Ht. destruct Ht as [Ht|[<-|[]]].
              ** apply Hd. exact Ht.
              ** cbn [recorded QueryProfile.source].
                 apply (names_false (e :: r) _ Hn e). left. reflexivity.
           ++ apply IHr; [exact Hr|]. unfold names in *. simpl in Hn.
              apply orb_false_iff in Hn. apply Hn.
Qed.

Lemma mergeInto_sources now p existing :
  distinctSources (QueryProfile.sources existing) ->
  distinctSources (QueryProfile.sources p) ->
  QueryProfile.sources (QuerySet.mergeInto now p existing)
  = mergedSources (QueryProfile.sources existing) (QueryProfile.sources p).
Proof.
  intros He Hp. unfold QuerySet.mergeInto.
  rewrite fold_addSource_sources; [reflexivity|exact He|exact Hp].
Qed.

(** C9.  Adding a newly observed profile (usage count 0) and then an
    equivalent one to an empty set leaves one profile in the set; its
    usage count is 2, and the sources it names are those named by either
    profile.  When neither profile names a source twice, its list of
    sources is that of the first profile, in which every source the
    second one names too has the version the second one gives, followed
    by the entries of the second profile for the sources it alone names;
    a version that is missing or empty is recorded as the empty
    string. *)
Theorem C9_equivalent_profiles_are_merged (now1 now2 : Z)
  (first second : QueryProfile.t) :
  wellFormedProfile first -> wellFormedProfile second ->
  QueryProfile.usageCount first = 0%Z ->
  equivalentProfiles first second ->
  exists merged,
    fst (QuerySet.addQueryProfile now2
           (fst (QuerySet.addQueryProfile now1 [] first)) second)
    = [merged]
    /\ QueryProfile.usageCount merged = 2%Z
    /\ (forall x, In x (sourceNames merged)
                  <-> In x (sourceNames first) \/ In x (sourceNames second))
    /\ (distinctSources (QueryProfile.sources first) ->
        distinctSources (QueryProfile.sources second) ->
        QueryProfile.sources merged
        = mergedSources (QueryProfile.sources first)
                        (QueryProfile.sources second)).
Proof.
  intros Hw1 Hw2 Hcount Heq.
  assert (Heqb : QueryProfile.isEquivalentToQueryProfile second
                   (QueryProfile.incrementUsageCount first) = true).
  { apply isEquivalent_of_equivalent; auto.
    destruct Heq as (H1 & H2 & H3 & H4).
    split; [symmetry; exact H1|]. split; [intros x; symmetry; apply H2|].
    split; [intros k; symmetry; apply H3 | intros x; symmetry; apply H4]. }
  unfold QuerySet.addQueryProfile at 2. simpl QuerySet.updateExisting.
  cbn [fst]. unfold QuerySet.addQueryProfile. simpl QuerySet.updateExisting.
  rewrite Heqb. cbn [fst].
  destruct (mergeInto_spec now2 second (QueryProfile.incrementUsageCount first))
    as [Hu Hs].
  eexists. split; [reflexivity|]. split; [|split].
  - rewrite Hu. simpl. rewrite Hcount. reflexivity.
  - exact Hs.
  - intros Hd1 Hd2.
    apply (mergeInto_sources now2 second (QueryProfile.incrementUsageCount first));
      assumption.
Qed.

(** C9 on the two profiles of [MergeScenario]. *)
Lemma C9_equivalent_profiles_are_merged_witness :
  wellFormedProfile MergeScenario.first
  /\ wellFormedProfile MergeScenario.second
  /\ equivalentProfiles MergeScenario.first MergeScenario.second
  /\ exists merged,
       fst (QuerySet.addQueryProfile 2000
              (fst (QuerySet.addQueryProfile 1000 [] MergeScenario.first))
              MergeScenario.second)
       = [merged]
       /\ QueryProfile.usageCount merged = 2%Z
       /\ (forall x, In x (sourceNames merged)
                     <-> In x (sourceNames MergeScenario.first)
                         \/ In x (sourceNames MergeScenario.second))
       /\ (distinctSources (QueryProfile.sources MergeScenario.first) ->
           distinctSources (QueryProfile.sources MergeScenario.second) ->
           QueryProfile.sources merged
           = mergedSources (QueryProfile.sources MergeScenario.first)
                           (QueryProfile.sources MergeScenario.second)).
Proof.
  assert (Hw1 : wellFormedProfile MergeScenario.first).
  { unfold wellFormedProfile; simpl.
    repeat split; repeat constructor; simpl; intuition discriminate. }
  assert (Hw2 : wellFormedProfile MergeScenario.second).
  { unfold wellFormedProfile; simpl.
    repeat split; repeat constructor; simpl; intuition discriminate. }
  assert (Heq : equivalentProfiles MergeScenario.first MergeScenario.second).
  { unfold equivalentProfiles, sameSet; simpl.
    split; [reflexivity|]. split; [intros x; tauto|].
    split; [reflexivity | intros x; tauto]. }
  split; [exact Hw1|]. split; [exact Hw2|]. split; [exact Heq|].
  exact (C9_equivalent_profiles_are_merged 1000 2000 MergeScenario.first
           MergeScenario.second Hw1 Hw2 eq_refl Heq).
Defined.

(** The claim as stated fails when both profiles name the same source with
    different versions: [first] and [later] are equivalent, the set ends
    with the one profile [mergedLater] of usage count 2, and the entry of
    [first] (version 1.0.0) is in no list of the result. *)
Lemma C9_counterexample :
  wellFormedProfile MergeScenario.first
  /\ wellFormedProfile MergeScenario.later
  /\ QueryProfile.usageCount MergeScenario.first = 0%Z
  /\ equivalentProfiles MergeScenario.first MergeScenario.later
  /\ fst (QuerySet.addQueryProfile 3000
            (fst (QuerySet.addQueryProfile 1000 [] MergeScenario.first))
            MergeScenario.later)
     = [MergeScenario.mergedLater]
  /\ ~ exists merged,
        fst (QuerySet.addQueryProfile 3000
               (fst (QuerySet.addQueryProfile 1000 [] MergeScenario.first))
               MergeScenario.later)
        = [merged]
        /\ QueryProfile.usageCount merged = 2%Z
        /\ unionOfSources merged MergeScenario.first MergeScenario.later.
Proof.
  assert (Hrun : fst (QuerySet.addQueryProfile 3000
                        (fst (QuerySet.addQueryProfile 1000 []
                                MergeScenario.first))
                        MergeScenario.later)
                 = [MergeScenario.mergedLater])
    by (vm_compute; reflexivity).
  split.
  { unfold wellFormedProfile; simpl.
    repeat split; repeat constructor; simpl; intuition discriminate. }
  split.
  { unfold wellFormedProfile; simpl.
    repeat split; repeat constructor; simpl; intuition discriminate. }
  split; [reflexivity|]. split.
  { unfold equivalentProfiles, sameSet; simpl.
    split; [reflexivity|]. split; [intros x; tauto|].
    split; [reflexivity | intros x; tauto]. }
  split; [exact Hrun|].
  intros (merged & Hm & _ & Hunion). rewrite Hrun in Hm. injection Hm as <-.
  destruct (proj2 (Hunion {| QueryProfile.source := JStr "users.js:10";
                             QueryProfile.version := JStr "1.0.0" |}))
    as [H|[]]; [left; left; reflexivity|].
  discriminate H.
Qed.

(** ** Optimized indexes: the ordering contract *)

(** A filter or a map whose function never throws. *)
Lemma filterM_pure {A} (f : A -> Js.result bool) (g : A -> bool) l :
  (forall x, In x l -> f x = Js.Ok (g x)) -> Js.filterM f l = Js.Ok (filter g l).
Proof.
  induction l as [|x l IH]; simpl; intros H; [reflexivity|].
  rewrite (H x (or_introl eq_refl)). simpl.
  rewrite IH by (intros; apply H; auto). simpl.
  destruct (g x); reflexivity.
Qed.

Lemma mapM_pure {A B} (f : A -> Js.result B) (g : A -> B) l :
  (forall x, In x l -> f x = Js.Ok (g x)) -> Js.mapM f l = Js.Ok (map g l).
Proof.
  induction l as [|x l IH]; simpl; intros H; [reflexivity|].
  rewrite (H x (or_introl eq_refl)). simpl.
  rewrite IH by (intros; apply H; auto). reflexivity.
Qed.

Section SortFacts.
Context {A : Type} (key : A -> Z).

Lemma sort_insert_decorated (x : A) (l : list A) :
  map fst (Underscore.sort_insert Z.leb snd (x, key x) (map (fun y => (y, key y)) l))
  = Underscore.sort_insert Z.leb key x l.
Proof.
  induction l as [|y l IH]; simpl; [reflexivity|].
  destruct (Z.leb (key x) (key y)); simpl.
  - rewrite map_map. simpl. rewrite map_id. reflexivity.
  - rewrite IH. reflexivity.
Qed.

Lemma sort_insert_map (x : A) (d : list (A * Z)) :
  (forall p, In p d -> snd p = key (fst p)) ->
  Underscore.sort_insert Z.leb snd (x, key x) d
  = map (fun y => (y, key y))
        (Underscore.sort_insert Z.leb key x (map fst d)).
Proof.
  induction d as [|[y k] d IH]; simpl; intros H; [reflexivity|].
  assert (Hk : k = key y) by (apply (H (y, k)); auto). subst k.
  assert (Hd : d = map (fun y => (y, key y)) (map fst d)).
  { clear IH. induction d as [|[z k] d IHd]; simpl; auto.
    assert (Hz : k = key z) by (apply (H (z, k)); simpl; auto). subst k.
    f_equal. apply IHd. intros p Hp. apply H. simpl in *. tauto. }
  destruct (Z.leb (key x) (key y)); simpl.
  - rewrite <- Hd. reflexivity.
  - rewrite IH by (intros; apply H; auto). reflexivity.
Qed.

Lemma sortBy_decorated (l : list A) :
  Underscore.sortBy Z.leb snd (map (fun y => (y, key y)) l)
  = map (fun y => (y, key y)) (Underscore.sortBy Z.leb key l).
Proof.
  induction l as [|x l IH]; simpl; [reflexivity|].
  rewrite IH. rewrite sort_insert_map.
  - rewrite map_map. simpl. rewrite map_id. reflexivity.
  - intros p Hp. apply in_map_iff in Hp. destruct Hp as (y & <- & _). reflexivity.
Qed.

Lemma sort_insert_sorted (x : A) (l : list A) :
  StronglySorted (fun a b => (key a <= key b)%Z) l ->
  StronglySorted (fun a b => (key a <= key b)%Z) (Underscore.sort_insert Z.leb key x l).
Proof.
  induction 1 as [|y l Hs IH Hy]; simpl.
  - constructor; constructor.
  - destruct (Z.leb (key x) (key y)) eqn:E.
    + apply Z.leb_le in E. constructor; [constructor; auto|].
      constructor; auto.
      apply Forall_forall. intros z Hz.
      rewrite Forall_forall in Hy. specialize (Hy z Hz). lia.
    + apply Z.leb_gt in E. constructor; auto.
      apply Forall_forall. intros z Hz. apply sort_insert_In in Hz.
      destruct Hz as [->|Hz]; [lia|].
      rewrite Forall_forall in Hy. auto.
Qed.

Lemma sortBy_sorted (l : list A) :
  StronglySorted (fun a b => (key a <= key b)%Z) (Underscore.sortBy Z.leb key l).
Proof.
  induction l as [|x l IH]; simpl; [constructor | apply sort_insert_sorted; auto].
Qed.

Lemma sort_insert_filter (p : A -> bool) (x : A) (l : list A) :
  (forall y, In y l -> p y = true -> p x = true -> key y = key x) ->
  filter p (Underscore.sort_insert Z.leb key x l)
  = if p x then x :: filter p l else filter p l.
Proof.
  induction l as [|y l IH]; simpl; intros H; [reflexivity|].
  destruct (Z.leb (key x) (key y)) eqn:E; simpl; [reflexivity|].
  rewrite IH by (intros; apply H; auto).
  destruct (p y) eqn:Py; [|reflexivity].
  destruct (p x) eqn:Px; [|reflexivity].
  apply Z.leb_gt in E. specialize (H y (or_introl eq_refl) Py eq_refl). lia.
Qed.

(** [_.sortBy] is stable: the items of one criterion keep their order. *)
Lemma sortBy_stable (c : Z) (l : list A) :
  filter (fun y => (key y =? c)%Z) (Underscore.sortBy Z.leb key l)
  = filter (fun y => (key y =? c)%Z) l.
Proof.
  induction l as [|x l IH]; simpl; [reflexivity|].
  rewrite sort_insert_filter.
  - rewrite IH. reflexivity.
  - intros y _ Hy Hx. apply Z.eqb_eq in Hy, Hx. congruence.
Qed.

Lemma sort_insert_NoDup (x : A) (l : list A) :
  ~ In x l -> NoDup l -> NoDup (Underscore.sort_insert Z.leb key x l).
Proof.
  induction l as [|y l IH]; simpl; intros Hx Hnd.
  - constructor; auto.
  - destruct (Z.leb (key x) (key y)).
    + constructor; auto.
    + inversion Hnd as [|? ? Hy Hnd']; subst. constructor.
      * intros H. apply sort_insert_In in H. destruct H as [->|H]; auto.
      * apply IH; auto.
Qed.

Lemma sortBy_NoDup (l : list A) :
  NoDup l -> NoDup (Underscore.sortBy Z.leb key l).
Proof.
  induction 1 as [|x l Hx Hnd IH]; simpl; [constructor|].
  apply sort_insert_NoDup; auto. intros H. apply sortBy_In in H. auto.
Qed.

End SortFacts.

(** The keys of an object built by successive assignments of names that
    are not array indices. *)
Lemma isMember_In l x : isMember l x = true <-> In x l.
Proof. apply contains_In. Qed.

Lemma obj_keys_update {V} k (v : V) o :
  Js.obj_keys (Js.obj_update k v o) = Js.obj_keys o.
Proof.
  unfold Js.obj_keys. induction o as [|[k' v'] o IH]; simpl; [reflexivity|].
  destruct (String.eqb k' k); simpl; [reflexivity | f_equal; exact IH].
Qed.

Lemma obj_keys_set {V} k (v : V) o :
  Js.array_index k = None ->
  Js.obj_keys (Js.obj_set k v o)
  = if isMember (Js.obj_keys o) k then Js.obj_keys o else Js.obj_keys o ++ [k].
Proof.
  intros Hk. unfold Js.obj_set, Js.obj_has.
  destruct (Js.obj_get k o) as [x|] eqn:E.
  - rewrite obj_keys_update.
    destruct (isMember (Js.obj_keys o) k) eqn:M; [reflexivity|].
    exfalso. assert (H : ~ In k (Js.obj_keys o)).
    { intros H. apply isMember_In in H. congruence. }
    apply obj_get_None in H. congruence.
  - rewrite Hk. apply obj_get_None in E.
    destruct (isMember (Js.obj_keys o) k) eqn:M.
    + apply isMember_In in M. contradiction.
    + unfold Js.obj_keys. rewrite map_app. reflexivity.
Qed.

Lemma fold_obj_set_keys {X V} (kf : X -> string) (vf : X -> V) (l : list X) :
  (forall x, In x l -> Js.array_index (kf x) = None) ->
  NoDup (map kf l) ->
  forall o,
    Js.obj_keys (fold_left (fun index x => Js.obj_set (kf x) (vf x) index) l o)
    = Js.obj_keys o
      ++ filter (fun k => negb (isMember (Js.obj_keys o) k)) (map kf l).
Proof.
  induction l as [|x l IH]; simpl; intros Hidx Hnd o.
  - rewrite app_nil_r. reflexivity.
  - inversion Hnd as [|? ? Hx Hnd']; subst.
    rewrite IH by auto.
    rewrite obj_keys_set by auto.
    destruct (isMember (Js.obj_keys o) (kf x)) eqn:M; simpl; [reflexivity|].
    rewrite <- app_assoc. simpl. f_equal. f_equal.
    apply filter_ext_in. intros k Hk. f_equal.
    unfold isMember, Underscore.contains. rewrite existsb_app. simpl.
    rewrite orb_false_r.
    destruct (String.eqb k (kf x)) eqn:E; [|apply orb_false_r].
    apply String.eqb_eq in E. subst k. contradiction.
Qed.

Lemma object_id {V} (l : Js.obj V) :
  (forall kv, In kv l -> Js.array_index (fst kv) = None) ->
  NoDup (Js.obj_keys l) -> Underscore.object l = l.
Proof.
  unfold Underscore.object.
  assert (H : forall acc,
             (forall kv, In kv l -> Js.array_index (fst kv) = None) ->
             NoDup (Js.obj_keys (acc ++ l)) ->
             fold_left (fun result kv => Js.obj_set (fst kv) (snd kv) result) l acc
             = acc ++ l).
  { induction l as [|[k v] l IH]; simpl; intros acc Hidx Hnd.
    - rewrite app_nil_r. reflexivity.
    - replace (acc ++ (k, v) :: l) with ((acc ++ [(k, v)]) ++ l)
        by (rewrite <- app_assoc; reflexivity).
      replace (acc ++ (k, v) :: l) with ((acc ++ [(k, v)]) ++ l) in Hnd
        by (rewrite <- app_assoc; reflexivity).
      assert (Hset : Js.obj_set k v acc = acc ++ [(k, v)]).
      { unfold Js.obj_set, Js.obj_has.
        assert (Hn : Js.obj_get k acc = None).
        { apply obj_get_None. intros Hin.
          unfold Js.obj_keys in Hnd. rewrite !map_app in Hnd. simpl in Hnd.
          rewrite <- app_assoc in Hnd. apply NoDup_remove_2 in Hnd.
          apply Hnd. apply in_or_app. left. exact Hin. }
        rewrite Hn. pose proof (Hidx (k, v) (or_introl eq_refl)) as Hi.
        simpl in Hi. rewrite Hi. reflexivity. }
      rewrite Hset. apply IH; auto. }
  intros Hidx Hnd. apply (H [] Hidx Hnd).
Qed.

Lemma uniq_NoDup (l : list string) : NoDup (Underscore.uniq String.eqb l).
Proof.
  unfold Underscore.uniq.
  assert (H : forall acc, NoDup acc ->
             NoDup (fold_left (fun result y =>
                                 if Underscore.contains String.eqb result y
                                 then result else result ++ [y]) l acc)).
  { induction l as [|y l IH]; simpl; intros acc Hacc; auto.
    apply IH. destruct (Underscore.contains String.eqb acc y) eqn:E; auto.
    assert (Hy : ~ In y acc) by (intros H; apply contains_In in H; congruence).
    clear -Hacc Hy. induction Hacc as [|a acc Ha Hacc IH]; simpl.
    - constructor; [intros []|constructor].
    - constructor.
      + rewrite in_app_iff. simpl. intros [H|[H|[]]]; auto. subst. apply Hy. left; auto.
      + apply IH. intros H. apply Hy. right; auto. }
  apply H. constructor.
Qed.

Lemma uniq_length_incl (l1 l2 : list string) :
  incl l1 l2 ->
  (List.length (Underscore.uniq String.eqb l1)
   <= List.length (Underscore.uniq String.eqb l2))%nat.
Proof.
  intros H. apply NoDup_incl_length; [apply uniq_NoDup|].
  intros x Hx. apply uniq_In. apply H. exact (proj1 (uniq_In _ _) Hx).
Qed.

(** [getCardinalitiesForIndexOptimization] records statistics for every
    field of the profile. *)
Lemma getCardinalities_total options statistics p f :
  In f (allFields p) ->
  exists s, Js.obj_get f
              (QueryProfile.getCardinalitiesForIndexOptimization options statistics p)
            = Some s.
Proof.
  unfold QueryProfile.getCardinalitiesForIndexOptimization, allFields.
  generalize (QueryProfile.exact p ++ QueryProfile.range p
              ++ Js.obj_keys (QueryProfile.sort p)).
  intros l.
  assert (H : forall acc,
             In f l \/ (exists s, Js.obj_get f acc = Some s) ->
             exists s, Js.obj_get f
               (fold_left
                  (fun keyStatistics key =>
                     match Js.obj_get key
                             (CollectionStatistics.fieldStatistics statistics) with
                     | Some s => Js.obj_set key s keyStatistics
                     | None =>
                         Js.obj_set key
                           {| cardinality := minimumCardinality options;
                              longest := 1; mode := normal;
                              arrayPrefixes :=
                                filter (fun prefix => Js.starts_with prefix key)
                                  (CollectionStatistics.knownArrayPrefixes statistics) |}
                           keyStatistics
                     end) l acc) = Some s).
  { induction l as [|k l IH]; simpl; intros acc [Hin|Hacc].
    - destruct Hin.
    - exact Hacc.
    - apply IH. destruct Hin as [->|Hin]; [right | left; exact Hin].
      destruct (Js.obj_get f (CollectionStatistics.fieldStatistics statistics));
        rewrite obj_get_set, String.eqb_refl; eauto.
    - apply IH. right. destruct Hacc as [s Hs].
      destruct (Js.obj_get k (CollectionStatistics.fieldStatistics statistics));
        rewrite obj_get_set; destruct (String.eqb k f); eauto. }
  intros Hin. apply H. left. exact Hin.
Qed.

(** The three segments of an index built by [buildIndex]. *)
Lemma stat_ok ks f :
  (exists s, Js.obj_get f ks = Some s) ->
  QueryProfile.stat ks f = Js.Ok (statisticsOf ks f).
Proof.
  intros [s Hs]. unfold QueryProfile.stat, statisticsOf. rewrite Hs. reflexivity.
Qed.

Lemma sortByStat_pure ks (g : FieldStatistics -> Z) l :
  (forall f, In f l -> exists s, Js.obj_get f ks = Some s) ->
  QueryProfile.sortByStat ks g l
  = Js.Ok (Underscore.sortBy Z.leb (fun f => g (statisticsOf ks f)) l).
Proof.
  intros H. unfold QueryProfile.sortByStat.
  rewrite (mapM_pure _ (fun key => (key, g (statisticsOf ks key)))).
  - rewrite bind_Ok.
    rewrite (sortBy_decorated (fun f => g (statisticsOf ks f))).
    rewrite map_map. simpl. rewrite map_id. reflexivity.
  - intros f Hf. rewrite (stat_ok ks f (H f Hf)). reflexivity.
Qed.

Lemma StronglySorted_filter {A} (R : A -> A -> Prop) (p : A -> bool) l :
  StronglySorted R l -> StronglySorted R (filter p l).
Proof.
  induction 1 as [|x l Hs IH Hx]; simpl; [constructor|].
  destruct (p x); auto. constructor; auto.
  rewrite Forall_forall in *. intros y Hy. apply filter_In in Hy. apply Hx, Hy.
Qed.

Lemma StronglySorted_impl {A} (R R' : A -> A -> Prop) l :
  (forall a b, R a b -> R' a b) -> StronglySorted R l -> StronglySorted R' l.
Proof.
  intros H. induction 1 as [|x l Hs IH Hx]; constructor; auto.
  rewrite Forall_forall in *. auto.
Qed.

Lemma filter_filter {A} (p q : A -> bool) l :
  filter p (filter q l) = filter (fun x => q x && p x) l.
Proof.
  induction l as [|x l IH]; simpl; [reflexivity|].
  destruct (q x); simpl; [destruct (p x); simpl; congruence | exact IH].
Qed.

Lemma filter_comm {A} (p q : A -> bool) l :
  filter p (filter q l) = filter q (filter p l).
Proof.
  rewrite !filter_filter. apply filter_ext. intros x. apply andb_comm.
Qed.

Lemma map_fst_filter {V} (q : string -> bool) (o : Js.obj V) :
  Js.obj_keys (filter (fun kv => q (fst kv)) o) = filter q (Js.obj_keys o).
Proof.
  unfold Js.obj_keys. induction o as [|[k v] o IH]; simpl; [reflexivity|].
  destruct (q k); simpl; congruence.
Qed.

Lemma filter_isMember_self (q : string -> bool) (l : list string) :
  filter q l = filter (isMember (filter q l)) l.
Proof.
  apply filter_ext_in. intros x Hx.
  destruct (q x) eqn:Q.
  - symmetry. apply isMember_In. apply filter_In. auto.
  - symmetry. destruct (isMember (filter q l) x) eqn:M; auto.
    apply isMember_In in M. apply filter_In in M. destruct M. congruence.
Qed.

(** A selection from a list sorted by [_.sortBy]. *)
Lemma selection_of_sorted (key : string -> Z) (q : string -> bool)
  (original : list string) :
  let result := filter q (Underscore.sortBy Z.leb key original) in
  incl result original
  /\ StronglySorted (fun a b => (key a <= key b)%Z) result
  /\ keepsOrderOfEqual key original result.
Proof.
  intros result. split; [|split].
  - intros x Hx. apply filter_In in Hx. apply (sortBy_In Z.leb key). tauto.
  - apply StronglySorted_filter. apply sortBy_sorted.
  - intros c. unfold result at 1.
    rewrite filter_comm.
    rewrite (sortBy_stable key c original).
    rewrite filter_filter.
    apply filter_ext_in. intros x Hx.
    destruct (key x =? c)%Z; simpl; [|reflexivity].
    destruct (q x) eqn:Q.
    + symmetry. apply isMember_In. apply filter_In. split; auto.
      apply sortBy_In. auto.
    + symmetry. destruct (isMember result x) eqn:M; auto.
      apply isMember_In in M. apply filter_In in M. destruct M. congruence.
Qed.

Lemma keepsOrderOfEqual_opp (key : string -> Z) original result :
  keepsOrderOfEqual (fun f => (- key f)%Z) original result ->
  keepsOrderOfEqual key original result.
Proof.
  intros H c. specialize (H (- c)%Z).
  erewrite (filter_ext (fun f => (key f =? c)%Z)); [rewrite H|].
  - apply filter_ext. intros f. f_equal.
    destruct (Z.eqb_spec (- key f) (- c)), (Z.eqb_spec (key f) c); auto; lia.
  - intros f. simpl.
    destruct (Z.eqb_spec (- key f) (- c)), (Z.eqb_spec (key f) c); auto; lia.
Qed.

Lemma filter_all {A} (l : list A) : filter (fun _ => true) l = l.
Proof. induction l; simpl; congruence. Qed.

Lemma buildIndex_contract ks p (qe qs qr : string -> bool) :
  wellFormedProfile p ->
  (forall f, In f (allFields p) -> Js.array_index f = None) ->
  orderingContract ks p
    (QueryProfile.buildIndex
       (filter qe (Underscore.sortBy Z.leb (fun f => (- cardinalityOf ks f)%Z)
                                     (QueryProfile.exact p)))
       (filter (fun kv => qs (fst kv)) (QueryProfile.sort p))
       (filter qr (Underscore.sortBy Z.leb (cardinalityOf ks)
                                     (QueryProfile.range p)))).
Proof.
  intros (Hne & Hns & Hnr) Hidx.
  set (E0 := filter qe _). set (S0 := filter (fun kv => qs (fst kv)) _).
  set (R0 := filter qr _).
  assert (HE0 : incl E0 (QueryProfile.exact p)).
  { intros x Hx. apply filter_In in Hx. destruct Hx as [Hx _].
    apply sortBy_In in Hx. exact Hx. }
  assert (HR0 : incl R0 (QueryProfile.range p)).
  { intros x Hx. apply filter_In in Hx. destruct Hx as [Hx _].
    apply sortBy_In in Hx. exact Hx. }
  assert (HS0 : Js.obj_keys S0 = filter qs (Js.obj_keys (QueryProfile.sort p))).
  { apply map_fst_filter. }
  assert (HndE : NoDup E0) by (apply NoDup_filter, sortBy_NoDup; auto).
  assert (HndR : NoDup R0) by (apply NoDup_filter, sortBy_NoDup; auto).
  assert (HndS : NoDup (Js.obj_keys S0)) by (rewrite HS0; apply NoDup_filter; auto).
  assert (HiE : forall f, In f E0 -> Js.array_index f = None).
  { intros f Hf. apply Hidx. unfold allFields. apply in_or_app. left. auto. }
  assert (HiR : forall f, In f R0 -> Js.array_index f = None).
  { intros f Hf. apply Hidx. unfold allFields. apply in_or_app. right.
    apply in_or_app. left. auto. }
  assert (HiS : forall kv, In kv S0 -> Js.array_index (fst kv) = None).
  { intros kv Hkv. apply Hidx. unfold allFields. apply in_or_app. right.
    apply in_or_app. right. apply filter_In in Hkv.
    apply (in_map fst). tauto. }
  unfold QueryProfile.buildIndex.
  set (neg := match S0 with (_, d) :: _ => d | [] => 1%Z end).
  exists E0,
         (filter (fun k => negb (isMember E0 k)) (Js.obj_keys S0)),
         (filter (fun k => negb (isMember
                   (E0 ++ filter (fun k => negb (isMember E0 k)) (Js.obj_keys S0)) k))
                 R0).
  split.
  { rewrite (fold_obj_set_keys (fun f : string => f) (fun _ => Num 1) R0)
      by (rewrite ?map_id; auto).
    rewrite (fold_obj_set_keys (fun kv : string * Z => fst kv)
                               (fun kv => Num (snd kv * neg)) S0)
      by auto.
    rewrite (fold_obj_set_keys (fun f : string => f) (fun _ => Num 1) E0)
      by (rewrite ?map_id; auto).
    simpl. rewrite !map_id. rewrite filter_all.
    fold (Js.obj_keys S0). rewrite <- app_assoc. reflexivity. }
  destruct (selection_of_sorted (fun f => (- cardinalityOf ks f)%Z) qe
              (QueryProfile.exact p)) as (_ & HsE & HkE).
  fold E0 in HsE, HkE.
  split; [exact HE0|]. split.
  { eapply StronglySorted_impl; [|exact HsE]. intros a b H. simpl in H. lia. }
  split; [apply keepsOrderOfEqual_opp; exact HkE|].
  split.
  { rewrite HS0, filter_filter. apply filter_isMember_self. }
  set (qr' := fun k => negb (isMember
                (E0 ++ filter (fun k => negb (isMember E0 k)) (Js.obj_keys S0)) k)).
  assert (HR : filter qr' R0
               = filter (fun x => qr x && qr' x)
                        (Underscore.sortBy Z.leb (cardinalityOf ks)
                                           (QueryProfile.range p))).
  { unfold R0. apply filter_filter. }
  rewrite HR.
  destruct (selection_of_sorted (cardinalityOf ks) (fun x => qr x && qr' x)
              (QueryProfile.range p)) as (Hi & Hs & Hk).
  split; [exact Hi|]. split; [exact Hs | exact Hk].
Qed.

(** The filter of one round of the loop over array prefixes. *)
Lemma outsideArrayPrefix_pure ks pfx l :
  (forall f, In f l -> exists s, Js.obj_get f ks = Some s) ->
  Js.filterM (QueryProfile.outsideArrayPrefix ks pfx) l
  = Js.Ok (filter (fun f =>
                     (List.length (arrayPrefixes (statisticsOf ks f)) =? 0)%nat
                     || negb (Underscore.contains String.eqb
                                (arrayPrefixes (statisticsOf ks f)) pfx)) l).
Proof.
  intros H. apply filterM_pure. intros f Hf.
  unfold QueryProfile.outsideArrayPrefix. rewrite (stat_ok ks f (H f Hf)).
  reflexivity.
Qed.

(** The index of [OrderingScenario]: [city] before [zip] (equal
    cardinalities, order of the profile), then [state]; the sort key; then
    [score] before [age]. *)
Example C7_scenario_index :
  exists p',
    QueryProfile.optimize Scenario.options OrderingScenario.statistics
      OrderingScenario.profile
    = Js.Ok (p', [[("city", Num 1); ("zip", Num 1); ("state", Num 1);
                   ("name", Num 1); ("score", Num 1); ("age", Num 1)]]).
Proof. eexists. vm_compute. reflexivity. Qed.

(** ** Prefix reduction

    Two definitions of one length that the comparison loop accepts are
    equal. *)
Lemma agreeOnKeys_eq (a b : IndexDefinition) :
  List.length a = List.length b ->
  MongoIndex.agreeOnKeys a b = true -> a = b.
Proof.
  revert b. induction a as [|[k v] a IH]; intros [|[k' v'] b] Hlen H;
    simpl in *; try discriminate; auto.
  destruct (String.eqb k k') eqn:Hk; simpl in H; [|discriminate].
  apply String.eqb_eq in Hk. subst k'.
  destruct (MongoIndex.value_neq v v') eqn:Hv; [discriminate|].
  assert (v = v').
  { destruct v as [x|], v' as [y|]; simpl in Hv; try discriminate; auto.
    apply negb_false_iff, Z.eqb_eq in Hv. congruence. }
  subst v'. f_equal. apply IH; auto.
Qed.

(** [isSameAs] holds of equal sequences only. *)
Lemma isSameAs_definition (a b : MongoIndex.t) :
  MongoIndex.isSameAs a b = true ->
  MongoIndex.definition a = MongoIndex.definition b.
Proof.
  unfold MongoIndex.isSameAs, Js.obj_keys. rewrite !length_map.
  destruct (List.length (MongoIndex.definition a)
            =? List.length (MongoIndex.definition b))%nat eqn:Hlen;
    simpl; [|discriminate].
  apply Nat.eqb_eq in Hlen. apply agreeOnKeys_eq; exact Hlen.
Qed.

(** [isIndexPrefixOf] looks at the two sequences and at nothing else. *)
Lemma isIndexPrefixOf_definition (a a' b b' : MongoIndex.t) :
  MongoIndex.definition a = MongoIndex.definition a' ->
  MongoIndex.definition b = MongoIndex.definition b' ->
  MongoIndex.isIndexPrefixOf a b = MongoIndex.isIndexPrefixOf a' b'.
Proof. unfold MongoIndex.isIndexPrefixOf. intros -> ->. reflexivity. Qed.

(** An index is no index-prefix of an index with the same sequence. *)
Lemma isSameAs_not_prefix (a b : MongoIndex.t) :
  MongoIndex.isSameAs a b = true -> MongoIndex.isIndexPrefixOf a b = false.
Proof.
  intros H. apply isSameAs_definition in H.
  unfold MongoIndex.isIndexPrefixOf. rewrite H.
  rewrite Nat.leb_refl. reflexivity.
Qed.

Lemma In_combine_seq {A} (l : list A) (n j : nat) (x : A) :
  nth_error l j = Some x -> In ((n + j)%nat, x) (combine (seq n (List.length l)) l).
Proof.
  revert n j. induction l as [|y l IH]; intros n [|j] H; simpl in *;
    try discriminate.
  - injection H as ->. left. f_equal. lia.
  - right. replace (n + S j)%nat with (S n + j)%nat by lia. apply IH. exact H.
Qed.

(** [forEach] visits every position. *)
Lemma In_enumerate {A} (l : list A) (j : nat) (x : A) :
  nth_error l j = Some x -> In (j, x) (QuerySet.enumerate l).
Proof. intros H. apply (In_combine_seq l 0 j x H). Qed.

(** [_.uniq] only drops items. *)
Lemma uniqBy_incl {A K} (keqb : K -> K -> bool) (f : A -> K) (l : list A) x :
  In x (Underscore.uniqBy keqb f l) -> In x l.
Proof.
  unfold Underscore.uniqBy.
  assert (H : forall acc,
             In x (snd (fold_left
                          (fun (acc : list K * list A) x =>
                             let computed := f x in
                             if existsb (keqb computed) (fst acc) then acc
                             else (fst acc ++ [computed], snd acc ++ [x]))
                          l acc)) ->
             In x (snd acc) \/ In x l).
  { induction l as [|y l IH]; intros acc Hx; simpl in *; auto.
    apply IH in Hx. destruct Hx as [Hx|Hx]; auto.
    destruct (existsb (keqb (f y)) (fst acc)); auto.
    simpl in Hx. apply in_app_or in Hx. destruct Hx as [Hx|[Hx|[]]]; auto. }
  intros Hx. apply H in Hx. destruct Hx as [[]|Hx]. exact Hx.
Qed.

Lemma nth_error_assign_eq (k : nat) (l : list MongoIndex.t) (s : list QuerySet.Entry) e :
  nth_error s k = Some e ->
  nth_error (QuerySet.assign k l s) k = Some (QuerySet.setReducedIndexes e l).
Proof.
  revert k. induction s as [|e' s IH]; intros [|k] H; simpl in *;
    try discriminate.
  - congruence.
  - apply IH. exact H.
Qed.

Lemma nth_error_assign_neq (k j : nat) (l : list MongoIndex.t) (s : list QuerySet.Entry) :
  j <> k -> nth_error (QuerySet.assign k l s) j = nth_error s j.
Proof.
  revert k j. induction s as [|e' s IH]; intros [|k] [|j] H; simpl in *;
    try reflexivity; try congruence.
  apply IH. congruence.
Qed.

(** When the scan of [a] pushes nothing on [lhsPrefixedIndexes], [a] is
    an index-prefix of no index of another profile of the collection. *)
Lemma lhsPrefixedIndexes_nil (s : list QuerySet.Entry) (k : nat) (e : QuerySet.Entry) a :
  QuerySet.lhsPrefixedIndexes s k e a = [] ->
  forall j q b,
    j <> k -> nth_error s j = Some q ->
    QueryProfile.collectionName (QuerySet.profile e)
    = QueryProfile.collectionName (QuerySet.profile q) ->
    In b (QuerySet.reducedIndexes q) ->
    MongoIndex.isIndexPrefixOf a b = false.
Proof.
  intros Hnil j q b Hjk Hq Hcoll Hb.
  destruct (MongoIndex.isIndexPrefixOf a b) eqn:Hp; [|reflexivity].
  exfalso.
  assert (Hin : In b (QuerySet.lhsPrefixedIndexes s k e a)).
  { unfold QuerySet.lhsPrefixedIndexes. apply in_flat_map.
    exists (j, q). split; [apply In_enumerate; exact Hq|].
    unfold QuerySet.isRhs. simpl.
    apply Nat.eqb_neq in Hjk. rewrite Hjk. rewrite Hcoll, String.eqb_refl.
    simpl. apply filter_In. split; [exact Hb|].
    rewrite Hp, andb_true_r.
    destruct (MongoIndex.isSameAs a b) eqn:Hs; [|reflexivity].
    apply isSameAs_not_prefix in Hs. congruence. }
  rewrite Hnil in Hin. destruct Hin.
Qed.

Lemma In_lhsSameIndexes (s : list QuerySet.Entry) (k : nat) (e : QuerySet.Entry) a x :
  In x (QuerySet.lhsSameIndexes s k e a) ->
  MongoIndex.definition x = MongoIndex.definition a.
Proof.
  unfold QuerySet.lhsSameIndexes. intros H. apply in_flat_map in H.
  destruct H as ([j q] & _ & H).
  destruct (QuerySet.isRhs k e (j, q)); [|destruct H].
  apply filter_In in H. destruct H as [_ H].
  apply andb_prop in H. destruct H as [H _].
  symmetry. apply isSameAs_definition. exact H.
Qed.

(** A profile that leaves [changed] alone had no index with a longer
    one elsewhere ... *)
Lemma reduceProfile_unchanged (s : list QuerySet.Entry) (k : nat) (e : QuerySet.Entry) :
  fst (QuerySet.reduceProfile s k e) = false ->
  forall a, In a (QuerySet.reducedIndexes e) ->
            QuerySet.lhsPrefixedIndexes s k e a = [].
Proof.
  unfold QuerySet.reduceProfile. simpl. intros H a Ha.
  destruct (QuerySet.lhsPrefixedIndexes s k e a) as [|b l] eqn:Hl; [reflexivity|].
  exfalso. apply Bool.not_true_iff_false in H. apply H.
  apply existsb_exists. exists a. split; [exact Ha|]. rewrite Hl. reflexivity.
Qed.

(** ... and its new indexes have the sequences of its old ones. *)
Lemma reduceProfile_definitions (s : list QuerySet.Entry) (k : nat) (e : QuerySet.Entry) :
  fst (QuerySet.reduceProfile s k e) = false ->
  forall a, In a (snd (QuerySet.reduceProfile s k e)) ->
  exists a0, In a0 (QuerySet.reducedIndexes e)
             /\ MongoIndex.definition a = MongoIndex.definition a0.
Proof.
  intros H a Ha. pose proof (reduceProfile_unchanged s k e H) as Hnil.
  unfold QuerySet.reduceProfile in Ha. simpl in Ha.
  apply uniqBy_incl in Ha. apply in_flat_map in Ha.
  destruct Ha as (a0 & Ha0 & Ha). exists a0. split; [exact Ha0|].
  unfold QuerySet.replacement in Ha. rewrite (Hnil a0 Ha0) in Ha. simpl in Ha.
  destruct (0 <? List.length (QuerySet.lhsSameIndexes s k e a0))%nat.
  - apply In_lhsSameIndexes in Ha. exact Ha.
  - destruct Ha as [<-|[]]. reflexivity.
Qed.


(** A run of the outer [forEach] from position [k] on that ends with
    [changed] unset: it had [changed] unset at its start, it left the
    positions before [k] and the profiles alone, every index it leaves
    has the sequence of one that was there, and what was at a position it
    visited is an index-prefix of nothing it leaves before that position
    and of nothing that was after it. *)
Lemma passFrom_spec (m : nat) :
  forall k c s r,
    QuerySet.passFrom (seq k m) c s = (false, r) ->
    c = false
    /\ (forall j, (j < k)%nat -> nth_error r j = nth_error s j)
    /\ (forall j, option_map QuerySet.profile (nth_error r j)
                  = option_map QuerySet.profile (nth_error s j))
    /\ (forall i p p',
          nth_error s i = Some p -> nth_error r i = Some p' ->
          definitionsFrom (QuerySet.reducedIndexes p) (QuerySet.reducedIndexes p'))
    /\ (forall i j p q a0 b,
          (k <= i < k + m)%nat -> i <> j ->
          nth_error s i = Some p ->
          QueryProfile.collectionName (QuerySet.profile p)
          = QueryProfile.collectionName (QuerySet.profile q) ->
          In a0 (QuerySet.reducedIndexes p) ->
          In b (QuerySet.reducedIndexes q) ->
          ((j < i)%nat -> nth_error r j = Some q ->
           MongoIndex.isIndexPrefixOf a0 b = false)
          /\ ((i < j)%nat -> nth_error s j = Some q ->
              MongoIndex.isIndexPrefixOf a0 b = false)).
Proof.
  induction m as [|m IH]; intros k c s r H;
    cbn [seq QuerySet.passFrom] in H.
  - injection H as -> ->. repeat split; auto; try lia.
    intros i p p' Hp Hp' a Ha. exists a. split; [congruence|reflexivity].
  - destruct (nth_error s k) as [lhsQuery|] eqn:Hk.
    + cbv zeta in H. apply IH in H.
      destruct H as (Hc & Hlow & Hprof & Hdef & Hfree).
      apply orb_false_elim in Hc. destruct Hc as [-> Hch].
      pose proof (reduceProfile_unchanged s k lhsQuery Hch) as Hnil.
      pose proof (reduceProfile_definitions s k lhsQuery Hch) as Hfrom.
      set (new := snd (QuerySet.reduceProfile s k lhsQuery)) in *.
      split; [reflexivity|]. split; [|split; [|split]].
      * intros j Hj. rewrite Hlow by lia. apply nth_error_assign_neq. lia.
      * intros j. rewrite Hprof. destruct (Nat.eq_dec j k) as [->|Hjk].
        -- rewrite (nth_error_assign_eq k new s lhsQuery Hk), Hk. reflexivity.
        -- rewrite nth_error_assign_neq by exact Hjk. reflexivity.
      * intros i p p' Hp Hp'. destruct (Nat.eq_dec i k) as [->|Hik].
        -- rewrite Hlow in Hp' by lia.
           rewrite (nth_error_assign_eq k new s lhsQuery Hk) in Hp'.
           injection Hp' as <-. simpl. rewrite Hk in Hp. injection Hp as <-.
           exact Hfrom.
        -- apply (Hdef i p p'); [|exact Hp'].
           rewrite nth_error_assign_neq by exact Hik. exact Hp.
      * intros i j p q a0 b Hi Hij Hp Hcoll Ha0 Hb.
        destruct (Nat.eq_dec i k) as [->|Hik].
        -- rewrite Hk in Hp. injection Hp as <-. split; intros Hlt Hq.
           ++ rewrite Hlow in Hq by lia.
              rewrite nth_error_assign_neq in Hq by lia.
              apply (lhsPrefixedIndexes_nil s k lhsQuery a0 (Hnil a0 Ha0) j q b);
                auto.
           ++ apply (lhsPrefixedIndexes_nil s k lhsQuery a0 (Hnil a0 Ha0) j q b);
                auto.
        -- assert (Hp' : nth_error (QuerySet.assign k new s) i = Some p).
           { rewrite nth_error_assign_neq by exact Hik. exact Hp. }
           destruct (Hfree i j p q a0 b) as [Hbefore Hafter]; auto; [lia|].
           split; [exact Hbefore|]. intros Hlt Hq. apply Hafter; [exact Hlt|].
           rewrite nth_error_assign_neq by lia. exact Hq.
    + apply IH in H. destruct H as (Hc & Hlow & Hprof & Hdef & Hfree).
      split; [exact Hc|]. split; [|split; [exact Hprof|split; [exact Hdef|]]].
      * intros j Hj. apply Hlow. lia.
      * intros i j p q a0 b Hi Hij Hp Hcoll Ha0 Hb.
        destruct (Nat.eq_dec i k) as [->|Hik]; [congruence|].
        apply (Hfree i j p q a0 b); auto. lia.
Qed.

(** The last pass of the [while (changed)] loop. *)
Lemma pass_prefixFree (s r : list QuerySet.Entry) :
  QuerySet.pass s = (false, r) -> prefixFreeAcrossProfiles r.
Proof.
  unfold QuerySet.pass. intros H. apply passFrom_spec in H.
  destruct H as (_ & _ & Hprof & Hdef & Hfree).
  intros i j p q a b Hij Hp Hq Hcoll Ha Hb.
  pose proof (Hprof i) as Hpi. rewrite Hp in Hpi.
  destruct (nth_error s i) as [p0|] eqn:Hp0; [|discriminate].
  pose proof (Hprof j) as Hqj. rewrite Hq in Hqj.
  destruct (nth_error s j) as [q0|] eqn:Hq0; [|discriminate].
  simpl in Hpi, Hqj. injection Hpi as Hpi. injection Hqj as Hqj.
  destruct (Hdef i p0 p Hp0 Hp a Ha) as (a0 & Ha0 & Hda).
  assert (Hi : (0 <= i < 0 + List.length s)%nat).
  { split; [lia|]. simpl. apply nth_error_Some. congruence. }
  unfold sameCollection in Hcoll.
  destruct (Nat.lt_total j i) as [Hlt|[Heq|Hlt]]; [|congruence|].
  - rewrite (isIndexPrefixOf_definition a a0 b b Hda eq_refl).
    assert (Hc : QueryProfile.collectionName (QuerySet.profile p0)
                 = QueryProfile.collectionName (QuerySet.profile q))
      by congruence.
    destruct (Hfree i j p0 q a0 b Hi Hij Hp0 Hc Ha0 Hb) as [Hbefore _].
    apply Hbefore; [exact Hlt|exact Hq].
  - destruct (Hdef j q0 q Hq0 Hq b Hb) as (b0 & Hb0 & Hdb).
    rewrite (isIndexPrefixOf_definition a a0 b b0 Hda Hdb).
    assert (Hc : QueryProfile.collectionName (QuerySet.profile p0)
                 = QueryProfile.collectionName (QuerySet.profile q0))
      by congruence.
    destruct (Hfree i j p0 q0 a0 b0 Hi Hij Hp0 Hc Ha0 Hb0) as [_ Hafter].
    apply Hafter; [exact Hlt|exact Hq0].
Qed.

(** The loop ends on a pass that leaves [changed] unset. *)
Lemma untilUnchanged_fixed (fuel : nat) :
  forall s r, QuerySet.untilUnchanged fuel s = Some r ->
              exists s', QuerySet.pass s' = (false, r).
Proof.
  induction fuel as [|fuel IH]; intros s r H; simpl in H; [discriminate|].
  destruct (QuerySet.pass s) as [changed s'] eqn:Hpass. simpl in H.
  destruct changed.
  - apply IH in H. exact H.
  - injection H as <-. exists s. exact Hpass.
Qed.

(** The closing loops touch [knownQueryProfiles] only. *)
Lemma nth_error_linkKnownQueryProfiles (r : list QuerySet.Entry) (i : nat) p :
  nth_error (QuerySet.linkKnownQueryProfiles r) i = Some p ->
  exists p0, nth_error r i = Some p0
             /\ QuerySet.profile p = QuerySet.profile p0
             /\ definitionsFrom (QuerySet.reducedIndexes p0)
                                (QuerySet.reducedIndexes p).
Proof.
  unfold QuerySet.linkKnownQueryProfiles. rewrite nth_error_map.
  destruct (nth_error r i) as [p0|]; [|discriminate]. simpl.
  intros H. injection H as <-. exists p0. split; [reflexivity|].
  split; [reflexivity|]. simpl. intros a Ha. apply in_map_iff in Ha.
  destruct Ha as (a0 & <- & Ha0). exists a0. split; [exact Ha0|reflexivity].
Qed.

(** *** The loop of [reduceIndexes] ends

    [_.uniq] leaves items with different computed values. *)
Lemma uniqBy_NoDup {A} (f : A -> string) (l : list A) :
  NoDup (map f (Underscore.uniqBy String.eqb f l)).
Proof.
  unfold Underscore.uniqBy.
  assert (H : forall acc : list string * list A,
             fst acc = map f (snd acc) -> NoDup (fst acc) ->
             let r := fold_left
                        (fun (acc : list string * list A) x =>
                           let computed := f x in
                           if existsb (String.eqb computed) (fst acc) then acc
                           else (fst acc ++ [computed], snd acc ++ [x]))
                        l acc in
             fst r = map f (snd r) /\ NoDup (fst r)).
  { induction l as [|y l IH]; intros acc Heq Hnd; simpl; [auto|].
    apply IH.
    - destruct (existsb (String.eqb (f y)) (fst acc)); [exact Heq|].
      simpl. rewrite map_app, Heq. reflexivity.
    - destruct (existsb (String.eqb (f y)) (fst acc)) eqn:Hex; [exact Hnd|].
      simpl. apply NoDup_app; [exact Hnd|repeat constructor; intros []|].
      intros z Hz [<-|[]].
      assert (existsb (String.eqb (f y)) (fst acc) = true); [|congruence].
      apply existsb_exists. exists (f y). split; [exact Hz|apply String.eqb_refl]. }
  destruct (H ([], [])) as [Heq Hnd]; [reflexivity|constructor|].
  simpl in Heq, Hnd. rewrite <- Heq. exact Hnd.
Qed.

(** The sum of [w] over different items, each of them in [KD] or of
    weight at most [c] and in [U]. *)
Lemma sum_bound {D} (w : D -> nat) (c : nat) :
  forall newD KD U,
    NoDup newD ->
    (forall d, In d newD -> In d KD \/ ((w d <= c)%nat /\ In d U)) ->
    (list_sum (map w newD) <= list_sum (map w KD) + List.length U * c)%nat.
Proof.
  induction newD as [|d rest IH]; intros KD U Hnd H; simpl; [lia|].
  inversion Hnd as [|? ? Hd Hrest]; subst.
  destruct (H d (or_introl eq_refl)) as [Hk|[Hw Hu]].
  - apply in_split in Hk. destruct Hk as (K1 & K2 & ->).
    assert (IH' := IH (K1 ++ K2) U Hrest).
    rewrite map_app, list_sum_app in *. simpl.
    assert (list_sum (map w rest)
            <= list_sum (map w K1) + list_sum (map w K2) + List.length U * c)%nat;
      [|lia].
    apply IH'. intros d' Hd'.
    destruct (H d' (or_intror Hd')) as [Hk|Hr]; [left|right; exact Hr].
    apply in_app_or in Hk. apply in_or_app.
    destruct Hk as [Hk|[->|Hk]]; auto. contradiction.
  - apply in_split in Hu. destruct Hu as (U1 & U2 & ->).
    assert (IH' := IH KD (U1 ++ U2) Hrest).
    rewrite length_app in *. simpl.
    assert (list_sum (map w rest)
            <= list_sum (map w KD) + (List.length U1 + List.length U2) * c)%nat;
      [|nia].
    apply IH'. intros d' Hd'.
    destruct (H d' (or_intror Hd')) as [Hk|[Hw' Hu]]; [left; exact Hk|right].
    split; [exact Hw'|].
    apply in_app_or in Hu. apply in_or_app.
    destruct Hu as [Hu|[->|Hu]]; auto. contradiction.
Qed.

Lemma sum_partition {A} (f : A -> nat) (p : A -> bool) (l : list A) :
  list_sum (map f l)
  = (list_sum (map f (filter p l))
     + list_sum (map f (filter (fun x => negb (p x)) l)))%nat.
Proof.
  induction l as [|x l IH]; simpl; [reflexivity|].
  destruct (p x); simpl; lia.
Qed.

Lemma sum_In {A} (f : A -> nat) (l : list A) x :
  In x l -> (f x <= list_sum (map f l))%nat.
Proof.
  induction l as [|y l IH]; simpl; [intros []|intros [->|H]]; [lia|].
  apply IH in H. lia.
Qed.

Lemma exists_shortest {A} (f : A -> nat) (l : list A) :
  l <> [] -> exists x, In x l /\ forall y, In y l -> (f x <= f y)%nat.
Proof.
  induction l as [|x l IH]; intros Hne; [congruence|].
  destruct l as [|x' l].
  - exists x. split; [left; reflexivity|]. intros y [->|[]]. lia.
  - destruct IH as (m & Hm & Hmin); [discriminate|].
    destruct (Nat.le_gt_cases (f x) (f m)).
    + exists x. split; [left; reflexivity|].
      intros y [->|Hy]; [lia|]. specialize (Hmin y Hy). lia.
    + exists m. split; [right; exact Hm|].
      intros y [->|Hy]; [lia|]. apply Hmin. exact Hy.
Qed.

Lemma longestOf_In (U : list IndexDefinition) d :
  In d U -> (List.length d <= longestOf U)%nat.
Proof. intros H. apply (sum_In (@List.length _) U d H). Qed.

Lemma In_enumerate_inv {A} (l : list A) (j : nat) (x : A) :
  In (j, x) (QuerySet.enumerate l) -> In x l.
Proof. unfold QuerySet.enumerate. apply in_combine_r. Qed.

Lemma In_lhsPrefixedIndexes (s : list QuerySet.Entry) (k : nat)
  (e : QuerySet.Entry) lhs x :
  In x (QuerySet.lhsPrefixedIndexes s k e lhs) ->
  MongoIndex.isIndexPrefixOf lhs x = true
  /\ exists q, In q s /\ In x (QuerySet.reducedIndexes q).
Proof.
  unfold QuerySet.lhsPrefixedIndexes. intros H. apply in_flat_map in H.
  destruct H as ([j q] & Hq & H).
  destruct (QuerySet.isRhs k e (j, q)); [|destruct H].
  apply filter_In in H. destruct H as [Hx H].
  apply andb_prop in H. destruct H as [_ H].
  split; [exact H|]. exists q. split; [|exact Hx].
  apply In_enumerate_inv in Hq. exact Hq.
Qed.

Lemma lhsSameIndexes_source (s : list QuerySet.Entry) (k : nat)
  (e : QuerySet.Entry) lhs x :
  In x (QuerySet.lhsSameIndexes s k e lhs) ->
  exists q, In q s /\ In x (QuerySet.reducedIndexes q).
Proof.
  unfold QuerySet.lhsSameIndexes. intros H. apply in_flat_map in H.
  destruct H as ([j q] & Hq & H).
  destruct (QuerySet.isRhs k e (j, q)); [|destruct H].
  apply filter_In in H. destruct H as [Hx _].
  exists q. split; [|exact Hx]. apply In_enumerate_inv in Hq. exact Hq.
Qed.

(** An index-prefix is shorter. *)
Lemma isIndexPrefixOf_length (a b : MongoIndex.t) :
  MongoIndex.isIndexPrefixOf a b = true ->
  (List.length (MongoIndex.definition a)
   < List.length (MongoIndex.definition b))%nat.
Proof.
  unfold MongoIndex.isIndexPrefixOf, Js.obj_keys. rewrite !length_map.
  destruct (List.length (MongoIndex.definition b)
            <=? List.length (MongoIndex.definition a))%nat eqn:Hle;
    [discriminate|].
  intros _. apply Nat.leb_gt in Hle. exact Hle.
Qed.

(** Where the indexes of the new [reducedIndexes] come from. *)
Lemma reduceProfile_provenance (s : list QuerySet.Entry) (k : nat)
  (e : QuerySet.Entry) x :
  In x (snd (QuerySet.reduceProfile s k e)) ->
  exists lhs,
    In lhs (QuerySet.reducedIndexes e)
    /\ ((QuerySet.lhsPrefixedIndexes s k e lhs = []
         /\ MongoIndex.definition x = MongoIndex.definition lhs
         /\ (x = lhs \/ In x (QuerySet.lhsSameIndexes s k e lhs)))
        \/ (QuerySet.lhsPrefixedIndexes s k e lhs <> []
            /\ In x (QuerySet.lhsPrefixedIndexes s k e lhs))).
Proof.
  unfold QuerySet.reduceProfile. simpl. intros Hx.
  apply uniqBy_incl in Hx. apply in_flat_map in Hx.
  destruct Hx as (lhs & Hlhs & Hx). exists lhs. split; [exact Hlhs|].
  unfold QuerySet.replacement in Hx.
  destruct (QuerySet.lhsPrefixedIndexes s k e lhs) as [|b l] eqn:Hp.
  - left. split; [reflexivity|]. simpl in Hx.
    destruct (0 <? List.length (QuerySet.lhsSameIndexes s k e lhs))%nat.
    + split; [|right; exact Hx]. apply In_lhsSameIndexes in Hx. exact Hx.
    + destruct Hx as [<-|[]]. split; [reflexivity|left; reflexivity].
  - right. split; [discriminate|]. simpl in Hx. exact Hx.
Qed.

(** No pass makes a sequence that was not there. *)
Lemma reduceProfile_within (U : list IndexDefinition)
  (s : list QuerySet.Entry) (k : nat) (e : QuerySet.Entry) :
  within U s -> In e s ->
  forall x, In x (snd (QuerySet.reduceProfile s k e)) ->
            In (MongoIndex.definition x) U.
Proof.
  intros Hin He x Hx. apply reduceProfile_provenance in Hx.
  destruct Hx as (lhs & Hlhs & [(_ & _ & [->|Hx])|(_ & Hx)]).
  - apply (Hin e lhs He Hlhs).
  - apply lhsSameIndexes_source in Hx. destruct Hx as (q & Hq & Hx).
    apply (Hin q x Hq Hx).
  - apply In_lhsPrefixedIndexes in Hx. destruct Hx as (_ & q & Hq & Hx).
    apply (Hin q x Hq Hx).
Qed.

(** The body of the outer [forEach] never adds weight to its profile,
    and takes some off when it sets [changed]. *)
Lemma reduceProfile_weight (U : list IndexDefinition)
  (s : list QuerySet.Entry) (k : nat) (e : QuerySet.Entry) :
  within U s -> In e s ->
  (indexesWeight U (snd (QuerySet.reduceProfile s k e))
   <= indexesWeight U (QuerySet.reducedIndexes e))%nat
  /\ (fst (QuerySet.reduceProfile s k e) = true ->
      (indexesWeight U (snd (QuerySet.reduceProfile s k e))
       < indexesWeight U (QuerySet.reducedIndexes e))%nat).
Proof.
  intros Hin He.
  set (new := snd (QuerySet.reduceProfile s k e)).
  set (old := QuerySet.reducedIndexes e).
  set (kept := fun lhs =>
                 negb (0 <? List.length (QuerySet.lhsPrefixedIndexes s k e lhs))%nat).
  assert (Hnd : NoDup (map MongoIndex.definition new)).
  { apply (NoDup_map_inv MongoIndex.stringify). rewrite map_map.
    apply (uniqBy_NoDup MongoIndex.canonicalString). }
  assert (Hnew : indexesWeight U new
                 = list_sum (map (weight U) (map MongoIndex.definition new))).
  { unfold indexesWeight. rewrite map_map. reflexivity. }
  assert (Hold : indexesWeight U old
                 = (list_sum (map (weight U)
                                  (map MongoIndex.definition (filter kept old)))
                    + indexesWeight U (filter (fun x => negb (kept x)) old))%nat).
  { unfold indexesWeight. rewrite map_map. apply sum_partition. }
  assert (Hkept : forall lhs, In lhs old ->
                    QuerySet.lhsPrefixedIndexes s k e lhs = [] ->
                    In (MongoIndex.definition lhs)
                       (map MongoIndex.definition (filter kept old))).
  { intros lhs Hlhs Hp. apply in_map. apply filter_In. split; [exact Hlhs|].
    unfold kept. rewrite Hp. reflexivity. }
  assert (Hgone : forall lhs, In lhs old ->
                    QuerySet.lhsPrefixedIndexes s k e lhs <> [] ->
                    In lhs (filter (fun x => negb (kept x)) old)).
  { intros lhs Hlhs Hp. apply filter_In. split; [exact Hlhs|].
    unfold kept. destruct (QuerySet.lhsPrefixedIndexes s k e lhs);
      [congruence|reflexivity]. }
  rewrite Hnew, Hold. clear Hnew Hold.
  set (gone := filter (fun x => negb (kept x)) old) in *.
  assert (Hcase : gone = [] \/ gone <> []).
  { destruct gone; [left; reflexivity|right; discriminate]. }
  destruct Hcase as [Hnil|Hne].
  - (* nothing is replaced *)
    assert (Hle : (list_sum (map (weight U) (map MongoIndex.definition new))
                   <= list_sum (map (weight U)
                                    (map MongoIndex.definition (filter kept old)))
                      + List.length (@nil IndexDefinition) * 0)%nat).
    { apply sum_bound; [exact Hnd|]. intros d Hd. left.
      apply in_map_iff in Hd. destruct Hd as (x & <- & Hx).
      apply reduceProfile_provenance in Hx.
      destruct Hx as (lhs & Hlhs & [(Hp & -> & _)|(Hp & _)]).
      - apply Hkept; assumption.
      - pose proof (Hgone lhs Hlhs Hp) as Hg. rewrite Hnil in Hg. destruct Hg. }
    simpl in Hle. rewrite Hnil. unfold indexesWeight at 1 2. simpl.
    split; [lia|].
    intros Hch. exfalso. unfold QuerySet.reduceProfile in Hch. simpl in Hch.
    apply existsb_exists in Hch. destruct Hch as (lhs & Hlhs & Hch).
    assert (Hg : In lhs gone).
    { apply (Hgone lhs Hlhs). intros Hp. rewrite Hp in Hch. discriminate Hch. }
    rewrite Hnil in Hg. destruct Hg.
  - (* the shortest index that is replaced pays for all the new ones *)
    destruct (exists_shortest
                (fun a => List.length (MongoIndex.definition a)) gone Hne)
      as (least & Hleast & Hmin).
    set (l := List.length (MongoIndex.definition least)) in *.
    assert (Hleast' : In least old /\ QuerySet.lhsPrefixedIndexes s k e least <> []).
    { apply filter_In in Hleast. destruct Hleast as [Hl Hk]. split; [exact Hl|].
      unfold kept in Hk. intros Hp. rewrite Hp in Hk. discriminate Hk. }
    destruct Hleast' as [Hlold Hlp].
    assert (Hroom : (l < longestOf U)%nat).
    { destruct (QuerySet.lhsPrefixedIndexes s k e least) as [|x rest] eqn:Hp;
        [congruence|].
      assert (Hx : In x (QuerySet.lhsPrefixedIndexes s k e least))
        by (rewrite Hp; left; reflexivity).
      apply In_lhsPrefixedIndexes in Hx. destruct Hx as (Hpre & q & Hq & Hx).
      apply isIndexPrefixOf_length in Hpre.
      pose proof (longestOf_In U _ (Hin q x Hq Hx)). unfold l. lia. }
    set (c := (S (List.length U) ^ (longestOf U - l - 1))%nat).
    assert (Hle : (list_sum (map (weight U) (map MongoIndex.definition new))
                   <= list_sum (map (weight U)
                                    (map MongoIndex.definition (filter kept old)))
                      + List.length U * c)%nat).
    { apply sum_bound; [exact Hnd|]. intros d Hd.
      apply in_map_iff in Hd. destruct Hd as (x & <- & Hx).
      pose proof (reduceProfile_within U s k e Hin He x Hx) as HxU.
      apply reduceProfile_provenance in Hx.
      destruct Hx as (lhs & Hlhs & [(Hp & -> & _)|(Hp & Hx)]).
      - left. apply Hkept; assumption.
      - right. split; [|exact HxU].
        apply In_lhsPrefixedIndexes in Hx. destruct Hx as (Hpre & _).
        apply isIndexPrefixOf_length in Hpre.
        pose proof (Hmin lhs (Hgone lhs Hlhs Hp)) as Hlen. simpl in Hlen.
        unfold weight, c. apply Nat.pow_le_mono_r; [discriminate|].
        fold l in Hlen. lia. }
    assert (Hpay : (List.length U * c < weight U (MongoIndex.definition least))%nat).
    { unfold weight. fold l.
      replace (longestOf U - l)%nat with (S (longestOf U - l - 1)) by lia.
      rewrite Nat.pow_succ_r'. fold c.
      assert (c <> 0)%nat by (unfold c; apply Nat.pow_nonzero; discriminate).
      nia. }
    pose proof (sum_In (fun a => weight U (MongoIndex.definition a)) gone least
                  Hleast) as Hsum.
    fold (indexesWeight U gone) in Hsum.
    split; [lia|]. intros _. lia.
Qed.

Lemma stateWeight_assign (U : list IndexDefinition) (new : list MongoIndex.t) :
  forall s k e,
    nth_error s k = Some e ->
    (stateWeight U (QuerySet.assign k new s)
     + indexesWeight U (QuerySet.reducedIndexes e)
     = stateWeight U s + indexesWeight U new)%nat.
Proof.
  unfold stateWeight.
  induction s as [|e' s IH]; intros [|k] e H; simpl in *; try discriminate.
  - injection H as ->. lia.
  - specialize (IH k e H). lia.
Qed.

Lemma In_assign (new : list MongoIndex.t) :
  forall s k e,
    In e (QuerySet.assign k new s) ->
    In e s \/ QuerySet.reducedIndexes e = new.
Proof.
  induction s as [|e' s IH]; intros [|k] e H; simpl in *; auto.
  - destruct H as [<-|H]; [right; reflexivity|left; right; exact H].
  - destruct H as [<-|H]; [left; left; reflexivity|].
    destruct (IH k e H) as [H'|H']; auto.
Qed.

Lemma passFrom_weight (U : list IndexDefinition) (positions : list nat) :
  forall c s,
    within U s ->
    within U (snd (QuerySet.passFrom positions c s))
    /\ (stateWeight U (snd (QuerySet.passFrom positions c s))
        <= stateWeight U s)%nat
    /\ (fst (QuerySet.passFrom positions c s) = true ->
        c = true
        \/ (stateWeight U (snd (QuerySet.passFrom positions c s))
            < stateWeight U s)%nat).
Proof.
  induction positions as [|k rest IH]; intros c s Hin;
    cbn [QuerySet.passFrom].
  - simpl. split; [exact Hin|]. split; [lia|]. intros ->. left. reflexivity.
  - destruct (nth_error s k) as [lhsQuery|] eqn:Hk; [|apply IH; exact Hin].
    cbv zeta.
    assert (He : In lhsQuery s) by (apply nth_error_In with k; exact Hk).
    destruct (reduceProfile_weight U s k lhsQuery Hin He) as [Hle Hlt].
    pose proof (reduceProfile_within U s k lhsQuery Hin He) as Hnew.
    set (r := QuerySet.reduceProfile s k lhsQuery) in *.
    pose proof (stateWeight_assign U (snd r) s k lhsQuery Hk) as Hw.
    assert (Hin' : within U (QuerySet.assign k (snd r) s)).
    { intros e a He' Ha. apply In_assign in He'.
      destruct He' as [He'|He']; [apply (Hin e a He' Ha)|].
      rewrite He' in Ha. apply Hnew. exact Ha. }
    destruct (IH (c || fst r) (QuerySet.assign k (snd r) s) Hin')
      as (Hwithin & Hle' & Hlt').
    split; [exact Hwithin|]. split; [lia|].
    intros Hch. destruct (Hlt' Hch) as [Hc|Hc]; [|right; lia].
    apply orb_prop in Hc. destruct Hc as [Hc|Hc]; [left; exact Hc|].
    right. specialize (Hlt Hc). lia.
Qed.

(** The [while (changed)] loop ends: a pass that sets [changed] lowers
    [stateWeight]. *)
Lemma untilUnchanged_returns (U : list IndexDefinition) (fuel : nat) :
  forall s,
    within U s -> (stateWeight U s < fuel)%nat ->
    exists r, QuerySet.untilUnchanged fuel s = Some r.
Proof.
  induction fuel as [|fuel IH]; intros s Hin Hlt; [lia|].
  cbn [QuerySet.untilUnchanged]. cbv zeta.
  destruct (passFrom_weight U (seq 0 (List.length s)) false s Hin)
    as (Hin' & Hle & Hlt').
  fold (QuerySet.pass s) in *.
  destruct (fst (QuerySet.pass s)) eqn:Hch.
  - apply IH; [exact Hin'|].
    destruct (Hlt' eq_refl) as [Hc|Hc]; [discriminate|lia].
  - eexists. reflexivity.
Qed.

Lemma within_allDefinitions (s : list QuerySet.Entry) :
  within (allDefinitions s) s.
Proof.
  intros e a He Ha. unfold allDefinitions. apply in_flat_map.
  exists e. split; [exact He|]. apply in_map. exact Ha.
Qed.

(** The loop of [reduceIndexes] ends within [enoughPasses] passes. *)
Lemma reduceIndexes_returns (queryProfiles : list QuerySet.Entry) :
  exists reduced,
    QuerySet.reduceIndexes (enoughPasses queryProfiles) queryProfiles
    = Some reduced.
Proof.
  unfold QuerySet.reduceIndexes, enoughPasses.
  set (s := map QuerySet.removeDuplicates queryProfiles).
  destruct (untilUnchanged_returns (allDefinitions s)
              (S (stateWeight (allDefinitions s) s)) s
              (within_allDefinitions s)) as (r & Hr); [lia|].
  rewrite Hr. eexists. reflexivity.
Qed.

(** What it leaves has no index-prefix across profiles. *)
Lemma reduceIndexes_prefixFree fuel (queryProfiles reduced : list QuerySet.Entry) :
  QuerySet.reduceIndexes fuel queryProfiles = Some reduced ->
  prefixFreeAcrossProfiles reduced.
Proof.
  unfold QuerySet.reduceIndexes.
  destruct (QuerySet.untilUnchanged fuel
              (map QuerySet.removeDuplicates queryProfiles))
    as [r|] eqn:Hr; [|discriminate].
  intros H. injection H as <-.
  apply untilUnchanged_fixed in Hr. destruct Hr as (s' & Hpass).
  apply pass_prefixFree in Hpass.
  intros i j p q a b Hij Hp Hq Hcoll Ha Hb.
  apply nth_error_linkKnownQueryProfiles in Hp, Hq.
  destruct Hp as (p0 & Hp0 & Hpp & Hpd).
  destruct Hq as (q0 & Hq0 & Hqp & Hqd).
  destruct (Hpd a Ha) as (a0 & Ha0 & Hda).
  destruct (Hqd b Hb) as (b0 & Hb0 & Hdb).
  rewrite (isIndexPrefixOf_definition a a0 b b0 Hda Hdb).
  apply (Hpass i j p0 q0 a0 b0); auto.
  unfold sameCollection in *. congruence.
Qed.

Lemma not_TypeError {A} (r : Js.result A) :
  r <> Js.TypeError -> exists a, r = Js.Ok a.
Proof. destruct r as [a|]; [eexists; reflexivity|congruence]. Qed.



(** A getter that throws ends the call: the profile of C10, whose
    [optimizedIndexes] throws, with the getters the code gives it. *)
Example reduceIndexes_throws_with_the_getter :
  QuerySet.readReducedIndexes ReduceScenario.throwing = Js.TypeError
  /\ forall fuel,
       QuerySet.reduceIndexesCall fuel
         (ReduceScenario.getters ++ [ReduceScenario.throwing])
       = Js.TypeError.
Proof. split; [vm_compute; reflexivity|intros fuel; reflexivity]. Qed.

(** The getters of scenario S4 are those the code gives its profiles, up
    to the addresses of the objects. *)
Example ReduceScenario_getters :
  map (fun g => (QuerySet.ofProfile g,
                 Js.bind (QuerySet.readReducedIndexes g)
                         (fun l => Js.Ok (map MongoIndex.definition l)),
                 Js.bind (QuerySet.readIndex g)
                         (fun i => Js.Ok (MongoIndex.definition i))))
      ReduceScenario.getters
  = map (fun p =>
           let g := QuerySet.gettersOf Scenario.options
                      (QueryProfile.getCardinalitiesForIndexOptimization
                         Scenario.options ReduceScenario.statistics p) 0 p in
           (QuerySet.ofProfile g,
            Js.bind (QuerySet.readReducedIndexes g)
                    (fun l => Js.Ok (map MongoIndex.definition l)),
            Js.bind (QuerySet.readIndex g)
                    (fun i => Js.Ok (MongoIndex.definition i))))
        [ReduceScenario.onX; ReduceScenario.onXY; ReduceScenario.onXYZ].
Proof. vm_compute. reflexivity. Qed.

(** The candidates of the profiles of [ReduceScenario] are what the getter
    produces for them. *)
Example ReduceScenario_candidates :
  Js.mapM ReduceScenario.candidates
    (map QuerySet.profile ReduceScenario.queryProfiles)
  = Js.Ok (map (fun e => map MongoIndex.definition (QuerySet.reducedIndexes e))
               ReduceScenario.queryProfiles)
  /\ Js.mapM ReduceScenario.candidates
       (map QuerySet.profile ReduceScenario.absorbed)
     = Js.Ok (map (fun e => map MongoIndex.definition (QuerySet.reducedIndexes e))
                  ReduceScenario.absorbed).
Proof. split; vm_compute; reflexivity. Qed.


(** Scenario S4 of the specification. *)
Example C2_scenario_S4 :
  QuerySet.reduceIndexes 3 ReduceScenario.absorbed
  = Some ReduceScenario.absorbedReduced
  /\ QuerySet.reduceIndexes 2 ReduceScenario.absorbed = None.
Proof. split; vm_compute; reflexivity. Qed.

(* ================================================================== *)
(** * Part III: further properties of the code *)
(* ================================================================== *)

(** ** Comparing indexes ([lib/mongo_index.js]) *)

Lemma agreeOnKeys_app (a rest : IndexDefinition) :
  MongoIndex.agreeOnKeys a (a ++ rest) = true.
Proof.
  induction a as [|[k v] a IH]; simpl; [reflexivity|].
  rewrite String.eqb_refl. simpl.
  assert (Hv : MongoIndex.value_neq v v = false).
  { destruct v; simpl; [rewrite Z.eqb_refl|]; reflexivity. }
  rewrite Hv. exact IH.
Qed.

Lemma agreeOnKeys_prefix (a b : IndexDefinition) :
  MongoIndex.agreeOnKeys a b = true -> exists rest, b = a ++ rest.
Proof.
  revert b. induction a as [|[k v] a IH]; intros b H; simpl in *.
  - exists b. reflexivity.
  - destruct b as [|[k' v'] b]; [discriminate|].
    destruct (String.eqb k k') eqn:Hk; simpl in H; [|discriminate].
    apply String.eqb_eq in Hk. subst k'.
    destruct (MongoIndex.value_neq v v') eqn:Hv; [discriminate|].
    assert (v = v').
    { destruct v as [x|], v' as [y|]; simpl in Hv; try discriminate; auto.
      apply negb_false_iff, Z.eqb_eq in Hv. congruence. }
    subst v'. destruct (IH b H) as (rest & ->). exists rest. reflexivity.
Qed.

Lemma isSameAs_of_definition (a b : MongoIndex.t) :
  MongoIndex.definition a = MongoIndex.definition b ->
  MongoIndex.isSameAs a b = true.
Proof.
  intros H. unfold MongoIndex.isSameAs. rewrite H, Nat.eqb_refl. simpl.
  rewrite <- (app_nil_r (MongoIndex.definition b)) at 2.
  apply agreeOnKeys_app.
Qed.

Lemma isIndexPrefixOf_iff (a b : MongoIndex.t) :
  MongoIndex.isIndexPrefixOf a b = true
  <-> exists rest, rest <> []
                   /\ MongoIndex.definition b = MongoIndex.definition a ++ rest.
Proof.
  unfold MongoIndex.isIndexPrefixOf, Js.obj_keys. rewrite !length_map. split.
  - destruct (List.length (MongoIndex.definition b)
              <=? List.length (MongoIndex.definition a))%nat eqn:Hle;
      [discriminate|].
    apply Nat.leb_gt in Hle. intros H.
    apply agreeOnKeys_prefix in H. destruct H as (rest & H).
    exists rest. split; [|exact H].
    intros ->. rewrite H, app_nil_r in Hle. lia.
  - intros (rest & Hne & ->). rewrite length_app.
    destruct rest as [|x rest]; [congruence|]. simpl.
    replace (_ <=? _)%nat with false
      by (symmetry; apply Nat.leb_gt; lia).
    apply agreeOnKeys_app.
Qed.

Lemma string_app_assoc (a b c : string) : ((a ++ b) ++ c = a ++ (b ++ c))%string.
Proof. induction a as [|x a IH]; simpl; [reflexivity|]. rewrite IH. reflexivity. Qed.

Lemma unescape_json_char (c : ascii) (X : string) :
  unescape (MongoIndex.json_char c ++ X) = Some (c, X).
Proof.
  destruct c as [[] [] [] [] [] [] [] []]; reflexivity.
Qed.

Lemma json_chars_inj (k : string) :
  forall k' X X',
    (MongoIndex.json_chars k ++ MongoIndex.dquote ++ X
     = MongoIndex.json_chars k' ++ MongoIndex.dquote ++ X')%string ->
    k = k' /\ X = X'.
Proof.
  induction k as [|c k IH]; intros [|c' k'] X X' H; simpl in H.
  - injection H as H. split; [reflexivity|exact H].
  - exfalso. apply (f_equal unescape) in H.
    rewrite string_app_assoc, unescape_json_char in H. discriminate H.
  - exfalso. apply (f_equal unescape) in H.
    rewrite string_app_assoc, unescape_json_char in H. discriminate H.
  - apply (f_equal unescape) in H.
    rewrite !string_app_assoc, !unescape_json_char in H.
    injection H as -> H. apply IH in H. destruct H as [-> ->].
    split; reflexivity.
Qed.

Lemma numeral_string_of_uint (d : Decimal.uint) :
  numeral (NilEmpty.string_of_uint d) = true.
Proof. induction d; simpl; auto. Qed.

Lemma numeral_string_of_Z (z : Z) :
  numeral (Js.string_of_Z z) = true
  /\ exists c r, Js.string_of_Z z = String c r.
Proof.
  unfold Js.string_of_Z.
  assert (H : forall d, numeral (NilZero.string_of_uint d) = true
                        /\ exists c r, NilZero.string_of_uint d = String c r).
  { intros d. destruct d; simpl;
      try (split; [try apply numeral_string_of_uint; reflexivity
                  |eexists; eexists; reflexivity]). }
  destruct (Z.to_int z) as [d|d]; simpl.
  - apply H.
  - destruct (H d) as [Hn _]. split; [exact Hn|]. eexists; eexists; reflexivity.
Qed.

Lemma string_of_Z_inj (z z' : Z) :
  Js.string_of_Z z = Js.string_of_Z z' -> z = z'.
Proof.
  unfold Js.string_of_Z. intros H.
  assert (Hn : forall z, NilZero.int_of_string
                           (NilZero.string_of_int (Z.to_int z))
                         = Some (Z.to_int z)).
  { intros y. apply NilZero.isi.
    - intros Hy. pose proof (DecimalZ.to_of (Z.to_int y)) as Ht.
      rewrite DecimalZ.of_to in Ht. rewrite Hy in Ht at 1. rewrite Hy in Ht.
      simpl in Ht. discriminate Ht.
    - intros Hy. pose proof (DecimalZ.to_of (Z.to_int y)) as Ht.
      rewrite DecimalZ.of_to in Ht. rewrite Hy in Ht at 1. rewrite Hy in Ht.
      simpl in Ht. discriminate Ht. }
  pose proof (Hn z) as H1. rewrite H, Hn in H1. injection H1 as H1.
  rewrite <- (DecimalZ.of_to z), <- (DecimalZ.of_to z'), H1. reflexivity.
Qed.

Lemma numeral_span (s : string) :
  forall s' X X',
    numeral s = true -> numeral s' = true -> closes X -> closes X' ->
    (s ++ X = s' ++ X')%string -> s = s' /\ X = X'.
Proof.
  induction s as [|c s IH]; intros [|c' s'] X X' Hs Hs' HX HX' H; simpl in *.
  - split; [reflexivity|exact H].
  - exfalso. destruct HX as (x & r & -> & Hx). injection H as -> _.
    apply andb_prop in Hs'. destruct Hs' as [Hc _]. congruence.
  - exfalso. destruct HX' as (x & r & -> & Hx). injection H as -> _.
    apply andb_prop in Hs. destruct Hs as [Hc _]. congruence.
  - injection H as -> H. apply andb_prop in Hs, Hs'.
    destruct Hs as [_ Hs]. destruct Hs' as [_ Hs'].
    destruct (IH s' X X' Hs Hs' HX HX' H) as [-> ->]. split; reflexivity.
Qed.

Lemma closes_entries (l : IndexDefinition) : closes (entries l).
Proof. destruct l; simpl; eexists; eexists; split; reflexivity. Qed.

Lemma entry_inj (kv kv' : string * IndexValue) (X X' : string) :
  closes X -> closes X' ->
  (entry kv ++ X = entry kv' ++ X')%string -> kv = kv' /\ X = X'.
Proof.
  destruct kv as [k v], kv' as [k' v']. unfold entry, MongoIndex.json_string.
  simpl fst. simpl snd. intros HX HX' H.
  rewrite !string_app_assoc in H. simpl in H. injection H as H.
  apply json_chars_inj in H. destruct H as [-> H].
  simpl in H. injection H as H.
  destruct v as [z|], v' as [z'|]; simpl in H.
  - destruct (numeral_string_of_Z z) as [Hz _].
    destruct (numeral_string_of_Z z') as [Hz' _].
    destruct (numeral_span _ _ _ _ Hz Hz' HX HX' H) as [Hzz ->].
    apply string_of_Z_inj in Hzz. subst. split; reflexivity.
  - exfalso. destruct (numeral_string_of_Z z) as [Hz (c & r & Hc)].
    rewrite Hc in H, Hz. simpl in H, Hz. injection H as -> _.
    discriminate Hz.
  - exfalso. destruct (numeral_string_of_Z z') as [Hz (c & r & Hc)].
    rewrite Hc in H, Hz. simpl in H, Hz. injection H as <- _.
    discriminate Hz.
  - injection H as H. split; [reflexivity|exact H].
Qed.

Lemma entries_inj (l : IndexDefinition) :
  forall l', entries l = entries l' -> l = l'.
Proof.
  assert (Hcons : forall kv r,
             entries (kv :: r) = String "," (entry kv ++ entries r))
    by reflexivity.
  induction l as [|kv l IH]; intros [|kv' l'] H;
    try reflexivity; try discriminate.
  rewrite !Hcons in H.
  assert (H' : (entry kv ++ entries l = entry kv' ++ entries l')%string)
    by (injection H as H;
        apply (f_equal (String (ascii_of_nat 34))) in H; exact H).
  clear H. rename H' into H.
  apply entry_inj in H; try apply closes_entries.
  destruct H as [-> H]. f_equal. apply IH. exact H.
Qed.

Lemma concat_entries (kv : string * IndexValue) (l : IndexDefinition) :
  (String.concat "," (map (fun kv => entry kv) (kv :: l)) ++ "}"
   = entry kv ++ entries l)%string.
Proof.
  revert kv. induction l as [|kv' l IH]; intros kv.
  - reflexivity.
  - change (String.concat "," (map (fun kv => entry kv) (kv :: kv' :: l)))
      with (entry kv ++ "," ++ String.concat "," (map (fun kv => entry kv) (kv' :: l)))%string.
    rewrite !string_app_assoc. rewrite IH. reflexivity.
Qed.

Lemma stringify_inj (d d' : IndexDefinition) :
  MongoIndex.stringify d = MongoIndex.stringify d' -> d = d'.
Proof.
  unfold MongoIndex.stringify.
  change (fun kv : string * IndexValue =>
            (MongoIndex.json_string (fst kv) ++ ":"
             ++ MongoIndex.json_value (snd kv))%string)
    with (fun kv => entry kv).
  intros H0.
  assert (H : (String.concat "," (map (fun kv => entry kv) d) ++ "}"
               = String.concat "," (map (fun kv => entry kv) d') ++ "}")%string)
    by (injection H0 as H0; exact H0).
  clear H0.
  destruct d as [|kv d], d' as [|kv' d'].
  - reflexivity.
  - exfalso. rewrite concat_entries in H. destruct kv' as [k v].
    unfold entry, MongoIndex.json_string in H. simpl in H. discriminate H.
  - exfalso. rewrite concat_entries in H. destruct kv as [k v].
    unfold entry, MongoIndex.json_string in H. simpl in H. discriminate H.
  - rewrite !concat_entries in H.
    apply entry_inj in H; try apply closes_entries.
    destruct H as [-> H]. f_equal. apply entries_inj. exact H.
Qed.

(** X1.  [isSameAs] holds exactly of two indexes with the same sequence of
    fields and directions; names, flags and statistics play no part. *)
Theorem isSameAs_iff_definition (a b : MongoIndex.t) :
  MongoIndex.isSameAs a b = true
  <-> MongoIndex.definition a = MongoIndex.definition b.
Proof.
  split; [apply isSameAs_definition|apply isSameAs_of_definition].
Qed.

(** X2.  [isIndexPrefixOf] holds exactly when the other index is this one
    followed by at least one more field. *)
Theorem isIndexPrefixOf_iff_proper_prefix (a b : MongoIndex.t) :
  MongoIndex.isIndexPrefixOf a b = true
  <-> exists field value rest,
        MongoIndex.definition b
        = MongoIndex.definition a ++ (field, value) :: rest.
Proof.
  rewrite isIndexPrefixOf_iff. split.
  - intros ([|[field value] rest] & Hne & H); [congruence|].
    exists field, value, rest. exact H.
  - intros (field & value & rest & H). exists ((field, value) :: rest).
    split; [discriminate|exact H].
Qed.

(** X3.  [isIndexPrefixOf] is a strict order on indexes taken up to
    [isSameAs]: no index is an index-prefix of itself, the relation is
    transitive, it does not tell apart indexes that are the same, and an
    index-prefix of an index is neither the same as it nor has it as an
    index-prefix. *)
Theorem isIndexPrefixOf_strict_order :
  (forall a, MongoIndex.isIndexPrefixOf a a = false)
  /\ (forall a b c,
        MongoIndex.isIndexPrefixOf a b = true ->
        MongoIndex.isIndexPrefixOf b c = true ->
        MongoIndex.isIndexPrefixOf a c = true)
  /\ (forall a b a' b',
        MongoIndex.isSameAs a a' = true -> MongoIndex.isSameAs b b' = true ->
        MongoIndex.isIndexPrefixOf a b = MongoIndex.isIndexPrefixOf a' b')
  /\ (forall a b,
        MongoIndex.isIndexPrefixOf a b = true ->
        MongoIndex.isSameAs a b = false /\ MongoIndex.isIndexPrefixOf b a = false).
Proof.
  split; [|split; [|split]].
  - intros a. apply isSameAs_not_prefix. apply isSameAs_of_definition. reflexivity.
  - intros a b c Hab Hbc. apply isIndexPrefixOf_iff in Hab, Hbc.
    destruct Hab as (r1 & Hr1 & Hab). destruct Hbc as (r2 & Hr2 & Hbc).
    apply isIndexPrefixOf_iff. exists (r1 ++ r2). split.
    + destruct r1; [congruence|discriminate].
    + rewrite Hbc, Hab, app_assoc. reflexivity.
  - intros a b a' b' Ha Hb. apply isIndexPrefixOf_definition;
      apply isSameAs_definition; assumption.
  - intros a b Hab. split.
    + destruct (MongoIndex.isSameAs a b) eqn:Hs; [|reflexivity].
      apply isSameAs_not_prefix in Hs. congruence.
    + destruct (MongoIndex.isIndexPrefixOf b a) eqn:Hba; [|reflexivity].
      apply isIndexPrefixOf_iff in Hab, Hba.
      destruct Hab as (r1 & Hr1 & Hab). destruct Hba as (r2 & Hr2 & Hba).
      rewrite Hab in Hba. apply (f_equal (@List.length _)) in Hba.
      rewrite !length_app in Hba.
      destruct r1; [congruence|]. simpl in Hba. lia.
Qed.

(** X4.  The canonical string determines the index: two indexes have the
    same canonical string exactly when [isSameAs] holds of them. *)
Theorem canonicalString_iff_isSameAs (a b : MongoIndex.t) :
  MongoIndex.canonicalString a = MongoIndex.canonicalString b
  <-> MongoIndex.isSameAs a b = true.
Proof.
  unfold MongoIndex.canonicalString. split.
  - intros H. apply isSameAs_of_definition. apply stringify_inj. exact H.
  - intros H. apply isSameAs_definition in H. rewrite H. reflexivity.
Qed.

(** ** Prefix reduction keeps every query served ([lib/query_set.js]) *)

Lemma servedBy_iff (a b : MongoIndex.t) :
  servedBy a b = true
  <-> exists rest, MongoIndex.definition b = MongoIndex.definition a ++ rest.
Proof.
  unfold servedBy. split.
  - intros H. apply orb_prop in H. destruct H as [H|H].
    + apply isSameAs_definition in H. exists []. rewrite app_nil_r. auto.
    + apply isIndexPrefixOf_iff in H. destruct H as (rest & _ & H).
      exists rest. exact H.
  - intros ([|x rest] & H).
    + rewrite app_nil_r in H. rewrite isSameAs_of_definition; auto.
    + apply orb_true_intro. right. apply isIndexPrefixOf_iff.
      exists (x :: rest). split; [discriminate|exact H].
Qed.

Lemma servedBy_refl (a : MongoIndex.t) : servedBy a a = true.
Proof. apply servedBy_iff. exists []. rewrite app_nil_r. reflexivity. Qed.

Lemma servedBy_trans (a b c : MongoIndex.t) :
  servedBy a b = true -> servedBy b c = true -> servedBy a c = true.
Proof.
  rewrite !servedBy_iff. intros (r1 & H1) (r2 & H2).
  exists (r1 ++ r2). rewrite H2, H1, app_assoc. reflexivity.
Qed.

Lemma servedBy_definition (a b b' : MongoIndex.t) :
  MongoIndex.definition b = MongoIndex.definition b' ->
  servedBy a b = true -> servedBy a b' = true.
Proof. rewrite !servedBy_iff. intros ->. auto. Qed.

Lemma allServedBy_refl l : allServedBy l l.
Proof. intros a Ha. exists a. split; [exact Ha|apply servedBy_refl]. Qed.

Lemma allServedBy_trans l1 l2 l3 :
  allServedBy l1 l2 -> allServedBy l2 l3 -> allServedBy l1 l3.
Proof.
  intros H12 H23 a Ha. destruct (H12 a Ha) as (b & Hb & Hab).
  destruct (H23 b Hb) as (c & Hc & Hbc). exists c. split; [exact Hc|].
  apply servedBy_trans with b; assumption.
Qed.

Lemma findSameK_spec (x : MongoIndex.t) (n : nat) (indexes : list MongoIndex.t) :
  forall k0 k,
    QuerySet.findSameK x n k0 indexes = Some k ->
    exists y, nth_error indexes (k - k0) = Some y
              /\ (k0 <= k)%nat /\ n <> k /\ MongoIndex.isSameAs x y = true.
Proof.
  induction indexes as [|y r IH]; intros k0 k H; simpl in H; [discriminate|].
  destruct (negb (n =? k0)%nat && MongoIndex.isSameAs x y) eqn:Hc.
  - injection H as <-. apply andb_prop in Hc. destruct Hc as [Hn Hs].
    exists y. rewrite Nat.sub_diag. simpl. repeat split; auto.
    apply negb_true_iff, Nat.eqb_neq in Hn. exact Hn.
  - apply IH in H. destruct H as (z & Hz & Hle & Hn & Hs).
    exists z. replace (k - k0)%nat with (S (k - S k0)) by lia. simpl.
    repeat split; auto. lia.
Qed.

Lemma findSameN_spec (indexes : list MongoIndex.t) :
  forall rest n k,
    (forall i x, nth_error rest i = Some x -> nth_error indexes (n + i) = Some x) ->
    QuerySet.findSameN indexes n rest = Some k ->
    exists m x y, m <> k /\ nth_error indexes m = Some x
                  /\ nth_error indexes k = Some y
                  /\ MongoIndex.isSameAs x y = true.
Proof.
  induction rest as [|x r IH]; intros n k Hrest H; simpl in H; [discriminate|].
  destruct (QuerySet.findSameK x n 0 indexes) as [k'|] eqn:Hk.
  - injection H as <-. apply findSameK_spec in Hk.
    destruct Hk as (y & Hy & _ & Hn & Hs). rewrite Nat.sub_0_r in Hy.
    exists n, x, y. repeat split; auto.
    specialize (Hrest 0%nat x eq_refl). rewrite Nat.add_0_r in Hrest. exact Hrest.
  - apply (IH (S n) k); [|exact H].
    intros i z Hz. replace (S n + i)%nat with (n + S i)%nat by lia.
    apply Hrest. exact Hz.
Qed.

Lemma In_splice1 {A} (k : nat) (l : list A) (m : nat) (x : A) :
  m <> k -> nth_error l m = Some x -> In x (QuerySet.splice1 k l).
Proof.
  unfold QuerySet.splice1. intros Hm Hx. apply in_or_app.
  destruct (Nat.lt_ge_cases m k) as [Hlt|Hge].
  - left. apply nth_error_In with m. rewrite nth_error_firstn.
    destruct (m <? k)%nat eqn:E; [exact Hx|]. apply Nat.ltb_ge in E. lia.
  - right. apply nth_error_In with (m - S k)%nat. rewrite nth_error_skipn.
    replace (S k + (m - S k))%nat with m by lia. exact Hx.
Qed.

Lemma removeSame_served (rounds : nat) :
  forall indexes, allServedBy indexes (QuerySet.removeSame rounds indexes).
Proof.
  induction rounds as [|rounds IH]; intros indexes; simpl;
    [apply allServedBy_refl|].
  destruct (QuerySet.findSameN indexes 0 indexes) as [k|] eqn:Hk;
    [|apply allServedBy_refl].
  apply allServedBy_trans with (QuerySet.splice1 k indexes); [|apply IH].
  apply findSameN_spec in Hk; [|intros i x Hx; exact Hx].
  destruct Hk as (m & x & y & Hm & Hx & Hy & Hs).
  intros a Ha. apply In_nth_error in Ha. destruct Ha as (i & Hi).
  destruct (Nat.eq_dec i k) as [->|Hik].
  - exists x. split; [apply (In_splice1 k indexes m x Hm Hx)|].
    rewrite Hy in Hi. injection Hi as <-.
    apply servedBy_iff. exists []. rewrite app_nil_r.
    apply isSameAs_definition. exact Hs.
  - exists a. split; [apply (In_splice1 k indexes i a Hik Hi)|apply servedBy_refl].
Qed.

Lemma uniqBy_complete {A} (f : A -> string) (l : list A) x :
  In x l -> exists y, In y (Underscore.uniqBy String.eqb f l) /\ f y = f x.
Proof.
  unfold Underscore.uniqBy.
  set (step := fun (acc : list string * list A) x =>
                 let computed := f x in
                 if existsb (String.eqb computed) (fst acc) then acc
                 else (fst acc ++ [computed], snd acc ++ [x])).
  assert (Hkeep : forall l acc y,
             fst acc = map f (snd acc) ->
             In y (snd acc) ->
             fst (fold_left step l acc) = map f (snd (fold_left step l acc))
             /\ In y (snd (fold_left step l acc))).
  { clear. induction l as [|z l IH]; intros acc y Hacc Hy; simpl; [auto|].
    apply IH.
    - unfold step. simpl. destruct (existsb _ _); [exact Hacc|].
      simpl. rewrite map_app, Hacc. reflexivity.
    - unfold step. simpl. destruct (existsb _ _); [exact Hy|].
      simpl. apply in_or_app. left. exact Hy. }
  assert (H : forall l acc,
             fst acc = map f (snd acc) ->
             In x l ->
             exists y, In y (snd (fold_left step l acc)) /\ f y = f x).
  { intros l0.
    induction l0 as [|z l0 IH]; intros acc Hacc Hx; [destruct Hx|].
    simpl. destruct Hx as [->|Hx].
    - unfold step at 2. simpl.
      destruct (existsb (String.eqb (f x)) (fst acc)) eqn:Hex.
      + apply existsb_exists in Hex. destruct Hex as (c & Hc & Heq).
        apply String.eqb_eq in Heq. subst c. rewrite Hacc in Hc.
        apply in_map_iff in Hc. destruct Hc as (y & Hfy & Hy).
        exists y. split; [|exact Hfy].
        apply (Hkeep l0 acc y Hacc Hy).
      + exists x. split; [|reflexivity].
        apply Hkeep.
        * simpl. rewrite map_app, Hacc. reflexivity.
        * simpl. apply in_or_app. right. left. reflexivity.
    - apply IH; [|exact Hx].
      unfold step. simpl. destruct (existsb _ _); [exact Hacc|].
      simpl. rewrite map_app, Hacc. reflexivity. }
  intros Hx. apply (H l ([], [])); [reflexivity|exact Hx].
Qed.

Lemma replacement_served (s : list QuerySet.Entry) (k : nat)
  (e : QuerySet.Entry) (a : MongoIndex.t) :
  exists b, In b (QuerySet.replacement s k e a) /\ servedBy a b = true.
Proof.
  unfold QuerySet.replacement.
  destruct (QuerySet.lhsPrefixedIndexes s k e a) as [|b l] eqn:Hp; simpl.
  - destruct (QuerySet.lhsSameIndexes s k e a) as [|b l] eqn:Hs; simpl.
    + exists a. split; [left; reflexivity|apply servedBy_refl].
    + exists b. split; [left; reflexivity|].
      assert (Hb : In b (QuerySet.lhsSameIndexes s k e a))
        by (rewrite Hs; left; reflexivity).
      apply In_lhsSameIndexes in Hb. apply servedBy_iff. exists [].
      rewrite app_nil_r. exact Hb.
  - exists b. split; [left; reflexivity|].
    assert (Hb : In b (QuerySet.lhsPrefixedIndexes s k e a))
      by (rewrite Hp; left; reflexivity).
    apply In_lhsPrefixedIndexes in Hb. destruct Hb as [Hb _].
    unfold servedBy. rewrite Hb. apply orb_true_r.
Qed.

Lemma reduceProfile_served (s : list QuerySet.Entry) (k : nat)
  (e : QuerySet.Entry) :
  allServedBy (QuerySet.reducedIndexes e) (snd (QuerySet.reduceProfile s k e)).
Proof.
  intros a Ha. destruct (replacement_served s k e a) as (b & Hb & Hab).
  unfold QuerySet.reduceProfile. simpl.
  destruct (uniqBy_complete MongoIndex.canonicalString
              (flat_map (QuerySet.replacement s k e) (QuerySet.reducedIndexes e)) b)
    as (b' & Hb' & Heq).
  { apply in_flat_map. exists a. split; assumption. }
  exists b'. split; [exact Hb'|].
  apply servedBy_definition with b; [|exact Hab].
  symmetry. apply stringify_inj. exact Heq.
Qed.

Lemma stillServed_refl s : stillServed s s.
Proof.
  intros i e He. exists e. repeat split; auto. apply allServedBy_refl.
Qed.

Lemma stillServed_trans s1 s2 s3 :
  stillServed s1 s2 -> stillServed s2 s3 -> stillServed s1 s3.
Proof.
  intros H12 H23 i e He. destruct (H12 i e He) as (e2 & He2 & Hp2 & Hs2).
  destruct (H23 i e2 He2) as (e3 & He3 & Hp3 & Hs3).
  exists e3. split; [exact He3|]. split; [congruence|].
  apply allServedBy_trans with (QuerySet.reducedIndexes e2); assumption.
Qed.

Lemma passFrom_served (positions : list nat) :
  forall c s, stillServed s (snd (QuerySet.passFrom positions c s)).
Proof.
  induction positions as [|k rest IH]; intros c s; cbn [QuerySet.passFrom].
  - apply stillServed_refl.
  - destruct (nth_error s k) as [lhsQuery|] eqn:Hk; [|apply IH].
    cbv zeta.
    apply stillServed_trans
      with (QuerySet.assign k (snd (QuerySet.reduceProfile s k lhsQuery)) s);
      [|apply IH].
    intros i e He. destruct (Nat.eq_dec i k) as [->|Hik].
    + rewrite (nth_error_assign_eq k _ s lhsQuery Hk).
      eexists. split; [reflexivity|]. rewrite Hk in He. injection He as <-.
      split; [reflexivity|]. simpl. apply reduceProfile_served.
    + rewrite nth_error_assign_neq by exact Hik.
      exists e. repeat split; auto. apply allServedBy_refl.
Qed.

Lemma untilUnchanged_served (fuel : nat) :
  forall s r, QuerySet.untilUnchanged fuel s = Some r -> stillServed s r.
Proof.
  induction fuel as [|fuel IH]; intros s r H; [discriminate|].
  cbn [QuerySet.untilUnchanged] in H. cbv zeta in H.
  pose proof (passFrom_served (seq 0 (List.length s)) false s) as Hpass.
  fold (QuerySet.pass s) in Hpass.
  destruct (fst (QuerySet.pass s)).
  - apply stillServed_trans with (snd (QuerySet.pass s)); [exact Hpass|].
    apply IH. exact H.
  - injection H as <-. exact Hpass.
Qed.

Lemma removeDuplicates_served (s : list QuerySet.Entry) :
  stillServed s (map QuerySet.removeDuplicates s).
Proof.
  intros i e He. rewrite nth_error_map, He. simpl.
  eexists. split; [reflexivity|]. split; [reflexivity|].
  simpl. apply removeSame_served.
Qed.

Lemma linkKnownQueryProfiles_served (s : list QuerySet.Entry) :
  stillServed s (QuerySet.linkKnownQueryProfiles s).
Proof.
  intros i e He. unfold QuerySet.linkKnownQueryProfiles.
  rewrite nth_error_map, He. simpl.
  eexists. split; [reflexivity|]. split; [reflexivity|]. simpl.
  intros a Ha.
  exists (MongoIndex.setKnownQueryProfiles a
            (QuerySet.holders s (MongoIndex.oid a))).
  split.
  - apply in_map_iff. exists a. split; [reflexivity|exact Ha].
  - apply servedBy_definition with a; [reflexivity|apply servedBy_refl].
Qed.

(** X5.  Reducing never costs a profile an index it needs: every candidate
    a profile holds before [reduceIndexes] is, when it returns, the same
    as or an index-prefix of an index the profile holds then. *)
Theorem reduceIndexes_keeps_profiles_served (fuel : nat)
  (queryProfiles reduced : list QuerySet.Entry) :
  QuerySet.reduceIndexes fuel queryProfiles = Some reduced ->
  stillServed queryProfiles reduced.
Proof.
  unfold QuerySet.reduceIndexes.
  destruct (QuerySet.untilUnchanged fuel
              (map QuerySet.removeDuplicates queryProfiles)) as [r|] eqn:Hr;
    [|discriminate].
  intros H. injection H as <-.
  apply stillServed_trans with (map QuerySet.removeDuplicates queryProfiles);
    [apply removeDuplicates_served|].
  apply stillServed_trans with r;
    [apply untilUnchanged_served with fuel; exact Hr|].
  apply linkKnownQueryProfiles_served.
Qed.

Lemma In_combine_seq_inv {A} (l : list A) :
  forall n j x,
    In (j, x) (combine (seq n (List.length l)) l) ->
    (n <= j)%nat /\ nth_error l (j - n) = Some x.
Proof.
  induction l as [|y l IH]; intros n j x H; simpl in H; [destruct H|].
  destruct H as [H|H].
  - injection H as <- <-. rewrite Nat.sub_diag. split; [lia|reflexivity].
  - apply IH in H. destruct H as [Hle H]. split; [lia|].
    replace (j - n)%nat with (S (j - S n)) by lia. exact H.
Qed.

Lemma In_enumerate_iff {A} (l : list A) (j : nat) (x : A) :
  In (j, x) (QuerySet.enumerate l) <-> nth_error l j = Some x.
Proof.
  split; [|apply In_enumerate].
  intros H. apply In_combine_seq_inv in H. destruct H as [_ H].
  rewrite Nat.sub_0_r in H. exact H.
Qed.

Lemma In_holders (s : list QuerySet.Entry) (o k : nat) :
  In k (QuerySet.holders s o)
  <-> exists q c, nth_error s k = Some q
                  /\ In c (QuerySet.reducedIndexes q)
                  /\ MongoIndex.oid c = o.
Proof.
  unfold QuerySet.holders. rewrite in_flat_map. split.
  - intros ([j q] & Hq & H). simpl in H. apply in_map_iff in H.
    destruct H as (c & <- & Hc). apply filter_In in Hc.
    destruct Hc as [Hc Ho]. apply Nat.eqb_eq in Ho.
    apply In_enumerate_iff in Hq. exists q, c. auto.
  - intros (q & c & Hq & Hc & Ho). exists (k, q).
    split; [apply In_enumerate_iff; exact Hq|]. simpl.
    apply in_map_iff. exists c. split; [reflexivity|].
    apply filter_In. split; [exact Hc|]. apply Nat.eqb_eq. exact Ho.
Qed.

(** X6.  When [reduceIndexes] returns, the known query profiles of every
    index that is left are the profiles that hold this index object. *)
Theorem reduceIndexes_records_holders (fuel : nat)
  (queryProfiles reduced : list QuerySet.Entry) :
  QuerySet.reduceIndexes fuel queryProfiles = Some reduced ->
  forall i p b,
    nth_error reduced i = Some p ->
    In b (QuerySet.reducedIndexes p) ->
    forall k,
      In k (MongoIndex.knownQueryProfiles b)
      <-> exists q c, nth_error reduced k = Some q
                      /\ In c (QuerySet.reducedIndexes q)
                      /\ MongoIndex.oid c = MongoIndex.oid b.
Proof.
  unfold QuerySet.reduceIndexes.
  destruct (QuerySet.untilUnchanged fuel
              (map QuerySet.removeDuplicates queryProfiles)) as [r|] eqn:Hr;
    [|discriminate].
  intros H. injection H as <-. clear Hr.
  assert (Hlink : forall k q,
             nth_error (QuerySet.linkKnownQueryProfiles r) k = Some q ->
             exists q0, nth_error r k = Some q0
                        /\ QuerySet.reducedIndexes q
                           = map (fun index =>
                                    MongoIndex.setKnownQueryProfiles index
                                      (QuerySet.holders r (MongoIndex.oid index)))
                                 (QuerySet.reducedIndexes q0)).
  { intros k q. unfold QuerySet.linkKnownQueryProfiles. rewrite nth_error_map.
    destruct (nth_error r k) as [q0|]; [|discriminate]. simpl.
    intros H. injection H as <-. exists q0. split; reflexivity. }
  intros i p b Hp Hb k.
  destruct (Hlink i p Hp) as (p0 & Hp0 & Hidx). rewrite Hidx in Hb.
  apply in_map_iff in Hb. destruct Hb as (b0 & <- & Hb0). simpl.
  rewrite In_holders. split.
  - intros (q0 & c0 & Hq0 & Hc0 & Ho).
    exists (QuerySet.setReducedIndexes q0
              (map (fun index =>
                      MongoIndex.setKnownQueryProfiles index
                        (QuerySet.holders r (MongoIndex.oid index)))
                   (QuerySet.reducedIndexes q0))).
    exists (MongoIndex.setKnownQueryProfiles c0
              (QuerySet.holders r (MongoIndex.oid c0))).
    split; [|split].
    + unfold QuerySet.linkKnownQueryProfiles. rewrite nth_error_map, Hq0.
      reflexivity.
    + simpl. apply in_map_iff. exists c0. split; [reflexivity|exact Hc0].
    + simpl. exact Ho.
  - intros (q & c & Hq & Hc & Ho).
    destruct (Hlink k q Hq) as (q0 & Hq0 & Hidx'). rewrite Hidx' in Hc.
    apply in_map_iff in Hc. destruct Hc as (c0 & <- & Hc0). simpl in Ho.
    exists q0, c0. auto.
Qed.

(** X5 on scenario S4. *)
Lemma reduceIndexes_keeps_profiles_served_witness :
  QuerySet.reduceIndexes 3 ReduceScenario.absorbed
  = Some ReduceScenario.absorbedReduced
  /\ stillServed ReduceScenario.absorbed ReduceScenario.absorbedReduced.
Proof.
  assert (H : QuerySet.reduceIndexes 3 ReduceScenario.absorbed
              = Some ReduceScenario.absorbedReduced)
    by (vm_compute; reflexivity).
  split; [exact H|].
  exact (reduceIndexes_keeps_profiles_served 3 ReduceScenario.absorbed
           ReduceScenario.absorbedReduced H).
Defined.

(** X6 on the four profiles of [ReduceScenario]. *)
Lemma reduceIndexes_records_holders_witness :
  QuerySet.reduceIndexes 1 ReduceScenario.queryProfiles
  = Some ReduceScenario.reduced
  /\ forall i p b,
       nth_error ReduceScenario.reduced i = Some p ->
       In b (QuerySet.reducedIndexes p) ->
       forall k,
         In k (MongoIndex.knownQueryProfiles b)
         <-> exists q c, nth_error ReduceScenario.reduced k = Some q
                         /\ In c (QuerySet.reducedIndexes q)
                         /\ MongoIndex.oid c = MongoIndex.oid b.
Proof.
  assert (H : QuerySet.reduceIndexes 1 ReduceScenario.queryProfiles
              = Some ReduceScenario.reduced)
    by (vm_compute; reflexivity).
  split; [exact H|].
  exact (reduceIndexes_records_holders 1 ReduceScenario.queryProfiles
           ReduceScenario.reduced H).
Defined.

(** ** The plans of the reconciler ([lib/index_set.js]) *)

Lemma firstWith_In l s x :
  firstWith l s x -> In x l /\ MongoIndex.canonicalString x = s.
Proof.
  intros (g & Hg).
  assert (H : In x (filter (fun y => String.eqb (MongoIndex.canonicalString y) s) l))
    by (rewrite Hg; left; reflexivity).
  apply filter_In in H. destruct H as [H1 H2]. apply String.eqb_eq in H2. auto.
Qed.

Lemma firstWith_exists l e :
  In e l -> exists x, firstWith l (MongoIndex.canonicalString e) x.
Proof.
  intros He.
  assert (H : In e (filter (fun y => String.eqb (MongoIndex.canonicalString y)
                                               (MongoIndex.canonicalString e)) l)).
  { apply filter_In. split; [exact He|apply String.eqb_refl]. }
  destruct (filter _ l) as [|x g] eqn:E; [destruct H|].
  exists x, g. exact E.
Qed.

Lemma changesFor_lists gR gC c :
  let E := IndexSet.groupOrEmpty gC c in
  let W := IndexSet.groupOrEmpty gR c in
  exists ch,
    IndexSet.changesFor gR gC c = Js.Ok ch
    /\ IndexSet.collectionName ch = c
    /\ (forall i, In i (IndexSet.create ch)
                  <-> exists s, firstWith W s i
                                /\ forall e, In e E ->
                                             MongoIndex.canonicalString e <> s)
    /\ (forall i, In i (IndexSet.drop ch)
                  <-> exists s, firstWith E s i
                                /\ (forall w, In w W ->
                                              MongoIndex.canonicalString w <> s)
                                /\ MongoIndex.startsWithAuto
                                     (MongoIndex.indexName i) = true)
    /\ (forall i, In i (IndexSet.keep ch)
                  <-> exists s y,
                        i = MongoIndex.setIndexExists y true
                        /\ ((firstWith W s y
                             /\ exists e, In e E
                                          /\ MongoIndex.canonicalString e = s)
                            \/ (firstWith E s y
                                /\ (forall w, In w W ->
                                              MongoIndex.canonicalString w <> s)
                                /\ MongoIndex.startsWithAuto
                                     (MongoIndex.indexName y) = false))).
Proof.
  intros E W. unfold IndexSet.changesFor. cbv zeta. fold E. fold W.
  set (eBy := Underscore.groupBy MongoIndex.canonicalString E).
  set (wBy := Underscore.groupBy MongoIndex.canonicalString W).
  set (eS := Underscore.sortBy String.leb (fun s : string => s) (Js.obj_keys eBy)).
  set (wS := Underscore.sortBy String.leb (fun s : string => s) (Js.obj_keys wBy)).
  assert (InE : forall s, In s eS
                          <-> exists e, In e E /\ MongoIndex.canonicalString e = s).
  { intros s. unfold eS. rewrite sortBy_In. apply groupBy_key. }
  assert (InW : forall s, In s wS
                          <-> exists w, In w W /\ MongoIndex.canonicalString w = s).
  { intros s. unfold wS. rewrite sortBy_In. apply groupBy_key. }
  assert (NotW : forall s, ~ In s wS
                           <-> forall w, In w W -> MongoIndex.canonicalString w <> s).
  { intros s. rewrite InW. split.
    - intros H w Hw Heq. apply H. exists w. auto.
    - intros H (w & Hw & Heq). apply (H w Hw Heq). }
  assert (NotE : forall s, ~ In s eS
                           <-> forall e, In e E -> MongoIndex.canonicalString e <> s).
  { intros s. rewrite InE. split.
    - intros H w Hw Heq. apply H. exists w. auto.
    - intros H (w & Hw & Heq). apply (H w Hw Heq). }
  assert (FE : forall s, In s eS ->
             exists x, Js.obj_get s eBy
                       = Some (x :: tl (filter (fun y => String.eqb (MongoIndex.canonicalString y) s) E))
                       /\ firstWith E s x).
  { intros s Hs. apply sortBy_In in Hs.
    destruct (group_first _ _ _ Hs) as (x & g & Hg & Hf).
    exists x. rewrite Hf. simpl. split; [exact Hg|]. exists g. exact Hf. }
  assert (FW : forall s, In s wS ->
             exists x, Js.obj_get s wBy
                       = Some (x :: tl (filter (fun y => String.eqb (MongoIndex.canonicalString y) s) W))
                       /\ firstWith W s x).
  { intros s Hs. apply sortBy_In in Hs.
    destruct (group_first _ _ _ Hs) as (x & g & Hg & Hf).
    exists x. rewrite Hf. simpl. split; [exact Hg|]. exists g. exact Hf. }
  assert (FWn : forall s, ~ In s wS -> Js.obj_get s wBy = None).
  { intros s Hs. apply obj_get_None. intros H. apply Hs. apply sortBy_In; auto. }
  assert (Funique : forall l s x y, firstWith l s x -> firstWith l s y -> x = y).
  { intros l s x y (g & Hg) (g' & Hg'). congruence. }
  set (drop0 := Underscore.difference String.eqb eS wS).
  assert (Hdrop0 : forall s, In s drop0 <-> In s eS /\ ~ In s wS).
  { intros s. apply difference_In. }
  assert (HisAuto : forall s, In s eS ->
             exists x, firstWith E s x
               /\ (index <- IndexSet.first (Js.obj_get s eBy) ;;
                   Js.Ok (MongoIndex.startsWithAuto (MongoIndex.indexName index)))
                  = Js.Ok (MongoIndex.startsWithAuto (MongoIndex.indexName x))).
  { intros s Hs. destruct (FE s Hs) as (x & Hg & Hf).
    exists x. split; [exact Hf|]. rewrite Hg. reflexivity. }
  match goal with
  | |- context [Js.bind (Js.filterM ?f drop0) _] =>
      destruct (filterM_total f drop0) as [userOwned Hu]
  end.
  { intros s Hs. destruct (HisAuto s (proj1 (proj1 (Hdrop0 s) Hs))) as (x & _ & Ha).
    rewrite Ha. eexists; reflexivity. }
  rewrite Hu, bind_Ok.
  match goal with
  | |- context [Js.bind (Js.filterM ?f drop0) _] =>
      destruct (filterM_total f drop0) as [drop1 Hd]
  end.
  { intros s Hs. destruct (HisAuto s (proj1 (proj1 (Hdrop0 s) Hs))) as (x & _ & Ha).
    rewrite Ha. eexists; reflexivity. }
  rewrite Hd, bind_Ok.
  pose proof (filterM_In _ _ _ Hu) as HuIn.
  pose proof (filterM_In _ _ _ Hd) as HdIn.
  cbv beta in HuIn, HdIn.
  set (keep0 := Underscore.intersection String.eqb eS wS ++ userOwned).
  assert (Hkeep0 : forall s, In s keep0 -> In s eS).
  { intros s Hs. apply in_app_or in Hs. destruct Hs as [Hs|Hs].
    - apply intersection_In in Hs. tauto.
    - apply HuIn in Hs. apply Hdrop0. tauto. }
  match goal with
  | |- context [Js.bind (Js.mapM ?f keep0) _] =>
      destruct (mapM_total f keep0) as [kept Hk]
  end.
  { intros s Hs.
    destruct (in_dec string_dec s wS) as [Hw|Hw].
    - destruct (FW s Hw) as (x & -> & _). eexists; reflexivity.
    - rewrite (FWn s Hw). destruct (FE s (Hkeep0 s Hs)) as (x & -> & _).
      eexists; reflexivity. }
  rewrite Hk, bind_Ok.
  match goal with
  | |- context [Js.bind (Js.mapM ?f (Underscore.difference String.eqb wS eS)) _] =>
      destruct (mapM_total f (Underscore.difference String.eqb wS eS))
        as [created Hc]
  end.
  { intros s Hs. apply difference_In in Hs.
    destruct (FW s (proj1 Hs)) as (x & -> & _). eexists; reflexivity. }
  rewrite Hc, bind_Ok.
  match goal with
  | |- context [Js.bind (Js.mapM ?f drop1) _] =>
      destruct (mapM_total f drop1) as [dropped Hdr]
  end.
  { intros s Hs. apply HdIn in Hs.
    destruct (FE s (proj1 (proj1 (Hdrop0 s) (proj1 Hs)))) as (x & -> & _).
    eexists; reflexivity. }
  rewrite Hdr, bind_Ok.
  eexists. split; [reflexivity|].
  cbn [IndexSet.collectionName IndexSet.drop IndexSet.keep IndexSet.create].
  split; [reflexivity|].
  pose proof (mapM_In _ _ _ Hc) as [Hc1 Hc2].
  pose proof (mapM_In _ _ _ Hdr) as [Hd1 Hd2].
  pose proof (mapM_In _ _ _ Hk) as [Hk1 Hk2].
  cbv beta in Hc1, Hc2, Hd1, Hd2, Hk1, Hk2.
  split; [|split].
  - (* create *)
    intros i. split.
    + intros Hi. destruct (Hc2 i Hi) as (s & Hs & Hfirst).
      apply difference_In in Hs. destruct Hs as [HsW HsE].
      destruct (FW s HsW) as (x & Hg & Hf). rewrite Hg in Hfirst.
      simpl in Hfirst. injection Hfirst as <-.
      exists s. split; [exact Hf|]. apply NotE. exact HsE.
    + intros (s & Hf & Hno).
      assert (HsW : In s wS).
      { apply InW. exists i. apply firstWith_In in Hf. tauto. }
      assert (Hs : In s (Underscore.difference String.eqb wS eS)).
      { apply difference_In. split; [exact HsW|]. apply NotE. exact Hno. }
      destruct (Hc1 s Hs) as (y & Hy & Hyin).
      destruct (FW s HsW) as (x & Hg & Hf'). rewrite Hg in Hy. simpl in Hy.
      injection Hy as <-. rewrite (Funique W s i x Hf Hf'). exact Hyin.
  - (* drop *)
    intros i. split.
    + intros Hi. destruct (Hd2 i Hi) as (s & Hs & Hfirst).
      apply HdIn in Hs. destruct Hs as [Hs Ha].
      apply Hdrop0 in Hs. destruct Hs as [HsE HsW].
      destruct (HisAuto s HsE) as (x & Hf & Ha').
      destruct (FE s HsE) as (x' & Hg & Hf').
      rewrite Hg in Hfirst. simpl in Hfirst. injection Hfirst as <-.
      rewrite (Funique E s x x' Hf Hf') in Ha'.
      exists s. split; [exact Hf'|]. split; [apply NotW; exact HsW|].
      rewrite Ha in Ha'. injection Ha' as ->. reflexivity.
    + intros (s & Hf & Hno & Hauto).
      assert (HsE : In s eS).
      { apply InE. exists i. apply firstWith_In in Hf. tauto. }
      destruct (HisAuto s HsE) as (x & Hfx & Ha).
      rewrite <- (Funique E s i x Hf Hfx) in Ha.
      assert (Hs : In s drop1).
      { apply HdIn. split.
        - apply Hdrop0. split; [exact HsE|]. apply NotW. exact Hno.
        - rewrite Ha, Hauto. reflexivity. }
      destruct (Hd1 s Hs) as (y & Hy & Hyin).
      destruct (FE s HsE) as (x' & Hg & Hf'). rewrite Hg in Hy. simpl in Hy.
      injection Hy as <-. rewrite (Funique E s i x' Hf Hf'). exact Hyin.
  - (* keep *)
    intros i. split.
    + intros Hi. destruct (Hk2 i Hi) as (s & Hs & Hfirst).
      apply in_app_or in Hs. destruct Hs as [Hs|Hs].
      * apply intersection_In in Hs. destruct Hs as [HsE HsW].
        destruct (FW s HsW) as (x & Hg & Hf). rewrite Hg in Hfirst.
        simpl in Hfirst. injection Hfirst as <-.
        exists s, x. split; [reflexivity|]. left. split; [exact Hf|].
        apply InE. exact HsE.
      * apply HuIn in Hs. destruct Hs as [Hs Ha].
        apply Hdrop0 in Hs. destruct Hs as [HsE HsW].
        rewrite (FWn s HsW) in Hfirst.
        destruct (HisAuto s HsE) as (x & Hf & Ha').
        destruct (FE s HsE) as (x' & Hg & Hf').
        rewrite Hg in Hfirst. simpl in Hfirst. injection Hfirst as <-.
        rewrite (Funique E s x x' Hf Hf') in Ha'.
        exists s, x'. split; [reflexivity|]. right. split; [exact Hf'|].
        split; [apply NotW; exact HsW|].
        rewrite Ha' in Ha. injection Ha as Ha. apply negb_true_iff in Ha. exact Ha.
    + intros (s & y & -> & [(Hf & HE)|(Hf & Hno & Huser)]).
      * assert (HsW : In s wS).
        { apply InW. exists y. apply firstWith_In in Hf. tauto. }
        assert (HsE : In s eS) by (apply InE; exact HE).
        assert (Hs : In s keep0).
        { apply in_or_app. left. apply intersection_In. auto. }
        destruct (Hk1 s Hs) as (z & Hz & Hzin).
        destruct (FW s HsW) as (x & Hg & Hf'). rewrite Hg in Hz. simpl in Hz.
        injection Hz as <-. rewrite (Funique W s y x Hf Hf'). exact Hzin.
      * assert (HsE : In s eS).
        { apply InE. exists y. apply firstWith_In in Hf. tauto. }
        assert (HsW : ~ In s wS) by (apply NotW; exact Hno).
        destruct (HisAuto s HsE) as (x & Hfx & Ha).
        rewrite <- (Funique E s y x Hf Hfx) in Ha.
        assert (Hs : In s keep0).
        { apply in_or_app. right. apply HuIn. split.
          - apply Hdrop0. auto.
          - rewrite Ha, Huser. reflexivity. }
        destruct (Hk1 s Hs) as (z & Hz & Hzin).
        rewrite (FWn s HsW) in Hz.
        destruct (FE s HsE) as (x' & Hg & Hf'). rewrite Hg in Hz. simpl in Hz.
        injection Hz as <-. rewrite (Funique E s y x' Hf Hf'). exact Hzin.
Qed.

Lemma In_ofCollection c l x :
  In x (ofCollection c l) <-> In x l /\ MongoIndex.collectionName x = c.
Proof.
  unfold ofCollection. rewrite filter_In. rewrite String.eqb_eq. reflexivity.
Qed.

Lemma getRecommendedIndexChanges_spec (recommended existing : list MongoIndex.t) :
  exists changes,
    IndexSet.getRecommendedIndexChanges recommended existing = Js.Ok changes
    /\ (forall c, In c (map IndexSet.collectionName changes)
                  <-> In c (map MongoIndex.collectionName recommended
                            ++ map MongoIndex.collectionName existing))
    /\ forall ch, In ch changes ->
                  planOf (ofCollection (IndexSet.collectionName ch) recommended)
                         (ofCollection (IndexSet.collectionName ch) existing)
                         ch.
Proof.
  unfold IndexSet.getRecommendedIndexChanges.
  set (gR := Underscore.groupBy MongoIndex.collectionName recommended).
  set (gC := Underscore.groupBy MongoIndex.collectionName existing).
  set (all := Underscore.uniq String.eqb _).
  destruct (mapM_total (IndexSet.changesFor gR gC) all) as [changes Hch].
  { intros c _. destruct (changesFor_lists gR gC c) as (ch & H & _). eauto. }
  exists changes. split; [exact Hch|].
  pose proof (mapM_In _ _ _ Hch) as [Hfwd Hbwd].
  split.
  - intros c.
    assert (Hall : In c all
                   <-> In c (map MongoIndex.collectionName recommended
                             ++ map MongoIndex.collectionName existing))
      by apply uniq_In.
    rewrite <- Hall. clear Hall. split.
    + intros Hc. apply in_map_iff in Hc. destruct Hc as (ch & <- & Hin).
      destruct (Hbwd ch Hin) as (coll & Hcoll & Heq).
      destruct (changesFor_lists gR gC coll) as (ch' & H & Hname & _).
      rewrite H in Heq. injection Heq as <-. rewrite Hname. exact Hcoll.
    + intros Hc. destruct (Hfwd c Hc) as (ch & Heq & Hin).
      destruct (changesFor_lists gR gC c) as (ch' & H & Hname & _).
      rewrite H in Heq. injection Heq as <-.
      apply in_map_iff. exists ch'. auto.
  - intros ch Hin. destruct (Hbwd ch Hin) as (coll & Hcoll & Heq).
    destruct (changesFor_lists gR gC coll) as (ch' & H & Hname & Hplan).
    rewrite H in Heq. injection Heq as <-. rewrite Hname.
    unfold gR, gC in Hplan. rewrite !groupOrEmpty_groupBy in Hplan.
    exact Hplan.
Qed.

Lemma canonicalString_isSameAs (a b : MongoIndex.t) :
  MongoIndex.canonicalString a <> MongoIndex.canonicalString b
  <-> MongoIndex.isSameAs a b = false.
Proof.
  split.
  - intros H. destruct (MongoIndex.isSameAs a b) eqn:Hs; [|reflexivity].
    exfalso. apply H. apply isSameAs_definition in Hs.
    unfold MongoIndex.canonicalString. rewrite Hs. reflexivity.
  - intros H Heq. apply stringify_inj in Heq.
    apply isSameAs_of_definition in Heq. congruence.
Qed.





(** ** The optimizer and the reconciler ([lib/mongo_optimizer.js]) *)

Lemma changes_false (collectionsToChange : list IndexSet.Changes) :
  MongoOptimizer.changes collectionsToChange = false
  <-> forall ch, In ch collectionsToChange ->
                 IndexSet.create ch = [] /\ IndexSet.drop ch = [].
Proof.
  unfold MongoOptimizer.changes. cbv zeta.
  set (sorted := Underscore.sortBy String.leb IndexSet.collectionName
                   collectionsToChange).
  assert (Hin : forall ch, In ch sorted <-> In ch collectionsToChange)
    by (intros ch; apply sortBy_In).
  assert (H : forall l b,
             fold_left
               (fun changes collectionChanges =>
                  if (0 <? List.length (IndexSet.create collectionChanges))%nat
                     || (0 <? List.length (IndexSet.drop collectionChanges))%nat
                  then true else changes) l b = false
             <-> b = false
                 /\ forall ch, In ch l ->
                               IndexSet.create ch = [] /\ IndexSet.drop ch = []).
  { induction l as [|x l IH]; intros b; simpl.
    - split; [intros ->; split; [reflexivity|intros ch []]|tauto].
    - rewrite IH. destruct (IndexSet.create x) as [|c cs] eqn:Hc;
        destruct (IndexSet.drop x) as [|d ds] eqn:Hd; simpl.
      + split.
        * intros [-> H]. split; [reflexivity|].
          intros ch [<-|Hch]; [rewrite Hc, Hd; auto|auto].
        * intros [-> H]. split; [reflexivity|]. intros ch Hch. apply H. auto.
      + split; [intros [H _]; discriminate|].
        intros [_ H]. destruct (H x (or_introl eq_refl)) as [_ H'].
        rewrite Hd in H'. discriminate.
      + split; [intros [H _]; discriminate|].
        intros [_ H]. destruct (H x (or_introl eq_refl)) as [H' _].
        rewrite Hc in H'. discriminate.
      + split; [intros [H _]; discriminate|].
        intros [_ H]. destruct (H x (or_introl eq_refl)) as [H' _].
        rewrite Hc in H'. discriminate. }
  rewrite H. split.
  - intros [_ Hall] ch Hch. apply Hall. apply Hin. exact Hch.
  - intros Hall. split; [reflexivity|]. intros ch Hch. apply Hall. apply Hin.
    exact Hch.
Qed.

Lemma firstWith_distinct (existing : list MongoIndex.t) (e : MongoIndex.t) :
  distinctIndexes existing -> In e existing ->
  forall x,
    firstWith (ofCollection (MongoIndex.collectionName e) existing)
              (MongoIndex.canonicalString e) x ->
    x = e.
Proof.
  intros Hd He x (g & Hg). unfold ofCollection in Hg.
  rewrite (distinct_filter MongoIndex.collectionName MongoIndex.canonicalString
             existing e Hd He) in Hg.
  congruence.
Qed.


Lemma getExistingIndexes_nil listIndexes :
  MongoOptimizer.getExistingIndexes listIndexes = [].
Proof. reflexivity. Qed.

Lemma no_member_nil {A} (l : list A) : (forall x, ~ In x l) -> l = [].
Proof.
  destruct l as [|x l]; [reflexivity|]. intros H. exfalso.
  apply (H x). left. reflexivity.
Qed.

(** X11.  The optimizer never sees an existing index: [getExistingIndexes]
    walks [self.queryProfiles], which [MongoOptimizer] never assigns, so
    the set it hands over is empty whatever the database lists.  A plan
    made with it therefore drops nothing and keeps nothing, and every
    recommended index is the same as an index of a create list, whether
    the database has it or not. *)
Theorem existing_indexes_are_never_read
  (listIndexes : string -> list MongoOptimizer.ListedIndex)
  (recommended : list MongoIndex.t) (changes : list IndexSet.Changes) :
  IndexSet.getRecommendedIndexChanges recommended
    (MongoOptimizer.getExistingIndexes listIndexes) = Js.Ok changes ->
  MongoOptimizer.getExistingIndexes listIndexes = []
  /\ (forall ch, In ch changes ->
                 IndexSet.drop ch = [] /\ IndexSet.keep ch = [])
  /\ forall r, In r recommended ->
               exists ch index,
                 In ch changes
                 /\ IndexSet.collectionName ch = MongoIndex.collectionName r
                 /\ In index (IndexSet.create ch)
                 /\ MongoIndex.isSameAs r index = true.
Proof.
  rewrite (getExistingIndexes_nil listIndexes). intros Hret.
  destruct (getRecommendedIndexChanges_spec recommended [])
    as (changes' & Heq & Hcolls & Hplan).
  rewrite Hret in Heq. injection Heq as <-.
  split; [reflexivity|]. split.
  - intros ch Hch. destruct (Hplan ch Hch) as (_ & Hdrop & Hkeep).
    split; apply no_member_nil; intros x Hx.
    + apply Hdrop in Hx. destruct Hx as (s & (g & Hf) & _). discriminate Hf.
    + apply Hkeep in Hx. destruct Hx as (s & y & _ & [(_ & e & [] & _)|((g & Hf) & _)]).
      discriminate Hf.
  - intros r Hr.
    assert (Hc : In (MongoIndex.collectionName r)
                    (map IndexSet.collectionName changes)).
    { apply Hcolls. apply in_or_app. left. apply in_map. exact Hr. }
    apply in_map_iff in Hc. destruct Hc as (ch & Hname & Hch).
    destruct (Hplan ch Hch) as (Hcreate & _ & _). rewrite Hname in *.
    assert (HrW : In r (ofCollection (MongoIndex.collectionName r) recommended))
      by (apply In_ofCollection; auto).
    destruct (firstWith_exists _ r HrW) as (x & Hx).
    pose proof (firstWith_In _ _ _ Hx) as [_ Hxs].
    exists ch, x. split; [exact Hch|]. split; [exact Hname|]. split.
    + apply Hcreate. exists (MongoIndex.canonicalString r).
      split; [exact Hx|]. intros e [].
    + apply isSameAs_of_definition. symmetry. apply stringify_inj. exact Hxs.
Qed.

(** X11 on scenario S8, with a database that lists the indexes of the
    scenario for every collection: the index on [d] is created although
    the database has it. *)
Lemma existing_indexes_are_never_read_witness :
  exists changes,
    IndexSet.getRecommendedIndexChanges ReconcileScenario.recommended
      (MongoOptimizer.getExistingIndexes listIndexesOfScenario)
    = Js.Ok changes
    /\ MongoOptimizer.getExistingIndexes listIndexesOfScenario = []
    /\ (forall ch, In ch changes ->
                   IndexSet.drop ch = [] /\ IndexSet.keep ch = [])
    /\ forall r, In r ReconcileScenario.recommended ->
                 exists ch index,
                   In ch changes
                   /\ IndexSet.collectionName ch = MongoIndex.collectionName r
                   /\ In index (IndexSet.create ch)
                   /\ MongoIndex.isSameAs r index = true.
Proof.
  destruct (getRecommendedIndexChanges_spec ReconcileScenario.recommended
              (MongoOptimizer.getExistingIndexes listIndexesOfScenario))
    as (changes & Heq & _).
  exists changes. split; [exact Heq|].
  exact (existing_indexes_are_never_read listIndexesOfScenario
           ReconcileScenario.recommended changes Heq).
Defined.


(** ** The set of query profiles ([lib/query_set.js], [lib/query_profile.js]) *)

Lemma equivalent_of_isEquivalent p q :
  wellFormedProfile p ->
  QueryProfile.isEquivalentToQueryProfile p q = true ->
  equivalentProfiles p q.
Proof.
  intros (He & Hs & Hr). unfold QueryProfile.isEquivalentToQueryProfile.
  destruct (String.eqb (QueryProfile.namespace p) (QueryProfile.namespace q))
    eqn:Hns; simpl; [|discriminate].
  destruct (List.length (QueryProfile.exact p)
            =? List.length (QueryProfile.exact q))%nat eqn:Hle;
    simpl; [|discriminate].
  destruct (Underscore.difference String.eqb (QueryProfile.exact p)
              (QueryProfile.exact q)) as [|x l] eqn:Hde; simpl; [|discriminate].
  destruct (List.length (Js.obj_keys (QueryProfile.sort p))
            =? List.length (Js.obj_keys (QueryProfile.sort q)))%nat eqn:Hls;
    simpl; [|discriminate].
  destruct (Underscore.difference String.eqb (Js.obj_keys (QueryProfile.sort p))
              (Js.obj_keys (QueryProfile.sort q))) as [|x l] eqn:Hds;
    simpl; [|discriminate].
  destruct (forallb _ (Js.obj_keys (QueryProfile.sort p))) eqn:Hdir;
    simpl; [|discriminate].
  destruct (List.length (QueryProfile.range p)
            =? List.length (QueryProfile.range q))%nat eqn:Hlr;
    simpl; [|discriminate].
  destruct (Underscore.difference String.eqb (QueryProfile.range p)
              (QueryProfile.range q)) as [|x l] eqn:Hdr; simpl; [|discriminate].
  intros _.
  apply String.eqb_eq in Hns. apply Nat.eqb_eq in Hle, Hls, Hlr.
  assert (Hset : forall a b : list string,
             NoDup a -> List.length a = List.length b ->
             Underscore.difference String.eqb a b = [] -> sameSet a b).
  { intros a b Ha Hlen Hd.
    assert (Hincl : incl a b).
    { intros x Hx. destruct (in_dec string_dec x b) as [Hb|Hb]; [exact Hb|].
      assert (Hin : In x (Underscore.difference String.eqb a b))
        by (apply difference_In; auto).
      rewrite Hd in Hin. destruct Hin. }
    intros x. split; [apply Hincl|].
    apply (NoDup_length_incl Ha); [lia|exact Hincl]. }
  pose proof (Hset _ _ He Hle Hde) as Hex.
  pose proof (Hset _ _ Hs Hls Hds) as Hkeys.
  pose proof (Hset _ _ Hr Hlr Hdr) as Hra.
  split; [exact Hns|]. split; [exact Hex|]. split; [|exact Hra].
  intros key.
  destruct (in_dec string_dec key (Js.obj_keys (QueryProfile.sort p))) as [Hk|Hk].
  - rewrite forallb_forall in Hdir. specialize (Hdir key Hk).
    destruct (Js.obj_get key (QueryProfile.sort p)) as [x|] eqn:Hp.
    + destruct (Js.obj_get key (QueryProfile.sort q)) as [y|]; simpl in Hdir;
        [|discriminate]. apply Z.eqb_eq in Hdir. congruence.
    + apply obj_get_None in Hp. contradiction.
  - assert (Hk' : ~ In key (Js.obj_keys (QueryProfile.sort q))).
    { intros H. apply Hk. apply Hkeys. exact H. }
    apply obj_get_None in Hk, Hk'. congruence.
Qed.

(** X12.  For profiles whose exact fields, sort keys and range fields are
    sets, [isEquivalentToQueryProfile] holds exactly when the namespaces
    are equal, the exact fields are the same set, the sort objects have
    the same keys with the same directions, and the range fields are the
    same set. *)
Theorem isEquivalentToQueryProfile_iff (p q : QueryProfile.t) :
  wellFormedProfile p -> wellFormedProfile q ->
  (QueryProfile.isEquivalentToQueryProfile p q = true
   <-> equivalentProfiles p q).
Proof.
  intros Hp Hq. split.
  - apply equivalent_of_isEquivalent. exact Hp.
  - apply isEquivalent_of_equivalent; assumption.
Qed.

Lemma equivalentProfiles_sym p q : equivalentProfiles p q -> equivalentProfiles q p.
Proof.
  intros (H1 & H2 & H3 & H4). repeat split; auto; try (intros; apply H2; auto);
    try (intros; apply H4; auto).
Qed.

Lemma isEquivalent_sym p q :
  wellFormedProfile p -> wellFormedProfile q ->
  QueryProfile.isEquivalentToQueryProfile p q
  = QueryProfile.isEquivalentToQueryProfile q p.
Proof.
  intros Hp Hq.
  destruct (QueryProfile.isEquivalentToQueryProfile p q) eqn:H1;
    destruct (QueryProfile.isEquivalentToQueryProfile q p) eqn:H2; auto.
  - apply (equivalent_of_isEquivalent p q Hp) in H1.
    apply equivalentProfiles_sym in H1.
    apply (isEquivalent_of_equivalent q p Hq Hp) in H1. congruence.
  - apply (equivalent_of_isEquivalent q p Hq) in H2.
    apply equivalentProfiles_sym in H2.
    apply (isEquivalent_of_equivalent p q Hp Hq) in H2. congruence.
Qed.

Lemma sameQuery_isEquivalent p p' q q' :
  sameQuery p p' -> sameQuery q q' ->
  QueryProfile.isEquivalentToQueryProfile p q
  = QueryProfile.isEquivalentToQueryProfile p' q'.
Proof.
  intros (H1 & H2 & H3 & H4) (G1 & G2 & G3 & G4).
  unfold QueryProfile.isEquivalentToQueryProfile.
  rewrite H1, H2, H3, H4, G1, G2, G3, G4. reflexivity.
Qed.

Lemma sameQuery_addSource p src ver : sameQuery (QueryProfile.addSource p src ver) p.
Proof.
  unfold QueryProfile.addSource.
  destruct (QueryProfile.updateSource src _ (QueryProfile.sources p));
    repeat split.
Qed.

Lemma sameQuery_mergeInto now p existing :
  sameQuery (QuerySet.mergeInto now p existing) existing.
Proof.
  unfold QuerySet.mergeInto.
  assert (H : forall l st,
             sameQuery
               (fold_left
                  (fun existing src =>
                     QueryProfile.addSource existing (QueryProfile.source src)
                                            (QueryProfile.version src)) l st) st).
  { induction l as [|s l IH]; intros st; simpl; [repeat split|].
    destruct (IH (QueryProfile.addSource st (QueryProfile.source s)
                                         (QueryProfile.version s)))
      as (A1 & A2 & A3 & A4).
    destruct (sameQuery_addSource st (QueryProfile.source s) (QueryProfile.version s))
      as (B1 & B2 & B3 & B4).
    repeat split; congruence. }
  destruct (H (QueryProfile.sources p)
              (QueryProfile.incrementUsageCount
                 (QueryProfile.set_lastQueryTime existing now)))
    as (A1 & A2 & A3 & A4).
  repeat split; simpl in *; congruence.
Qed.

Lemma sameQuery_wellFormed p q : sameQuery p q -> wellFormedProfile q -> wellFormedProfile p.
Proof.
  intros (H1 & H2 & H3 & H4). unfold wellFormedProfile. rewrite H2, H3, H4. auto.
Qed.

Lemma sameQuery_fields p q : sameQuery p q -> QueryProfile.fields p = QueryProfile.fields q.
Proof.
  intros (H1 & H2 & H3 & H4). unfold QueryProfile.fields. rewrite H2, H3, H4.
  reflexivity.
Qed.

Lemma updateExisting_Some now qp :
  forall qs qs' merged,
    QuerySet.updateExisting now qp qs = Some (qs', merged) ->
    Forall2 sameQuery qs' qs.
Proof.
  induction qs as [|other r IH]; intros qs' merged H; simpl in H; [discriminate|].
  destruct (QueryProfile.isEquivalentToQueryProfile qp other).
  - injection H as <- <-. constructor; [apply sameQuery_mergeInto|].
    clear. induction r; constructor; auto. repeat split.
  - destruct (QuerySet.updateExisting now qp r) as [[r' m]|] eqn:Hr; [|discriminate].
    injection H as <- <-. constructor; [repeat split|]. apply (IH r' m eq_refl).
Qed.

Lemma updateExisting_None now qp :
  forall qs,
    QuerySet.updateExisting now qp qs = None ->
    forall other, In other qs ->
                  QueryProfile.isEquivalentToQueryProfile qp other = false.
Proof.
  induction qs as [|x r IH]; intros H other Hin; simpl in *; [destruct Hin|].
  destruct (QueryProfile.isEquivalentToQueryProfile qp x) eqn:Hx; [discriminate|].
  destruct (QuerySet.updateExisting now qp r) as [[r' m]|] eqn:Hr; [discriminate|].
  destruct Hin as [<-|Hin]; [exact Hx|]. apply IH; auto.
Qed.

Lemma Forall2_nth_error {A B} (R : A -> B -> Prop) l l' :
  Forall2 R l l' ->
  forall i x, nth_error l i = Some x ->
              exists y, nth_error l' i = Some y /\ R x y.
Proof.
  induction 1 as [|a b l l' Hab H IH]; intros [|i] x Hx; simpl in *;
    try discriminate.
  - injection Hx as <-. exists b. auto.
  - apply IH. exact Hx.
Qed.

Lemma tidy_sameQuery qs qs' :
  Forall2 sameQuery qs' qs -> tidy qs -> tidy qs'.
Proof.
  intros H2 [Hno Hall]. split.
  - intros i j p q Hij Hp Hq.
    destruct (Forall2_nth_error _ _ _ H2 i p Hp) as (p0 & Hp0 & Hsp).
    destruct (Forall2_nth_error _ _ _ H2 j q Hq) as (q0 & Hq0 & Hsq).
    rewrite (sameQuery_isEquivalent p p0 q q0 Hsp Hsq).
    apply (Hno i j p0 q0 Hij Hp0 Hq0).
  - intros p Hp. apply In_nth_error in Hp. destruct Hp as (i & Hp).
    destruct (Forall2_nth_error _ _ _ H2 i p Hp) as (p0 & Hp0 & Hsp).
    apply nth_error_In in Hp0.
    apply (sameQuery_wellFormed p p0 Hsp (Hall p0 Hp0)).
Qed.

Lemma addQueryProfile_tidy now qs qp :
  tidy qs -> wellFormedProfile qp ->
  tidy (fst (QuerySet.addQueryProfile now qs qp)).
Proof.
  intros Ht Hw. unfold QuerySet.addQueryProfile.
  destruct (QuerySet.updateExisting now qp qs) as [[qs' merged]|] eqn:Hu; simpl.
  - apply tidy_sameQuery with qs; [|exact Ht].
    apply (updateExisting_Some now qp qs qs' merged Hu).
  - pose proof (updateExisting_None now qp qs Hu) as Hnone.
    destruct Ht as [Hno Hall].
    set (qp' := QueryProfile.incrementUsageCount qp).
    assert (Hs : sameQuery qp' qp) by (repeat split).
    split.
    + intros i j p q Hij Hp Hq.
      destruct (Nat.lt_ge_cases i (List.length qs)) as [Hi|Hi];
        destruct (Nat.lt_ge_cases j (List.length qs)) as [Hj|Hj].
      * rewrite nth_error_app1 in Hp, Hq by assumption.
        apply (Hno i j p q Hij Hp Hq).
      * rewrite nth_error_app1 in Hp by assumption.
        rewrite nth_error_app2 in Hq by assumption.
        destruct (j - List.length qs)%nat as [|n]; simpl in Hq;
          [|destruct n; discriminate].
        injection Hq as <-.
        pose proof (nth_error_In _ _ Hp) as Hpin.
        rewrite (sameQuery_isEquivalent p p qp' qp) by (auto; repeat split).
        rewrite isEquivalent_sym; [apply Hnone; exact Hpin| |exact Hw].
        apply Hall. exact Hpin.
      * rewrite nth_error_app2 in Hp by assumption.
        rewrite nth_error_app1 in Hq by assumption.
        destruct (i - List.length qs)%nat as [|n]; simpl in Hp;
          [|destruct n; discriminate].
        injection Hp as <-.
        rewrite (sameQuery_isEquivalent qp' qp q q) by (auto; repeat split).
        apply Hnone. apply nth_error_In with j. exact Hq.
      * exfalso. rewrite nth_error_app2 in Hp, Hq by assumption.
        destruct (i - List.length qs)%nat as [|n] eqn:Ei; simpl in Hp;
          [|destruct n; discriminate].
        destruct (j - List.length qs)%nat as [|m] eqn:Ej; simpl in Hq;
          [|destruct m; discriminate].
        lia.
    + intros p Hp. apply in_app_or in Hp. destruct Hp as [Hp|[<-|[]]].
      * apply Hall. exact Hp.
      * apply (sameQuery_wellFormed qp' qp Hs Hw).
Qed.

Lemma sameQuery_refl p : sameQuery p p.
Proof. repeat split. Qed.

Lemma sameQuery_trans p q r : sameQuery p q -> sameQuery q r -> sameQuery p r.
Proof.
  intros (A1 & A2 & A3 & A4) (B1 & B2 & B3 & B4). repeat split; congruence.
Qed.

Lemma Forall2_In_r {A B} (R : A -> B -> Prop) l l' :
  Forall2 R l l' -> forall y, In y l' -> exists x, In x l /\ R x y.
Proof.
  induction 1 as [|a b l l' Hab H IH]; intros y Hy; [destruct Hy|].
  destruct Hy as [<-|Hy].
  - exists a. split; [left; reflexivity|exact Hab].
  - destruct (IH y Hy) as (x & Hx & Hr). exists x. split; [right; exact Hx|exact Hr].
Qed.

Lemma Forall2_In_l {A B} (R : A -> B -> Prop) l l' :
  Forall2 R l l' -> forall x, In x l -> exists y, In y l' /\ R x y.
Proof.
  induction 1 as [|a b l l' Hab H IH]; intros x Hx; [destruct Hx|].
  destruct Hx as [<-|Hx].
  - exists b. split; [left; reflexivity|exact Hab].
  - destruct (IH x Hx) as (y & Hy & Hr). exists y. split; [right; exact Hy|exact Hr].
Qed.

Lemma updateExisting_found now qp :
  forall qs qs' merged,
    QuerySet.updateExisting now qp qs = Some (qs', merged) ->
    exists other, In other qs
                  /\ QueryProfile.isEquivalentToQueryProfile qp other = true.
Proof.
  induction qs as [|other r IH]; intros qs' merged H; simpl in H; [discriminate|].
  destruct (QueryProfile.isEquivalentToQueryProfile qp other) eqn:He.
  - exists other. split; [left; reflexivity|exact He].
  - destruct (QuerySet.updateExisting now qp r) as [[r' m]|] eqn:Hr; [|discriminate].
    destruct (IH r' m eq_refl) as (o & Ho & Heq).
    exists o. split; [right; exact Ho|exact Heq].
Qed.

Lemma isEquivalent_refl p :
  wellFormedProfile p -> QueryProfile.isEquivalentToQueryProfile p p = true.
Proof.
  intros Hw. apply isEquivalent_of_equivalent; [exact Hw|exact Hw|].
  unfold equivalentProfiles. repeat split; auto.
Qed.

(** One call of [addQueryProfile]: the profiles that were in the set stay,
    as the same queries; the profile that is added is equivalent to one of
    the set; and every profile of the set was there or is the one added. *)
Lemma addQueryProfile_members now qs qp :
  wellFormedProfile qp ->
  let qs' := fst (QuerySet.addQueryProfile now qs qp) in
  (forall q, In q qs -> exists q', In q' qs' /\ sameQuery q' q)
  /\ (exists q', In q' qs'
                 /\ QueryProfile.isEquivalentToQueryProfile qp q' = true)
  /\ (forall q', In q' qs' ->
                 (exists q, In q qs /\ sameQuery q' q) \/ sameQuery q' qp).
Proof.
  intros Hw. unfold QuerySet.addQueryProfile.
  destruct (QuerySet.updateExisting now qp qs) as [[qs' merged]|] eqn:Hu; simpl.
  - pose proof (updateExisting_Some now qp qs qs' merged Hu) as H2.
    split; [|split].
    + intros q Hq. apply (Forall2_In_r _ _ _ H2 q Hq).
    + destruct (updateExisting_found now qp qs qs' merged Hu) as (o & Ho & He).
      destruct (Forall2_In_r _ _ _ H2 o Ho) as (q' & Hq' & Hs).
      exists q'. split; [exact Hq'|].
      rewrite (sameQuery_isEquivalent qp qp q' o (sameQuery_refl qp) Hs).
      exact He.
    + intros q' Hq'. left. apply (Forall2_In_l _ _ _ H2 q' Hq').
  - split; [|split].
    + intros q Hq. exists q. split; [apply in_or_app; left; exact Hq|].
      apply sameQuery_refl.
    + exists (QueryProfile.incrementUsageCount qp).
      split; [apply in_or_app; right; left; reflexivity|].
      rewrite (sameQuery_isEquivalent qp qp (QueryProfile.incrementUsageCount qp)
                 qp (sameQuery_refl qp)) by (repeat split).
      apply isEquivalent_refl. exact Hw.
    + intros q' Hq'. apply in_app_or in Hq'. destruct Hq' as [Hq'|[<-|[]]].
      * left. exists q'. split; [exact Hq'|apply sameQuery_refl].
      * right. repeat split.
Qed.

Lemma addQueryProfiles_snoc calls call qs :
  addQueryProfiles (calls ++ [call]) qs
  = fst (QuerySet.addQueryProfile (fst call) (addQueryProfiles calls qs)
                                  (snd call)).
Proof. unfold addQueryProfiles. rewrite fold_left_app. reflexivity. Qed.

Lemma addQueryProfiles_tidy :
  forall calls,
    (forall c, In c calls -> wellFormedProfile (snd c)) ->
    tidy (addQueryProfiles calls []).
Proof.
  induction calls as [|c l IH] using rev_ind; intros Hw.
  - split; [intros i j p q _ Hp; destruct i; discriminate|intros p []].
  - rewrite addQueryProfiles_snoc. apply addQueryProfile_tidy.
    + apply IH. intros c' Hc'. apply Hw. apply in_or_app. left. exact Hc'.
    + apply Hw. apply in_or_app. right. left. reflexivity.
Qed.

(** X13.  Whatever sequence of profiles (without duplicate fields) is given
    to [addQueryProfile], starting from the empty set: no two profiles of
    the set are equivalent; every profile that was given is equivalent to
    a profile of the set; and every profile of the set has the namespace,
    exact fields, sort and range fields of a profile that was given. *)
Theorem query_set_holds_each_query_once (calls : list (Z * QueryProfile.t)) :
  (forall c, In c calls -> wellFormedProfile (snd c)) ->
  noTwoEquivalent (addQueryProfiles calls [])
  /\ (forall c, In c calls ->
                exists q, In q (addQueryProfiles calls [])
                          /\ QueryProfile.isEquivalentToQueryProfile (snd c) q
                             = true)
  /\ (forall q, In q (addQueryProfiles calls []) ->
                exists c, In c calls /\ sameQuery q (snd c)).
Proof.
  intros Hw. split; [apply (addQueryProfiles_tidy calls Hw)|].
  induction calls as [|c l IH] using rev_ind.
  - split; [intros c []|intros q []].
  - assert (Hwl : forall c', In c' l -> wellFormedProfile (snd c'))
      by (intros c' Hc'; apply Hw; apply in_or_app; left; exact Hc').
    assert (Hwc : wellFormedProfile (snd c))
      by (apply Hw; apply in_or_app; right; left; reflexivity).
    destruct (IH Hwl) as [IH1 IH2].
    destruct (addQueryProfile_members (fst c) (addQueryProfiles l []) (snd c) Hwc)
      as (Hkeep & Hadded & Hfrom).
    rewrite addQueryProfiles_snoc. split.
    + intros c' Hc'. apply in_app_or in Hc'. destruct Hc' as [Hc'|[<-|[]]].
      * destruct (IH1 c' Hc') as (q & Hq & He).
        destruct (Hkeep q Hq) as (q' & Hq' & Hs).
        exists q'. split; [exact Hq'|].
        rewrite (sameQuery_isEquivalent (snd c') (snd c') q' q
                   (sameQuery_refl _) Hs).
        exact He.
      * exact Hadded.
    + intros q' Hq'. destruct (Hfrom q' Hq') as [(q & Hq & Hs)|Hs].
      * destruct (IH2 q Hq) as (c' & Hc' & Hs').
        exists c'. split; [apply in_or_app; left; exact Hc'|].
        apply (sameQuery_trans q' q (snd c') Hs Hs').
      * exists c. split; [apply in_or_app; right; left; reflexivity|exact Hs].
Qed.

Lemma totalUsage_app a b : totalUsage (a ++ b) = (totalUsage a + totalUsage b)%Z.
Proof. induction a as [|x a IH]; simpl; [reflexivity|]. rewrite IH. lia. Qed.

Lemma updateExisting_usage now qp :
  forall qs qs' merged,
    QuerySet.updateExisting now qp qs = Some (qs', merged) ->
    totalUsage qs' = (totalUsage qs + 1)%Z.
Proof.
  induction qs as [|other r IH]; intros qs' merged H; simpl in H; [discriminate|].
  destruct (QueryProfile.isEquivalentToQueryProfile qp other).
  - injection H as <- <-. simpl.
    destruct (mergeInto_spec now qp other) as [Hu _]. rewrite Hu. lia.
  - destruct (QuerySet.updateExisting now qp r) as [[r' m]|] eqn:Hr; [|discriminate].
    injection H as <- <-. simpl. rewrite (IH r' m eq_refl). lia.
Qed.

Lemma addQueryProfile_usage now qs qp :
  QueryProfile.usageCount qp = 0%Z ->
  totalUsage (fst (QuerySet.addQueryProfile now qs qp)) = (totalUsage qs + 1)%Z.
Proof.
  intros H0. unfold QuerySet.addQueryProfile.
  destruct (QuerySet.updateExisting now qp qs) as [[qs' merged]|] eqn:Hu; simpl.
  - apply (updateExisting_usage now qp qs qs' merged Hu).
  - rewrite totalUsage_app. simpl. rewrite H0. lia.
Qed.

(** X14.  When every profile is given with usage count 0, the usage counts
    of the set that [addQueryProfile] builds from the empty set add up to
    the number of calls. *)
Theorem usage_counts_add_up (calls : list (Z * QueryProfile.t)) :
  (forall c, In c calls -> QueryProfile.usageCount (snd c) = 0%Z) ->
  totalUsage (addQueryProfiles calls []) = Z.of_nat (List.length calls).
Proof.
  induction calls as [|c l IH] using rev_ind; intros H0; [reflexivity|].
  rewrite addQueryProfiles_snoc, addQueryProfile_usage.
  - rewrite IH.
    + rewrite length_app. simpl. lia.
    + intros c' Hc'. apply H0. apply in_or_app. left. exact Hc'.
  - apply H0. apply in_or_app. right. left. reflexivity.
Qed.

(** X12 on the two profiles of [MergeScenario]. *)
Lemma isEquivalentToQueryProfile_iff_witness :
  wellFormedProfile MergeScenario.first
  /\ wellFormedProfile MergeScenario.second
  /\ (QueryProfile.isEquivalentToQueryProfile MergeScenario.first
        MergeScenario.second = true
      <-> equivalentProfiles MergeScenario.first MergeScenario.second).
Proof.
  assert (Hw1 : wellFormedProfile MergeScenario.first).
  { unfold wellFormedProfile; simpl.
    repeat split; repeat constructor; simpl; intuition discriminate. }
  assert (Hw2 : wellFormedProfile MergeScenario.second).
  { unfold wellFormedProfile; simpl.
    repeat split; repeat constructor; simpl; intuition discriminate. }
  split; [exact Hw1|]. split; [exact Hw2|].
  exact (isEquivalentToQueryProfile_iff MergeScenario.first MergeScenario.second
           Hw1 Hw2).
Defined.

Lemma RecordScenario_wellFormed c :
  In c RecordScenario.calls -> wellFormedProfile (snd c).
Proof.
  intros [<-|[<-|[<-|[]]]]; unfold wellFormedProfile; simpl;
    repeat split; repeat constructor; simpl; intuition discriminate.
Qed.

(** X13 on the calls of [RecordScenario]. *)
Lemma query_set_holds_each_query_once_witness :
  (forall c, In c RecordScenario.calls -> wellFormedProfile (snd c))
  /\ noTwoEquivalent (addQueryProfiles RecordScenario.calls [])
  /\ (forall c, In c RecordScenario.calls ->
                exists q, In q (addQueryProfiles RecordScenario.calls [])
                          /\ QueryProfile.isEquivalentToQueryProfile (snd c) q
                             = true)
  /\ (forall q, In q (addQueryProfiles RecordScenario.calls []) ->
                exists c, In c RecordScenario.calls /\ sameQuery q (snd c)).
Proof.
  split; [exact RecordScenario_wellFormed|].
  exact (query_set_holds_each_query_once RecordScenario.calls
           RecordScenario_wellFormed).
Defined.

Lemma RecordScenario_fresh c :
  In c RecordScenario.calls -> QueryProfile.usageCount (snd c) = 0%Z.
Proof. intros [<-|[<-|[<-|[]]]]; reflexivity. Qed.

(** X14 on the calls of [RecordScenario]. *)
Lemma usage_counts_add_up_witness :
  (forall c, In c RecordScenario.calls -> QueryProfile.usageCount (snd c) = 0%Z)
  /\ totalUsage (addQueryProfiles RecordScenario.calls []) = 3%Z.
Proof.
  split; [exact RecordScenario_fresh|].
  exact (usage_counts_add_up RecordScenario.calls RecordScenario_fresh).
Defined.

Example RecordScenario_result :
  map (fun p => (QueryProfile.exact p, QueryProfile.usageCount p))
      (addQueryProfiles RecordScenario.calls [])
  = [(["name"; "status"], 2%Z); (["age"], 1%Z)].
Proof. vm_compute. reflexivity. Qed.

(** ** Decomposing a query ([lib/query_profile.js]) *)

Lemma length_mergeSubQueries a b :
  List.length (QueryProfile.mergeSubQueries a b)
  = (List.length a * List.length b)%nat.
Proof.
  unfold QueryProfile.mergeSubQueries.
  induction a as [|x a IH]; simpl; [reflexivity|].
  rewrite length_app, length_map, IH. reflexivity.
Qed.

Lemma analyzeKey_single root key value recur st :
  (forall root' comments, single (recur root' comments)) ->
  List.length (fst st) = 1%nat ->
  single (QueryProfile.analyzeKey root key value recur st).
Proof.
  intros Hrec Hst. unfold QueryProfile.analyzeKey.
  assert (Hmerge : forall root',
             single (r <- recur root' (snd st) ;;
                     Js.Ok (QueryProfile.mergeSubQueries (fst st) (fst r), snd r))).
  { intros root'. pose proof (Hrec root' (snd st)) as H.
    destruct (recur root' (snd st)) as [r|]; simpl in *; [|exact I].
    rewrite length_mergeSubQueries, Hst, H. reflexivity. }
  assert (Hpe : forall f, List.length (QueryProfile.pushExact f (fst st)) = 1%nat).
  { intros f. unfold QueryProfile.pushExact. rewrite length_map. exact Hst. }
  assert (Hpr : forall f, List.length (QueryProfile.pushRange f (fst st)) = 1%nat).
  { intros f. unfold QueryProfile.pushRange. rewrite length_map. exact Hst. }
  destruct (QueryProfile.ordinaryKey key).
  - destruct value; simpl; try apply Hpe; apply Hmerge.
  - destruct (existsb (String.eqb key) QueryProfile.rangeOperators); [apply Hpr|].
    destruct (String.eqb key "$eq"); [apply Hpe|].
    destruct (String.eqb key "$not"); [apply Hmerge|].
    destruct (String.eqb key "$elemMatch"); [apply Hmerge|].
    destruct (String.eqb key "$comment"); simpl; exact Hst.
Qed.

Lemma single_bind (r : Js.result QueryProfile.Analysis)
  (k : QueryProfile.Analysis -> Js.result QueryProfile.Analysis) :
  single r ->
  (forall a, List.length (fst a) = 1%nat -> single (k a)) ->
  single (Js.bind r k).
Proof. destruct r as [a|]; simpl; auto. Qed.

Lemma analyzeQuery_singleDeep (query : JsValue) : singleDeep query.
Proof.
  induction query using JsValue_nested_ind; split; try exact I;
    try (intros Hor root comments; simpl; reflexivity);
    try (intros Hor root comments; exact I).
  - (* a string *)
    intros _ root comments. simpl.
    assert (H : forall l (subs : list QueryProfile.SubQuery),
               List.length subs = 1%nat ->
               List.length
                 (fold_left
                    (fun l i =>
                       QueryProfile.pushExact
                         (QueryProfile.trimPeriods
                            (root ++ Js.string_of_Z (Z.of_nat i))) l)
                    l subs) = 1%nat).
    { induction l as [|i l IH]; intros subs Hs; simpl; [exact Hs|].
      apply IH. unfold QueryProfile.pushExact. rewrite length_map. exact Hs. }
    apply H. reflexivity.
  - (* an object *)
    intros Hor root comments. simpl in Hor. simpl.
    match goal with
    | |- single (Js.bind (?k props ?s0) _) => set (keysLoop := k)
    end.
    assert (Hkeys : forall ps st,
               Forall (fun kv => singleDeep (snd kv)) ps ->
               forallb (fun kv => negb (String.eqb (fst kv) "$or")
                                  && orFree (snd kv)) ps = true ->
               List.length (fst st) = 1%nat ->
               single (keysLoop ps st)).
    { induction ps as [|[key value] rest IH]; intros st Hall Hfree Hst.
      - simpl. exact Hst.
      - change (keysLoop ((key, value) :: rest) st)
          with (st' <- QueryProfile.analyzeKey root key value
                         (QueryProfile.analyzeQuery value) st ;;
                keysLoop rest st').
        inversion Hall as [|? ? Hv Hrest]; subst.
        simpl in Hfree. apply andb_prop in Hfree. destruct Hfree as [Hk Hfree].
        apply andb_prop in Hk. destruct Hk as [_ Hk].
        apply single_bind.
        + apply analyzeKey_single; [|exact Hst].
          intros root' comments'. apply (proj1 Hv Hk).
        + intros a Ha. apply IH; assumption. }
    apply single_bind; [apply Hkeys; auto|].
    intros st1 Hst1.
    match goal with
    | |- single (Js.bind (?k props st1) _) => set (andLoop := k)
    end.
    assert (Hand : forall ps st,
               Forall (fun kv => singleDeep (snd kv)) ps ->
               forallb (fun kv => negb (String.eqb (fst kv) "$or")
                                  && orFree (snd kv)) ps = true ->
               List.length (fst st) = 1%nat ->
               single (andLoop ps st)).
    { induction ps as [|[key value] rest IH]; intros st Hall Hfree Hst.
      - simpl. exact Hst.
      - inversion Hall as [|? ? Hv Hrest]; subst.
        simpl in Hfree. apply andb_prop in Hfree. destruct Hfree as [Hk Hfree].
        apply andb_prop in Hk. destruct Hk as [_ Hk].
        simpl. destruct (String.eqb key "$and"); [|apply IH; assumption].
        destruct value; try (destruct (truthy _); simpl; auto; exact Hst);
          try (simpl; exact Hst); try exact I.
        destruct Hv as [_ Hitems]. simpl in Hk. simpl in Hitems.
        clear IH Hall Hrest Hfree.
        revert st Hst. induction items as [|item more IHi]; intros st Hst.
        + simpl. exact Hst.
        + inversion Hitems as [|? ? Hi Hmore]; subst.
          simpl in Hk. apply andb_prop in Hk. destruct Hk as [Hki Hkm].
          apply single_bind; [apply Hi; exact Hki|].
          intros r Hr. apply IHi; auto.
          simpl. rewrite length_mergeSubQueries, Hst, Hr. reflexivity. }
    apply single_bind; [apply Hand; auto|].
    intros st2 Hst2.
    match goal with
    | |- single (?k props st2) => set (orLoop := k)
    end.
    assert (Hnone : forall ps st,
               forallb (fun kv => negb (String.eqb (fst kv) "$or")
                                  && orFree (snd kv)) ps = true ->
               orLoop ps st = Js.Ok st).
    { induction ps as [|[key value] rest IH]; intros st Hfree; [reflexivity|].
      simpl in Hfree. apply andb_prop in Hfree. destruct Hfree as [Hk Hfree].
      apply andb_prop in Hk. destruct Hk as [Hk _].
      apply negb_true_iff in Hk. simpl. rewrite Hk. apply IH. exact Hfree. }
    rewrite Hnone by exact Hor. simpl. exact Hst2.
  - (* an array, as a query *)
    intros Hor root comments. simpl in Hor. simpl.
    match goal with
    | |- single (?k items 0%nat ?s0) => set (itemsLoop := k)
    end.
    assert (Hitems : forall l i st,
               Forall singleDeep l -> forallb orFree l = true ->
               List.length (fst st) = 1%nat ->
               single (itemsLoop l i st)).
    { induction l as [|value rest IH]; intros i st Hall Hfree Hst.
      - simpl. exact Hst.
      - change (itemsLoop (value :: rest) i st)
          with (st' <- QueryProfile.analyzeKey root
                         (Js.string_of_Z (Z.of_nat i)) value
                         (QueryProfile.analyzeQuery value) st ;;
                itemsLoop rest (S i) st').
        inversion Hall as [|? ? Hv Hrest]; subst.
        simpl in Hfree. apply andb_prop in Hfree. destruct Hfree as [Hk Hfree].
        apply single_bind.
        + apply analyzeKey_single; [|exact Hst].
          intros root' comments'. apply (proj1 Hv Hk).
        + intros a Ha. apply IH; assumption. }
    apply Hitems; auto.
  - (* the items of an array *)
    simpl. apply Forall_impl with (P := singleDeep); [|assumption].
    intros item [Hs _]. exact Hs.
Qed.

(** X15.  A query in which no object has a [$or] key decomposes, when the
    decomposition does not throw, into exactly one profile; it carries
    the namespace and the sort it was given, its exact fields and its
    range fields are sets, and its usage count is 0. *)
Theorem or_free_query_has_one_profile (now : Z) (namespace : string)
  (query : JsValue) (sort : Js.obj Z) (profiles : list QueryProfile.t) :
  orFree query = true ->
  QueryProfile.createQueryProfilesFromMongoQuery now namespace query sort
  = Js.Ok profiles ->
  exists p,
    profiles = [p]
    /\ QueryProfile.namespace p = namespace
    /\ QueryProfile.sort p = sort
    /\ NoDup (QueryProfile.exact p)
    /\ NoDup (QueryProfile.range p)
    /\ QueryProfile.usageCount p = 0%Z.
Proof.
  intros Hor. unfold QueryProfile.createQueryProfilesFromMongoQuery.
  pose proof (proj1 (analyzeQuery_singleDeep query) Hor "" []) as Hs.
  destruct (QueryProfile.analyzeQuery query "" []) as [[subs comments]|];
    simpl in *; [|discriminate].
  destruct subs as [|sub [|sub' subs]]; try discriminate.
  intros H. injection H as <-. eexists. split; [reflexivity|].
  simpl. repeat split; auto; apply uniq_NoDup.
Qed.

(** X15 on the query of [DecomposeScenario]. *)
Lemma or_free_query_has_one_profile_witness :
  orFree DecomposeScenario.query = true
  /\ QueryProfile.createQueryProfilesFromMongoQuery 0 "db.users"
       DecomposeScenario.query [("birthday", (-1)%Z)]
     = Js.Ok [DecomposeScenario.profile]
  /\ exists p,
       [DecomposeScenario.profile] = [p]
       /\ QueryProfile.namespace p = "db.users"
       /\ QueryProfile.sort p = [("birthday", (-1)%Z)]
       /\ NoDup (QueryProfile.exact p)
       /\ NoDup (QueryProfile.range p)
       /\ QueryProfile.usageCount p = 0%Z.
Proof.
  assert (H1 : orFree DecomposeScenario.query = true) by reflexivity.
  assert (H2 : QueryProfile.createQueryProfilesFromMongoQuery 0 "db.users"
                 DecomposeScenario.query [("birthday", (-1)%Z)]
               = Js.Ok [DecomposeScenario.profile])
    by (vm_compute; reflexivity).
  split; [exact H1|]. split; [exact H2|].
  exact (or_free_query_has_one_profile 0 "db.users" DecomposeScenario.query
           [("birthday", (-1)%Z)] [DecomposeScenario.profile] H1 H2).
Defined.

(** ** The naive index of a profile *)

Lemma uniq_from (b : list string) :
  forall acc,
    NoDup b ->
    fold_left (fun result x =>
                 if Underscore.contains String.eqb result x then result
                 else result ++ [x]) b acc
    = acc ++ filter (fun x => negb (Underscore.contains String.eqb acc x)) b.
Proof.
  induction b as [|x b IH]; intros acc Hnd; simpl; [rewrite app_nil_r; reflexivity|].
  inversion Hnd as [|? ? Hx Hb]; subst.
  destruct (Underscore.contains String.eqb acc x) eqn:Hc; simpl.
  - apply IH. exact Hb.
  - rewrite IH by exact Hb. rewrite <- app_assoc. simpl. f_equal. f_equal.
    apply filter_ext_in. intros y Hy.
    destruct (Underscore.contains String.eqb acc y) eqn:Hcy.
    + assert (In y (acc ++ [x])) by (apply in_or_app; left; apply contains_In; exact Hcy).
      apply contains_In in H. rewrite H. reflexivity.
    + destruct (Underscore.contains String.eqb (acc ++ [x]) y) eqn:Hcy'; [|reflexivity].
      apply contains_In in Hcy'. apply in_app_or in Hcy'.
      destruct Hcy' as [Hin|[->|[]]].
      * apply contains_In in Hin. congruence.
      * contradiction.
Qed.

Lemma obj_get_fold_set {X V} (kf : X -> string) (vf : X -> V) (l : list X) :
  NoDup (map kf l) ->
  forall o f,
    Js.obj_get f (fold_left (fun index x => Js.obj_set (kf x) (vf x) index) l o)
    = match Js.obj_get f (map (fun x => (kf x, vf x)) l) with
      | Some v => Some v
      | None => Js.obj_get f o
      end.
Proof.
  induction l as [|x l IH]; intros Hnd o f; simpl; [reflexivity|].
  inversion Hnd as [|? ? Hx Hl]; subst.
  rewrite IH by exact Hl. rewrite obj_get_set.
  destruct (String.eqb (kf x) f) eqn:E.
  - apply String.eqb_eq in E. subst f.
    assert (Hn : Js.obj_get (kf x) (map (fun x => (kf x, vf x)) l) = None).
    { apply obj_get_None. unfold Js.obj_keys. rewrite map_map. exact Hx. }
    rewrite Hn. reflexivity.
  - reflexivity.
Qed.

Lemma obj_get_const (l : list string) (v : IndexValue) f :
  Js.obj_get f (map (fun x => (x, v)) l)
  = if isMember l f then Some v else None.
Proof.
  unfold isMember, Underscore.contains.
  induction l as [|x l IH]; simpl; [reflexivity|].
  rewrite (String.eqb_sym f x).
  destruct (String.eqb x f); simpl; [reflexivity|exact IH].
Qed.

Lemma obj_get_map_value {V W} (g : V -> W) (o : Js.obj V) f :
  Js.obj_get f (map (fun kv => (fst kv, g (snd kv))) o)
  = option_map g (Js.obj_get f o).
Proof.
  induction o as [|[k v] o IH]; simpl; [reflexivity|].
  destruct (String.eqb k f); [reflexivity|exact IH].
Qed.



(** ** The namespace of a profile ([lib/query_profile.js]) *)

Lemma substring_whole s : substring 0 (String.length s) s = s.
Proof. induction s as [|c s IH]; simpl; [reflexivity|]. rewrite IH. reflexivity. Qed.

Lemma index_period_split :
  forall s,
    match String.index 0 "." s with
    | Some i =>
        s = (substring 0 i s ++ "."
             ++ substring (S i) (String.length s - S i) s)%string
        /\ String.index 0 "." (substring 0 i s) = None
    | None => True
    end.
Proof.
  induction s as [|c s IH]; [exact I|].
  cbn [String.index String.prefix].
  destruct (ascii_dec "." c) as [<-|Hc].
  - replace (String.prefix "" s) with true by (destruct s; reflexivity).
    cbn [substring String.length Nat.sub String.append].
    rewrite Nat.sub_0_r, substring_whole. split; reflexivity.
  - destruct (String.index 0 "." s) as [i|]; [|exact I].
    destruct IH as [IH1 IH2].
    cbn [substring String.length Nat.sub String.append].
    split.
    + f_equal. exact IH1.
    + cbn [String.index String.prefix].
      destruct (ascii_dec "." c) as [E|_]; [contradiction|].
      rewrite IH2. reflexivity.
Qed.

(** X17.  The two getters split the namespace at its first period: when
    it has one, the namespace is the database name, a period and the
    collection name, and the database name has no period; when it has
    none, the database name is empty and the collection name is the whole
    namespace. *)
Theorem namespace_splits (p : QueryProfile.t) :
  match String.index 0 "." (QueryProfile.namespace p) with
  | Some _ =>
      QueryProfile.namespace p
      = (QueryProfile.databaseName p ++ "."
         ++ QueryProfile.collectionName p)%string
      /\ String.index 0 "." (QueryProfile.databaseName p) = None
  | None =>
      QueryProfile.databaseName p = ""%string
      /\ QueryProfile.collectionName p = QueryProfile.namespace p
  end.
Proof.
  unfold QueryProfile.databaseName, QueryProfile.collectionName.
  pose proof (index_period_split (QueryProfile.namespace p)) as H.
  destruct (String.index 0 "." (QueryProfile.namespace p)) as [i|].
  - exact H.
  - split; reflexivity.
Qed.

(** ** The check of the indexes Mongo used *)

Lemma didUse_inner actualIndex :
  forall reducedIndexes found,
    fold_left
      (fun found expectedIndex =>
         if MongoIndex.isSameAs actualIndex expectedIndex then true
         else if MongoIndex.isIndexPrefixOf actualIndex expectedIndex
              then true
              else found)
      reducedIndexes found
    = found || existsb (servedBy actualIndex) reducedIndexes.
Proof.
  induction reducedIndexes as [|e l IH]; intros found; simpl.
  - rewrite orb_false_r. reflexivity.
  - rewrite IH. unfold servedBy.
    destruct (MongoIndex.isSameAs actualIndex e),
      (MongoIndex.isIndexPrefixOf actualIndex e), found; reflexivity.
Qed.

Lemma didUse_existsb reducedIndexes :
  forall indexes found,
    fold_left
      (fun found actualIndex =>
         fold_left
           (fun found expectedIndex =>
              if MongoIndex.isSameAs actualIndex expectedIndex then true
              else if MongoIndex.isIndexPrefixOf actualIndex expectedIndex
                   then true
                   else found)
           reducedIndexes found)
      indexes found
    = found
      || existsb (fun a => existsb (servedBy a) reducedIndexes) indexes.
Proof.
  induction indexes as [|a l IH]; intros found; simpl.
  - rewrite orb_false_r. reflexivity.
  - rewrite IH, didUse_inner, orb_assoc. reflexivity.
Qed.

Lemma didUse_iff indexes reducedIndexes :
  UsedIndexes.didMongoProfileUseIndex indexes reducedIndexes = true
  <-> exists actual expected,
        In actual indexes /\ In expected reducedIndexes
        /\ servedBy actual expected = true.
Proof.
  unfold UsedIndexes.didMongoProfileUseIndex.
  rewrite didUse_existsb. simpl. rewrite existsb_exists. split.
  - intros (a & Ha & H). apply existsb_exists in H. destruct H as (e & He & H).
    exists a, e. auto.
  - intros (a & e & Ha & He & H). exists a. split; [exact Ha|].
    apply existsb_exists. exists e. auto.
Qed.


Lemma reduceIndexes_served (fuel : nat)
  (queryProfiles reduced : list QuerySet.Entry) :
  QuerySet.reduceIndexes fuel queryProfiles = Some reduced ->
  stillServed queryProfiles reduced.
Proof.
  unfold QuerySet.reduceIndexes.
  destruct (QuerySet.untilUnchanged fuel
              (map QuerySet.removeDuplicates queryProfiles)) as [r|] eqn:Hr;
    [|discriminate].
  intros H. injection H as <-.
  apply stillServed_trans with (map QuerySet.removeDuplicates queryProfiles);
    [apply removeDuplicates_served|].
  apply stillServed_trans with r;
    [apply untilUnchanged_served with fuel; exact Hr|].
  apply linkKnownQueryProfiles_served.
Qed.

(** X19.  Reducing never turns a hit into a miss: when the indexes Mongo
    used pass [didMongoProfileUseIndex] against the indexes a profile
    holds before [reduceIndexes], they pass it against the indexes the
    same profile holds when it returns. *)
Theorem reduction_keeps_hits (fuel : nat)
  (queryProfiles reduced : list QuerySet.Entry) (i : nat)
  (before : QuerySet.Entry) (indexes : list MongoIndex.t) :
  QuerySet.reduceIndexes fuel queryProfiles = Some reduced ->
  nth_error queryProfiles i = Some before ->
  UsedIndexes.didMongoProfileUseIndex indexes (QuerySet.reducedIndexes before)
  = true ->
  exists after,
    nth_error reduced i = Some after
    /\ QuerySet.profile after = QuerySet.profile before
    /\ UsedIndexes.didMongoProfileUseIndex indexes
         (QuerySet.reducedIndexes after) = true.
Proof.
  intros Hr Hb Hhit.
  destruct (reduceIndexes_served fuel queryProfiles reduced Hr i before Hb)
    as (after & Ha & Hp & Hs).
  exists after. split; [exact Ha|]. split; [exact Hp|].
  apply didUse_iff in Hhit. destruct Hhit as (a & e & Hai & He & Hae).
  destruct (Hs e He) as (e' & He' & Hee').
  apply didUse_iff. exists a, e'. split; [exact Hai|]. split; [exact He'|].
  apply servedBy_trans with e; assumption.
Qed.

(** X19 on scenario S4, for a query that Mongo served with an index on
    [x]. *)
Lemma reduction_keeps_hits_witness :
  QuerySet.reduceIndexes 3 ReduceScenario.absorbed
  = Some ReduceScenario.absorbedReduced
  /\ UsedIndexes.didMongoProfileUseIndex
       [ReduceScenario.index 9 [("x", Num 1)]]
       [ReduceScenario.index 0 [("x", Num 1)]] = true
  /\ exists after,
       nth_error ReduceScenario.absorbedReduced 0 = Some after
       /\ QuerySet.profile after = ReduceScenario.onX
       /\ UsedIndexes.didMongoProfileUseIndex
            [ReduceScenario.index 9 [("x", Num 1)]]
            (QuerySet.reducedIndexes after) = true.
Proof.
  assert (H : QuerySet.reduceIndexes 3 ReduceScenario.absorbed
              = Some ReduceScenario.absorbedReduced)
    by (vm_compute; reflexivity).
  assert (Hhit : UsedIndexes.didMongoProfileUseIndex
                   [ReduceScenario.index 9 [("x", Num 1)]]
                   [ReduceScenario.index 0 [("x", Num 1)]] = true)
    by (vm_compute; reflexivity).
  split; [exact H|]. split; [exact Hhit|].
  exact (reduction_keeps_hits 3 ReduceScenario.absorbed
           ReduceScenario.absorbedReduced 0
           (ReduceScenario.entry ReduceScenario.onX
              [ReduceScenario.index 0 [("x", Num 1)]])
           [ReduceScenario.index 9 [("x", Num 1)]] H eq_refl Hhit).
Defined.

(** ** Index extension ([lib/query_set.js]) *)

Lemma In_obj_keys_get {V} k (o : Js.obj V) :
  In k (Js.obj_keys o) <-> exists v, Js.obj_get k o = Some v.
Proof.
  split.
  - intros H. destruct (Js.obj_get k o) as [v|] eqn:E; [exists v; reflexivity|].
    apply obj_get_None in E. contradiction.
  - intros (v & Hv). destruct (in_dec string_dec k (Js.obj_keys o)) as [H|H];
      [exact H|].
    apply obj_get_None in H. congruence.
Qed.

Lemma In_obj_keys_set {V} k k' (v : V) o :
  In k (Js.obj_keys (Js.obj_set k' v o)) <-> k = k' \/ In k (Js.obj_keys o).
Proof.
  rewrite !In_obj_keys_get. setoid_rewrite obj_get_set.
  destruct (String.eqb k' k) eqn:E.
  - apply String.eqb_eq in E. subst. split; [auto|]. intros _. eauto.
  - apply String.eqb_neq in E. split; [auto|].
    intros [->|H]; [congruence|exact H].
Qed.

Lemma eligible_spec index k fields :
  QuerySet.eligibleExtensionFields index k = Js.Ok fields ->
  forall f, In f fields ->
            justifies k f
            /\ ~ In f (Js.obj_keys (MongoIndex.definition index)).
Proof.
  unfold QuerySet.eligibleExtensionFields. intros H f Hf.
  apply (filterM_In _ _ _ H) in Hf. destruct Hf as [Hin Hok].
  apply filter_In in Hin. destruct Hin as [Hin Hnot].
  unfold QueryProfile.stat in Hok.
  destruct (Js.obj_get f (QuerySet.indexFieldStatistics k)) as [s|] eqn:Hs;
    simpl in Hok; [|discriminate].
  destruct (arrayPrefixes s) as [|a l] eqn:Ha; simpl in Hok; [|discriminate].
  destruct (mode s) eqn:Hm; simpl in Hok; [|discriminate].
  split.
  - split; [exact Hin|]. exists s. auto.
  - intros Hk. apply negb_true_iff in Hnot.
    assert (Underscore.contains String.eqb
              (Js.obj_keys (MongoIndex.definition index)) f = true)
      by (apply contains_In; exact Hk).
    congruence.
Qed.

Lemma eligible_total index k :
  (forall f, In f (QueryProfile.exact (QuerySet.profileOf k)
                   ++ QueryProfile.range (QuerySet.profileOf k)) ->
             exists s, Js.obj_get f (QuerySet.indexFieldStatistics k) = Some s) ->
  exists fields, QuerySet.eligibleExtensionFields index k = Js.Ok fields.
Proof.
  intros Hc. unfold QuerySet.eligibleExtensionFields.
  apply filterM_total. intros f Hf. apply filter_In in Hf. destruct Hf as [Hf _].
  destruct (Hc f Hf) as (s & Hs). unfold QueryProfile.stat. rewrite Hs. simpl.
  eexists. reflexivity.
Qed.

Lemma candidateFields_incl (voters l : list QuerySet.Known) :
  incl voters l -> incl (candidateFields voters) (candidateFields l).
Proof.
  intros H f Hf. unfold candidateFields in *. apply in_flat_map in Hf.
  destruct Hf as (k & Hk & Hf). apply in_flat_map. exists k.
  split; [apply H; exact Hk|exact Hf].
Qed.

Lemma justifies_candidate (l : list QuerySet.Known) k f :
  In k l -> justifies k f -> In f (candidateFields l).
Proof.
  intros Hk [Hf _]. unfold candidateFields. apply in_flat_map. exists k. auto.
Qed.

Lemma castVote_backed index l k ballot f ballot' :
  backed index l ballot ->
  In k l -> justifies k f ->
  ~ In f (Js.obj_keys (MongoIndex.definition index)) ->
  QuerySet.castVote k ballot f = Js.Ok ballot' ->
  backed index l ballot'.
Proof.
  intros [Hkeys Hvoters] Hk Hj Hnot H.
  assert (Hfirst :
            backed index l
              {| QuerySet.extensionFieldVotes :=
                   Js.obj_set f (QueryProfile.usageCount (QuerySet.profileOf k))
                              (QuerySet.extensionFieldVotes ballot);
                 QuerySet.extensionFieldQueryProfiles :=
                   Js.obj_set f [k]
                              (QuerySet.extensionFieldQueryProfiles ballot) |}).
  { split; simpl.
    - intros g Hg. apply In_obj_keys_set in Hg. rewrite obj_get_set.
      destruct (String.eqb f g) eqn:E; [eexists; reflexivity|].
      destruct Hg as [->|Hg]; [rewrite String.eqb_refl in E; discriminate|].
      apply Hkeys. exact Hg.
    - intros g voters. rewrite obj_get_set.
      destruct (String.eqb f g) eqn:E.
      + apply String.eqb_eq in E. subst g. intros Hv. injection Hv as <-.
        split; [discriminate|]. split; [exact Hnot|].
        intros k' [<-|[]]. split; assumption.
      + apply Hvoters. }
  unfold QuerySet.castVote, Js.obj_lookup in H.
  destruct (Js.obj_get f (QuerySet.extensionFieldVotes ballot)) as [votes|] eqn:Hv;
    [|destruct (Js.inherited f); [discriminate|injection H as <-; exact Hfirst]].
  destruct (votes =? 0)%Z; [injection H as <-; exact Hfirst|].
  destruct (Js.obj_get f (QuerySet.extensionFieldQueryProfiles ballot))
    as [voters|] eqn:Hq; [|discriminate].
  injection H as <-. split; simpl.
  - intros g Hg. apply In_obj_keys_set in Hg. rewrite obj_get_set.
    destruct (String.eqb f g) eqn:E; [eexists; reflexivity|].
    destruct Hg as [->|Hg]; [rewrite String.eqb_refl in E; discriminate|].
    apply Hkeys. exact Hg.
  - intros g voters'. rewrite obj_get_set.
    destruct (String.eqb f g) eqn:E.
    + apply String.eqb_eq in E. subst g. intros H. injection H as <-.
      destruct (Hvoters f voters Hq) as (Hne & Hn & Hall).
      split; [destruct voters; discriminate|]. split; [exact Hn|].
      intros k' Hk'. apply in_app_or in Hk'. destruct Hk' as [Hk'|[<-|[]]].
      * apply Hall. exact Hk'.
      * split; assumption.
    + apply Hvoters.
Qed.

Lemma castVote_total index l k ballot f :
  backed index l ballot ->
  Js.inherited f = false ->
  exists ballot', QuerySet.castVote k ballot f = Js.Ok ballot'.
Proof.
  intros [Hkeys _] Hown. unfold QuerySet.castVote, Js.obj_lookup. rewrite Hown.
  destruct (Js.obj_get f (QuerySet.extensionFieldVotes ballot)) as [votes|] eqn:Hv;
    [|eexists; reflexivity].
  destruct (votes =? 0)%Z; [eexists; reflexivity|].
  destruct (Hkeys f) as (voters & Hq).
  { apply In_obj_keys_get. exists votes. exact Hv. }
  rewrite Hq. eexists. reflexivity.
Qed.

Lemma castVotes_backed index l k :
  In k l ->
  forall fields ballot ballot',
    (forall f, In f fields ->
               justifies k f
               /\ ~ In f (Js.obj_keys (MongoIndex.definition index))) ->
    backed index l ballot ->
    QuerySet.forEach (QuerySet.castVote k) fields ballot = Js.Ok ballot' ->
    backed index l ballot'.
Proof.
  intros Hk. induction fields as [|f r IH]; intros ballot ballot' Hf Hb H;
    simpl in H.
  - injection H as <-. exact Hb.
  - destruct (QuerySet.castVote k ballot f) as [b1|] eqn:Hc; simpl in H;
      [|discriminate].
    apply (IH b1 ballot'); [intros g Hg; apply Hf; right; exact Hg| |exact H].
    destruct (Hf f (or_introl eq_refl)) as [Hj Hn].
    apply (castVote_backed index l k ballot f b1 Hb Hk Hj Hn Hc).
Qed.

Lemma castVotes_total index l k :
  In k l ->
  forall fields ballot,
    (forall f, In f fields ->
               justifies k f
               /\ ~ In f (Js.obj_keys (MongoIndex.definition index))) ->
    (forall f, In f fields -> Js.inherited f = false) ->
    backed index l ballot ->
    exists ballot', QuerySet.forEach (QuerySet.castVote k) fields ballot
                    = Js.Ok ballot'.
Proof.
  intros Hk. induction fields as [|f r IH]; intros ballot Hf Hown Hb; simpl.
  - eexists. reflexivity.
  - destruct (castVote_total index l k ballot f Hb (Hown f (or_introl eq_refl)))
      as (b1 & Hc).
    rewrite Hc. simpl.
    apply IH; [intros g Hg; apply Hf; right; exact Hg
              |intros g Hg; apply Hown; right; exact Hg|].
    destruct (Hf f (or_introl eq_refl)) as [Hj Hn].
    apply (castVote_backed index l k ballot f b1 Hb Hk Hj Hn Hc).
Qed.

Lemma rounds_backed index l :
  forall profiles ballot ballot',
    incl profiles l ->
    backed index l ballot ->
    QuerySet.forEach (round index) profiles ballot = Js.Ok ballot' ->
    backed index l ballot'.
Proof.
  induction profiles as [|k r IH]; intros ballot ballot' Hin Hb H; simpl in H.
  - injection H as <-. exact Hb.
  - unfold round at 1 in H.
    destruct (QuerySet.eligibleExtensionFields index k) as [fields|] eqn:He;
      simpl in H; [|discriminate].
    destruct (QuerySet.forEach (QuerySet.castVote k) fields ballot) as [b1|] eqn:Hc;
      simpl in H; [|discriminate].
    apply (IH b1 ballot'); [intros x Hx; apply Hin; right; exact Hx| |exact H].
    apply (castVotes_backed index l k (Hin k (or_introl eq_refl)) fields ballot b1);
      [apply (eligible_spec index k fields He)|exact Hb|exact Hc].
Qed.

Lemma rounds_total index l :
  covered l ->
  ownNames l ->
  forall profiles ballot,
    incl profiles l ->
    backed index l ballot ->
    exists ballot', QuerySet.forEach (round index) profiles ballot = Js.Ok ballot'.
Proof.
  intros Hcov Hown. induction profiles as [|k r IH]; intros ballot Hin Hb; simpl.
  - eexists. reflexivity.
  - unfold round at 1.
    destruct (eligible_total index k) as (fields & He).
    { intros f Hf. apply (Hcov k f); [apply Hin; left; reflexivity|exact Hf]. }
    rewrite He. simpl.
    destruct (castVotes_total index l k (Hin k (or_introl eq_refl)) fields ballot)
      as (b1 & Hc);
      [apply (eligible_spec index k fields He)| |exact Hb|].
    { intros f Hf. apply Hown.
      destruct (eligible_spec index k fields He f Hf) as [Hj _].
      apply (justifies_candidate l k f (Hin k (or_introl eq_refl)) Hj). }
    rewrite Hc. simpl.
    apply IH; [intros x Hx; apply Hin; right; exact Hx|].
    apply (castVotes_backed index l k (Hin k (or_introl eq_refl)) fields ballot b1);
      [apply (eligible_spec index k fields He)|exact Hb|exact Hc].
Qed.

Lemma backed_empty index l :
  backed index l {| QuerySet.extensionFieldVotes := [];
                    QuerySet.extensionFieldQueryProfiles := [] |}.
Proof. split; simpl; [intros f []|intros f voters H; discriminate]. Qed.

Lemma tally_backed index l ballot :
  QuerySet.tally index l = Js.Ok ballot -> backed index l ballot.
Proof.
  intros H. apply (rounds_backed index l l _ ballot (incl_refl l)
                     (backed_empty index l)).
  exact H.
Qed.

Lemma tally_total index l :
  covered l -> ownNames l ->
  exists ballot, QuerySet.tally index l = Js.Ok ballot.
Proof.
  intros Hc Hown.
  apply (rounds_total index l Hc Hown l _ (incl_refl l) (backed_empty index l)).
Qed.

Lemma max_In {A} (it : A -> Q) (l : list A) z :
  Underscore.max it l = Some z -> In z l.
Proof.
  destruct l as [|x r]; [discriminate|].
  destruct (max_spec it (x :: r)) as (z' & Hz & Hin & _); [discriminate|].
  intros H. rewrite Hz in H. injection H as <-. exact Hin.
Qed.

Lemma max_Some {A} (it : A -> Q) (l : list A) :
  l <> [] -> exists z, Underscore.max it l = Some z.
Proof.
  intros H. destruct (max_spec it l H) as (z & Hz & _). exists z. exact Hz.
Qed.

Lemma filter_length_lt {A} (p q : A -> bool) (a : A) :
  forall C,
    (forall x, In x C -> q x = true -> p x = true) ->
    In a C -> p a = true -> q a = false ->
    (List.length (filter q C) < List.length (filter p C))%nat.
Proof.
  assert (Hle : forall C, (forall x, In x C -> q x = true -> p x = true) ->
                          (List.length (filter q C) <= List.length (filter p C))%nat).
  { induction C as [|x C IH]; intros H; simpl; [lia|].
    assert (IH' := IH (fun y Hy => H y (or_intror Hy))).
    destruct (q x) eqn:Hq.
    - rewrite (H x (or_introl eq_refl) Hq). simpl. lia.
    - destruct (p x); simpl; lia. }
  induction C as [|x C IH]; intros H Ha Hp Hq; [destruct Ha|].
  simpl. destruct Ha as [->|Ha].
  - rewrite Hp, Hq. simpl.
    assert (H' := Hle C (fun y Hy => H y (or_intror Hy))). lia.
  - assert (IH' := IH (fun y Hy => H y (or_intror Hy)) Ha Hp Hq).
    destruct (q x) eqn:Hqx.
    + rewrite (H x (or_introl eq_refl) Hqx). simpl. lia.
    + destruct (p x); simpl; lia.
Qed.

Lemma missing_addField index f C :
  In f C -> ~ In f (Js.obj_keys (MongoIndex.definition index)) ->
  (List.length (missing (MongoIndex.addField index f) C)
   < List.length (missing index C))%nat.
Proof.
  intros Hf Hn. unfold missing.
  apply filter_length_lt with f.
  - intros x _ Hx. apply negb_true_iff in Hx. apply negb_true_iff.
    destruct (isMember (Js.obj_keys (MongoIndex.definition index)) x) eqn:E;
      [|reflexivity].
    apply isMember_In in E.
    assert (isMember (Js.obj_keys (MongoIndex.definition
                                     (MongoIndex.addField index f))) x = true).
    { apply isMember_In. simpl. apply In_obj_keys_set. right. exact E. }
    congruence.
  - exact Hf.
  - apply negb_true_iff.
    destruct (isMember (Js.obj_keys (MongoIndex.definition index)) f) eqn:E;
      [|reflexivity].
    apply isMember_In in E. contradiction.
  - apply negb_false_iff. apply isMember_In. simpl. apply In_obj_keys_set.
    left. reflexivity.
Qed.

Lemma extend_ends C :
  forall fuel index l,
    incl (candidateFields l) C ->
    (List.length (missing index C) < fuel)%nat ->
    QuerySet.extend fuel index l <> Js.Ok None
    /\ (covered l -> ownNames l ->
        exists r, QuerySet.extend fuel index l = Js.Ok (Some r)).
Proof.
  induction fuel as [|fuel IH]; intros index l Hincl Hlt; [lia|].
  cbn [QuerySet.extend].
  assert (Hstep :
            forall ballot,
              QuerySet.tally index l = Js.Ok ballot ->
              let k := fun ballot =>
                if (List.length (Js.obj_keys (QuerySet.extensionFieldVotes ballot))
                    =? 0)%nat
                then Js.Ok (Some index)
                else
                  match Underscore.max (fun votes => inject_Z (snd votes))
                                       (QuerySet.extensionFieldVotes ballot) with
                  | Some (fieldToAdd, _) =>
                      if String.eqb fieldToAdd "" then Js.Ok (Some index)
                      else
                        match Js.obj_get fieldToAdd
                                (QuerySet.extensionFieldQueryProfiles ballot) with
                        | Some voters =>
                            QuerySet.extend fuel (MongoIndex.addField index fieldToAdd)
                                            voters
                        | None => Js.TypeError
                        end
                  | None => Js.TypeError
                  end in
              k ballot <> Js.Ok None
              /\ (covered l -> ownNames l ->
                  exists r, k ballot = Js.Ok (Some r))).
  { intros ballot Ht. cbv zeta.
    pose proof (tally_backed index l ballot Ht) as [Hkeys Hvoters].
    destruct (List.length (Js.obj_keys (QuerySet.extensionFieldVotes ballot)) =? 0)%nat
      eqn:Hlen; [split; [discriminate|intros _ _; eexists; reflexivity]|].
    destruct (Underscore.max (fun votes => inject_Z (snd votes))
                (QuerySet.extensionFieldVotes ballot)) as [[f v]|] eqn:Hmax.
    - destruct (String.eqb f "");
        [split; [discriminate|intros _ _; eexists; reflexivity]|].
      apply max_In in Hmax.
      assert (Hf : In f (Js.obj_keys (QuerySet.extensionFieldVotes ballot)))
        by (apply in_map_iff; exists (f, v); auto).
      destruct (Hkeys f Hf) as (voters & Hq). rewrite Hq.
      destruct (Hvoters f voters Hq) as (Hne & Hn & Hall).
      assert (Hsub : incl voters l) by (intros k Hk; apply (Hall k Hk)).
      assert (HfC : In f C).
      { destruct voters as [|k0 vs]; [congruence|].
        destruct (Hall k0 (or_introl eq_refl)) as [Hk0 Hj].
        apply Hincl. apply (justifies_candidate l k0 f Hk0 Hj). }
      destruct (IH (MongoIndex.addField index f) voters) as [H1 H2].
      + intros g Hg. apply Hincl. apply (candidateFields_incl voters l Hsub g Hg).
      + pose proof (missing_addField index f C HfC Hn). lia.
      + split; [exact H1|]. intros Hc Hown. apply H2.
        * intros k g Hk Hg. apply (Hc k g); [apply Hsub; exact Hk|exact Hg].
        * intros g Hg. apply Hown. apply (candidateFields_incl voters l Hsub g Hg).
    - exfalso.
      destruct (QuerySet.extensionFieldVotes ballot) as [|x o] eqn:Ho;
        [simpl in Hlen; discriminate|].
      destruct (max_Some (fun votes : string * Z => inject_Z (snd votes)) (x :: o))
        as (z & Hz); [discriminate|].
      congruence. }
  split.
  - destruct (QuerySet.tally index l) as [ballot|] eqn:Ht; simpl; [|discriminate].
    apply (Hstep ballot eq_refl).
  - intros Hc Hown. destruct (tally_total index l Hc Hown) as (ballot & Ht).
    rewrite Ht. simpl.
    apply (Hstep ballot Ht); assumption.
Qed.

Lemma definition_addField index f :
  Js.array_index f = None ->
  ~ In f (Js.obj_keys (MongoIndex.definition index)) ->
  MongoIndex.definition (MongoIndex.addField index f)
  = MongoIndex.definition index ++ [(f, Num 1)].
Proof.
  intros Ha Hn. simpl. unfold Js.obj_set, Js.obj_has.
  apply obj_get_None in Hn. rewrite Hn, Ha. reflexivity.
Qed.

Lemma extend_spec :
  forall fuel index l r,
    (forall f, In f (candidateFields l) -> Js.array_index f = None) ->
    QuerySet.extend fuel index l = Js.Ok (Some r) ->
    exists added,
      MongoIndex.definition r
      = MongoIndex.definition index ++ map (fun f => (f, Num 1)) added
      /\ NoDup added
      /\ (forall f, In f added ->
                    ~ In f (Js.obj_keys (MongoIndex.definition index)))
      /\ (added = [] \/ exists k, In k l /\ forall f, In f added -> justifies k f)
      /\ MongoIndex.oid r = MongoIndex.oid index
      /\ MongoIndex.collectionName r = MongoIndex.collectionName index
      /\ MongoIndex.knownQueryProfiles r = MongoIndex.knownQueryProfiles index.
Proof.
  induction fuel as [|fuel IH]; intros index l r Harr H; [discriminate|].
  cbn [QuerySet.extend] in H.
  destruct (QuerySet.tally index l) as [ballot|] eqn:Ht; simpl in H; [|discriminate].
  pose proof (tally_backed index l ballot Ht) as [Hkeys Hvoters].
  assert (Hnone : forall r, Js.Ok (Some index) = Js.Ok (Some r) ->
                            exists added,
                              MongoIndex.definition r
                              = MongoIndex.definition index
                                ++ map (fun f => (f, Num 1)) added
                              /\ NoDup added
                              /\ (forall f, In f added ->
                                    ~ In f (Js.obj_keys (MongoIndex.definition index)))
                              /\ (added = []
                                  \/ exists k, In k l
                                               /\ forall f, In f added -> justifies k f)
                              /\ MongoIndex.oid r = MongoIndex.oid index
                              /\ MongoIndex.collectionName r
                                 = MongoIndex.collectionName index
                              /\ MongoIndex.knownQueryProfiles r
                                 = MongoIndex.knownQueryProfiles index).
  { intros r0 E. injection E as <-. exists []. simpl. rewrite app_nil_r.
    split; [reflexivity|]. split; [constructor|]. split; [intros f []|].
    split; [left; reflexivity|]. repeat split. }
  destruct (List.length (Js.obj_keys (QuerySet.extensionFieldVotes ballot)) =? 0)%nat;
    [apply Hnone; exact H|].
  destruct (Underscore.max (fun votes => inject_Z (snd votes))
              (QuerySet.extensionFieldVotes ballot)) as [[f v]|] eqn:Hmax;
    [|discriminate].
  destruct (String.eqb f ""); [apply Hnone; exact H|].
  destruct (Js.obj_get f (QuerySet.extensionFieldQueryProfiles ballot))
    as [voters|] eqn:Hq; [|discriminate].
  destruct (Hvoters f voters Hq) as (Hne & Hn & Hall).
  assert (Hsub : incl voters l) by (intros k Hk; apply (Hall k Hk)).
  assert (Hfa : Js.array_index f = None).
  { destruct voters as [|k0 vs]; [congruence|].
    destruct (Hall k0 (or_introl eq_refl)) as [Hk0 Hj].
    apply Harr. apply (justifies_candidate l k0 f Hk0 Hj). }
  destruct (IH (MongoIndex.addField index f) voters r) as
    (added & Hdef & Hnd & Hnew & Hjust & Hoid & Hcoll & Hknown).
  { intros g Hg. apply Harr. apply (candidateFields_incl voters l Hsub g Hg). }
  { exact H. }
  exists (f :: added).
  assert (Hkeysf : forall g, In g added ->
                             g <> f
                             /\ ~ In g (Js.obj_keys (MongoIndex.definition index))).
  { intros g Hg. pose proof (Hnew g Hg) as Hg'. simpl in Hg'.
    rewrite In_obj_keys_set in Hg'. split; intro; apply Hg'; auto. }
  split; [|split; [|split; [|split; [|split; [|split]]]]].
  - rewrite Hdef, (definition_addField index f Hfa Hn), <- app_assoc. reflexivity.
  - constructor; [|exact Hnd]. intros Hin.
    destruct (Hkeysf f Hin) as [Hneq _]. apply Hneq. reflexivity.
  - intros g [<-|Hg]; [exact Hn|]. destruct (Hkeysf g Hg) as [_ Hg']. exact Hg'.
  - right. destruct Hjust as [->|(k & Hk & Hj)].
    + destruct voters as [|k0 vs]; [congruence|].
      destruct (Hall k0 (or_introl eq_refl)) as [Hk0 Hj0].
      exists k0. split; [exact Hk0|]. intros g [<-|[]]. exact Hj0.
    + exists k. split; [apply Hsub; exact Hk|].
      intros g [<-|Hg]; [apply (Hall k Hk)|apply Hj; exact Hg].
  - rewrite Hoid. reflexivity.
  - rewrite Hcoll. reflexivity.
  - rewrite Hknown. reflexivity.
Qed.

Lemma missing_length index C :
  (List.length (missing index C) <= List.length C)%nat.
Proof. unfold missing. apply filter_length_le. Qed.


(** An eligible field named [constructor] stops the extension although
    the statistics cover it: the votes object answers the name with a
    function it inherits, and [push] on what the other object answers
    throws. *)
Example extension_throws_on_inherited_name :
  covered ExtendScenario.inherited
  /\ QuerySet.extend 3 ExtendScenario.index ExtendScenario.inherited
     = Js.TypeError.
Proof.
  split; [|vm_compute; reflexivity].
  intros k f [<-|[]] Hf.
  change (In f ["x"; "constructor"]) in Hf.
  destruct Hf as [<-|[<-|[]]]; vm_compute; eexists; reflexivity.
Qed.

(** X21.  What extension does to an index, when no exact or range field of
    its profiles is named like an array index: the fields it had stay in
    place with their directions, and the new fields come after them, each
    once and with direction 1; some one profile known to the index has
    all of them among its exact and range fields, outside arrays and with
    mode [normal]; so the index as it was is the same as or an
    index-prefix of the extended one.  The object, its collection and
    its known profiles stay what they were. *)
Theorem index_extension_appends (fuel : nat) (index extended : MongoIndex.t)
  (indexQueryProfiles : list QuerySet.Known) :
  (forall f, In f (candidateFields indexQueryProfiles) ->
             Js.array_index f = None) ->
  QuerySet.extend fuel index indexQueryProfiles = Js.Ok (Some extended) ->
  exists added,
    MongoIndex.definition extended
    = MongoIndex.definition index ++ map (fun f => (f, Num 1)) added
    /\ NoDup added
    /\ (forall f, In f added ->
                  ~ In f (Js.obj_keys (MongoIndex.definition index)))
    /\ (added = []
        \/ exists k, In k indexQueryProfiles
                     /\ forall f, In f added -> justifies k f)
    /\ servedBy index extended = true
    /\ MongoIndex.oid extended = MongoIndex.oid index
    /\ MongoIndex.collectionName extended = MongoIndex.collectionName index
    /\ MongoIndex.knownQueryProfiles extended
       = MongoIndex.knownQueryProfiles index.
Proof.
  intros Harr H.
  destruct (extend_spec fuel index indexQueryProfiles extended Harr H)
    as (added & Hdef & Hnd & Hnew & Hjust & Hoid & Hcoll & Hknown).
  exists added. repeat (split; [assumption|]).
  split; [|auto].
  apply servedBy_iff. eexists. exact Hdef.
Qed.

Lemma ExtendScenario_result :
  QuerySet.extend 7 ExtendScenario.index ExtendScenario.profiles
  = Js.Ok (Some ExtendScenario.extended).
Proof. vm_compute. reflexivity. Qed.

Lemma ExtendScenario_plain f :
  In f (candidateFields ExtendScenario.profiles) -> Js.array_index f = None.
Proof.
  intros H.
  change (In f ["x"; "y"; "x"; "z"; "x"; "a.u"]) in H.
  repeat (destruct H as [<-|H]; [vm_compute; reflexivity|]). destruct H.
Qed.

Lemma ExtendScenario_covered : covered ExtendScenario.profiles.
Proof.
  intros k f Hk Hf.
  destruct Hk as [<-|[<-|[<-|[]]]];
    apply (getCardinalities_total Scenario.options ReduceScenario.statistics);
    unfold allFields; simpl in *; rewrite ?app_nil_r in *; intuition.
Qed.

Lemma ExtendScenario_ownNames : ownNames ExtendScenario.profiles.
Proof.
  intros f H.
  change (In f ["x"; "y"; "x"; "z"; "x"; "a.u"]) in H.
  repeat (destruct H as [<-|H]; [vm_compute; reflexivity|]). destruct H.
Qed.


(** X21 on the index and profiles of [ExtendScenario]. *)
Lemma index_extension_appends_witness :
  (forall f, In f (candidateFields ExtendScenario.profiles) ->
             Js.array_index f = None)
  /\ QuerySet.extend 7 ExtendScenario.index ExtendScenario.profiles
     = Js.Ok (Some ExtendScenario.extended)
  /\ exists added,
       MongoIndex.definition ExtendScenario.extended
       = MongoIndex.definition ExtendScenario.index
         ++ map (fun f => (f, Num 1)) added
       /\ NoDup added
       /\ (forall f, In f added ->
                     ~ In f (Js.obj_keys
                               (MongoIndex.definition ExtendScenario.index)))
       /\ (added = []
           \/ exists k, In k ExtendScenario.profiles
                        /\ forall f, In f added -> justifies k f)
       /\ servedBy ExtendScenario.index ExtendScenario.extended = true
       /\ MongoIndex.oid ExtendScenario.extended
          = MongoIndex.oid ExtendScenario.index
       /\ MongoIndex.collectionName ExtendScenario.extended
          = MongoIndex.collectionName ExtendScenario.index
       /\ MongoIndex.knownQueryProfiles ExtendScenario.extended
          = MongoIndex.knownQueryProfiles ExtendScenario.index.
Proof.
  split; [exact ExtendScenario_plain|]. split; [exact ExtendScenario_result|].
  exact (index_extension_appends 7 ExtendScenario.index ExtendScenario.extended
           ExtendScenario.profiles ExtendScenario_plain ExtendScenario_result).
Defined.

(** ** Saving and loading statistics ([lib/collection_statistics.js]) *)

Lemma renamed_get {V} (f : string -> string) (o : Js.obj V) :
  (forall k1 k2, In k1 (Js.obj_keys o) -> In k2 (Js.obj_keys o) ->
                 f k1 = f k2 -> k1 = k2) ->
  (forall k, In k (Js.obj_keys o) ->
             Js.obj_get (f k) (renamed f o) = Js.obj_get k o)
  /\ (forall j, (forall k, In k (Js.obj_keys o) -> f k <> j) ->
                Js.obj_get j (renamed f o) = None)
  /\ (forall j, In j (Js.obj_keys (renamed f o)) ->
                exists k, In k (Js.obj_keys o) /\ j = f k).
Proof.
  intros Hinj. unfold renamed.
  set (step := fun acc fieldName =>
                 match Js.obj_get fieldName o with
                 | Some v => Js.obj_set (f fieldName) v acc
                 | None => acc
                 end).
  assert (H : forall ks acc,
             incl ks (Js.obj_keys o) ->
             (forall k, In k ks ->
                        Js.obj_get (f k) (fold_left step ks acc) = Js.obj_get k o)
             /\ (forall j, (forall k, In k ks -> f k <> j) ->
                           Js.obj_get j (fold_left step ks acc) = Js.obj_get j acc)).
  { induction ks as [|x r IH]; intros acc Hincl.
    - split; [intros k []|intros j _; reflexivity].
    - assert (Hx : In x (Js.obj_keys o)) by (apply Hincl; left; reflexivity).
      destruct (proj1 (In_obj_keys_get x o) Hx) as (v & Hv).
      assert (Hstep : step acc x = Js.obj_set (f x) v acc)
        by (unfold step; rewrite Hv; reflexivity).
      destruct (IH (step acc x) (fun k Hk => Hincl k (or_intror Hk))) as [IH1 IH2].
      simpl. split.
      + intros k Hk. destruct (in_dec string_dec k r) as [Hr|Hr];
          [apply IH1; exact Hr|].
        destruct Hk as [<-|Hk]; [|contradiction].
        rewrite IH2.
        * rewrite Hstep, obj_get_set, String.eqb_refl. symmetry. exact Hv.
        * intros k Hk E. apply Hr.
          rewrite <- (Hinj k x (Hincl k (or_intror Hk)) Hx E). exact Hk.
      + intros j Hj. rewrite IH2 by (intros k Hk; apply Hj; right; exact Hk).
        rewrite Hstep, obj_get_set.
        destruct (String.eqb (f x) j) eqn:E; [|reflexivity].
        apply String.eqb_eq in E. exfalso. apply (Hj x); [left; reflexivity|exact E]. }
  destruct (H (Js.obj_keys o) [] (incl_refl _)) as [H1 H2].
  split; [exact H1|]. split.
  - intros j Hj. rewrite (H2 j Hj). reflexivity.
  - intros j Hj.
    destruct (existsb (fun k => String.eqb (f k) j) (Js.obj_keys o)) eqn:E.
    + apply existsb_exists in E. destruct E as (k & Hk & E).
      apply String.eqb_eq in E. exists k. auto.
    + exfalso. apply In_obj_keys_get in Hj. destruct Hj as (v & Hv).
      rewrite H2 in Hv; [discriminate|].
      intros k Hk Ek.
      assert (existsb (fun k => String.eqb (f k) j) (Js.obj_keys o) = true).
      { apply existsb_exists. exists k. split; [exact Hk|].
        apply String.eqb_eq. exact Ek. }
      congruence.
Qed.

Lemma replace_all_none c rep s :
  occurrences c s = 0%nat -> Js.replace_all_char c rep s = s.
Proof.
  induction s as [|d r IH]; simpl; [reflexivity|].
  destruct (Ascii.eqb d c); simpl; [discriminate|].
  intros H. rewrite IH by exact H. reflexivity.
Qed.

Lemma restore_plain k :
  plainName k = true ->
  Js.replace_first CollectionStatistics.mongoFieldNamePartSeparator "."
    (Js.replace_all_char "."%char CollectionStatistics.mongoFieldNamePartSeparator k)
  = k.
Proof.
  unfold plainName, CollectionStatistics.mongoFieldNamePartSeparator.
  induction k as [|c r IH]; intros H; [reflexivity|].
  apply andb_prop in H. destruct H as [Hu Hp].
  apply Nat.eqb_eq in Hu. apply Nat.leb_le in Hp. simpl in Hu, Hp.
  destruct (Ascii.eqb c "_") eqn:Eu; [discriminate|]. simpl in Hu.
  cbn [Js.replace_all_char].
  destruct (Ascii.eqb c ".") eqn:Ep.
  - apply Ascii.eqb_eq in Ep. subst c.
    assert (Hr : occurrences "." r = 0%nat) by (simpl in Hp; lia).
    rewrite (replace_all_none _ _ r Hr).
    change ("_____" ++ r)%string
      with (String "_" (String "_" (String "_" (String "_" (String "_" r))))).
    cbn [Js.replace_first String.prefix String.length].
    repeat (destruct (ascii_dec "_" "_") as [_|N]; [|exfalso; apply N; reflexivity]).
    replace (String.prefix "" r) with true by (destruct r; reflexivity).
    cbn [substring Nat.sub String.append]. rewrite Nat.sub_0_r, substring_whole. reflexivity.
  - cbn [Js.replace_first String.prefix].
    destruct (ascii_dec "_" c) as [<-|_]; [discriminate|].
    f_equal. apply IH. apply andb_true_intro. split.
    + apply Nat.eqb_eq. exact Hu.
    + apply Nat.leb_le. simpl in Hp. lia.
Qed.

Lemma constructor_renamed data :
  CollectionStatistics.fieldStatistics (CollectionStatistics.constructor data)
  = renamed (Js.replace_first CollectionStatistics.mongoFieldNamePartSeparator ".")
            (CollectionStatistics.fieldStatistics data).
Proof. reflexivity. Qed.

Lemma toJSON_renamed self :
  CollectionStatistics.fieldStatistics (CollectionStatistics.toJSON self)
  = renamed (Js.replace_all_char "."%char
               CollectionStatistics.mongoFieldNamePartSeparator)
            (CollectionStatistics.fieldStatistics self).
Proof. reflexivity. Qed.

(** X22.  Statistics survive being saved and loaded when no field name has
    an underscore or more than one period: every field name then gives
    the same statistics in [new CollectionStatistics(self.toJSON())] as in
    [self], and the known array prefixes and the sample time are the
    same. *)
Theorem statistics_survive_saving (self : CollectionStatistics.t) :
  (forall fieldName,
      In fieldName (Js.obj_keys (CollectionStatistics.fieldStatistics self)) ->
      plainName fieldName = true) ->
  (forall fieldName,
      Js.obj_get fieldName
        (CollectionStatistics.fieldStatistics
           (CollectionStatistics.constructor (CollectionStatistics.toJSON self)))
      = Js.obj_get fieldName (CollectionStatistics.fieldStatistics self))
  /\ CollectionStatistics.knownArrayPrefixes
       (CollectionStatistics.constructor (CollectionStatistics.toJSON self))
     = CollectionStatistics.knownArrayPrefixes self
  /\ CollectionStatistics.lastSampleTime
       (CollectionStatistics.constructor (CollectionStatistics.toJSON self))
     = CollectionStatistics.lastSampleTime self.
Proof.
  intros Hplain. split; [|split; reflexivity].
  set (enc := Js.replace_all_char "."%char
                CollectionStatistics.mongoFieldNamePartSeparator).
  set (dec := Js.replace_first CollectionStatistics.mongoFieldNamePartSeparator ".").
  set (o := CollectionStatistics.fieldStatistics self) in *.
  assert (Hback : forall k, In k (Js.obj_keys o) -> dec (enc k) = k)
    by (intros k Hk; apply restore_plain; apply Hplain; exact Hk).
  assert (Henc : forall k1 k2, In k1 (Js.obj_keys o) -> In k2 (Js.obj_keys o) ->
                               enc k1 = enc k2 -> k1 = k2).
  { intros k1 k2 H1 H2 E. rewrite <- (Hback k1 H1), <- (Hback k2 H2), E.
    reflexivity. }
  destruct (renamed_get enc o Henc) as (E1 & E2 & E3).
  assert (Hdec : forall j1 j2, In j1 (Js.obj_keys (renamed enc o)) ->
                               In j2 (Js.obj_keys (renamed enc o)) ->
                               dec j1 = dec j2 -> j1 = j2).
  { intros j1 j2 H1 H2 E.
    destruct (E3 j1 H1) as (k1 & Hk1 & ->). destruct (E3 j2 H2) as (k2 & Hk2 & ->).
    rewrite (Hback k1 Hk1), (Hback k2 Hk2) in E. rewrite E. reflexivity. }
  destruct (renamed_get dec (renamed enc o) Hdec) as (D1 & D2 & D3).
  intros k. rewrite constructor_renamed, toJSON_renamed. fold enc dec o.
  destruct (in_dec string_dec k (Js.obj_keys o)) as [Hk|Hk].
  - rewrite <- (Hback k Hk) at 1. rewrite D1.
    + apply E1. exact Hk.
    + apply In_obj_keys_get. destruct (proj1 (In_obj_keys_get k o) Hk) as (v & Hv).
      exists v. rewrite E1 by exact Hk. exact Hv.
  - rewrite (proj2 (obj_get_None k o) Hk). apply D2.
    intros j Hj E. destruct (E3 j Hj) as (k0 & Hk0 & ->).
    rewrite (Hback k0 Hk0) in E. subst k0. contradiction.
Qed.

(** X22 on the statistics of [RoundTripScenario]. *)
Lemma statistics_survive_saving_witness :
  (forall fieldName,
      In fieldName (Js.obj_keys (CollectionStatistics.fieldStatistics
                                   RoundTripScenario.statistics)) ->
      plainName fieldName = true)
  /\ (forall fieldName,
         Js.obj_get fieldName
           (CollectionStatistics.fieldStatistics
              (CollectionStatistics.constructor
                 (CollectionStatistics.toJSON RoundTripScenario.statistics)))
         = Js.obj_get fieldName
             (CollectionStatistics.fieldStatistics RoundTripScenario.statistics)).
Proof.
  assert (H : forall fieldName,
             In fieldName (Js.obj_keys (CollectionStatistics.fieldStatistics
                                          RoundTripScenario.statistics)) ->
             plainName fieldName = true).
  { intros f Hf. change (In f ["name"; "address.city"]) in Hf.
    repeat (destruct Hf as [<-|Hf]; [vm_compute; reflexivity|]). destruct Hf. }
  split; [exact H|].
  exact (proj1 (statistics_survive_saving RoundTripScenario.statistics H)).
Defined.

(** ** The fields of the optimized indexes ([lib/query_profile.js]) *)

Lemma In_keys_fold_set {X V} (kf : X -> string) (vf : X -> V) (l : list X) :
  forall o k,
    In k (Js.obj_keys (fold_left (fun index x => Js.obj_set (kf x) (vf x) index) l o))
    <-> In k (Js.obj_keys o) \/ In k (map kf l).
Proof.
  induction l as [|x l IH]; intros o k; simpl; [tauto|].
  rewrite IH, In_obj_keys_set. intuition auto.
Qed.

Lemma In_keys_buildIndex e s r k :
  In k (Js.obj_keys (QueryProfile.buildIndex e s r))
  <-> In k e \/ In k (Js.obj_keys s) \/ In k r.
Proof.
  unfold QueryProfile.buildIndex. cbv zeta.
  rewrite (In_keys_fold_set (fun f : string => f) (fun _ => Num 1) r).
  rewrite (In_keys_fold_set (fun kv : string * Z => fst kv)
             (fun kv => Num (snd kv * match s with
                                      | (_, direction) :: _ => direction
                                      | [] => 1%Z
                                      end)) s).
  rewrite (In_keys_fold_set (fun f : string => f) (fun _ => Num 1) e).
  rewrite !map_id. simpl. unfold Js.obj_keys. tauto.
Qed.

Lemma mode_cases (m : Mode) : negb (Mode_eqb m normal) = true <-> m = hash.
Proof. destruct m; simpl; split; congruence. Qed.

(** What the getter returns when it does not filter the sort by array. *)
Lemma optimizedIndexes_value options ks p :
  covers ks p ->
  wellFormedProfile p ->
  (forall f, In f (allFields p) -> Js.array_index f = None) ->
  sortIsNotSplit options ks p ->
  QueryProfile.optimizedIndexes options ks p
  = Js.Ok (QueryProfile.set_exact_range p (sortedExact ks p) (sortedRange ks p),
           filter nonEmpty (compoundsOf options ks p)
           ++ map (fun field => [(field, Hashed)])
                  (filter (fun f => negb (isNormal ks f))
                          (QueryProfile.fields
                             (QueryProfile.set_exact_range p (sortedExact ks p)
                                                           (sortedRange ks p))))).
Proof.
  intros Hstat (Hne & Hns & Hnr) Hidx Hsplit. unfold covers in Hstat.
  assert (HinE : forall f, In f (QueryProfile.exact p) -> In f (allFields p)).
  { intros f Hf. unfold allFields. apply in_or_app. auto. }
  assert (HinR : forall f, In f (QueryProfile.range p) -> In f (allFields p)).
  { intros f Hf. unfold allFields. apply in_or_app. right. apply in_or_app. auto. }
  assert (HinS : forall f, In f (Js.obj_keys (QueryProfile.sort p)) ->
                           In f (allFields p)).
  { intros f Hf. unfold allFields. apply in_or_app. right. apply in_or_app. auto. }
  unfold QueryProfile.optimizedIndexes.
  rewrite (sortByStat_pure ks _ (QueryProfile.exact p)) by (intros; apply Hstat; auto).
  rewrite bind_Ok.
  rewrite (sortByStat_pure ks _ (QueryProfile.range p)) by (intros; apply Hstat; auto).
  rewrite bind_Ok.
  change (fun f : string => (- cardinality (statisticsOf ks f))%Z)
    with (fun f : string => (- cardinalityOf ks f)%Z).
  change (fun f : string => cardinality (statisticsOf ks f))
    with (cardinalityOf ks).
  fold (sortedExact ks p). fold (sortedRange ks p).
  cbv zeta.
  cbn [QueryProfile.exact QueryProfile.range QueryProfile.sort
       QueryProfile.set_exact_range].
  assert (HsE : forall f, In f (sortedExact ks p) <-> In f (QueryProfile.exact p))
    by (intros f; apply sortBy_In).
  assert (HsR : forall f, In f (sortedRange ks p) <-> In f (QueryProfile.range p))
    by (intros f; apply sortBy_In).
  rewrite (filterM_pure _ (reaches options ks) (sortedExact ks p))
    by (intros f Hf; rewrite (stat_ok ks f (Hstat f (HinE f (proj1 (HsE f) Hf))));
        reflexivity).
  rewrite bind_Ok.
  rewrite (filterM_pure _ (reaches options ks) (sortedRange ks p))
    by (intros f Hf; rewrite (stat_ok ks f (Hstat f (HinR f (proj1 (HsR f) Hf))));
        reflexivity).
  rewrite bind_Ok.
  fold (reverts options ks p).
  set (qe1 := fun f : string =>
                if reverts options ks p then true else reaches options ks f).
  assert (Hexact1 : (if reverts options ks p then sortedExact ks p
                     else filter (reaches options ks) (sortedExact ks p))
                    = filter qe1 (sortedExact ks p)).
  { unfold qe1. destruct (reverts options ks p);
      [symmetry; apply filter_all | reflexivity]. }
  assert (Hrange1 : (if reverts options ks p then sortedRange ks p
                     else filter (reaches options ks) (sortedRange ks p))
                    = filter qe1 (sortedRange ks p)).
  { unfold qe1. destruct (reverts options ks p);
      [symmetry; apply filter_all | reflexivity]. }
  rewrite Hexact1, Hrange1. clear Hexact1 Hrange1.
  set (p' := QueryProfile.set_exact_range p (sortedExact ks p) (sortedRange ks p)).
  set (unIndexable := filter (fun f => negb (isNormal ks f)) (QueryProfile.fields p')).
  assert (Hfields : forall f, In f (QueryProfile.fields p') <-> In f (allFields p)).
  { intros f. unfold QueryProfile.fields. rewrite uniq_In. unfold p'.
    cbn [QueryProfile.exact QueryProfile.range QueryProfile.sort
         QueryProfile.set_exact_range].
    unfold allFields. rewrite !in_app_iff, HsE, HsR. tauto. }
  rewrite (filterM_pure _ (fun f => negb (isNormal ks f))).
  2:{ intros f Hf. apply Hfields in Hf.
      rewrite (stat_ok ks f); [reflexivity|]. apply Hstat. exact Hf. }
  rewrite bind_Ok. fold unIndexable.
  set (indexable := fun field : string =>
         negb (Underscore.contains String.eqb unIndexable field)).
  assert (Hindexable : forall f, In f (allFields p) -> indexable f = isNormal ks f).
  { intros f Hf. unfold indexable.
    destruct (Underscore.contains String.eqb unIndexable f) eqn:E; simpl.
    - apply contains_In in E. unfold unIndexable in E. apply filter_In in E.
      destruct E as [_ E]. apply negb_true_iff in E. rewrite E. reflexivity.
    - destruct (isNormal ks f) eqn:Em; [reflexivity|].
      exfalso. assert (Hin : In f unIndexable).
      { unfold unIndexable. apply filter_In. split; [apply Hfields; exact Hf|].
        rewrite Em. reflexivity. }
      apply contains_In in Hin. congruence. }
  change (fun kv : string * Z =>
            negb (Underscore.contains String.eqb unIndexable (fst kv)))
    with (fun kv : string * Z => indexable (fst kv)).
  rewrite !filter_filter.
  assert (HexactK : filter (fun x => qe1 x && indexable x) (sortedExact ks p)
                    = filter (keeps options ks p) (sortedExact ks p)).
  { apply filter_ext_in. intros f Hf. unfold keeps, qe1.
    rewrite (Hindexable f (HinE f (proj1 (HsE f) Hf))). reflexivity. }
  assert (HrangeK : filter (fun x => qe1 x && indexable x) (sortedRange ks p)
                    = filter (keeps options ks p) (sortedRange ks p)).
  { apply filter_ext_in. intros f Hf. unfold keeps, qe1.
    rewrite (Hindexable f (HinR f (proj1 (HsR f) Hf))). reflexivity. }
  assert (HsortK : filter (fun kv : string * Z => indexable (fst kv))
                          (QueryProfile.sort p)
                   = keptSort ks p).
  { apply filter_ext_in. intros kv Hkv. apply Hindexable, HinS.
    apply (in_map fst). exact Hkv. }
  rewrite HexactK, HrangeK, HsortK.
  fold (keptExact options ks p). fold (keptRange options ks p).
  set (exact2 := keptExact options ks p).
  set (range2 := keptRange options ks p).
  rewrite (object_id (keptSort ks p)).
  2:{ intros kv Hkv. apply filter_In in Hkv. apply Hidx, HinS.
      apply (in_map fst). tauto. }
  2:{ unfold keptSort.
      rewrite (map_fst_filter (isNormal ks)). apply NoDup_filter. exact Hns. }
  assert (Hsub : forall f, In f (exact2 ++ range2 ++ Js.obj_keys (keptSort ks p)) ->
                           In f (allFields p)).
  { intros f Hf. rewrite !in_app_iff in Hf. destruct Hf as [Hf|[Hf|Hf]].
    - apply filter_In in Hf. apply HinE, HsE. tauto.
    - apply filter_In in Hf. apply HinR, HsR. tauto.
    - unfold keptSort in Hf. rewrite (map_fst_filter (isNormal ks)) in Hf.
      apply filter_In in Hf. apply HinS. tauto. }
  unfold QueryProfile.arrayPrefixesOf.
  rewrite (mapM_pure _ (fun f => arrayPrefixes (statisticsOf ks f))).
  2:{ intros f Hf. rewrite (stat_ok ks f); [reflexivity|]. apply Hstat.
      apply Hsub. exact Hf. }
  rewrite !bind_Ok. rewrite <- flat_map_concat_map.
  change (Underscore.uniq String.eqb
            (flat_map (fun f : string => arrayPrefixes (statisticsOf ks f))
                      (exact2 ++ range2 ++ Js.obj_keys (keptSort ks p))))
    with (arraysOfKept options ks p).
  unfold compoundsOf.
  destruct (List.length (arraysOfKept options ks p) <? 2)%nat eqn:Hlen.
  - (* a single compound index *)
    cbn [Js.mapM QueryProfile.indexForArrayPrefix]. rewrite !bind_Ok.
    reflexivity.
  - (* one compound index for each array; no sort key stays *)
    assert (Hsort : keptSort ks p = []).
    { destruct Hsplit as [H|H]; [exact H|]. apply Nat.ltb_ge in Hlen. lia. }
    rewrite (mapM_pure _ (fun a => match a with
                                   | Some a => compoundWithout options ks p a
                                   | None => compoundOf options ks p
                                   end)).
    + rewrite bind_Ok, map_map. reflexivity.
    + intros [a|] _; [|reflexivity].
      unfold QueryProfile.indexForArrayPrefix, compoundWithout. cbv zeta.
      rewrite Hsort. fold exact2. fold range2.
      destruct (String.eqb a "") eqn:Ea.
      * cbn [orb]. rewrite !filter_all. reflexivity.
      * rewrite (outsideArrayPrefix_pure ks a exact2)
          by (intros f Hf; apply Hstat, Hsub; rewrite !in_app_iff; auto).
        rewrite bind_Ok. simpl map. simpl Js.filterM. rewrite bind_Ok.
        rewrite (outsideArrayPrefix_pure ks a range2)
          by (intros f Hf; apply Hstat, Hsub; rewrite !in_app_iff; auto).
        rewrite bind_Ok. reflexivity.
Qed.

Lemma reverts_iff options ks p :
  reverts options ks p = true <-> nothingReaches options ks p.
Proof.
  assert (HsE : forall f, In f (sortedExact ks p) <-> In f (QueryProfile.exact p))
    by (intros f; apply sortBy_In).
  assert (HsR : forall f, In f (sortedRange ks p) <-> In f (QueryProfile.range p))
    by (intros f; apply sortBy_In).
  assert (Hnil : forall l,
             filter (reaches options ks) l = []
             <-> forall g, In g l ->
                           (cardinalityOf ks g < minimumCardinality options)%Z).
  { intros l. split.
    - intros E g Hg. destruct (reaches options ks g) eqn:Eg.
      + assert (Hin : In g (filter (reaches options ks) l))
          by (apply filter_In; auto).
        rewrite E in Hin. destruct Hin.
      + unfold reaches in Eg. apply Z.leb_gt. exact Eg.
    - intros H. destruct (filter (reaches options ks) l) as [|g r] eqn:E;
        [reflexivity|].
      assert (Hg : In g (filter (reaches options ks) l)) by (rewrite E; left; auto).
      apply filter_In in Hg. destruct Hg as [Hg Hat].
      unfold reaches in Hat. apply Z.leb_le in Hat.
      pose proof (H g Hg). lia. }
  unfold reverts, nothingReaches. rewrite Nat.eqb_eq. split.
  - intros H.
    assert (H1 : filter (reaches options ks) (sortedExact ks p) = [])
      by (apply length_zero_iff_nil; lia).
    assert (H2 : Js.obj_keys (QueryProfile.sort p) = [])
      by (apply length_zero_iff_nil; lia).
    assert (H3 : filter (reaches options ks) (sortedRange ks p) = [])
      by (apply length_zero_iff_nil; lia).
    split.
    + destruct (QueryProfile.sort p); [reflexivity|discriminate].
    + intros g Hg. apply in_app_or in Hg. destruct Hg as [Hg|Hg].
      * apply (proj1 (Hnil _) H1). apply HsE. exact Hg.
      * apply (proj1 (Hnil _) H3). apply HsR. exact Hg.
  - intros [Hs Hall]. rewrite Hs. simpl.
    rewrite (proj2 (Hnil (sortedExact ks p))), (proj2 (Hnil (sortedRange ks p)));
      [reflexivity| |].
    + intros g Hg. apply Hall. apply in_or_app. right. apply HsR. exact Hg.
    + intros g Hg. apply Hall. apply in_or_app. left. apply HsE. exact Hg.
Qed.

Lemma isNormal_iff ks f : isNormal ks f = true <-> mode (statisticsOf ks f) = normal.
Proof. unfold isNormal. destruct (mode (statisticsOf ks f)); simpl; split; congruence. Qed.

Lemma keeps_iff options ks p f :
  keeps options ks p f = true
  <-> mode (statisticsOf ks f) = normal
      /\ ((minimumCardinality options <= cardinalityOf ks f)%Z
          \/ nothingReaches options ks p).
Proof.
  unfold keeps. rewrite andb_true_iff, isNormal_iff.
  destruct (reverts options ks p) eqn:Er.
  - apply reverts_iff in Er. tauto.
  - unfold reaches. rewrite Z.leb_le. split; [tauto|].
    intros (Hm & [H|H]); [tauto|]. apply reverts_iff in H. congruence.
Qed.

Lemma In_keys_compoundOf options ks p f :
  In f (Js.obj_keys (compoundOf options ks p)) <-> kept options ks p f.
Proof.
  unfold compoundOf, kept, keptSort.
  rewrite In_keys_buildIndex, (map_fst_filter (isNormal ks)), !filter_In.
  unfold sortedExact, sortedRange. rewrite !sortBy_In, !keeps_iff, isNormal_iff.
  rewrite in_app_iff. tauto.
Qed.

Lemma plain_of_ordinary p :
  ordinaryNames p -> forall f, In f (allFields p) -> Js.array_index f = None.
Proof. intros H f Hf. apply (H f Hf). Qed.


Lemma isMember_filter (q : string -> bool) l f :
  isMember (filter q l) f = isMember l f && q f.
Proof.
  destruct (isMember (filter q l) f) eqn:E.
  - apply isMember_In in E. apply filter_In in E. destruct E as [H1 H2].
    apply isMember_In in H1. rewrite H1, H2. reflexivity.
  - destruct (isMember l f) eqn:E1; [|reflexivity].
    destruct (q f) eqn:E2; [|reflexivity].
    apply isMember_In in E1.
    assert (H : In f (filter q l)) by (apply filter_In; auto).
    apply isMember_In in H. congruence.
Qed.

Lemma isMember_ext l l' f :
  (In f l <-> In f l') -> isMember l f = isMember l' f.
Proof.
  intros H. destruct (isMember l f) eqn:E, (isMember l' f) eqn:E'; try reflexivity.
  - apply isMember_In in E. apply H in E. apply isMember_In in E. congruence.
  - apply isMember_In in E'. apply H in E'. apply isMember_In in E'. congruence.
Qed.

Lemma obj_get_compoundOf options ks p f :
  wellFormedProfile p ->
  Js.obj_get f (compoundOf options ks p)
  = if isMember (QueryProfile.range p) f && keeps options ks p f
    then Some (Num 1)
    else match Js.obj_get f (keptSort ks p) with
         | Some direction => Some (Num (direction * firstDirection ks p))
         | None =>
             if isMember (QueryProfile.exact p) f && keeps options ks p f
             then Some (Num 1)
             else None
         end.
Proof.
  intros (He & Hs & Hr).
  unfold compoundOf, QueryProfile.buildIndex. cbv zeta.
  fold (firstDirection ks p).
  rewrite (obj_get_fold_set (fun f : string => f) (fun _ => Num 1)).
  2:{ rewrite map_id. apply NoDup_filter. unfold sortedRange.
      apply sortBy_NoDup. exact Hr. }
  rewrite obj_get_const, isMember_filter.
  rewrite (isMember_ext (sortedRange ks p) (QueryProfile.range p) f)
    by (apply sortBy_In).
  destruct (isMember (QueryProfile.range p) f && keeps options ks p f);
    [reflexivity|].
  rewrite (obj_get_fold_set (fun kv : string * Z => fst kv)
             (fun kv => Num (snd kv * firstDirection ks p))).
  2:{ unfold keptSort.
      change (map (fun kv : string * Z => fst kv)
                  (filter (fun kv => isNormal ks (fst kv)) (QueryProfile.sort p)))
        with (Js.obj_keys (filter (fun kv => isNormal ks (fst kv))
                                  (QueryProfile.sort p))).
      rewrite (map_fst_filter (isNormal ks)). apply NoDup_filter. exact Hs. }
  rewrite (obj_get_map_value (fun d => Num (d * firstDirection ks p))).
  destruct (Js.obj_get f (keptSort ks p)); simpl; [reflexivity|].
  rewrite (obj_get_fold_set (fun f : string => f) (fun _ => Num 1)).
  2:{ rewrite map_id. apply NoDup_filter. unfold sortedExact.
      apply sortBy_NoDup. exact He. }
  rewrite obj_get_const, isMember_filter.
  rewrite (isMember_ext (sortedExact ks p) (QueryProfile.exact p) f)
    by (apply sortBy_In).
  destruct (isMember (QueryProfile.exact p) f && keeps options ks p f); reflexivity.
Qed.


(** *** The ordering contract *)

Lemma compoundOf_contract options ks p :
  wellFormedProfile p ->
  (forall f, In f (allFields p) -> Js.array_index f = None) ->
  orderingContract ks p (compoundOf options ks p).
Proof.
  intros Hwf Hidx.
  apply (buildIndex_contract ks p (keeps options ks p) (isNormal ks)
           (keeps options ks p) Hwf Hidx).
Qed.

Lemma compoundWithout_contract options ks p a :
  wellFormedProfile p ->
  (forall f, In f (allFields p) -> Js.array_index f = None) ->
  keptSort ks p = [] ->
  orderingContract ks p (compoundWithout options ks p a).
Proof.
  intros Hwf Hidx Hsort.
  unfold compoundWithout, keptExact, keptRange. cbv zeta.
  rewrite !filter_filter. rewrite <- Hsort.
  apply (buildIndex_contract ks p
           (fun x => keeps options ks p x && (String.eqb a "" || outsideOf ks a x))
           (isNormal ks)
           (fun x => keeps options ks p x && (String.eqb a "" || outsideOf ks a x))
           Hwf Hidx).
Qed.

Lemma In_keys_compoundWithout options ks p a f :
  keptSort ks p = [] ->
  In f (Js.obj_keys (compoundWithout options ks p a))
  <-> kept options ks p f /\ (a = "" \/ outsideOf ks a f = true).
Proof.
  intros Hsort. rewrite <- In_keys_compoundOf.
  unfold compoundWithout, compoundOf. cbv zeta.
  rewrite !In_keys_buildIndex, Hsort.
  unfold keptExact, keptRange. rewrite !filter_In.
  rewrite orb_true_iff, String.eqb_eq. simpl. tauto.
Qed.

Lemma nonEmpty_keys index : nonEmpty index = true <-> Js.obj_keys index <> [].
Proof.
  unfold nonEmpty. rewrite Nat.ltb_lt.
  destruct (Js.obj_keys index); simpl; split; intros H; try lia; congruence.
Qed.


Lemma OrderingScenario_covers : covers OrderingScenario.ks OrderingScenario.profile.
Proof. intros f Hf. apply getCardinalities_total. exact Hf. Qed.

Lemma OrderingScenario_ordinary : ordinaryNames OrderingScenario.profile.
Proof.
  intros f H.
  change (In f ["state"; "city"; "zip"; "age"; "score"; "name"]) in H.
  repeat (destruct H as [<-|H]; [vm_compute; split; reflexivity|]). destruct H.
Qed.

Lemma OrderingScenario_few :
  (List.length (arraysOfKept Scenario.options OrderingScenario.ks
                             OrderingScenario.profile) < 2)%nat.
Proof. vm_compute. lia. Qed.

Lemma OrderingScenario_wellFormed : wellFormedProfile OrderingScenario.profile.
Proof.
  unfold wellFormedProfile; simpl.
  repeat split; repeat constructor; simpl; intuition discriminate.
Qed.




Lemma DirectionScenario_covers :
  covers DirectionScenario.ks DirectionScenario.profile.
Proof. intros f Hf. apply getCardinalities_total. exact Hf. Qed.

Lemma DirectionScenario_wellFormed : wellFormedProfile DirectionScenario.profile.
Proof.
  unfold wellFormedProfile; simpl.
  repeat split; repeat constructor; simpl; intuition discriminate.
Qed.

Lemma DirectionScenario_ordinary : ordinaryNames DirectionScenario.profile.
Proof.
  intros f H.
  change (In f ["state"; "score"; "name"; "age"]) in H.
  repeat (destruct H as [<-|H]; [vm_compute; split; reflexivity|]). destruct H.
Qed.

Lemma DirectionScenario_few :
  (List.length (arraysOfKept Scenario.options DirectionScenario.ks
                             DirectionScenario.profile) < 2)%nat.
Proof. vm_compute. lia. Qed.


(** The index of [DirectionScenario]: the sort by descending [name] and
    ascending [age] is served by ascending [name] and descending [age]. *)
Example DirectionScenario_index :
  exists p',
    QueryProfile.optimize Scenario.options OrderingScenario.statistics
      DirectionScenario.profile
    = Js.Ok (p', [[("state", Num 1); ("name", Num 1); ("age", Num (-1));
                   ("score", Num 1)]]).
Proof. eexists. vm_compute. reflexivity. Qed.

(** ** The statistics of a sample ([lib/mongo_sampler.js]) *)

Lemma prefix_iff p s :
  String.prefix p s = true <-> exists r, s = (p ++ r)%string.
Proof.
  revert s. induction p as [|c p IH]; intros s; simpl.
  - split; [intros _; exists s; reflexivity|intros _; destruct s; reflexivity].
  - destruct s as [|d s]; [split; [discriminate|intros (r & H); discriminate]|].
    simpl. destruct (ascii_dec c d) as [<-|Hn].
    + rewrite IH. split; intros (r & H); exists r; congruence.
    + split; [discriminate|]. intros (r & H). injection H as H _. congruence.
Qed.

Lemma substring_app a b :
  substring 0 (String.length a) (a ++ b)%string = a.
Proof. induction a as [|c a IH]; simpl; [destruct b; reflexivity|]. rewrite IH. reflexivity. Qed.

Lemma length_append a b :
  String.length (a ++ b)%string = (String.length a + String.length b)%nat.
Proof. induction a as [|c a IH]; simpl; [reflexivity|]. rewrite IH. reflexivity. Qed.

Lemma lastIndexOfFrom_spec pat :
  forall s i,
    match MongoSampler.lastIndexOfFrom pat s i with
    | Some j =>
        exists a b, s = (a ++ pat ++ b)%string
                    /\ j = (i + String.length a)%nat
                    /\ forall a' b', s = (a' ++ pat ++ b')%string ->
                                     (String.length a' <= String.length a)%nat
    | None => forall a b, s <> (a ++ pat ++ b)%string
    end.
Proof.
  induction s as [|c r IH]; intros i.
  - cbn [MongoSampler.lastIndexOfFrom].
    destruct (String.prefix pat "") eqn:E.
    + apply prefix_iff in E. destruct E as (b & E).
      exists "", b. split; [exact E|]. split; [simpl; lia|].
      intros a' b' H. destruct a'; [simpl; lia|discriminate].
    + intros a b H. destruct a; [|discriminate]. simpl in H.
      assert (String.prefix pat "" = true) by (apply prefix_iff; exists b; exact H).
      congruence.
  - cbn [MongoSampler.lastIndexOfFrom]. specialize (IH (S i)).
    destruct (MongoSampler.lastIndexOfFrom pat r (S i)) as [j|].
    + destruct IH as (a & b & -> & -> & Hmax).
      exists (String c a), b. split; [reflexivity|]. split; [simpl; lia|].
      intros a' b' H. destruct a' as [|c' a']; [simpl; lia|].
      injection H as _ H. simpl. apply Hmax in H. lia.
    + destruct (String.prefix pat (String c r)) eqn:E.
      * apply prefix_iff in E. destruct E as (b & E).
        exists "", b. split; [exact E|]. split; [simpl; lia|].
        intros a' b' H. destruct a' as [|c' a']; [simpl; lia|].
        injection H as _ H. exfalso. apply (IH a' b'). exact H.
      * intros a b H. destruct a as [|c' a].
        -- simpl in H.
           assert (String.prefix pat (String c r) = true)
             by (apply prefix_iff; exists b; exact H).
           congruence.
        -- injection H as _ H. apply (IH a b). exact H.
Qed.

Lemma append_inj_length a :
  forall a' x x',
    (a ++ x)%string = (a' ++ x')%string ->
    String.length a = String.length a' -> a = a'.
Proof.
  induction a as [|c a IH]; intros [|c' a'] x x' H Hl; try discriminate;
    [reflexivity|].
  injection H as <- H. injection Hl as Hl. f_equal. apply (IH a' x x' H Hl).
Qed.

Lemma array_marks_apart a' :
  forall a b b',
    (a ++ ".[]" ++ b)%string = (a' ++ ".[]" ++ b')%string ->
    (String.length a' < String.length a)%nat ->
    exists c, a = (a' ++ ".[]" ++ c)%string.
Proof.
  induction a' as [|d a' IH]; intros a b b' H Hl.
  - destruct a as [|c1 a]; [simpl in Hl; lia|].
    injection H as -> H.
    destruct a as [|c2 a]; [discriminate|]. injection H as -> H.
    destruct a as [|c3 a]; [discriminate|]. injection H as -> H.
    exists a. reflexivity.
  - destruct a as [|c a]; [simpl in Hl; lia|].
    injection H as -> H. simpl in Hl.
    destruct (IH a b b' H) as (c0 & ->); [lia|].
    exists c0. reflexivity.
Qed.

Lemma arrayPrefixesOf_spec :
  forall fuel s,
    (String.length s < fuel)%nat ->
    exists l,
      MongoSampler.arrayPrefixesOf fuel s = Some l
      /\ (forall p, In p l <-> exists rest, s = (p ++ ".[]" ++ rest)%string)
      /\ StronglySorted (fun a b => (String.length b < String.length a)%nat) l.
Proof.
  induction fuel as [|fuel IH]; intros s Hlen; [lia|].
  cbn [MongoSampler.arrayPrefixesOf]. unfold MongoSampler.lastIndexOf.
  pose proof (lastIndexOfFrom_spec ".[]" s 0) as Hspec.
  destruct (MongoSampler.lastIndexOfFrom ".[]" s 0) as [j|].
  - destruct Hspec as (a & b & Hs & Hj & Hmax). simpl in Hj. subst j.
    assert (Hsub : substring 0 (String.length a) s = a)
      by (rewrite Hs; apply substring_app).
    cbv zeta. rewrite Hsub.
    assert (Hla : (String.length a < fuel)%nat).
    { rewrite Hs in Hlen. rewrite !length_append in Hlen. simpl in Hlen. lia. }
    destruct (IH a Hla) as (l & Hl & Hin & Hsorted). rewrite Hl.
    exists (a :: l). split; [reflexivity|]. split.
    + intros p. simpl. rewrite Hin. split.
      * intros [<-|(rest & Ha)]; [exists b; exact Hs|].
        exists (rest ++ ".[]" ++ b)%string. rewrite Hs, Ha.
        rewrite !string_app_assoc. reflexivity.
      * intros (rest & Hp).
        pose proof (Hmax p rest Hp) as Hle.
        destruct (Nat.eq_dec (String.length p) (String.length a)) as [E|E].
        -- left. symmetry. rewrite Hs in Hp.
           apply (append_inj_length p a _ _ (eq_sym Hp) E).
        -- right. rewrite Hs in Hp.
           apply (array_marks_apart p a b rest Hp). lia.
    + constructor; [exact Hsorted|].
      apply Forall_forall. intros p Hp. apply Hin in Hp. destruct Hp as (rest & ->).
      rewrite !length_append. simpl. lia.
  - exists []. split; [reflexivity|]. split; [|constructor].
    intros p. split; [intros []|]. intros (rest & H). exfalso.
    apply (Hspec p rest). exact H.
Qed.


Lemma eachField_spec fuel liv gathered :
  forall fields state state',
    incl fields gathered ->
    (forall k v, Js.obj_get k (snd state) = Some v ->
                 exists name, k = MongoSampler.withoutArrayMarks name
                              /\ sampledAs gathered name v) ->
    (forall p, In p (fst state) ->
               exists name, In name (Js.obj_keys gathered) /\ arrayPrefixOf name p) ->
    (forall e, In e fields -> (String.length (fst e) < fuel)%nat) ->
    fold_left
      (fun state entry =>
         match state with
         | Some state => MongoSampler.eachField fuel liv state entry
         | None => None
         end)
      fields (Some state) = Some state' ->
    (forall k v, Js.obj_get k (snd state') = Some v ->
                 exists name, k = MongoSampler.withoutArrayMarks name
                              /\ sampledAs gathered name v)
    /\ (forall p, In p (fst state') ->
                  exists name, In name (Js.obj_keys gathered)
                               /\ arrayPrefixOf name p)
    /\ (forall p, In p (fst state) -> In p (fst state'))
    /\ (forall name p, In name (map fst fields) -> arrayPrefixOf name p ->
                       In p (fst state')).
Proof.
  induction fields as [|[name g] r IH]; intros [known stats] state' Hincl Hs Hk Hlen H.
  - simpl in H. injection H as <-. repeat split; auto. intros name p [].
  - simpl in H.
    destruct (arrayPrefixesOf_spec fuel name (Hlen (name, g) (or_introl eq_refl)))
      as (l & Hl & Hin & _).
    rewrite Hl in H.
    match type of H with
    | fold_left _ _ (Some ?st) = _ => set (st1 := st) in H
    end.
    destruct (IH st1 state') as (R1 & R2 & R3 & R4).
    + intros e He. apply Hincl. right. exact He.
    + intros k v. unfold st1. simpl. rewrite obj_get_set.
      destruct (String.eqb (MongoSampler.withoutArrayMarks name) k) eqn:E.
      * apply String.eqb_eq in E. intros Hv. injection Hv as <-.
        exists name. split; [symmetry; exact E|].
        exists g. split; [apply Hincl; left; reflexivity|]. simpl.
        repeat split; auto; apply Hin.
      * apply Hs.
    + intros p Hp. unfold st1 in Hp. simpl in Hp. apply in_app_or in Hp.
      destruct Hp as [Hp|Hp]; [|apply Hk; exact Hp].
      exists name. split; [|apply Hin; exact Hp].
      apply (in_map fst gathered (name, g)). apply Hincl. left. reflexivity.
    + intros e He. apply Hlen. right. exact He.
    + exact H.
    + split; [exact R1|]. split; [exact R2|]. split.
      * intros p Hp. apply R3. unfold st1. simpl. apply in_or_app. right. exact Hp.
      * intros name' p [<-|Hn] Hp.
        -- apply R3. unfold st1. simpl. apply in_or_app. left. apply Hin. exact Hp.
        -- apply (R4 name' p Hn Hp).
Qed.

Lemma eachField_total fuel liv :
  forall fields state,
    (forall e, In e fields -> (String.length (fst e) < fuel)%nat) ->
    exists state',
      fold_left
        (fun state entry =>
           match state with
           | Some state => MongoSampler.eachField fuel liv state entry
           | None => None
           end)
        fields (Some state) = Some state'.
Proof.
  induction fields as [|[name g] r IH]; intros [known stats] Hlen; simpl.
  - eexists. reflexivity.
  - destruct (arrayPrefixesOf_spec fuel name (Hlen (name, g) (or_introl eq_refl)))
      as (l & Hl & _).
    rewrite Hl. apply IH. intros e He. apply Hlen. right. exact He.
Qed.

Lemma renamed_from {V} (f : string -> string) (o : Js.obj V) :
  forall j v, Js.obj_get j (renamed f o) = Some v ->
              exists k, j = f k /\ Js.obj_get k o = Some v.
Proof.
  unfold renamed.
  assert (H : forall ks acc,
             (forall j v, Js.obj_get j acc = Some v ->
                          exists k, j = f k /\ Js.obj_get k o = Some v) ->
             forall j v,
               Js.obj_get j
                 (fold_left
                    (fun acc fieldName =>
                       match Js.obj_get fieldName o with
                       | Some v => Js.obj_set (f fieldName) v acc
                       | None => acc
                       end) ks acc) = Some v ->
               exists k, j = f k /\ Js.obj_get k o = Some v).
  { induction ks as [|x r IH]; intros acc Hacc j v; simpl; [apply Hacc|].
    apply IH. intros j' v'.
    destruct (Js.obj_get x o) as [vx|] eqn:Ex; [|apply Hacc].
    rewrite obj_get_set. destruct (String.eqb (f x) j') eqn:E; [|apply Hacc].
    apply String.eqb_eq in E. intros Hv. injection Hv as <-.
    exists x. split; [symmetry; exact E|exact Ex]. }
  apply H. intros j v Hj. discriminate.
Qed.

(** X25.  The array prefixes the sampler records for a field name: given
    more rounds than the name has characters, the loop ends, and what it
    collects are exactly the parts of the name that an array mark [.[]]
    follows, the longest first. *)
Theorem sampled_array_prefixes (fuel : nat) (fieldName : string) :
  (String.length fieldName < fuel)%nat ->
  exists arrayPrefixes,
    MongoSampler.arrayPrefixesOf fuel fieldName = Some arrayPrefixes
    /\ (forall p, In p arrayPrefixes <-> arrayPrefixOf fieldName p)
    /\ StronglySorted (fun a b => (String.length b < String.length a)%nat)
                      arrayPrefixes.
Proof. apply arrayPrefixesOf_spec. Qed.

(** X26.  The statistics the sampler makes of what it has gathered: every
    entry belongs to a sampled field name, under that name without its
    array marks, and holds the size of its set of hashes as cardinality,
    its longest value, its array prefixes, and the mode [normal],
    whatever the longest indexable value; the known array prefixes are,
    each once, the array prefixes of the sampled names. *)
Theorem sampler_statistics (fuel : nat) (longestIndexableValue now : Z)
  (gathered : Js.obj MongoSampler.Gathered) :
  (forall name, In name (Js.obj_keys gathered) -> (String.length name < fuel)%nat) ->
  exists statistics,
    MongoSampler.collectionStatisticsOf fuel longestIndexableValue now gathered
    = Some statistics
    /\ (forall key v,
           Js.obj_get key (CollectionStatistics.fieldStatistics statistics) = Some v ->
           exists name,
             key = Js.replace_first CollectionStatistics.mongoFieldNamePartSeparator
                     "." (MongoSampler.withoutArrayMarks name)
             /\ sampledAs gathered name v)
    /\ NoDup (CollectionStatistics.knownArrayPrefixes statistics)
    /\ (forall p, In p (CollectionStatistics.knownArrayPrefixes statistics)
                  <-> exists name, In name (Js.obj_keys gathered)
                                   /\ arrayPrefixOf name p).
Proof.
  intros Hlen.
  assert (Hlen' : forall e, In e gathered -> (String.length (fst e) < fuel)%nat).
  { intros e He. apply Hlen. apply (in_map fst). exact He. }
  unfold MongoSampler.collectionStatisticsOf.
  destruct (eachField_total fuel longestIndexableValue gathered ([], []) Hlen')
    as ([known stats] & Hfold).
  unfold Js.obj in *. rewrite Hfold.
  destruct (eachField_spec fuel longestIndexableValue gathered gathered ([], [])
              (known, stats) (incl_refl _)) as (R1 & R2 & _ & R4); auto.
  { intros k v H. discriminate. }
  { intros p []. }
  eexists. split; [reflexivity|]. split; [|split].
  - intros key v Hv. rewrite constructor_renamed in Hv.
    apply renamed_from in Hv. destruct Hv as (k & -> & Hk).
    simpl in Hk. destruct (R1 k v Hk) as (name & -> & Hs).
    exists name. split; [reflexivity|exact Hs].
  - simpl. apply uniq_NoDup.
  - intros p. simpl. rewrite uniq_In. split.
    + apply R2.
    + intros (name & Hn & Hp). apply (R4 name p Hn Hp).
Qed.

(** X25 on a field inside two nested arrays. *)
Lemma sampled_array_prefixes_witness :
  (String.length "items.[].parts.[].sku" < 30)%nat
  /\ exists arrayPrefixes,
       MongoSampler.arrayPrefixesOf 30 "items.[].parts.[].sku" = Some arrayPrefixes
       /\ (forall p, In p arrayPrefixes
                     <-> arrayPrefixOf "items.[].parts.[].sku" p)
       /\ StronglySorted (fun a b => (String.length b < String.length a)%nat)
                         arrayPrefixes.
Proof.
  assert (H : (String.length "items.[].parts.[].sku" < 30)%nat) by (simpl; lia).
  split; [exact H|].
  exact (sampled_array_prefixes 30 "items.[].parts.[].sku" H).
Defined.

Lemma SamplerScenario_lengths name :
  In name (Js.obj_keys SamplerScenario.gathered) -> (String.length name < 30)%nat.
Proof.
  intros H. change (In name ["name"; "tags.[]"; "items.[].parts.[].sku"]) in H.
  repeat (destruct H as [<-|H]; [simpl; lia|]). destruct H.
Qed.

(** X26 on the sample of [SamplerScenario]. *)
Lemma sampler_statistics_witness :
  (forall name, In name (Js.obj_keys SamplerScenario.gathered) ->
                (String.length name < 30)%nat)
  /\ exists statistics,
       MongoSampler.collectionStatisticsOf 30 1024 0 SamplerScenario.gathered
       = Some statistics
       /\ (forall key v,
              Js.obj_get key (CollectionStatistics.fieldStatistics statistics)
              = Some v ->
              exists name,
                key = Js.replace_first
                        CollectionStatistics.mongoFieldNamePartSeparator "."
                        (MongoSampler.withoutArrayMarks name)
                /\ sampledAs SamplerScenario.gathered name v)
       /\ NoDup (CollectionStatistics.knownArrayPrefixes statistics)
       /\ (forall p, In p (CollectionStatistics.knownArrayPrefixes statistics)
                     <-> exists name,
                           In name (Js.obj_keys SamplerScenario.gathered)
                           /\ arrayPrefixOf name p).
Proof.
  split; [exact SamplerScenario_lengths|].
  exact (sampler_statistics 30 1024 0 SamplerScenario.gathered
           SamplerScenario_lengths).
Defined.

(** The statistics of [SamplerScenario]: the stock-keeping unit, whose
    longest value exceeds the longest indexable value, has mode
    [normal]. *)
Example SamplerScenario_statistics :
  MongoSampler.collectionStatisticsOf 30 1024 0 SamplerScenario.gathered
  = Some
      {| CollectionStatistics.fieldStatistics :=
           [("name", {| cardinality := 5000; longest := 12; mode := normal;
                        arrayPrefixes := [] |});
            ("tags", {| cardinality := 40; longest := 8; mode := normal;
                        arrayPrefixes := ["tags"] |});
            ("items.parts.sku",
             {| cardinality := 900; longest := 2000; mode := normal;
                arrayPrefixes := ["items.[].parts"; "items"] |})];
         CollectionStatistics.knownArrayPrefixes :=
           ["items.[].parts"; "items"; "tags"];
         CollectionStatistics.lastSampleTime := 0 |}.
Proof. vm_compute. reflexivity. Qed.
